(* ===== verification/_CoqProject ===== *)
-Q . S2P
Prelude.v
Types.v
Retry.v
Sql.v
Actor.v
Nonce.v
NonceSpec.v
NonceProps.v
Recovery.v
Rlp.v
Eip1559.v
Custody.v
Lease.v
Sign.v
Text.v
Float.v
Metrics.v
Pool.v
RpcClient.v
Threads.v
Atomics.v
RpcCalls.v
RpcConcurrent.v
RpcApi.v
Broadcast.v
Validator.v
RelayHost.v
Shard.v
CortexError.v
Status.v
Scanner.v
Pipeline.v
PipelineSpec.v
Protocol.v
Erasure.v
Refine.v
PipelineProps.v
Config.v
Keeps.v
Interleave.v
Schedule.v
Telemetry.v
Cortex.v
Compose.v
Concurrent.v
Restart.v
EndToEnd.v
Auth.v
Server.v
Boot.v
Typed.v
MockNode.v
Loadgen.v
Bench.v
Dispatch.v
Harness.v
Launch.v
Conformance.v
