(* ===== verification/Prelude.v ===== *)
(** * Lobby: verification development (root file)

    Lobby ([src/]) takes Ethereum transactions over HTTP, assigns each a nonce,
    signs it, broadcasts it and watches for its inclusion, keeping the state of
    every step in Postgres.  This library models that program in Rocq and
    proves the properties that make it correct.  The file order is the
    dependency order.

    ** Parts and how they interact

    A request passes [Auth] and [Server] (HTTP), is accepted by [Cortex] (a
    semaphore and one task per execution), and [Pipeline] drives the actors
    through shard pools ([Shard]): relay host, nonce, sign, broadcast and
    validator, each retried by [Retry].  Every actor serves a mailbox in order
    ([Actor]) and owns a table; statuses go to the registry ([Status]).  The
    benchmark crate runs this server against mock nodes and measures it.

    - [Prelude]: results, the state monad [Comp] with [<~] and [<-?], machine
      integers, bytes, durations; [Types]: src/crate/primitives/src/types.rs.
    - [Retry], [Config], [CortexError], [Shard]: src/crate/cortex/src/artifacts.
    - [Sql]: the statement semantics the actors rely on - one statement is one
      atomic step that fails without effect when a constraint refuses its
      result, with rows locked by others and other writers in between;
      [Actor]: mailbox, loop, handle; [Lease]: the lease tables of the sign,
      broadcast and validator actors, as a type class with its laws.
    - [Nonce] (code of src/crate/actors/src/nonce and the sweeper), [NonceSpec]
      (reachable tables, the invariant), [NonceProps] (properties), [Recovery]
      (how many ticks of the sweeper free every reservation).
    - [Rlp], [Eip1559], [Custody]: src/crate/utils/src/{eip1559,custody} and the
      RLP trait; [Sign]: src/crate/actors/src/sign.
    - [Text], [Float], [Metrics], [Pool], [RpcClient]: src/crate/utils/src/rpc;
      [RpcApi]: the calls the actors make, as a class with the client and a
      scripted network as instances.
    - [Threads]: code cut at its accesses to shared state, pools of it under a
      schedule, and the rule that accounts for a quantity whatever the other
      threads do.  [Atomics]: the metrics as single loads, stores and fetch_adds;
      [RpcCalls]: a call of the client, access by access; [RpcConcurrent]: any
      number of calls at the same time.
    - [Broadcast], [Validator], [RelayHost]: the remaining actors.
    - [Status]: src/crate/cortex/src/artifacts/state.rs, with Redis behind a
      class with laws.
    - [Pipeline]: src/crate/cortex/src/pipeline.rs over the traits of
      src/crate/primitives/src/traits.rs, for arbitrary handles over an
      arbitrary world.  [PipelineSpec] records every call in a trace,
      [Protocol] is the abstract state machine of a run, [Refine] proves that
      every run follows it, and [PipelineProps] draws the consequences.
    - [Erasure]: a relation between computations that is a congruence and
      holds between two contexts' handles holds between their pipelines.
      Instances: the trace, the telemetry and the replay change nothing.
    - [Keeps]: what a pipeline's handles keep, the pipeline keeps.
    - [Interleave], [Schedule]: pipelines as tasks that run at the same time,
      one call per turn, in any order.
    - [Telemetry]: src/crate/cortex/src/telemetry and the pipeline compiled with
      the benchmark-telemetry feature.
    - [Cortex]: src/crate/cortex/src/lib.rs; [Compose]: the actors, the RPC
      interface and the registry in one world, booted as one system;
      [Concurrent]: that system with its pipelines interleaving; [Restart]:
      that program through crashes and reboots; [EndToEnd]: one submission
      through all of it.
    - [Auth]: src/lobby/src/server/auth.rs and src/crate/utils/src/api;
      [Server]: src/lobby/src/server/handler.rs and the routes of main.rs;
      [Boot]: the boot sequence of src/lobby/src/main.rs; [Typed]: the ranges
      of the numbers that reach a pipeline.
    - [MockNode]: src/benchmark/src/mockrpc; [Loadgen]: keys, API keys and
      payloads of src/benchmark/src/loadgen; [Bench]: src/benchmark/src/metrics,
      the pacer, the environment file and src/lobby/src/bin; [Dispatch]: the
      load generator's workers; [Harness]: src/benchmark/src/main.rs and its
      containers, the sequence that starts, loads, measures and stops it all;
      [Launch]: that harness and the server it starts, in one statement.
    - [Conformance]: the repository's unit tests of the retry loop, the mock
      node and the key files, run on the definitions above.
    - [Scanner]: src/lobby/src/bots/scanner.rs, which bots/mod.rs comments out
      pending its rework; modelled as it is written.

    ** State

    Code that reads and writes a state of type [S] is a [Comp S A], a function
    from [S] to a value and the next [S]; fallible Rust code is a [Comp S
    (result A E)].  A table is a list of rows in insertion order; a database is
    its rows, a clock and the environment of the next statements.  A panic is
    [None] (or [Panic] in the pipeline).

    ** What the theorems show

    - The whole, concurrently: in every state that any interleaving of the
      pipelines' calls with traffic, the sweeper, time, crashes and reboots
      reaches, nonces and requests are used exclusively, concurrency is bounded,
      every pipeline is within its protocol and its number of calls, and none
      waits for another ([program_survives_crashes]; one life of the process:
      [concurrent_program]).  After a crash a bounded number of the sweeper's
      ticks frees every reserved nonce ([crash_recovery]) - also that of a
      transaction already on the network ([crash_reuses_broadcast_nonce]).
      The whole, once: one submission through the real
      actors, end to end ([submission_end_to_end]).
    - Interleaving: a task's turns in a row are [run_pipeline]; under any
      schedule each task follows the protocol, and every schedule ends, with a
      number of turns that the recovery flag bounds whatever the fuel.
    - Nonces: exclusive use under any interleaving, what reserve, sync, resolve
      and the sweeper do on each branch, and the situations in which a nonce is
      lost, wedged or given out twice.  The sweeper's UPDATE is two phases, the
      choice of the rows and their change, with other connections in between:
      rows go forward except by a sweep that acts late on a row resolved in the
      meantime ([nonce_rows_forward], [late_sweep_frees_finalized]).
    - Pipeline: every run settles with one final status; the nonce it holds is
      disposed of as its ending prescribes; the data of its calls is coherent;
      the number of calls is bounded.  These hold for any actors.
    - Orchestrator and server: bounded concurrency, what every request is
      answered and what it changes - a refusal exactly when it has its cause -,
      that every number a pipeline gets fits its type; a boot serves exactly
      when no step has a cause to fail, and otherwise stops at the first that
      has, after the effects of the steps before it
      (a shard of the sign actor is built by [SignEngine_new] from the keys
      file, and a missing or malformed one stops the boot).
    - Encodings: the unsigned encoding is injective, normalization inverts
      rendering, signing is what EIP-1559 describes up to the hash and the
      signature scheme.
    - Actors: the functional behaviour of sign, broadcast, validator and relay
      host by the state of the execution's rows; termination of the poll loop.
    - RPC client: permits, endpoint selection (the sticky endpoint, or the one
      whose sector of the wheel of weights the draw falls in, or the fallback),
      metrics, thresholds; for any
      number of calls interleaved at every access: no more in flight than
      permits, no deadlock, all permits back, all counters exact
      ([rpc_calls_concurrent]), and uninterrupted they are the functions of
      [RpcClient] ([execute_unary_alone]).  The health of an endpoint is not
      exact: [stale_health].
    - Status registry and configuration: what a restart recovers when only
      some of the writes reached Redis ([registry_crash]), defaults and errors.
    - Telemetry: the instrumented pipeline is the pipeline; its records add up
      to the total, and the entries of incomplete runs stay for ever.
    - Benchmark: lobby accepts every payload of the harness; the mock node
      accepts what its reference does, however its exchanges fail; the stream
      and the environment file are read back as written; the load generator
      ends, with a bounded number of requests; a run of the harness reports,
      exactly when no step has a cause to fail, or stops at the first that has;
      for each it is known which containers the harness itself stopped and what
      is on disk ([harness_outcome]); the lobby it starts boots with the
      configuration, keys and endpoints the harness wrote, and takes every
      payload of the load ([harness_launches_lobby]).
    - Scanner: what one scan changes by the row it fetched and the receipt it
      got, and that one unsettled row keeps every other from being scanned.

    ** Fuel

    [retry_with_backoff] iterates [max_attempts + 1] times, the loop's own
    bound.  [broadcast_loop] never uses more than two units: the recovery
    flag allows one further round.  Any fuel of at least two gives the same
    run ([run_pipeline_fuel]) and the same task ([schedule_terminates]), and
    [costs_loop] counts the rounds by the flag, not by the fuel.
    The validator's [poll_loop] gets timeout / interval + 2 rounds, enough
    because every round but the last moves the clock by an interval
    ([handle_validation_terminates]); [poll_till_timeout] gets timeout / 500 ms
    + 2 for the same reason.  A call of the RPC client is at most
    2 * endpoints + 24 accesses ([accesses]).  [load_loop] needs as many units as SCAN has
    pages, [cas_loop] one more than the weak exchanges that fail.  SipHash and
    the sweeper take the length of their input.

    ** Parameters

    Code outside [src/] is a parameter: keccak and secp256k1 ([Crypto]), the
    RLP stream ([RlpStream], with a concrete instance), hex and U256 parsing
    ([HexOps]), addresses ([AddressOps]), providers and URLs ([ProviderOps],
    [UrlOps]), Redis ([RedisOps]), uuid and serde texts ([StatusText]), the
    hash input of a U256 ([U256Hash]), timer and random generator ([Runtime]),
    the instants of quanta ([QuantaClock]), transaction decoding and signature
    recovery of the mock node ([NodeCodec]), the harness's texts
    ([HarnessText]), the text of a JSON value ([JsonText]), the histogram
    ([HistogramOps]), the client of the mock node's test ([TestClient]); what
    axum's Json extractor makes of a body, an argument of
    [post_transactions]; what the machine answers a
    boot ([Host] of [Boot]: files, database, sockets and their addresses).
    Their documented behaviour is stated by classes of laws ([RlpLaws],
    [HexLaws], [RedisLaws], [StatusTextLaws], [RuntimeLaws], [RpcApiLaws],
    [QuantaLaws], [HarnessLaws], [JsonTextLaws], [HistogramLaws], [HexRange],
    [TestClientLaws]), each with an instance.

    ** Not modelled

    Logging and tracing and their initialisation; constructors, accessors and
    the Debug and Clone implementations that only copy fields; the unit test of
    the containers, which only talks to Docker; what runs inside the containers
    and the processes of the harness (their answers are parameters); the
    containers' own Drop, which is testcontainers' and would remove those a run
    that stops early leaves; the load
    run's and the server's real-time overlap in the harness, which sees the server through its replies only.  The scanner calls
    an operation of the RPC client that no longer exists, so its network is a
    parameter.  Calls to an actor and to the RPC client are atomic in
    [Concurrent] (the latter are taken apart in [RpcConcurrent]): an actor
    serves its mailbox in order, and what other connections do between the
    statements of one call comes from the script of its table. *)

From Stdlib Require Export Ascii ZArith Lia.
From stdpp Require Export base tactics list gmap strings pretty numbers option.

#[global] Open Scope Z_scope.

(** ** Results: Rust's [Result<A, E>] *)

Inductive result (A E : Type) : Type :=
| Ok (a : A)
| Err (e : E).
Arguments Ok {A E} a.
Arguments Err {A E} e.

#[export] Instance result_eq_dec {A E} `{EqDecision A, EqDecision E} :
  EqDecision (result A E).
Proof. solve_decision. Defined.

Lemma Ok_inj {A E} (a b : A) : Ok (E := E) a = Ok b → a = b.
Proof. congruence. Qed.

Definition map_err {A E F} (f : E → F) (r : result A E) : result A F :=
  match r with Ok a => Ok a | Err e => Err (f e) end.

Definition result_of_option {A E} (o : option A) (e : E) : result A E :=
  match o with Some a => Ok a | None => Err e end.

Definition is_ok {A E} (r : result A E) : bool :=
  match r with Ok _ => true | Err _ => false end.

(** ** Stateful computations

    [Comp S A] is code that reads and writes a state of type [S].  A fallible
    Rust function is a [Comp S (result A E)]; [x <-? c ;; k] is Rust's [?]
    operator and [x <~ c ;; k] is plain sequencing. *)

Definition Comp (S A : Type) : Type := S → A * S.

Definition cret {S A} (a : A) : Comp S A := λ s, (a, s).

Definition cbind {S A B} (c : Comp S A) (k : A → Comp S B) : Comp S B :=
  λ s, let '(a, s') := c s in k a s'.

Definition cbind_ok {S A B E} (c : Comp S (result A E))
    (k : A → Comp S (result B E)) : Comp S (result B E) :=
  λ s, match c s with
       | (Ok a, s') => k a s'
       | (Err e, s') => (Err e, s')
       end.

Definition cmap_err {S A E F} (f : E → F) (c : Comp S (result A E)) :
    Comp S (result A F) :=
  λ s, let '(r, s') := c s in (map_err f r, s').

Declare Scope lobby_scope.
Delimit Scope lobby_scope with lobby.
#[global] Open Scope lobby_scope.

Notation "x <~ c ;; k" := (cbind c (λ x, k))
  (at level 60, c at next level, right associativity) : lobby_scope.
Notation "x <-? c ;; k" := (cbind_ok c (λ x, k))
  (at level 60, c at next level, right associativity) : lobby_scope.

(** A computation on one component of a pair of states. *)
Definition on_fst {S T A} (c : Comp S A) : Comp (S * T) A :=
  λ st, let '(a, s') := c st.1 in (a, (s', st.2)).
Definition on_snd {S T A} (c : Comp T A) : Comp (S * T) A :=
  λ st, let '(a, t') := c st.2 in (a, (st.1, t')).

(** Rust's [?] on a pure [Result] inside a stateful function. *)
Definition clift {S A E} (r : result A E) : Comp S (result A E) := cret r.

(** [std::env::var]: [None] when the variable is absent or not unicode. *)
Definition Env : Type := string → option string.

(** ** Machine integers

    Integers are [Z]; the width of the Rust type is written out where it
    matters. *)

Definition i64_min : Z := - 2 ^ 63.
Definition i64_max : Z := 2 ^ 63 - 1.
Definition u64_max : Z := 2 ^ 64 - 1.
Definition u32_max : Z := 2 ^ 32 - 1.
Definition u256_max : Z := 2 ^ 256 - 1.

Definition in_i64 (z : Z) : bool := (i64_min <=? z) && (z <=? i64_max).
Definition wrap_u64 (z : Z) : Z := z mod 2 ^ 64.
Definition wrap_u32 (z : Z) : Z := z mod 2 ^ 32.

(** [value as i64] for a [u64]: two's complement reinterpretation. *)
Definition u64_as_i64 (z : Z) : Z := if z <=? i64_max then z else z - 2 ^ 64.

(** [value as u64] for an [i64]. *)
Definition i64_as_u64 (z : Z) : Z := wrap_u64 z.

Definition saturating_sub (a b : Z) : Z := Z.max 0 (a - b).
Definition saturating_mul_u64 (a b : Z) : Z := Z.min u64_max (a * b).

(** [U256::try_into::<i64>()] and [::<u64>()]: fail when the value is too
    large for the target. *)
Definition u256_try_i64 (v : Z) : option Z :=
  if v <=? i64_max then Some v else None.
Lemma u256_try_i64_Some v : v ≤ i64_max ↔ u256_try_i64 v = Some v.
Proof. unfold u256_try_i64. destruct (Z.leb_spec v i64_max); split; (done || lia). Qed.
Definition u256_try_u64 (v : Z) : option Z :=
  if v <=? u64_max then Some v else None.

(** ** Ordered selection: [ORDER BY ... LIMIT 1] and [MAX(...)] *)

Section select.
Context {A : Type} (before : A → A → bool).

(** The first element that no later element strictly precedes. *)
Fixpoint order_limit1 (l : list A) : option A :=
  match l with
  | [] => None
  | x :: l' =>
      match order_limit1 l' with
      | None => Some x
      | Some y => if before y x then Some y else Some x
      end
  end.

Lemma order_limit1_None l : order_limit1 l = None ↔ l = [].
Proof.
  destruct l as [|x l]; simpl; [done|].
  split; [|done]. repeat case_match; done.
Qed.

Lemma order_limit1_elem l x : order_limit1 l = Some x → x ∈ l.
Proof.
  revert x; induction l as [|y l IH]; simpl; [done|]; intros x.
  destruct (order_limit1 l) as [z|]; [|intros [= ->]; left].
  case_match; intros [= ->]; [right; by apply IH|left].
Qed.

Lemma order_limit1_minimal l x
    (Hasym : ∀ a b, before a b = true → before b a = false)
    (Hneg : ∀ a b c, before a c = true → before a b = true ∨ before b c = true) :
  order_limit1 l = Some x → ∀ y, y ∈ l → before y x = false.
Proof.
  assert (Hirr : ∀ a, before a a = false).
  { intros a. destruct (before a a) eqn:H; [|done]. by rewrite (Hasym a a H) in H. }
  revert x; induction l as [|z l IH]; simpl; [done|].
  intros x Hx y Hy.
  destruct (order_limit1 l) as [w|] eqn:Hw.
  - destruct (before w z) eqn:Hwz; injection Hx as <-.
    + apply elem_of_cons in Hy as [->|Hy]; [|by apply IH]. by apply Hasym.
    + apply elem_of_cons in Hy as [->|Hy]; [apply Hirr|].
      destruct (before y z) eqn:Hyz; [|done].
      destruct (Hneg y w z Hyz) as [H|H]; [|congruence].
      by rewrite (IH w eq_refl y Hy) in H.
  - apply order_limit1_None in Hw as ->. injection Hx as <-.
    apply list_elem_of_singleton in Hy as ->. apply Hirr.
Qed.
End select.

(** SQL's [MAX(col)]: [NULL] on no rows. *)
Fixpoint sql_max (l : list Z) : option Z :=
  match l with
  | [] => None
  | x :: l' => Some (match sql_max l' with None => x | Some m => Z.max x m end)
  end.

Lemma sql_max_elem l m : sql_max l = Some m → m ∈ l.
Proof.
  revert m; induction l as [|x l IH]; simpl; [done|]; intros m [= <-].
  destruct (sql_max l) as [k|]; [|left].
  destruct (Z.max_spec x k) as [[_ ->]|[_ ->]]; [right; by apply IH|left].
Qed.

Lemma sql_max_ge l m : sql_max l = Some m → ∀ x, x ∈ l → x ≤ m.
Proof.
  revert m; induction l as [|y l IH]; simpl; [done|]; intros m [= <-] x Hx.
  apply elem_of_cons in Hx as [->|Hx]; destruct (sql_max l) as [k|] eqn:Hk.
  - lia.
  - lia.
  - specialize (IH k eq_refl x Hx). lia.
  - destruct l; [by apply elem_of_nil in Hx|done].
Qed.

Lemma sql_max_None l : sql_max l = None ↔ l = [].
Proof. destruct l; simpl; split; congruence. Qed.

Lemma sql_max_app l x : sql_max (l ++ [x]) = Some (match sql_max l with None => x | Some m => Z.max m x end).
Proof.
  induction l as [|y l IH]; [done|]. simpl. rewrite IH. destruct (sql_max l); f_equal; lia.
Qed.

(** ** Lengths *)

Lemma length_remove_dups {A} `{EqDecision A} (l : list A) : (length (remove_dups l) ≤ length l)%nat.
Proof. induction l; simpl; [lia|]. case_decide; simpl; lia. Qed.

Lemma length_omap_le {A B} (f : A → option B) l : (length (omap f l) ≤ length l)%nat.
Proof. induction l as [|x l IH]; [done|]. cbn [omap list_omap]. destruct (f x); simpl; lia. Qed.

(** ** Bytes *)

#[export] Instance byte_eq_dec : EqDecision Byte.byte := Byte.byte_eq_dec.
#[export] Instance byte_countable : Countable Byte.byte.
Proof. refine (inj_countable Byte.to_N Byte.of_N _). apply Byte.of_to_N. Defined.

Definition byte_val (b : Byte.byte) : Z := Z.of_N (Byte.to_N b).
Definition byte_of_Z (z : Z) : Byte.byte :=
  match Byte.of_N (Z.to_N (z mod 256)) with Some b => b | None => Byte.x00 end.

Lemma byte_val_range b : 0 ≤ byte_val b < 256.
Proof.
  unfold byte_val. pose proof (Byte.to_N_bounded b). lia.
Qed.

Lemma byte_of_val b : byte_of_Z (byte_val b) = b.
Proof.
  pose proof (byte_val_range b). unfold byte_of_Z.
  rewrite Z.mod_small by done. unfold byte_val.
  by rewrite N2Z.id, Byte.of_to_N.
Qed.

Lemma byte_val_of_Z z : byte_val (byte_of_Z z) = z mod 256.
Proof.
  unfold byte_of_Z.
  pose proof (Z.mod_pos_bound z 256 ltac:(lia)) as Hb.
  destruct (Byte.of_N (Z.to_N (z mod 256))) as [b|] eqn:Hz.
  - apply Byte.to_of_N in Hz. unfold byte_val. rewrite Hz, Z2N.id; lia.
  - apply Byte.of_N_None_iff in Hz. lia.
Qed.

(** Big-endian value of a byte string, and [to_be_bytes] at a given width. *)
Fixpoint be_val (l : list Byte.byte) : Z :=
  match l with
  | [] => 0
  | b :: l' => byte_val b * 256 ^ Z.of_nat (length l') + be_val l'
  end.

Fixpoint be_bytes (n : nat) (z : Z) : list Byte.byte :=
  match n with
  | O => []
  | S n' => byte_of_Z (z / 256 ^ Z.of_nat n') :: be_bytes n' z
  end.

Lemma length_be_bytes n z : length (be_bytes n z) = n.
Proof. induction n; simpl; congruence. Qed.

Lemma be_val_be_bytes n z : be_val (be_bytes n z) = z mod 256 ^ Z.of_nat n.
Proof.
  induction n as [|n IH]; [by rewrite Z.mod_1_r|].
  simpl be_bytes. cbn [be_val].
  rewrite IH, length_be_bytes, byte_val_of_Z.
  rewrite Nat2Z.inj_succ, Z.pow_succ_r by lia.
  set (p := 256 ^ Z.of_nat n). assert (0 < p) by (apply Z.pow_pos_nonneg; lia).
  rewrite (Z.mul_comm 256 p), Z.rem_mul_r by lia. lia.
Qed.

Lemma be_val_bound l : 0 ≤ be_val l < 256 ^ Z.of_nat (length l).
Proof.
  induction l as [|b l IH]; [simpl; lia|].
  cbn [be_val length]. rewrite Nat2Z.inj_succ, Z.pow_succ_r by lia.
  pose proof (byte_val_range b). nia.
Qed.

Lemma be_bytes_add_mul n k z : be_bytes n (k * 256 ^ Z.of_nat n + z) = be_bytes n z.
Proof.
  revert k; induction n as [|n IH]; intros k; [done|].
  cbn [be_bytes]. rewrite Nat2Z.inj_succ, Z.pow_succ_r by lia.
  set (p := 256 ^ Z.of_nat n) in *. assert (0 < p) by (apply Z.pow_pos_nonneg; lia).
  f_equal.
  - unfold byte_of_Z. replace (k * (256 * p) + z) with (k * 256 * p + z) by lia.
    rewrite Z.div_add_l by lia.
    replace (k * 256 + z / p) with (z / p + k * 256) by lia. by rewrite Z_mod_plus_full.
  - replace (k * (256 * p) + z) with (k * 256 * p + z) by lia. by rewrite IH.
Qed.

Lemma be_bytes_be_val l : be_bytes (length l) (be_val l) = l.
Proof.
  induction l as [|b l IH]; [done|]. cbn [length be_bytes be_val].
  pose proof (be_val_bound l).
  set (p := 256 ^ Z.of_nat (length l)) in *.
  f_equal.
  - rewrite Z.div_add_l, Z.div_small, Z.add_0_r by lia. apply byte_of_val.
  - unfold p. by rewrite be_bytes_add_mul.
Qed.

Lemma be_val_app l1 l2 :
  be_val (l1 ++ l2) = be_val l1 * 256 ^ Z.of_nat (length l2) + be_val l2.
Proof.
  induction l1 as [|b l1 IH]; [done|]. cbn [app be_val].
  rewrite IH, length_app, Nat2Z.inj_add, Z.pow_add_r by lia. ring.
Qed.

(** ** Durations: [std::time::Duration], in nanoseconds *)

Definition from_millis (ms : Z) : Z := ms * 1000000.
Definition from_secs (s : Z) : Z := s * 1000000000.
Definition as_millis (d : Z) : Z := d / 1000000.
Definition as_micros (d : Z) : Z := d / 1000.
Definition as_secs (d : Z) : Z := d / 1000000000.

Lemma as_millis_from_millis m : as_millis (from_millis m) = m.
Proof. unfold as_millis, from_millis. by rewrite Z.div_mul. Qed.

(** ** The runtime's timer and random generator

    [tokio::time::sleep] and [rand::Rng::gen_range(0..=w)], as operations on
    the state of the world, with the documented bound of [gen_range]. *)
Class Runtime (S : Type) := {
  rt_gen_range : Z → Comp S Z;
  rt_sleep : Z → S → S
}.

Class RuntimeLaws (S : Type) `{Runtime S} := {
  rt_gen_range_bounds : ∀ w s, 0 ≤ w → 0 ≤ (rt_gen_range w s).1 ≤ w
}.

Definition sum_Z (l : list Z) : Z := fold_right Z.add 0 l.

Lemma sum_Z_app l1 l2 : sum_Z (l1 ++ l2) = sum_Z l1 + sum_Z l2.
Proof. unfold sum_Z. induction l1; simpl; lia. Qed.
