(* ===== verification/Types.v ===== *)
(** * The domain types of [src/crate/primitives/src/types.rs]

    Identifiers, transactions, statuses and the per-stage error types, with the
    conversions and the [Display] texts the rest of the code relies on. *)

From S2P Require Import Prelude.

#[global] Open Scope Z_scope.

(** ** Identifiers *)

Definition Bytes : Type := list Byte.byte.

(** [alloy::primitives::Address] (20 bytes) and [TxHash = B256] (32 bytes). *)
Definition Address : Type := list Byte.byte.
(** Source: [crate/primitives/src/types.rs] lines 123-126, [TxHash]. *)
Definition TxHash : Type := list Byte.byte.

(** [ExecutionId(pub uuid::Uuid)]: the 128-bit value of the uuid. *)
(** Source: [crate/primitives/src/types.rs] lines 128-138, [ExecutionId]. *)
Record ExecutionId := mkExecutionId { eid_uuid : Z }.
#[export] Instance ExecutionId_eq_dec : EqDecision ExecutionId.
Proof. solve_decision. Defined.
#[export] Instance ExecutionId_countable : Countable ExecutionId.
Proof. by refine (inj_countable' eid_uuid mkExecutionId _); intros []. Defined.

(** [ChainId(pub U256)]. *)
(** Source: [crate/primitives/src/types.rs] lines 140-150, [ChainId]. *)
Record ChainId := mkChainId { chain_u256 : Z }.
#[export] Instance ChainId_eq_dec : EqDecision ChainId.
Proof. solve_decision. Defined.
#[export] Instance ChainId_countable : Countable ChainId.
Proof. by refine (inj_countable' chain_u256 mkChainId _); intros []. Defined.

(** [TxNonce(pub U256)]. *)
(** Source: [crate/primitives/src/types.rs] lines 182-192, [TxNonce]. *)
Record TxNonce := mkTxNonce { nonce_u256 : Z }.
#[export] Instance TxNonce_eq_dec : EqDecision TxNonce.
Proof. solve_decision. Defined.

(** ** Requests and transactions *)

(** Source: [crate/primitives/src/types.rs] lines 32-37, [AccessListItem]. *)
Record AccessListItem := mkAccessListItem {
  ali_address : Address;
  ali_storage_keys : list string
}.

(** Source: [crate/primitives/src/types.rs] lines 9-30, [Eip1193SendTransactionParams]. *)
Record Eip1193SendTransactionParams := mkEip1193 {
  p_from : Address;
  p_to : option Address;
  p_gas : option string;
  p_max_fee_per_gas : option string;
  p_max_priority_fee_per_gas : option string;
  p_value : option string;
  p_data : option string;
  p_chain_id : string;
  p_access_list : option (list AccessListItem)
}.

(** Source: [crate/primitives/src/types.rs] lines 39-53, [Eip1559Transaction]. *)
Record Eip1559Transaction := mkEip1559 {
  tx_chain_id : ChainId;
  tx_nonce : TxNonce;
  tx_max_priority_fee_per_gas : Z;
  tx_max_fee_per_gas : Z;
  tx_gas_limit : Z;
  tx_to : option Address;
  tx_value : Z;
  tx_data : Bytes;
  tx_access_list : list (Address * list Z)
}.

(** [txn.nonce = nonce]. *)
Definition set_tx_nonce (n : TxNonce) (t : Eip1559Transaction) : Eip1559Transaction :=
  mkEip1559 (tx_chain_id t) n (tx_max_priority_fee_per_gas t) (tx_max_fee_per_gas t)
    (tx_gas_limit t) (tx_to t) (tx_value t) (tx_data t) (tx_access_list t).

(** Source: [crate/primitives/src/types.rs] lines 55-66, [ClientConfig]. *)
Record ClientConfig := mkClientConfig {
  cc_client_id : Z;
  cc_from_address : Address
}.
#[export] Instance ClientConfig_eq_dec : EqDecision ClientConfig.
Proof. solve_decision. Defined.

(** [ApiRegistry = Arc<DashMap<ApiToken, ClientConfig>>], [ApiToken = String]. *)
Abbreviation ApiToken := string.
Abbreviation ApiRegistry := (gmap string ClientConfig).

(** Source: [crate/primitives/src/types.rs] lines 212-234, [SignedTransaction]. *)
Record SignedTransaction := mkSigned { st_rlp : Bytes; st_with_nonce : TxNonce }.
#[export] Instance SignedTransaction_eq_dec : EqDecision SignedTransaction.
Proof. solve_decision. Defined.

(** Source: [crate/primitives/src/types.rs] lines 236-241, [BroadcastOutcome]. *)
Record BroadcastOutcome := mkBroadcastOutcome { txn_hash : TxHash }.
#[export] Instance BroadcastOutcome_eq_dec : EqDecision BroadcastOutcome.
Proof. solve_decision. Defined.

(** ** States stored in Postgres *)

(** Source: [crate/primitives/src/types.rs] lines 243-253, [NonceState]. *)
Inductive NonceState := NReserved | NFinalized | NReleased | NConsumed.
#[export] Instance NonceState_eq_dec : EqDecision NonceState.
Proof. solve_decision. Defined.

(** Source: [crate/primitives/src/types.rs] lines 255-264, [SignState]. *)
Inductive SignState := SReserved | SSigned | SFailed.
#[export] Instance SignState_eq_dec : EqDecision SignState.
Proof. solve_decision. Defined.

(** ** Pipeline status *)

(** Source: [crate/primitives/src/types.rs] lines 266-309, [PipelineStatus]. *)
Inductive PipelineStatus :=
| PermitAquired
| Accepted
| NonceReserved
| Signed
| Broadcasted (tx_hash messege : string)
| ConfirmedOnChain (tx_hash : string)
| Failed (stage reason : string)
| NonceMismatchDetected (nonce_on_chain attempted_nonce : TxNonce)
| ValidatorTimedOut (message : string).
#[export] Instance PipelineStatus_eq_dec : EqDecision PipelineStatus.
Proof. solve_decision. Defined.

(** Source: [crate/primitives/src/types.rs] lines 311-326, [ValidatorOutcome]. *)
Inductive ValidatorOutcome :=
| Included (block_number confirmations : Z)
| NotIncluded
| Timeout.
#[export] Instance ValidatorOutcome_eq_dec : EqDecision ValidatorOutcome.
Proof. solve_decision. Defined.

(** ** Errors

    [sqlx::Error] is represented by its text: the code only forwards it. *)

Abbreviation SqlxError := string.

(** Source: [crate/primitives/src/types.rs] lines 331-345, [RelayHostError]. *)
Inductive RelayHostError :=
| RHValidationFailed (m : string)
| RHDatabaseError (e : SqlxError)
| RHInternal (m : string)
| RHFromAddressMismatch (expected actual : string).
#[export] Instance RelayHostError_eq_dec : EqDecision RelayHostError.
Proof. solve_decision. Defined.

(** Source: [crate/primitives/src/types.rs] lines 347-362, [LocalError]. *)
Inductive LocalError :=
| LDatabaseError (m : string)
| LInternal (m : string)
| LInvariant (m : string)
| LRejected (m : string).
#[export] Instance LocalError_eq_dec : EqDecision LocalError.
Proof. solve_decision. Defined.

(** Source: [crate/primitives/src/types.rs] lines 364-393, [BroadcastError]. *)
Inductive BroadcastError :=
| BInternal (m : string)
| BDatabaseError (m : string)
| BInvariant (m : string)
| BMissingProvider (chain_id : ChainId)
| BRejected (reason : string)
| BUnexpected (message : string)
| BNonceTooLow (nonce_on_chain attempted_nonce : TxNonce)
| BRpcError (m : string).
#[export] Instance BroadcastError_eq_dec : EqDecision BroadcastError.
Proof. solve_decision. Defined.

(** Source: [crate/primitives/src/types.rs] lines 395-412, [ValidatorError]. *)
Inductive ValidatorError :=
| VRpc (tx_hash : TxHash) (message : string)
| VReverted (tx_hash : TxHash)
| VDatabase (e : SqlxError)
| VInternal (m : string)
| VRpcError (m : string).
#[export] Instance ValidatorError_eq_dec : EqDecision ValidatorError.
Proof. solve_decision. Defined.

(** ** Conversions *)

(** Source: [crate/primitives/src/types.rs] lines 152-162, [TryFrom<i64> for ChainId]. *)
Definition ChainId_try_from (value : Z) : result ChainId LocalError :=
  if value <? 0
  then Err (LRejected ("Invalid chain id: " +:+ pretty value))
  else Ok (mkChainId (i64_as_u64 value)).

(** Source: [crate/primitives/src/types.rs] lines 194-204, [TryFrom<i64> for TxNonce]. *)
Definition TxNonce_try_from (value : Z) : result TxNonce LocalError :=
  if value <? 0
  then Err (LRejected ("Invalid Nonce: " +:+ pretty value))
  else Ok (mkTxNonce (i64_as_u64 value)).

(** [str::parse::<i64>()]: an optional sign, then one or more decimal digits,
    within range. *)
Definition digit_val (c : Ascii.ascii) : option Z :=
  let n := Z.of_N (Ascii.N_of_ascii c) in
  if (48 <=? n) && (n <=? 57) then Some (n - 48) else None.

Fixpoint parse_digits (acc : Z) (s : string) : option Z :=
  match s with
  | EmptyString => Some acc
  | String c s' => match digit_val c with
                   | Some d => parse_digits (acc * 10 + d) s'
                   | None => None
                   end
  end.

Definition parse_unsigned (s : string) : option Z :=
  match s with EmptyString => None | _ => parse_digits 0 s end.

Definition parse_i64 (s : string) : option Z :=
  let v := match s with
           | String "-"%char s' => Z.opp <$> parse_unsigned s'
           | String "+"%char s' => parse_unsigned s'
           | _ => parse_unsigned s
           end in
  match v with
  | Some z => if in_i64 z then Some z else None
  | None => None
  end.

(** The [ParseIntError] text after the colon is std's; the code only forwards
    it, so it is the argument [parse_error]. *)
(** Source: [crate/primitives/src/types.rs] lines 164-174, [FromStr for ChainId]. *)
Definition ChainId_from_str (parse_error : string) (s : string) : result ChainId LocalError :=
  match parse_i64 s with
  | None => Err (LRejected ("Invalid chain id string `" +:+ s +:+ "`: " +:+ parse_error))
  | Some value => ChainId_try_from value
  end.

(** Source: [crate/primitives/src/types.rs] lines 176-180, [Display for ChainId]. *)
Definition ChainId_display (c : ChainId) : string := pretty (chain_u256 c).
(** Source: [crate/primitives/src/types.rs] lines 206-210, [Display for TxNonce]. *)
Definition TxNonce_display (n : TxNonce) : string := pretty (nonce_u256 n).

(** ** Display texts (thiserror)

    The texts matter where the code inspects them ([err_str.contains("nonce")])
    or stores them in a [PipelineStatus::Failed]. *)

(** Source: [crate/primitives/src/types.rs] lines 348-362, [Display for LocalError]. *)
Definition LocalError_display (e : LocalError) : string :=
  match e with
  | LDatabaseError m => "Db error: " +:+ m
  | LInternal m => "Internal error: " +:+ m
  | LInvariant m => "Internal error: " +:+ m
  | LRejected m => "Rejected: " +:+ m
  end.

(** Source: [crate/primitives/src/types.rs] lines 331-345, [Display for RelayHostError]. *)
Definition RelayHostError_display (e : RelayHostError) : string :=
  match e with
  | RHValidationFailed m => "Validation Failed " +:+ m
  | RHDatabaseError m => "Database Error: " +:+ m
  | RHInternal m => "Internal: " +:+ m
  | RHFromAddressMismatch ex ac =>
      "From Address Mismatch: expected " +:+ ex +:+ ", got " +:+ ac
  end.

(** Source: [crate/primitives/src/types.rs] lines 364-393, [Display for BroadcastError]. *)
Definition BroadcastError_display (e : BroadcastError) : string :=
  match e with
  | BInternal m => "Internal: " +:+ m
  | BDatabaseError m => "DB error: " +:+ m
  | BInvariant m => "Invariant error: " +:+ m
  | BMissingProvider c => "Provider error: ChainId(" +:+ ChainId_display c +:+ ")"
  | BRejected r => "Tx request rejected by provider: " +:+ r
  | BUnexpected m => "Unexpected error: " +:+ m
  | BNonceTooLow _ _ => "nonce too low -> fetching correct nonce from rpc node"
  | BRpcError m => "Rpc Failiure: " +:+ m
  end.

(** [{:#x}] of a byte array. *)
Definition hex_digit (n : Z) : Ascii.ascii :=
  Ascii.ascii_of_N (Z.to_N (if n <? 10 then 48 + n else 87 + n)).

Fixpoint hex_encode (l : Bytes) : string :=
  match l with
  | [] => ""
  | b :: l' => String (hex_digit (byte_val b / 16))
                 (String (hex_digit (byte_val b mod 16)) (hex_encode l'))
  end.

Definition fmt_hex (l : Bytes) : string := "0x" +:+ hex_encode l.

(** Source: [crate/primitives/src/types.rs] lines 395-412, [Display for ValidatorError]. *)
Definition ValidatorError_display (e : ValidatorError) : string :=
  match e with
  | VRpc h m => "rpc error while polling for tx " +:+ fmt_hex h +:+ ": " +:+ m
  | VReverted h => "transaction " +:+ fmt_hex h +:+ " reverted on-chain (status=0)"
  | VDatabase m => "database error: " +:+ m
  | VInternal m => "internal error: " +:+ m
  | VRpcError m => "Rpc Failiure: " +:+ m
  end.

(** ** Conversion lemmas *)

Lemma TxNonce_try_from_nonneg v :
  0 ≤ v ≤ i64_max → TxNonce_try_from v = Ok (mkTxNonce v).
Proof.
  intros Hv. unfold TxNonce_try_from. destruct (Z.ltb_spec v 0); [lia|].
  unfold i64_as_u64, wrap_u64. rewrite Z.mod_small; [done|].
  unfold i64_max in Hv. lia.
Qed.

Lemma TxNonce_try_from_Ok v n :
  v ≤ i64_max → TxNonce_try_from v = Ok n → 0 ≤ v ∧ n = mkTxNonce v.
Proof.
  intros Hv. unfold TxNonce_try_from. destruct (Z.ltb_spec v 0); [done|].
  intros [= <-]. split; [done|].
  unfold i64_as_u64, wrap_u64. rewrite Z.mod_small; [done|].
  unfold i64_max in Hv. lia.
Qed.

Lemma ChainId_try_from_nonneg v :
  0 ≤ v ≤ i64_max → ChainId_try_from v = Ok (mkChainId v).
Proof.
  intros Hv. unfold ChainId_try_from. destruct (Z.ltb_spec v 0); [lia|].
  unfold i64_as_u64, wrap_u64. rewrite Z.mod_small; [done|].
  unfold i64_max in Hv. lia.
Qed.

Lemma digit_val_pretty (x : N) :
  (x < 10)%N → digit_val (pretty_N_char x) = Some (Z.of_N x).
Proof.
  intros Hx. destruct (decide (x = 0%N)) as [->|]; [done|].
  assert (Hc : (x = 1 ∨ x = 2 ∨ x = 3 ∨ x = 4 ∨ x = 5 ∨ x = 6 ∨ x = 7 ∨ x = 8 ∨ x = 9)%N) by lia.
  repeat (destruct Hc as [->|Hc]; [done|]). by subst.
Qed.

Lemma parse_digits_pretty (x : N) s :
  parse_digits 0 (pretty_N_go x s) = parse_digits (Z.of_N x) s.
Proof.
  revert s; induction (N.lt_wf_0 x) as [x _ IH]; intros s.
  destruct (decide (x = 0)%N) as [->|Hx]; [by rewrite pretty_N_go_0|].
  rewrite pretty_N_go_step by lia.
  rewrite IH by (apply N.div_lt; lia). cbn [parse_digits].
  rewrite digit_val_pretty by (apply N.mod_lt; lia). f_equal.
  rewrite N2Z.inj_div, N2Z.inj_mod. pose proof (Z.div_mod (Z.of_N x) 10). lia.
Qed.

Lemma pretty_N_go_nonempty (x : N) s : (0 < x)%N → pretty_N_go x s ≠ "".
Proof.
  intros Hx H. pose proof (parse_digits_pretty x s) as Hp. rewrite H in Hp.
  simpl in Hp. clear Hp.
  assert (Hl : ∀ (x : N) s, (String.length s ≤ String.length (pretty_N_go x s))%nat).
  { clear. intros x; induction (N.lt_wf_0 x) as [x _ IH]; intros s.
    destruct (decide (x = 0)%N) as [->|Hx]; [by rewrite pretty_N_go_0|].
    rewrite pretty_N_go_step by lia.
    etrans; [|apply IH, N.div_lt; lia]. simpl; lia. }
  rewrite pretty_N_go_step in H by done.
  pose proof (Hl (x / 10)%N (String (pretty_N_char (x mod 10)) s)) as H2.
  rewrite H in H2. simpl in H2. lia.
Qed.

Lemma parse_unsigned_pretty (p : positive) :
  parse_unsigned (pretty (N.pos p)) = Some (Z.pos p).
Proof.
  unfold pretty, pretty_N. rewrite decide_False by done.
  pose proof (pretty_N_go_nonempty (N.pos p) "" ltac:(lia)) as Hne.
  pose proof (parse_digits_pretty (N.pos p) "") as Hp.
  destruct (pretty_N_go (N.pos p) "") as [|c s] eqn:Hs; [done|]. exact Hp.
Qed.

Lemma parse_i64_unsigned s v :
  parse_unsigned s = Some v → parse_i64 s = if in_i64 v then Some v else None.
Proof.
  unfold parse_i64. destruct s as [|c s]; [done|].
  destruct (decide (c = "-"%char)) as [->|Hm]; [done|].
  destruct (decide (c = "+"%char)) as [->|Hp]; [done|]. intros H.
  destruct c as [[] [] [] [] [] [] [] []]; try (by rewrite H); done.
Qed.

Lemma parse_i64_pretty z : i64_min ≤ z ≤ i64_max → parse_i64 (pretty z) = Some z.
Proof.
  intros Hz.
  assert (Hin : in_i64 z = true).
  { unfold in_i64. apply andb_true_intro; split; apply Z.leb_le; lia. }
  destruct z as [|p|p]; [done| |].
  - erewrite parse_i64_unsigned by apply parse_unsigned_pretty. by rewrite Hin.
  - change (pretty (Z.neg p)) with (String "-" (pretty (N.pos p))).
    unfold parse_i64. rewrite parse_unsigned_pretty. cbn [fmap option_fmap option_map].
    change (- Z.pos p) with (Z.neg p). by rewrite Hin.
Qed.

(** Every chain id a database row can hold (a non-negative [i64]) survives
    printing and parsing: [ChainId::from_str (c.to_string()) = Ok c], so the
    [RPC_ENDPOINT_<chain_id>] keys the benchmark writes are read back as the
    same chain. *)
Theorem chain_id_display_parse e c :
  0 ≤ chain_u256 c ≤ i64_max → ChainId_from_str e (ChainId_display c) = Ok c.
Proof.
  intros Hc. unfold ChainId_from_str, ChainId_display.
  rewrite parse_i64_pretty by (unfold i64_min; lia).
  rewrite ChainId_try_from_nonneg by done. by destruct c.
Qed.

Lemma chain_id_display_parse_witness :
  ChainId_from_str "" (ChainId_display (mkChainId 560048)) = Ok (mkChainId 560048).
Proof. apply (chain_id_display_parse ""). split; vm_compute; congruence. Defined.
