(* ===== verification/Retry.v ===== *)
(** * Retry with full-jitter back-off

    [src/crate/cortex/src/artifacts/retry.rs] and the retry half of
    [config.rs].  The operation that is retried is a computation on an
    arbitrary state, so the same loop runs over the scripted state used to
    state its contract and over the pipeline's world. *)

From S2P Require Import Prelude Types.

(** Source: [crate/cortex/src/artifacts/config.rs] lines 4-24, [RetryConfig].
    Durations in nanoseconds, [max_attempts] a [u32]. *)
Record RetryConfig := mkRetryConfig {
  max_attempts : Z;
  base_delay : Z;
  max_delay : Z
}.

(** Source: [crate/cortex/src/artifacts/config.rs] lines 26-35, [RetryConfig::default]. *)
Definition RetryConfig_default : RetryConfig :=
  mkRetryConfig 2 (from_millis 50) (from_millis 150).

(** Source: [crate/cortex/src/artifacts/retry.rs] lines 10-48, [RetryDecision]. *)
Inductive RetryDecision (E : Type) : Type :=
| Retry (e : E)
| FailImmediately (e : E).
Arguments Retry {E} e.
Arguments FailImmediately {E} e.

(** Source: [crate/cortex/src/artifacts/retry.rs] lines 50-57, [Display for RetryDecision]. *)
Definition RetryDecision_display {E} (display : E → string) (d : RetryDecision E) : string :=
  match d with Retry e => display e | FailImmediately e => display e end.

(** The window of one attempt, in milliseconds: [as u64] truncates, the
    product saturates, the exponent is capped at 10. *)
Definition jitter_window (base max attempt : Z) : Z :=
  let shift := Z.min (attempt - 1) 10 in
  Z.min (saturating_mul_u64 (wrap_u64 (as_millis base)) (Z.shiftl 1 shift))
        (wrap_u64 (as_millis max)).

(** Source: [crate/cortex/src/artifacts/retry.rs] lines 147-168, [jittered_delay]. *)
Definition jittered_delay {S} `{Runtime S} (base max attempt : Z) : Comp S Z :=
  let window_ms := jitter_window base max attempt in
  jitter_ms <~ (if 0 <? window_ms then rt_gen_range window_ms else cret 0) ;;
  cret (from_millis jitter_ms).

Section retry.
Context {S T E : Type} `{Runtime S}.
Context (config : RetryConfig) (operation : Comp S (result T (RetryDecision E))).

(** The [for attempt in 1..=max_total] loop from [attempt] on, with
    [remaining] iterations left; [None] is the [unreachable!] panic. *)
Fixpoint retry_from (max_total : Z) (remaining : nat) (attempt : Z) :
    Comp S (option (result T E)) :=
  match remaining with
  | O => cret None
  | Datatypes.S n =>
      outcome <~ operation ;;
      match outcome with
      | Ok value => cret (Some (Ok value))
      | Err (FailImmediately err) => cret (Some (Err err))
      | Err (Retry err) =>
          if attempt =? max_total then cret (Some (Err err))
          else
            delay <~ jittered_delay (base_delay config) (max_delay config) attempt ;;
            _ <~ (λ s, (tt, rt_sleep delay s)) ;;
            retry_from max_total n (attempt + 1)
      end
  end.

(** Source: [crate/cortex/src/artifacts/retry.rs] lines 59-145, [retry_with_backoff].
    [config.max_attempts + 1] wraps at [u32] (a release build). *)
Definition retry_with_backoff : Comp S (option (result T E)) :=
  let max_total := wrap_u32 (max_attempts config + 1) in
  retry_from max_total (Z.to_nat max_total) 1.

End retry.

(** ** Window bounds *)

Lemma jitter_window_bounds base max attempt :
  0 ≤ base → 0 ≤ max →
  0 ≤ jitter_window base max attempt ≤ wrap_u64 (as_millis max).
Proof.
  intros Hb Hm. unfold jitter_window, saturating_mul_u64, wrap_u64, u64_max.
  assert (0 ≤ Z.shiftl 1 (Z.min (attempt - 1) 10)).
  { apply Z.shiftl_nonneg. lia. }
  pose proof (Z.mod_pos_bound (as_millis base) (2 ^ 64)).
  pose proof (Z.mod_pos_bound (as_millis max) (2 ^ 64)). nia.
Qed.

Lemma jitter_window_exact base max attempt :
  0 ≤ base → 0 ≤ as_millis max ≤ u64_max → as_millis base * 1024 ≤ u64_max →
  1 ≤ attempt ≤ 11 →
  jitter_window base max attempt =
    Z.min (as_millis base * 2 ^ (attempt - 1)) (as_millis max).
Proof.
  intros Hb Hm Hbm Ha. unfold jitter_window, saturating_mul_u64, wrap_u64.
  assert (0 ≤ as_millis base) by (apply Z.div_pos; lia).
  rewrite (Z.min_l (attempt - 1)) by lia.
  rewrite Z.shiftl_mul_pow2, Z.mul_1_l by lia.
  assert (0 < 2 ^ (attempt - 1) ≤ 2 ^ 10).
  { split; [apply Z.pow_pos_nonneg; lia|apply Z.pow_le_mono_r; lia]. }
  change (2 ^ 10) with 1024 in *. unfold u64_max in *.
  rewrite !Z.mod_small by lia. rewrite (Z.min_r (2 ^ 64 - 1)); [done|nia].
Qed.

(** The back-off window of attempt [n] is [min(max_delay, base_delay *
    2^(n-1))] milliseconds for the first eleven attempts, and the delay drawn
    lies in [[0, window]] for every generator that respects its range: the
    formula of the function's own comment, with the exponent [attempt - 1]. *)
Theorem jittered_delay_bounds {S} `{RuntimeLaws S} base max attempt s :
  0 ≤ base → 0 ≤ as_millis max ≤ u64_max → as_millis base * 1024 ≤ u64_max →
  1 ≤ attempt ≤ 11 →
  0 ≤ (jittered_delay base max attempt s).1
    ≤ from_millis (Z.min (as_millis base * 2 ^ (attempt - 1)) (as_millis max)).
Proof.
  intros Hb Hm Hbm Ha. unfold jittered_delay, cbind, cret, from_millis.
  rewrite jitter_window_exact by done.
  set (w := Z.min _ _).
  destruct (Z.ltb_spec 0 w) as [Hw|Hw].
  - pose proof (rt_gen_range_bounds w s ltac:(lia)).
    destruct (rt_gen_range w s) as [r s']; simpl in *. lia.
  - simpl. assert (0 ≤ as_millis base) by (apply Z.div_pos; lia).
    assert (0 < 2 ^ (attempt - 1)) by (apply Z.pow_pos_nonneg; lia).
    unfold w in *. nia.
Qed.

(** ** A scripted state: the outcomes the operation will return, and what the
    loop did (calls and sleeps) *)

Record Scripted (T E : Type) := mkScripted {
  sc_outcomes : list (result T (RetryDecision E));
  sc_calls : nat;
  sc_slept : list Z;
  sc_draw : Z → Z
}.
Arguments mkScripted {T E} _ _ _ _.
Arguments sc_outcomes {T E} _.
Arguments sc_calls {T E} _.
Arguments sc_slept {T E} _.
Arguments sc_draw {T E} _.

#[export] Instance Scripted_runtime {T E} : Runtime (Scripted T E) := {|
  rt_gen_range w s := (Z.max 0 (Z.min w (sc_draw s w)), s);
  rt_sleep d s := mkScripted (sc_outcomes s) (sc_calls s) (sc_slept s ++ [d]) (sc_draw s)
|}.

#[export] Instance Scripted_runtime_laws {T E} : RuntimeLaws (Scripted T E).
Proof. constructor. intros w s Hw. simpl. lia. Qed.

(** The next scripted outcome; [dflt] once the script is exhausted. *)
Definition scripted_op {T E} (dflt : E) : Comp (Scripted T E) (result T (RetryDecision E)) :=
  λ s, match sc_outcomes s with
       | o :: os => (o, mkScripted os (Datatypes.S (sc_calls s)) (sc_slept s) (sc_draw s))
       | [] => (Err (Retry dflt), mkScripted [] (Datatypes.S (sc_calls s)) (sc_slept s) (sc_draw s))
       end.

(** The reference: the first outcome, among the first [n], that settles the
    matter; else the last error. *)
Fixpoint retry_reference {T E} (dflt : E) (n : nat) (os : list (result T (RetryDecision E))) :
    option (result T E * nat) :=
  match n with
  | O => None
  | Datatypes.S n' =>
      let '(o, os') := match os with o :: os' => (o, os') | [] => (Err (Retry dflt), []) end in
      match o with
      | Ok v => Some (Ok v, 1%nat)
      | Err (FailImmediately e) => Some (Err e, 1%nat)
      | Err (Retry e) =>
          match retry_reference dflt n' os' with
          | Some (r, k) => Some (r, Datatypes.S k)
          | None => Some (Err e, 1%nat)
          end
      end
  end.

(** The delay the loop sleeps after attempt [a], for a given generator. *)
Definition scripted_delay (config : RetryConfig) (draw : Z → Z) (a : Z) : Z :=
  let w := jitter_window (base_delay config) (max_delay config) a in
  from_millis (if 0 <? w then Z.max 0 (Z.min w (draw w)) else 0).

(** The state after [k] scripted attempts numbered from [a]. *)
Definition scripted_after {T E} (config : RetryConfig) (a : Z) (k : nat) (s : Scripted T E) :
    Scripted T E :=
  mkScripted (drop k (sc_outcomes s)) (sc_calls s + k)
    (sc_slept s ++ (scripted_delay config (sc_draw s) <$> seqZ a (Z.of_nat (pred k))))
    (sc_draw s).

(** ** The loop against its reference *)

Lemma retry_reference_calls {T E} (dflt : E) n (os : list (result T (RetryDecision E))) r k :
  retry_reference dflt n os = Some (r, k) → (1 ≤ k ≤ n)%nat.
Proof.
  revert os r k; induction n as [|n IH]; intros os r k; [done|].
  destruct os as [|[v|[e|e]] os]; cbn [retry_reference]; try (intros [= <- <-]; lia).
  all: destruct (retry_reference _ n _) as [[r' k']|] eqn:Hr; intros [= <- <-]; [|lia].
  all: apply IH in Hr; lia.
Qed.

Lemma retry_reference_total {T E} (dflt : E) n (os : list (result T (RetryDecision E))) :
  is_Some (retry_reference dflt (Datatypes.S n) os).
Proof. cbn [retry_reference]. repeat case_match; eauto. Qed.

(** One non-final attempt that asks for a retry. *)
Lemma retry_from_again {T E} (config : RetryConfig) (dflt : E) n attempt max_total
    e (s s' : Scripted T E) :
  attempt ≠ max_total → scripted_op dflt s = (Err (Retry e), s') →
  retry_from config (scripted_op dflt) max_total (Datatypes.S n) attempt s =
  retry_from config (scripted_op dflt) max_total n (attempt + 1)
    (rt_sleep (scripted_delay config (sc_draw s') attempt) s').
Proof.
  intros Ha Hop. cbn [retry_from]. unfold cbind at 1. rewrite Hop.
  rewrite (proj2 (Z.eqb_neq _ _) Ha).
  unfold jittered_delay, scripted_delay, cbind, cret.
  by destruct (0 <? jitter_window _ _ _).
Qed.

Lemma scripted_after_retry {T E} (config : RetryConfig) a k os os' c sl (dr : Z → Z) :
  drop 1 os = os' → (1 ≤ k)%nat →
  scripted_after config (a + 1) k
    (rt_sleep (scripted_delay config dr a) (mkScripted (T := T) (E := E) os' (Datatypes.S c) sl dr))
  = scripted_after config a (Datatypes.S k) (mkScripted os c sl dr).
Proof.
  intros <- Hk. unfold scripted_after; simpl. f_equal.
  - by rewrite drop_drop.
  - lia.
  - rewrite <- (assoc_L app). f_equal.
    replace (Z.of_nat k) with (Z.succ (Z.of_nat (pred k))) by lia.
    rewrite (seqZ_cons a) by lia. rewrite Z.pred_succ. by replace (Z.succ a) with (a + 1) by lia.
Qed.

Lemma retry_from_reference {T E} (config : RetryConfig) (dflt : E) n attempt
    (s : Scripted T E) r k :
  retry_reference dflt (Datatypes.S n) (sc_outcomes s) = Some (r, k) →
  retry_from config (scripted_op dflt) (attempt + Z.of_nat n) (Datatypes.S n) attempt s
    = (Some r, scripted_after config attempt k s).
Proof.
  assert (Hone : ∀ (os : list (result T (RetryDecision E))) c sl dr a,
    mkScripted (drop 1 os) (Datatypes.S c) sl dr
    = scripted_after config a 1 (mkScripted os c sl dr)).
  { intros. unfold scripted_after; simpl. by rewrite Nat.add_1_r, app_nil_r. }
  revert attempt s r k; induction n as [|n IH]; intros attempt [os c sl dr] r k Href.
  - assert (Hmax : (attempt =? attempt + Z.of_nat 0) = true) by (apply Z.eqb_eq; lia).
    unfold retry_from, scripted_op, cbind, cret; simpl in *.
    destruct os as [|[v|[e|e]] os]; simplify_eq; rewrite ?Hmax; by rewrite <- Hone.
  - destruct (scripted_op dflt (mkScripted os c sl dr)) as [o s'] eqn:Hop.
    assert (Hs' : s' = mkScripted (drop 1 os) (Datatypes.S c) sl dr).
    { destruct os as [|? os]; unfold scripted_op in Hop; simpl in Hop; simplify_eq; done. }
    destruct o as [v|[e|e]].
    1,3: cbn [retry_from]; unfold cbind at 1; rewrite Hop, Hs';
      destruct os as [|? os]; unfold scripted_op in Hop; simpl in *; simplify_eq; by rewrite <- Hone.
    rewrite (retry_from_again _ _ _ _ _ e _ s') by (done || lia).
    destruct (retry_reference_total (T := T) dflt n (drop 1 os)) as [[r' k'] Href'].
    assert (r = r' ∧ k = Datatypes.S k') as [-> ->].
    { cbn [retry_reference] in Href, Href'.
      destruct os as [|o' os]; unfold scripted_op in Hop; simpl in Hop, Href, Href';
        rewrite ?drop_0 in Href'; simplify_eq; rewrite Href' in Href; by simplify_eq. }
    replace (attempt + Z.of_nat (Datatypes.S n)) with (attempt + 1 + Z.of_nat n) by lia.
    subst s'. erewrite (IH (attempt + 1) _ r' k') by exact Href'.
    rewrite scripted_after_retry with (os := os); [done|done|].
    by apply retry_reference_calls in Href' as [? _].
Qed.

(** The loop follows the reference from its first attempt. *)
Lemma retry_with_backoff_run {T E} (config : RetryConfig) (dflt : E)
    (s : Scripted T E) :
  0 ≤ max_attempts config < u32_max →
  ∃ r k,
    retry_reference dflt (Z.to_nat (max_attempts config + 1)) (sc_outcomes s) = Some (r, k) ∧
    (1 ≤ k)%nat ∧ Z.of_nat k ≤ max_attempts config + 1 ∧
    retry_with_backoff config (scripted_op dflt) s
      = (Some r, scripted_after config 1 k s).
Proof.
  intros Hm. unfold retry_with_backoff, wrap_u32, u32_max in *.
  rewrite Z.mod_small by lia.
  replace (Z.to_nat (max_attempts config + 1))
    with (Datatypes.S (Z.to_nat (max_attempts config))) by lia.
  destruct (retry_reference_total (T := T) dflt (Z.to_nat (max_attempts config)) (sc_outcomes s))
    as [[r k] Href].
  pose proof (retry_reference_calls _ _ _ _ _ Href).
  exists r, k. split_and!; [done|lia|lia|].
  replace (max_attempts config + 1) with (1 + Z.of_nat (Z.to_nat (max_attempts config))) by lia.
  by apply retry_from_reference.
Qed.

(** C40: [retry_with_backoff] returns exactly what the reference prescribes -
    the first success, else the first [FailImmediately] error, else the error
    of the last of [max_attempts + 1] attempts - after exactly the number of
    calls the reference counts, sleeping one back-off delay between
    consecutive calls; it never reaches its [unreachable!]. *)
Theorem retry_with_backoff_reference {T E} (config : RetryConfig) (dflt : E)
    (s : Scripted T E) :
  0 ≤ max_attempts config < u32_max →
  ∃ r k,
    retry_reference dflt (Z.to_nat (max_attempts config + 1)) (sc_outcomes s) = Some (r, k) ∧
    (1 ≤ k)%nat ∧ Z.of_nat k ≤ max_attempts config + 1 ∧
    retry_with_backoff config (scripted_op dflt) s
      = (Some r, scripted_after config 1 k s).
Proof. apply retry_with_backoff_run. Qed.

Lemma retry_with_backoff_reference_witness :
  0 ≤ max_attempts RetryConfig_default < u32_max ∧
  ∃ r k,
    retry_reference "last" 3 [Err (Retry "a"); Ok 42; Err (Retry "b")] = Some (r, k) ∧
    (1 ≤ k)%nat ∧ Z.of_nat k ≤ 3 ∧
    retry_with_backoff RetryConfig_default (scripted_op "last")
      (mkScripted [Err (Retry "a"); Ok 42; Err (Retry "b")] 0 [] id)
    = (Some r, scripted_after RetryConfig_default 1 k
        (mkScripted [Err (Retry "a"); Ok 42; Err (Retry "b")] 0 [] id)).
Proof.
  split; [split; vm_compute; congruence|].
  apply (retry_with_backoff_reference RetryConfig_default "last"
    (mkScripted [Err (Retry "a"); Ok 42; Err (Retry "b")] 0 [] id)).
  split; vm_compute; congruence.
Defined.

Lemma jittered_delay_bounds_witness :
  0 ≤ (jittered_delay (from_millis 50) (from_millis 150) 2
        (mkScripted (T := unit) (E := unit) [] 0 [] id)).1
    ≤ from_millis (Z.min (as_millis (from_millis 50) * 2 ^ (2 - 1)) (as_millis (from_millis 150))).
Proof.
  apply (jittered_delay_bounds (from_millis 50) (from_millis 150) 2
    (mkScripted (T := unit) (E := unit) [] 0 [] id)); repeat split; vm_compute; congruence.
Defined.

(** The unit tests of [retry.rs], run on the model. *)
Example retries_correct_number_of_times :
  sc_calls (retry_with_backoff (mkRetryConfig 2 (from_millis 1) (from_millis 5))
    (scripted_op (T := unit) "Failuire") (mkScripted [] 0 [] id)).2 = 3%nat.
Proof. reflexivity. Qed.

Example succeeds_on_second_attempt :
  let '(r, s) := retry_with_backoff (mkRetryConfig 2 (from_millis 1) (from_millis 5))
    (scripted_op "x") (mkScripted [Err (Retry "First"); Ok 42] 0 [] id) in
  r = Some (Ok 42) ∧ sc_calls s = 2%nat.
Proof. split; reflexivity. Qed.

Example fail_immediately :
  let '(r, s) := retry_with_backoff RetryConfig_default
    (scripted_op (T := unit) "x") (mkScripted [Err (FailImmediately "Failuire")] 0 [] id) in
  r = Some (Err "Failuire") ∧ sc_calls s = 1%nat.
Proof. split; reflexivity. Qed.

(** With the default configuration a stage is attempted at most three times
    and the back-off it adds is at most 150 ms in total, whatever the
    operation returns and whatever the generator draws: the "well under a
    second" of the configuration's rationale. *)
Theorem default_retry_latency {T E} (dflt : E) (s : Scripted T E) :
  let s' := (retry_with_backoff RetryConfig_default (scripted_op dflt) s).2 in
  (sc_calls s' ≤ sc_calls s + 3)%nat ∧
  sum_Z (sc_slept s') ≤ sum_Z (sc_slept s) + from_millis 150.
Proof.
  destruct (retry_with_backoff_run RetryConfig_default dflt s)
    as (r & k & _ & Hk & Hk3 & ->); [split; vm_compute; congruence|].
  simpl in Hk3. split; [simpl; lia|].
  assert (H1 : 0 ≤ scripted_delay RetryConfig_default (sc_draw s) 1 ≤ from_millis 50).
  { unfold scripted_delay, from_millis.
    change (jitter_window _ _ 1) with 50. simpl. lia. }
  assert (H2 : 0 ≤ scripted_delay RetryConfig_default (sc_draw s) 2 ≤ from_millis 100).
  { unfold scripted_delay, from_millis.
    change (jitter_window _ _ 2) with 100. simpl. lia. }
  unfold from_millis in *.
  unfold scripted_after; cbn [snd sc_slept]. rewrite sum_Z_app.
  assert (k = 1 ∨ k = 2 ∨ k = 3)%nat as [->|[->| ->]] by lia.
  - change (seqZ 1 _) with (@nil Z). simpl; lia.
  - change (seqZ 1 _) with [1]. cbn [fmap list_fmap sum_Z fold_right]. lia.
  - change (seqZ 1 _) with [1; 2]. cbn [fmap list_fmap sum_Z fold_right]. lia.
Qed.

(** [max_attempts = u32::MAX] makes [max_attempts + 1] wrap to zero in a
    release build: the loop body never runs and the function panics at
    [unreachable!] without calling the operation. *)
Theorem retry_max_attempts_overflow {S T E} `{Runtime S} (config : RetryConfig)
    (operation : Comp S (result T (RetryDecision E))) (s : S) :
  max_attempts config = u32_max → retry_with_backoff config operation s = (None, s).
Proof. intros H0. unfold retry_with_backoff. rewrite H0. reflexivity. Qed.

Lemma retry_max_attempts_overflow_witness :
  retry_with_backoff (mkRetryConfig u32_max 0 0) (scripted_op (T := unit) tt)
    (mkScripted [Ok tt] 0 [] id) = (None, mkScripted [Ok tt] 0 [] id).
Proof. apply (retry_max_attempts_overflow (mkRetryConfig u32_max 0 0)). reflexivity. Defined.
