(* ===== verification/Sql.v ===== *)
(** * Postgres tables as the actors see them

    A table is the list of its rows.  [stmt] runs one SQL statement: it pops
    the environment's next choice (how much time passed, what other
    connections did to the table meanwhile, which rows they hold locked,
    whether the statement or its reply is lost), evaluates the statement's
    body on the table and, like Postgres, refuses a result that breaks the
    constraints of the migration.  Once the script of choices is used up the
    environment is quiet.

    The constraints themselves are third-party behaviour only in how they are
    enforced; which constraints there are is in [src/database/migrations]. *)

From stdpp Require Import sorting.
From S2P Require Import Prelude Types.

(** What every request table has in common. *)
Class SqlTable (Row : Type) := {
  t_eid : Row → ExecutionId;
  t_rev : Row → Z;
  (** primary key, unique indexes and CHECKs of the migration *)
  t_ok : list Row → bool
}.

Definition t_pkey {Row} `{SqlTable Row} (r : Row) : ExecutionId * Z := (t_eid r, t_rev r).

(** A (partial) unique index: no two covered rows have the same key. *)
Definition unique_on {Row K} `{EqDecision K} (key : Row → option K) (t : list Row) : bool :=
  bool_decide (NoDup (omap key t)).

(** The row with a given key is unique. *)
Lemma unique_on_inj {Row K} `{EqDecision K} (key : Row → option K) (t : list Row) r1 r2 k :
  NoDup (omap key t) → r1 ∈ t → r2 ∈ t → key r1 = Some k → key r2 = Some k → r1 = r2.
Proof.
  induction t as [|r t IH]; [by intros _ ?%elem_of_nil|].
  cbn [omap list_omap]. intros Hu H1 H2 Hk1 Hk2.
  assert (Hin : ∀ r', r' ∈ t → key r' = Some k → k ∈ omap key t)
    by (intros r' Hr' Hk'; apply list_elem_of_omap; eauto).
  assert (HuT : NoDup (omap key t)).
  { destruct (key r); [by apply list.NoDup_cons in Hu as [_ ?]|done]. }
  apply elem_of_cons in H1 as [->|H1]; apply elem_of_cons in H2 as [->|H2];
    [done| | |by apply IH].
  - rewrite Hk1 in Hu. apply list.NoDup_cons in Hu as [Hnot _]. exfalso. eauto.
  - rewrite Hk2 in Hu. apply list.NoDup_cons in Hu as [Hnot _]. exfalso. eauto.
Qed.

(** Rewriting rows without giving any a new key leaves a part of the keys. *)
Lemma omap_key_sublist {Row K} (key : Row → option K) (f : Row → Row) (t : list Row) :
  (∀ r, r ∈ t → key (f r) = None ∨ key (f r) = key r) → sublist (omap key (f <$> t)) (omap key t).
Proof.
  induction t as [|r t IH]; intros Ha; [done|]. cbn [fmap list_fmap].
  assert (Hsub : sublist (omap key (f <$> t)) (omap key t)) by (apply IH; intros r' Hr'; apply Ha; by right).
  cbn [omap list_omap]. destruct (Ha r (list_elem_of_here r t)) as [E|E]; rewrite E.
  - case_match; [by apply sublist_cons|done].
  - case_match; [by apply sublist_skip|done].
Qed.

Lemma fmap_pkey_same {Row} `{SqlTable Row} (f : Row → Row) (t : list Row) :
  (∀ r, r ∈ t → t_pkey (f r) = t_pkey r) → t_pkey <$> (f <$> t) = t_pkey <$> t.
Proof.
  intros Hk. rewrite <- list_fmap_compose. apply list_fmap_ext. intros i r Hr.
  apply Hk, list_elem_of_lookup. eauto.
Qed.

(** Rows with distinct primary keys. *)
Lemma pkey_unique {Row} `{SqlTable Row} (t : list Row) r1 r2 :
  NoDup (t_pkey <$> t) → r1 ∈ t → r2 ∈ t → t_pkey r1 = t_pkey r2 → r1 = r2.
Proof.
  intros Hnd [i Hi]%list_elem_of_lookup [j Hj]%list_elem_of_lookup Hk.
  assert (i = j) as ->; [|congruence].
  apply (NoDup_lookup _ _ _ (t_pkey r1) Hnd); rewrite list_lookup_fmap; [by rewrite Hi|].
  by rewrite Hj, Hk.
Qed.

Inductive fault :=
| NoFault
| FailBefore (msg : string)   (* the statement did not run *)
| FailAfter (msg : string).   (* it committed, the reply was lost *)

Record qenv (Row : Type) := mkQenv {
  q_elapse : Z;
  q_between : list Row → list Row;
  q_locked : list (ExecutionId * Z);
  q_fault : fault
}.
Arguments mkQenv {Row} _ _ _ _.
Arguments q_elapse {Row} _.
Arguments q_between {Row} _.
Arguments q_locked {Row} _.
Arguments q_fault {Row} _.

Definition quiet {Row} : qenv Row := mkQenv 0 id [] NoFault.

Record Db (Row : Type) := mkDb {
  db_rows : list Row;
  db_clock : Z;
  db_script : list (qenv Row)
}.
Arguments mkDb {Row} _ _ _.
Arguments db_rows {Row} _.
Arguments db_clock {Row} _.
Arguments db_script {Row} _.

(** Microseconds of a Postgres interval. *)
Definition interval_secs (s : Z) : Z := s * 1000000.

Definition out_of_range : string := "bigint out of range".
Definition constraint_violation : string :=
  "duplicate key value violates unique constraint".

Section sql.
Context {Row : Type} `{SqlTable Row}.

(** The statement bodies: [now()], which rows are locked by others, the rows;
    they return a value and the new rows, or an evaluation error. *)
Abbreviation body A := (Z → (Row → bool) → list Row → result (A * list Row) SqlxError).

Definition interfere (q : qenv Row) (t : list Row) : list Row :=
  let t' := q_between q t in if t_ok t' then t' else t.

Definition next_env (db : Db Row) : qenv Row * list (qenv Row) :=
  match db_script db with [] => (quiet, []) | q :: qs => (q, qs) end.

Definition is_locked (q : qenv Row) (r : Row) : bool := bool_decide (t_pkey r ∈ q_locked q).

(** Evaluate and commit: the statement is atomic. *)
Definition commit {A} (b : body A) (now : Z) (locked : Row → bool) (t : list Row) :
    result (A * list Row) SqlxError :=
  match b now locked t with
  | Err m => Err m
  | Ok (a, t') => if t_ok t' then Ok (a, t') else Err constraint_violation
  end.

Definition stmt {A} (b : body A) : Comp (Db Row) (result A SqlxError) := λ db,
  let '(q, qs) := next_env db in
  let now := db_clock db + Z.max 0 (q_elapse q) in
  let t := interfere q (db_rows db) in
  match q_fault q with
  | FailBefore m => (Err m, mkDb t now qs)
  | f =>
      match commit b now (is_locked q) t with
      | Err m => (Err m, mkDb t now qs)
      | Ok (a, t') =>
          (match f with FailAfter m => Err m | _ => Ok a end, mkDb t' now qs)
      end
  end.

(** A read-only statement. *)
Definition select {A} (f : Z → list Row → A) : body A := λ now _ t, Ok (f now t, t).

(** [SELECT MAX(revision) ... WHERE execution_id = e] and its successor. *)
Definition max_revision (e : ExecutionId) (t : list Row) : option Z :=
  sql_max (t_rev <$> filter (λ r, t_eid r = e) t).
Definition next_revision (e : ExecutionId) (t : list Row) : Z :=
  default 0 (max_revision e t) + 1.

(** [ORDER BY revision DESC LIMIT 1]. *)
Definition latest (p : Row → bool) (t : list Row) : option Row :=
  order_limit1 (λ r1 r2, t_rev r2 <? t_rev r1) (filter (λ r, p r = true) t).

(** [SELECT DISTINCT ON (execution_id) ... WHERE p ORDER BY execution_id, revision
    DESC]: per execution the latest row with [p], executions in id order.  The
    byte order of the ids is the order of their 128-bit values. *)
Definition distinct_latest (p : Row → bool) (t : list Row) : list Row :=
  omap (λ u, latest (λ r, bool_decide (t_eid r = mkExecutionId u) && p r) t)
    (merge_sort Z.le (remove_dups (eid_uuid ∘ t_eid <$> filter (λ r, p r = true) t))).

(** [UPDATE ... WHERE (execution_id, revision) = key]. *)
Definition update_key (k : ExecutionId * Z) (f : Row → Row) (t : list Row) : list Row :=
  (λ r, if bool_decide (t_pkey r = k) then f r else r) <$> t.

(** [fetch_one] on no row. *)
Definition row_not_found : string :=
  "no rows returned by a query that expected to return at least one row".

(** ** Lemmas *)

Lemma stmt_quiet {A} (b : body A) t now :
  stmt b (mkDb t now []) =
  match commit b now (λ _, false) t with
  | Ok (a, t') => (Ok a, mkDb t' now [])
  | Err m => (Err m, mkDb t now [])
  end.
Proof.
  unfold stmt, next_env; simpl. unfold interfere, id; simpl.
  rewrite Z.add_0_r.
  replace (if t_ok t then t else t) with t by (by case_match).
  replace (is_locked quiet) with (λ _ : Row, false); [by repeat case_match|].
  unfold is_locked. simpl. reflexivity.
Qed.

(** Whatever the environment does, a statement leaves a table the constraints
    accept. *)
Lemma stmt_ok {A} (b : body A) db :
  t_ok (db_rows db) = true → t_ok (db_rows (stmt b db).2) = true.
Proof.
  intros Hok. unfold stmt. destruct (next_env db) as [q qs].
  assert (Hi : t_ok (interfere q (db_rows db)) = true).
  { unfold interfere. by destruct (t_ok (q_between q (db_rows db))) eqn:?. }
  unfold commit.
  destruct (q_fault q); simpl; try done;
    destruct (b _ _ _) as [[a t']|m]; simpl; try done;
    destruct (t_ok t') eqn:Ht; done.
Qed.

(** The table after a statement: the interfered one, or the committed one. *)
Lemma stmt_cases {A} (b : body A) db r db' :
  stmt b db = (r, db') →
  let '(q, qs) := next_env db in
  let now := db_clock db + Z.max 0 (q_elapse q) in
  let t := interfere q (db_rows db) in
  db_clock db' = now ∧ db_script db' = qs ∧
  ((db_rows db' = t ∧ is_ok r = false) ∨
   ∃ a t', b now (is_locked q) t = Ok (a, t') ∧ t_ok t' = true ∧ db_rows db' = t' ∧
           (r = Ok a ∨ is_ok r = false)).
Proof.
  unfold stmt. destruct (next_env db) as [q qs]. unfold commit.
  set (now := db_clock db + _). set (t := interfere q _).
  destruct (b now (is_locked q) t) as [[a t']|m] eqn:Hb;
    [destruct (t_ok t') eqn:Hok|];
    destruct (q_fault q); intros [= <- <-]; simpl; (split_and!; [done|done|]);
    first [by left|right; exists a, t'; by auto].
Qed.

Lemma update_key_keys (k : ExecutionId * Z) (f : Row → Row) t :
  (∀ r, t_pkey (f r) = t_pkey r) → t_pkey <$> update_key k f t = t_pkey <$> t.
Proof.
  intros Hf. unfold update_key. rewrite <- list_fmap_compose.
  apply list_fmap_ext. intros _ r _. simpl. case_bool_decide; [apply Hf|done].
Qed.

Lemma update_key_app k (f : Row → Row) t row :
  (k ∉ (t_pkey <$> t)) → t_pkey row = k → update_key k f (t ++ [row]) = t ++ [f row].
Proof.
  intros Hk Hrow. unfold update_key. rewrite fmap_app. cbn [fmap list_fmap].
  rewrite bool_decide_true by done. f_equal.
  rewrite <- (list_fmap_id t) at 2. apply list_fmap_ext. intros i r Hr.
  rewrite bool_decide_false; [done|]. intros <-. apply Hk, list_elem_of_fmap.
  exists r. split; [done|]. by eapply list_elem_of_lookup_2.
Qed.

Lemma latest_Some p t r : latest p t = Some r → r ∈ t ∧ p r = true.
Proof.
  intros Hl. apply order_limit1_elem in Hl.
  apply list_elem_of_filter in Hl as [? ?]. done.
Qed.

Lemma latest_None p t : latest p t = None ↔ ∀ r, r ∈ t → p r = false.
Proof.
  unfold latest. rewrite order_limit1_None. split.
  - intros Hf r Hr. destruct (p r) eqn:Hp; [|done].
    assert (r ∈ filter (λ r, p r = true) t) as Hin by (apply list_elem_of_filter; done).
    rewrite Hf in Hin. by apply elem_of_nil in Hin.
  - intros Hall. apply elem_of_nil_inv. intros r [Hp Hr]%list_elem_of_filter.
    rewrite Hall in Hp; done.
Qed.

Lemma latest_max p t r r' :
  latest p t = Some r → r' ∈ t → p r' = true → t_rev r' ≤ t_rev r.
Proof.
  intros Hl Hr' Hp.
  apply order_limit1_minimal with (y := r') in Hl.
  - by apply Z.ltb_ge in Hl.
  - intros a b. rewrite Z.ltb_lt, Z.ltb_ge. lia.
  - intros a b c. rewrite !Z.ltb_lt. lia.
  - by apply list_elem_of_filter.
Qed.

Lemma max_revision_ge e t r :
  r ∈ t → t_eid r = e → ∃ m, max_revision e t = Some m ∧ t_rev r ≤ m.
Proof.
  intros Hr He. assert (Hin : t_rev r ∈ t_rev <$> filter (λ r, t_eid r = e) t).
  { apply list_elem_of_fmap. exists r. split; [done|]. by apply list_elem_of_filter. }
  unfold max_revision. destruct (sql_max _) as [m|] eqn:Hm.
  - exists m. split; [done|]. by apply sql_max_ge with (x := t_rev r) in Hm.
  - apply sql_max_None in Hm. rewrite Hm in Hin. by apply elem_of_nil in Hin.
Qed.

Lemma max_revision_row e t m :
  max_revision e t = Some m → ∃ r, r ∈ t ∧ t_pkey r = (e, m) ∧ ∀ r', r' ∈ t → t_eid r' = e → t_rev r' ≤ m.
Proof.
  intros Hm. pose proof Hm as Hin. unfold max_revision in Hin. apply sql_max_elem in Hin.
  apply list_elem_of_fmap in Hin as (r & -> & [He Hr]%list_elem_of_filter).
  exists r. split_and!; [done|unfold t_pkey; by rewrite He|].
  intros r' Hr' He'. destruct (max_revision_ge e t r' Hr' He') as (m' & Hm' & Hle).
  rewrite Hm in Hm'. by injection Hm' as <-.
Qed.

(** The rows of [DISTINCT ON]: those that are the latest of their execution. *)
Lemma distinct_latest_elem p t r :
  r ∈ distinct_latest p t ↔ latest (λ r', bool_decide (t_eid r' = t_eid r) && p r') t = Some r.
Proof.
  unfold distinct_latest. rewrite list_elem_of_omap. split.
  - intros (u & _ & Hl). pose proof Hl as [_ [He%bool_decide_eq_true _]%andb_true_iff]%latest_Some.
    by rewrite He.
  - intros Hl. exists (eid_uuid (t_eid r)). destruct (t_eid r) as [u] eqn:He. split; [|done].
    rewrite merge_sort_Permutation. apply elem_of_remove_dups, list_elem_of_fmap. exists r.
    apply latest_Some in Hl as [Hr [_ Hp]%andb_true_iff].
    split; [by simpl; rewrite He|by apply list_elem_of_filter].
Qed.

Lemma distinct_latest_exists p t r :
  r ∈ t → p r = true → ∃ r', t_eid r' = t_eid r ∧ r' ∈ distinct_latest p t ∧ t_rev r ≤ t_rev r'.
Proof.
  intros Hr Hp. set (q := λ r', bool_decide (t_eid r' = t_eid r) && p r').
  assert (Hq : q r = true) by (unfold q; by rewrite bool_decide_true, Hp).
  destruct (latest q t) as [r'|] eqn:Hl; [|by rewrite (proj1 (latest_None q t) Hl r Hr) in Hq].
  pose proof Hl as [_ [He%bool_decide_eq_true _]%andb_true_iff]%latest_Some.
  exists r'. split_and!; [done| |by eapply latest_max].
  apply distinct_latest_elem. by rewrite He.
Qed.

Lemma length_distinct_latest p t :
  (length (distinct_latest p t) ≤ length (filter (λ r, p r = true) t))%nat.
Proof.
  unfold distinct_latest. etrans; [apply length_omap_le|].
  rewrite (Permutation_length (merge_sort_Permutation _ _)).
  etrans; [apply length_remove_dups|]. by rewrite length_fmap.
Qed.

(** Its first row belongs to the smallest of the executions. *)
Lemma distinct_latest_head p t r :
  head (distinct_latest p t) = Some r →
  ∀ r', r' ∈ t → p r' = true → eid_uuid (t_eid r) ≤ eid_uuid (t_eid r').
Proof.
  unfold distinct_latest. set (ids := remove_dups _).
  assert (Hids : ∀ u, u ∈ merge_sort Z.le ids ↔ ∃ r', r' ∈ t ∧ p r' = true ∧ eid_uuid (t_eid r') = u).
  { intros u. rewrite merge_sort_Permutation. unfold ids. rewrite elem_of_remove_dups, list_elem_of_fmap.
    split.
    - intros (r' & -> & [Hp Hr]%list_elem_of_filter). eauto.
    - intros (r' & Hr & Hp & <-). exists r'. split; [done|by apply list_elem_of_filter]. }
  pose proof (StronglySorted_merge_sort Z.le ids) as Hs.
  destruct (merge_sort Z.le ids) as [|u us]; [done|].
  destruct (proj1 (Hids u) ltac:(left)) as (r0 & Hr0 & Hp0 & Hu).
  cbn [omap list_omap]. set (q := λ r', bool_decide (t_eid r' = mkExecutionId u) && p r').
  destruct (latest q t) as [r1|] eqn:Hl.
  - intros [= <-]. apply latest_Some in Hl as [_ [He%bool_decide_eq_true _]%andb_true_iff].
    intros r' Hr' Hp'. rewrite He. cbn [eid_uuid].
    assert (Hin : eid_uuid (t_eid r') ∈ u :: us) by (apply Hids; eauto).
    apply elem_of_cons in Hin as [->|Hin]; [lia|].
    apply StronglySorted_inv in Hs as [_ Hs]. by apply (proj1 (list.Forall_forall _ _) Hs).
  - assert (Hq : q r0 = true); [|by rewrite (proj1 (latest_None q t) Hl r0 Hr0) in Hq].
    unfold q. rewrite Hp0, bool_decide_true; [done|]. rewrite <- Hu. by destruct (t_eid r0).
Qed.

Lemma StronglySorted_sublist {A} (R : relation A) (l k : list A) :
  l `sublist_of` k → StronglySorted R k → StronglySorted R l.
Proof.
  induction 1 as [|x l k Hl IH|x l k Hl IH]; intros Hs; [done|..];
    apply StronglySorted_inv in Hs as [Hs Hx]; [|by apply IH].
  constructor; [by apply IH|]. revert Hx; rewrite !list.Forall_forall. intros Hx y Hy. apply Hx. by eapply elem_of_sublist.
Qed.

Lemma StronglySorted_lookup {A} (R : relation A) (l : list A) i j x y :
  StronglySorted R l → l !! i = Some x → l !! j = Some y → (i < j)%nat → R x y.
Proof.
  intros Hs Hi Hj Hij. rewrite <- (take_drop j l) in Hs.
  apply (StronglySorted_app_1_elem_of R _ _ x y Hs).
  - apply list_elem_of_lookup. exists i. by rewrite lookup_take_lt.
  - apply list_elem_of_lookup. exists 0%nat. by rewrite lookup_drop, Nat.add_0_r.
Qed.

(** One row per execution, in the order of the ids. *)
Lemma distinct_latest_ids p t :
  (eid_uuid ∘ t_eid <$> distinct_latest p t) `sublist_of`
    merge_sort Z.le (remove_dups (eid_uuid ∘ t_eid <$> filter (λ r, p r = true) t)).
Proof.
  unfold distinct_latest. induction (merge_sort Z.le _) as [|u us IH]; [done|].
  cbn [omap list_omap]. destruct (latest _ t) as [r|] eqn:Hl; [|by apply sublist_cons].
  cbn [fmap list_fmap]. apply latest_Some in Hl as [_ [He%bool_decide_eq_true _]%andb_true_iff].
  replace ((eid_uuid ∘ t_eid) r) with u by (simpl; by rewrite He). by apply sublist_skip.
Qed.

Lemma distinct_latest_NoDup p t : NoDup (t_eid <$> distinct_latest p t).
Proof.
  apply (NoDup_fmap_1 eid_uuid). rewrite <- list_fmap_compose.
  eapply sublist_NoDup; [|apply distinct_latest_ids].
  rewrite merge_sort_Permutation. apply NoDup_remove_dups.
Qed.

Lemma distinct_latest_sorted p t i j r r' :
  distinct_latest p t !! i = Some r → distinct_latest p t !! j = Some r' → (i < j)%nat →
  eid_uuid (t_eid r) < eid_uuid (t_eid r').
Proof.
  intros Hi Hj Hij. set (us := eid_uuid ∘ t_eid <$> distinct_latest p t).
  assert (Hs : StronglySorted Z.le us).
  { eapply StronglySorted_sublist; [apply distinct_latest_ids|]. apply StronglySorted_merge_sort; apply _. }
  assert (Hnd : NoDup us).
  { eapply sublist_NoDup; [|apply distinct_latest_ids].
    rewrite merge_sort_Permutation. apply NoDup_remove_dups. }
  assert (Hui : us !! i = Some (eid_uuid (t_eid r))) by (unfold us; by rewrite list_lookup_fmap, Hi).
  assert (Huj : us !! j = Some (eid_uuid (t_eid r'))) by (unfold us; by rewrite list_lookup_fmap, Hj).
  assert (eid_uuid (t_eid r) ≠ eid_uuid (t_eid r')).
  { intros E. rewrite <- E in Huj. pose proof (NoDup_lookup _ _ _ _ Hnd Hui Huj). lia. }
  pose proof (StronglySorted_lookup Z.le _ _ _ _ _ Hs Hui Huj Hij). lia.
Qed.

(** As many rows as there are executions with a row in [p]. *)
Lemma distinct_latest_length p t :
  length (distinct_latest p t) = length (remove_dups (t_eid <$> filter (λ r, p r = true) t)).
Proof.
  rewrite <- (length_fmap t_eid). apply Permutation_length, NoDup_Permutation;
    [apply distinct_latest_NoDup|apply NoDup_remove_dups|].
  intros e. rewrite elem_of_remove_dups, !list_elem_of_fmap. split.
  - intros (r & -> & Hr). exists r. split; [done|].
    apply distinct_latest_elem, latest_Some in Hr as [Hr [_ Hp]%andb_true_iff]. by apply list_elem_of_filter.
  - intros (r & -> & [Hp Hr]%list_elem_of_filter).
    destruct (distinct_latest_exists p t r Hr Hp) as (r' & He & Hr' & _). by exists r'.
Qed.

Lemma next_revision_max e t r : r ∈ t → t_eid r = e → t_rev r < next_revision e t.
Proof.
  intros Hr He. unfold next_revision, max_revision.
  destruct (sql_max _) as [m|] eqn:Hm; simpl.
  - apply sql_max_ge with (x := t_rev r) in Hm; [lia|].
    apply list_elem_of_fmap. exists r. split; [done|]. by apply list_elem_of_filter.
  - apply sql_max_None in Hm. apply fmap_nil_inv in Hm.
    assert (r ∈ filter (λ r, t_eid r = e) t) as Hin by (by apply list_elem_of_filter).
    rewrite Hm in Hin. by apply elem_of_nil in Hin.
Qed.

Lemma next_revision_app e t row :
  t_eid row = e → t_rev row = next_revision e t → next_revision e (t ++ [row]) = next_revision e t + 1.
Proof.
  intros He Hrev. unfold next_revision at 1, max_revision.
  rewrite list.filter_app, filter_cons_True, fmap_app by done. cbn [fmap list_fmap].
  rewrite sql_max_app. rewrite Hrev. unfold next_revision, max_revision. simpl.
  destruct (sql_max _) as [m|]; simpl; lia.
Qed.

Lemma next_revision_fresh e t r : r ∈ t → t_pkey r ≠ (e, next_revision e t).
Proof.
  intros Hr [= He Hrev]. pose proof (next_revision_max e t r Hr He). lia.
Qed.

End sql.
