(* ===== verification/Actor.v ===== *)
(** * Actors: a mailbox, a loop that serves it in order, a handle

    Every engine of [src/crate/actors/src] has the same shape: [run] receives
    commands from an mpsc channel one at a time, calls the handler and sends
    its result back through a oneshot channel; the handle sends a command and
    awaits the reply.  [dispatch] is the engine's handler for one command. *)

From S2P Require Import Prelude.

Section actor.
Context {S Cmd Reply : Type} (dispatch : Cmd → Comp S Reply).

(** Source: [crate/actors/src/nonce/engine.rs] lines 20-22, [NonceEngine::run (while let)].
    The loop: commands are served one after the other, in the order of the
    queue, each on the state the previous one left. *)
Fixpoint run_loop (queue : list Cmd) : Comp S (list Reply) :=
  match queue with
  | [] => cret []
  | cmd :: rest =>
      reply <~ dispatch cmd ;;
      replies <~ run_loop rest ;;
      cret (reply :: replies)
  end.

(** What the channel does with a call: the actor is gone; the command is
    queued behind [ahead] and answered; the actor stops before answering,
    leaving some state. *)
Inductive delivery :=
| Shutdown
| Queued (ahead : list Cmd)
| ReplyDropped (after : S → S).

(** The body of every handle method: [tx.send(cmd).await] and
    [reply_rx.await], with the two error values of the method. *)
Definition handle_call {A E} (closed dropped : E) (take : Reply → option (result A E))
    (d : delivery) (cmd : Cmd) : Comp S (result A E) :=
  match d with
  | Shutdown => cret (Err closed)
  | ReplyDropped after => λ s, (Err dropped, after s)
  | Queued ahead =>
      _ <~ run_loop ahead ;;
      reply <~ dispatch cmd ;;
      cret (match take reply with Some r => r | None => Err dropped end)
  end.

Lemma run_loop_app q1 q2 s :
  run_loop (q1 ++ q2) s =
  let '(r1, s1) := run_loop q1 s in
  let '(r2, s2) := run_loop q2 s1 in (r1 ++ r2, s2).
Proof.
  revert s; induction q1 as [|cmd q1 IH]; intros s; simpl.
  - by destruct (run_loop q2 s).
  - unfold cbind, cret. destruct (dispatch cmd s) as [r s1].
    rewrite IH. destruct (run_loop q1 s1) as [r1 s2]. by destruct (run_loop q2 s2).
Qed.

Lemma run_loop_length q s : length (run_loop q s).1 = length q.
Proof.
  revert s; induction q as [|cmd q IH]; intros s; [done|]. simpl. unfold cbind, cret.
  destruct (dispatch cmd s) as [r s1]. specialize (IH s1).
  destruct (run_loop q s1). simpl in *. by rewrite IH.
Qed.

(** An invariant that every command keeps is kept by the loop. *)
Lemma run_loop_invariant (I : S → Prop) q s :
  (∀ cmd s, cmd ∈ q → I s → I (dispatch cmd s).2) → I s → I (run_loop q s).2.
Proof.
  revert s; induction q as [|cmd q IH]; intros s Hd Hs; [done|]. simpl. unfold cbind, cret.
  pose proof (Hd cmd s ltac:(left) Hs) as Hs1.
  destruct (dispatch cmd s) as [r s1]. simpl in Hs1.
  assert (I (run_loop q s1).2) as Hq
    by (apply IH; [intros c s' Hc; apply Hd; by right|done]).
  by destruct (run_loop q s1).
Qed.

End actor.
Arguments Shutdown {S Cmd}.
Arguments Queued {S Cmd} ahead.
Arguments ReplyDropped {S Cmd} after.
