(* ===== verification/Nonce.v ===== *)
(** * The nonce actor and the sweeper bot

    [src/crate/actors/src/nonce/engine.rs] over the table of
    [src/database/migrations/20260128093012_nonce.sql], and the query of
    [src/lobby/src/bots/sweeper.rs] over the same table. *)

From stdpp Require Import sorting.
From S2P Require Import Prelude Types Sql Actor.

(** ** The table *)

(** Source: [database/migrations/20260128093012_nonce.sql] lines 3-21, [nonce.nonce_assignments]. *)
Record NonceRow := mkNonceRow {
  nr_execution_id : ExecutionId;
  nr_revision : Z;
  nr_chain_id : Z;
  nr_from_address : Address;
  nr_nonce : Z;
  nr_state : NonceState;
  nr_created_at : Z;
  nr_updated_at : Z
}.
#[export] Instance NonceRow_eq_dec : EqDecision NonceRow.
Proof. solve_decision. Defined.

Definition nonce_active (s : NonceState) : bool :=
  match s with NReserved | NFinalized => true | _ => false end.

Definition nr_account (r : NonceRow) : Z * Address := (nr_chain_id r, nr_from_address r).

(** The key of [uniq_active_nonce], for the rows it covers. *)
Definition active_key (r : NonceRow) : option (Z * Address * Z) :=
  if nonce_active (nr_state r) then Some (nr_account r, nr_nonce r) else None.

(** Source: [database/migrations/20260128093012_nonce.sql] lines 20-26, [uniq_active_nonce].
    The primary key and the partial unique index. *)
#[export] Instance nonce_table : SqlTable NonceRow := {|
  t_eid := nr_execution_id;
  t_rev := nr_revision;
  t_ok t :=
    bool_decide (NoDup ((λ r, (nr_execution_id r, nr_revision r)) <$> t)) &&
    unique_on active_key t
|}.

(** Source: [database/migrations/20260128093012_nonce.sql] lines 33-47, [nonce.touch_updated_at].
    [UPDATE ... SET state = st], with the trigger that touches [updated_at]
    when the state changes. *)
Definition nonce_set_state (now : Z) (st : NonceState) (r : NonceRow) : NonceRow :=
  mkNonceRow (nr_execution_id r) (nr_revision r) (nr_chain_id r) (nr_from_address r)
    (nr_nonce r) st (nr_created_at r)
    (if decide (nr_state r = st) then nr_updated_at r else now).

(** ** Queries *)

Definition of_account (chain : Z) (from : Address) (r : NonceRow) : bool :=
  bool_decide (nr_chain_id r = chain) && bool_decide (nr_from_address r = from).

(** [ORDER BY nonce ASC, revision DESC]. *)
Definition gap_before (r1 r2 : NonceRow) : bool :=
  (nr_nonce r1 <? nr_nonce r2) ||
  ((nr_nonce r1 =? nr_nonce r2) && (nr_revision r2 <? nr_revision r1)).

(** [state = 'finalized' OR (state = 'reserved' AND updated_at > now() - lease)]. *)
Definition nonce_lease (now lease : Z) (r : NonceRow) : bool :=
  match nr_state r with
  | NFinalized => true
  | NReserved => now - lease <? nr_updated_at r
  | _ => false
  end.

Definition has_lease (now lease : Z) (e : ExecutionId) (t : list NonceRow) : bool :=
  existsb (λ r, bool_decide (nr_execution_id r = e) && nonce_lease now lease r) t.

Definition released_row (chain : Z) (from : Address) (r : NonceRow) : bool :=
  of_account chain from r && bool_decide (nr_state r = NReleased).

(** The CTE [target_release]. *)
Definition target_release (chain : Z) (from : Address) (locked : NonceRow → bool)
    (t : list NonceRow) : option NonceRow :=
  order_limit1 gap_before
    (filter (λ r, released_row chain from r && negb (locked r) = true) t).

(** The CTE [max_nonce]. *)
Definition max_nonce (chain : Z) (from : Address) (t : list NonceRow) : Z :=
  default (-1) (sql_max (nr_nonce <$>
    filter (λ r, of_account chain from r && nonce_active (nr_state r) = true) t)).

Definition new_nonce_row (e : ExecutionId) (chain : Z) (from : Address) (n now : Z)
    (t : list NonceRow) : NonceRow :=
  mkNonceRow e (next_revision e t) chain from n NReserved now now.

(** The CTE [consumed]: a data-modifying CTE runs to completion whether or not
    the [INSERT] below it produces a row. *)
Definition consume_target (now : Z) (target : option NonceRow) (t : list NonceRow) :
    list NonceRow :=
  match target with
  | Some r => update_key (t_pkey r) (nonce_set_state now NConsumed) t
  | None => t
  end.

(** Source: [crate/actors/src/nonce/engine.rs] lines 74-130, [handle_reserve (INSERT ... RETURNING nonce, revision)].
    All parts of the statement read the same snapshot [t]. *)
Definition reserve_query (e : ExecutionId) (chain : Z) (from : Address)
    (now : Z) (locked : NonceRow → bool) (t : list NonceRow) :
    result (option (Z * Z) * list NonceRow) SqlxError :=
  let target := target_release chain from locked t in
  let t1 := consume_target now target t in
  if has_lease now (interval_secs 120) e t then Ok (None, t1)
  else
    let n := match target with
             | Some r => nr_nonce r
             | None => max_nonce chain from t + 1
             end in
    let row := new_nonce_row e chain from n now t in
    if in_i64 n && in_i64 (nr_revision row)
    then Ok (Some (n, nr_revision row), t1 ++ [row])
    else Err out_of_range.

(** Source: [crate/actors/src/nonce/engine.rs] lines 139-155, [handle_reserve (SELECT nonce, state)].
    The latest reserved or finalized row of the execution. *)
Definition active_of (e : ExecutionId) (t : list NonceRow) : option NonceRow :=
  latest (λ r, bool_decide (nr_execution_id r = e) && nonce_active (nr_state r)) t.

(** Source: [crate/actors/src/nonce/engine.rs] lines 185-232, [handle_sync (INSERT ... RETURNING nonce, revision)]. *)
Definition sync_query (e : ExecutionId) (chain : Z) (from : Address) (n : Z)
    (now : Z) (locked : NonceRow → bool) (t : list NonceRow) :
    result (option (Z * Z) * list NonceRow) SqlxError :=
  let five := interval_secs 300 in
  let taken := existsb (λ r, of_account chain from r && (nr_nonce r =? n) &&
                  bool_decide (nr_state r = NReserved) && nonce_lease now five r) t in
  if has_lease now five e t || taken then Ok (None, t)
  else
    let row := new_nonce_row e chain from n now t in
    if in_i64 (nr_revision row)
    then Ok (Some (n, nr_revision row), t ++ [row])
    else Err out_of_range.

Definition reserved_of (e : ExecutionId) (locked : NonceRow → bool) (t : list NonceRow) :
    option NonceRow :=
  latest (λ r, bool_decide (nr_execution_id r = e) && bool_decide (nr_state r = NReserved)
               && negb (locked r)) t.

(** Source: [crate/actors/src/nonce/engine.rs] lines 298-319, [handle_resolve (UPDATE)].
    Returns the number of affected rows. *)
Definition resolve_query (e : ExecutionId) (st : NonceState)
    (now : Z) (locked : NonceRow → bool) (t : list NonceRow) :
    result (Z * list NonceRow) SqlxError :=
  match reserved_of e locked t with
  | Some r => Ok (1, update_key (t_pkey r) (nonce_set_state now st) t)
  | None => Ok (0, t)
  end.

(** [SELECT state ... ORDER BY revision DESC LIMIT 1]. *)
Definition latest_of (e : ExecutionId) (t : list NonceRow) : option NonceRow :=
  latest (λ r, bool_decide (nr_execution_id r = e)) t.

(** ** Handlers *)

Abbreviation NonceDb := (Db NonceRow).

Definition chain_to_i64 {E} (err : E) (c : ChainId) : result Z E :=
  result_of_option (u256_try_i64 (chain_u256 c)) err.

(** Source: [crate/actors/src/nonce/engine.rs] lines 58-158, [NonceEngine::handle_reserve]. *)
Definition handle_reserve (chain_id : ChainId) (from : Address) (execution_id : ExecutionId) :
    Comp NonceDb (result TxNonce LocalError) :=
  chain <-? clift (chain_to_i64 (LInvariant "chain_id does not fit in i64") chain_id) ;;
  candidate <-? cmap_err LDatabaseError (stmt (reserve_query execution_id chain from)) ;;
  match candidate with
  | Some (n, _) => clift (TxNonce_try_from n)
  | None =>
      existing <-? cmap_err LDatabaseError
        (stmt (select (λ _ t, active_of execution_id t))) ;;
      match existing with
      | Some row => clift (TxNonce_try_from (nr_nonce row))
      | None => clift (Err (LDatabaseError row_not_found))
      end
  end.

(** Source: [crate/actors/src/nonce/engine.rs] lines 160-286, [NonceEngine::handle_sync]. *)
Definition handle_sync (chain_id : ChainId) (from : Address) (execution_id : ExecutionId)
    (nonce_on_chain : TxNonce) : Comp NonceDb (result TxNonce LocalError) :=
  chain <-? clift (chain_to_i64 (LInvariant "chain_id does not fit in i64") chain_id) ;;
  n <-? clift (result_of_option (u256_try_i64 (nonce_u256 nonce_on_chain))
                 (LInvariant "nonce_on_chain does not fit in i64")) ;;
  reserved <-? cmap_err LDatabaseError (stmt (sync_query execution_id chain from n)) ;;
  match reserved with
  | Some (n', _) => clift (TxNonce_try_from n')
  | None =>
      existing <-? cmap_err LDatabaseError
        (stmt (select (λ _ t, active_of execution_id t))) ;;
      match existing with
      | Some row => clift (TxNonce_try_from (nr_nonce row))
      | None => clift (Err (LRejected ("nonce " +:+ TxNonce_display nonce_on_chain +:+
                  " was already reserved by another execution during sync")))
      end
  end.

Definition NonceState_debug (s : NonceState) : string :=
  match s with
  | NReserved => "Reserved" | NFinalized => "Finalized"
  | NReleased => "Released" | NConsumed => "Consumed"
  end.

(** What [handle_resolve] answers when its [UPDATE] matched no row. *)
Definition resolve_explain (state : NonceState) (latest : option NonceRow) :
    result unit LocalError :=
  match latest with
  | None => Err (LInvariant "invalid execution_id")
  | Some row =>
      if decide (nr_state row = state) then Ok tt
      else match nr_state row with
           | NFinalized | NReleased | NConsumed =>
               Err (LInternal ("execution_id already resolved to " +:+
                 NonceState_debug (nr_state row) +:+ ", cannot transition to " +:+
                 NonceState_debug state))
           | NReserved => Err (LInvariant "expected reserved state but UPDATE failed")
           end
  end.

(** Source: [crate/actors/src/nonce/engine.rs] lines 288-367, [NonceEngine::handle_resolve]. *)
Definition handle_resolve (execution_id : ExecutionId) (state : NonceState) :
    Comp NonceDb (result unit LocalError) :=
  match state with
  | NReserved => clift (Err (LInternal "noce should have been 'reserved' by now"))
  | _ =>
      affected <-? cmap_err LDatabaseError (stmt (resolve_query execution_id state)) ;;
      if 0 <? affected then clift (Ok tt)
      else
        latest <-? cmap_err LDatabaseError
          (stmt (select (λ _ t, latest_of execution_id t))) ;;
        clift (resolve_explain state latest)
  end.

(** ** The actor: commands, loop and handle *)

(** Source: [crate/actors/src/nonce/handle.rs] lines 9-31, [NonceCommand].
    The commands of the actor's channel, without the reply sender. *)
Inductive NonceCommand :=
| CmdReserve (chain_id : ChainId) (from_address : Address) (execution_id : ExecutionId)
| CmdResolve (execution_id : ExecutionId) (state : NonceState)
| CmdSync (chain_id : ChainId) (from_address : Address) (execution_id : ExecutionId)
    (nonce_on_chain : TxNonce).

Inductive NonceReply :=
| RplNonce (r : result TxNonce LocalError)
| RplUnit (r : result unit LocalError).

(** Source: [crate/actors/src/nonce/engine.rs] lines 20-56, [NonceEngine::run (one command)]. *)
Definition nonce_dispatch (cmd : NonceCommand) : Comp NonceDb NonceReply :=
  match cmd with
  | CmdReserve c from e => r <~ handle_reserve c from e ;; cret (RplNonce r)
  | CmdResolve e st => r <~ handle_resolve e st ;; cret (RplUnit r)
  | CmdSync c from e n => r <~ handle_sync c from e n ;; cret (RplNonce r)
  end.

(** Source: [crate/actors/src/nonce/engine.rs] lines 20-56, [NonceEngine::run]. *)
Definition nonce_run : list NonceCommand → Comp NonceDb (list NonceReply) :=
  run_loop nonce_dispatch.

Definition take_nonce (r : NonceReply) : option (result TxNonce LocalError) :=
  match r with RplNonce r => Some r | RplUnit _ => None end.
Definition take_unit (r : NonceReply) : option (result unit LocalError) :=
  match r with RplUnit r => Some r | RplNonce _ => None end.

Definition nonce_closed : LocalError := LInternal "nonce actor has shut down".
Definition nonce_dropped : LocalError := LInternal "nonce actor has dropped the reply channel".

(** Source: [crate/actors/src/nonce/handle.rs] lines 52-74, [NonceHandle::reserve]. *)
Definition nonce_handle_reserve (d : delivery) (c : ChainId) (from : Address) (e : ExecutionId) :
    Comp NonceDb (result TxNonce LocalError) :=
  handle_call nonce_dispatch nonce_closed nonce_dropped take_nonce d (CmdReserve c from e).

(** Source: [crate/actors/src/nonce/handle.rs] lines 76-96, [NonceHandle::resolve]. *)
Definition nonce_handle_resolve (d : delivery) (e : ExecutionId) (st : NonceState) :
    Comp NonceDb (result unit LocalError) :=
  handle_call nonce_dispatch nonce_closed nonce_dropped take_unit d (CmdResolve e st).

(** Source: [crate/actors/src/nonce/handle.rs] lines 98-122, [NonceHandle::sync]. *)
Definition nonce_handle_sync (d : delivery) (c : ChainId) (from : Address) (e : ExecutionId)
    (n : TxNonce) : Comp NonceDb (result TxNonce LocalError) :=
  handle_call nonce_dispatch nonce_closed nonce_dropped take_nonce d (CmdSync c from e n).

(** ** The sweeper *)

(** A reserved row whose lease ended more than five seconds ago. *)
Definition sweepable (now : Z) (r : NonceRow) : bool :=
  bool_decide (nr_state r = NReserved) && (nr_updated_at r <? now - interval_secs 125).

(** Source: [lobby/src/bots/sweeper.rs] lines 55-62, [expire_states (SELECT)].
    The keys of [SELECT DISTINCT ON (execution_id) ... LIMIT 100]. *)
Definition sweep_targets (now : Z) (t : list NonceRow) : list (ExecutionId * Z) :=
  take 100 (t_pkey <$> distinct_latest (sweepable now) t).

(** Source: [lobby/src/bots/sweeper.rs] lines 52-65, [expire_states (UPDATE ... RETURNING)].
    The rows with the selected keys, in whatever state they are by now: the
    statement runs under READ COMMITTED without [FOR UPDATE], and its [WHERE]
    names only the keys, so a row that was resolved after the selection is
    released as well.  [now()] is the moment the statement [start]ed. *)
Definition expire_query (start : Z) (keys : list (ExecutionId * Z)) (now : Z) (locked : NonceRow → bool)
    (t : list NonceRow) : result (list ExecutionId * list NonceRow) SqlxError :=
  let hit r := bool_decide ((nr_execution_id r, nr_revision r) ∈ keys) in
  Ok (nr_execution_id <$> filter (λ r, hit r = true) t,
      (λ r, if hit r then nonce_set_state start NReleased r else r) <$> t).

(** Source: [lobby/src/bots/sweeper.rs] lines 47-77, [expire_states].
    The one statement in its two phases, between which other connections
    commit. *)
Definition expire_states : Comp NonceDb (result (Z * list ExecutionId) SqlxError) :=
  targets <-? stmt (select (λ now t, (now, sweep_targets now t))) ;;
  ids <-? stmt (expire_query targets.1 targets.2) ;;
  clift (Ok (Z.of_nat (length ids), ids)).

(** Source: [lobby/src/bots/sweeper.rs] lines 16-42, [spawn_sweeper_bot].
    [n] ticks of the 30-second interval; an error is logged and the loop goes
    on. *)
Fixpoint sweeper_bot (n : nat) : Comp NonceDb (list (result (Z * list ExecutionId) SqlxError)) :=
  match n with
  | O => cret []
  | S n' =>
      r <~ expire_states ;;
      _ <~ (λ db, (tt, mkDb (db_rows db) (db_clock db + interval_secs 30) (db_script db))) ;;
      rs <~ sweeper_bot n' ;;
      cret (r :: rs)
  end.

(** ** Constraint lemmas *)

Lemma t_ok_nonce (t : list NonceRow) :
  t_ok t = true ↔ NoDup (t_pkey <$> t) ∧ NoDup (omap active_key t).
Proof.
  simpl. unfold unique_on. rewrite andb_true_iff, !bool_decide_eq_true. done.
Qed.

Lemma nonce_set_state_pkey now st r : t_pkey (nonce_set_state now st r) = t_pkey r.
Proof. done. Qed.

Lemma nonce_set_state_fields now st r :
  nr_account (nonce_set_state now st r) = nr_account r ∧
  nr_nonce (nonce_set_state now st r) = nr_nonce r ∧
  nr_state (nonce_set_state now st r) = st.
Proof. done. Qed.

(** A rewrite of rows that keeps keys and never activates a row. *)
Lemma t_ok_map (f : NonceRow → NonceRow) t :
  (∀ r, r ∈ t → t_pkey (f r) = t_pkey r) →
  (∀ r, r ∈ t → active_key (f r) = None ∨ active_key (f r) = active_key r) →
  t_ok t = true → t_ok (f <$> t) = true.
Proof.
  rewrite !t_ok_nonce. intros Hk Ha [Hp Hu].
  split; [by rewrite (fmap_pkey_same f t Hk)|].
  eapply sublist_NoDup; [exact Hu|by apply omap_key_sublist].
Qed.

Lemma t_ok_update k now st t :
  nonce_active st = false ∨ (∀ r, r ∈ t → t_pkey r = k → nr_state r = NReserved) →
  t_ok t = true → t_ok (update_key k (nonce_set_state now st) t) = true.
Proof.
  intros Hst. apply t_ok_map.
  - intros r _. by case_bool_decide.
  - intros r Hr. case_bool_decide as Hk; [|by right].
    unfold active_key. cbn [nr_state nonce_set_state].
    destruct Hst as [-> | Hres]; [by left|]. rewrite (Hres r Hr Hk).
    destruct (nonce_active st) eqn:E; [by right|by left].
Qed.

Lemma t_ok_app t row :
  t_ok (t ++ [row]) = true ↔
  t_ok t = true ∧ (t_pkey row ∉ (t_pkey <$> t)) ∧
  (∀ k, active_key row = Some k → k ∉ omap active_key t).
Proof.
  rewrite !t_ok_nonce, fmap_app, omap_app, !list.NoDup_app. cbn [fmap list_fmap omap list_omap].
  split.
  - intros [(Hp & Hpr & _) (Hu & Hur & _)]. split_and!; [done..| |].
    + intros Hin. apply (Hpr _ Hin). by left.
    + intros k Hk Hin. apply (Hur _ Hin). rewrite Hk. by left.
  - intros ([Hp Hu] & Hf & Hk). split_and!; [done| | |done| |].
    + by intros k' Hk' ->%list_elem_of_singleton.
    + apply NoDup_singleton.
    + intros k' Hk' Hin. destruct (active_key row) as [k0|]; [|by apply elem_of_nil in Hin].
      apply list_elem_of_singleton in Hin as ->. by apply (Hk k0).
    + destruct (active_key row); [apply NoDup_singleton|apply NoDup_nil_2].
Qed.

Lemma new_nonce_row_fresh e chain from n now t :
  t_pkey (new_nonce_row e chain from n now t) ∉ (t_pkey <$> t).
Proof.
  intros (r & Hr & Hin)%list_elem_of_fmap. by apply (next_revision_fresh e t r) in Hin.
Qed.

(** Two active rows of an account with the same nonce are the same row. *)
Lemma active_rows_unique t r1 r2 :
  t_ok t = true → r1 ∈ t → r2 ∈ t →
  nonce_active (nr_state r1) = true → nonce_active (nr_state r2) = true →
  nr_account r1 = nr_account r2 → nr_nonce r1 = nr_nonce r2 → r1 = r2.
Proof.
  rewrite t_ok_nonce. intros [_ Hu] H1 H2 Ha1 Ha2 Hacc Hn.
  assert (Hk1 : active_key r1 = Some (nr_account r1, nr_nonce r1))
    by (unfold active_key; by rewrite Ha1).
  assert (Hk2 : active_key r2 = Some (nr_account r1, nr_nonce r1))
    by (unfold active_key; by rewrite Ha2, Hacc, Hn).
  by eapply (unique_on_inj active_key).
Qed.

Lemma active_key_elem (t : list NonceRow) r :
  r ∈ t → nonce_active (nr_state r) = true →
  (nr_account r, nr_nonce r) ∈ omap active_key t.
Proof.
  intros Hr Ha. apply list_elem_of_omap. exists r. split; [done|].
  unfold active_key. by rewrite Ha.
Qed.

Lemma of_account_true chain from r :
  of_account chain from r = true ↔ nr_account r = (chain, from).
Proof.
  unfold of_account, nr_account. rewrite andb_true_iff, !bool_decide_eq_true.
  split; [by intros [-> ->]|by intros [= -> ->]].
Qed.

(** The next sequential nonce is above every active nonce of the account. *)
Lemma max_nonce_ge chain from t r :
  r ∈ t → nr_account r = (chain, from) → nonce_active (nr_state r) = true →
  nr_nonce r ≤ max_nonce chain from t.
Proof.
  intros Hr Hacc Ha. unfold max_nonce.
  assert (Hin : nr_nonce r ∈ nr_nonce <$>
    filter (λ r, of_account chain from r && nonce_active (nr_state r) = true) t).
  { apply list_elem_of_fmap. exists r. split; [done|].
    apply list_elem_of_filter. split; [|done].
    rewrite Ha, andb_true_r. by apply of_account_true. }
  destruct (sql_max _) as [m|] eqn:Hm; simpl.
  - by apply (sql_max_ge _ _ Hm).
  - apply sql_max_None in Hm. rewrite Hm in Hin. by apply elem_of_nil in Hin.
Qed.

Lemma max_nonce_cases chain from t :
  (max_nonce chain from t = -1 ∧
     ∀ r, r ∈ t → nr_account r = (chain, from) → nonce_active (nr_state r) = false) ∨
  (∃ r, r ∈ t ∧ nr_account r = (chain, from) ∧ nonce_active (nr_state r) = true ∧
        nr_nonce r = max_nonce chain from t).
Proof.
  unfold max_nonce. destruct (sql_max _) as [m|] eqn:Hm; simpl.
  - right. apply sql_max_elem in Hm as (r & -> & Hr)%list_elem_of_fmap.
    apply list_elem_of_filter in Hr as [[Hacc Ha]%andb_true_iff Hr].
    exists r. split_and!; try done. by apply of_account_true.
  - left. split; [done|]. intros r Hr Hacc. apply sql_max_None in Hm.
    apply fmap_nil_inv in Hm.
    destruct (nonce_active (nr_state r)) eqn:Ha; [|done].
    assert (Hin : r ∈ filter (λ r, of_account chain from r && nonce_active (nr_state r) = true) t).
    { apply list_elem_of_filter. split; [|done]. rewrite Ha, andb_true_r.
      by apply of_account_true. }
    rewrite Hm in Hin. by apply elem_of_nil in Hin.
Qed.

Lemma target_release_Some chain from locked t r :
  target_release chain from locked t = Some r →
  r ∈ t ∧ nr_account r = (chain, from) ∧ nr_state r = NReleased ∧ locked r = false.
Proof.
  intros Ht. apply order_limit1_elem in Ht.
  apply list_elem_of_filter in Ht as [[Hr Hl]%andb_true_iff Hin].
  unfold released_row in Hr. apply andb_true_iff in Hr as [Hacc Hst].
  apply of_account_true in Hacc. apply bool_decide_eq_true in Hst.
  by apply negb_true_iff in Hl.
Qed.

Lemma target_release_min chain from locked t r r' :
  target_release chain from locked t = Some r →
  r' ∈ t → nr_account r' = (chain, from) → nr_state r' = NReleased → locked r' = false →
  nr_nonce r ≤ nr_nonce r'.
Proof.
  intros Ht Hr' Hacc Hst Hl. eapply order_limit1_minimal in Ht.
  - instantiate (1 := r') in Ht. unfold gap_before in Ht.
    apply orb_false_iff in Ht as [Ht _]. by apply Z.ltb_ge in Ht.
  - intros a b. unfold gap_before.
    rewrite orb_true_iff, orb_false_iff, andb_true_iff, andb_false_iff,
      !Z.ltb_lt, !Z.ltb_ge, Z.eqb_eq, Z.eqb_neq. lia.
  - intros a b c. unfold gap_before.
    rewrite !orb_true_iff, !andb_true_iff, !Z.ltb_lt, !Z.eqb_eq. lia.
  - apply list_elem_of_filter. split; [|done].
    unfold released_row. rewrite Hl, Hst, bool_decide_true, !andb_true_r by done.
    by apply of_account_true.
Qed.
