(* ===== verification/NonceSpec.v ===== *)
(** * What the nonce actor promises

    A transition system over the nonce table whose steps are the write
    statements of the nonce shards and of the sweeper, invariants of its
    reachable states, the refinement of the handlers to it, and the functional
    behaviour of each handler in a quiet environment. *)

From S2P Require Import Prelude Types Sql Nonce.

(** ** The transition system *)

(** A state: the clock and the table. *)
Abbreviation nstate := (Z * list NonceRow)%type.

(** The steps; [late] tells whether sweeps may act on a selection that is no
    longer true. *)
Inductive table_step (late : bool) : nstate → nstate → Prop :=
| nstep_tick now now' t : now ≤ now' → table_step late (now, t) (now', t)
| nstep_reserve now t e chain from locked v t' :
    commit (reserve_query e chain from) now locked t = Ok (v, t') →
    table_step late (now, t) (now, t')
| nstep_sync now t e chain from n locked v t' :
    0 ≤ n ≤ i64_max →
    commit (sync_query e chain from n) now locked t = Ok (v, t') →
    table_step late (now, t) (now, t')
| nstep_resolve now t e st locked v t' :
    st ≠ NReserved →
    commit (resolve_query e st) now locked t = Ok (v, t') →
    table_step late (now, t) (now, t')
| nstep_sweep now t locked v t' :
    commit (expire_query now (sweep_targets now t)) now locked t = Ok (v, t') →
    table_step late (now, t) (now, t')
| nstep_late_sweep start keys now t locked v t' :
    late = true → start ≤ now →
    commit (expire_query start keys) now locked t = Ok (v, t') →
    table_step late (now, t) (now, t').

Arguments nstep_tick {late}.
Arguments nstep_late_sweep {late}.

(** Anything the statements can do, and without the race of the sweeper. *)
Abbreviation nonce_step := (table_step true).
Abbreviation calm_step := (table_step false).

Lemma calm_step_step s s' : calm_step s s' → nonce_step s s'.
Proof. destruct 1; [..|done]; by econstructor. Qed.

Definition nonce_reachable : nstate → Prop := rtc nonce_step (0, []).

(** ** Rows only move forward *)

(** A late sweep also turns finalized and consumed rows into released ones. *)
Definition state_le (late : bool) (s s' : NonceState) : bool :=
  match s, s' with
  | NReserved, _ => true
  | NReleased, (NReleased | NConsumed) => true
  | NFinalized, NFinalized | NConsumed, NConsumed => true
  | NFinalized, (NReleased | NConsumed) | NConsumed, NReleased => late
  | _, _ => false
  end.

Section forward.
Context (late : bool).

(** [r'] is a later version of the row [r]. *)
Definition row_after (r r' : NonceRow) : Prop :=
  t_pkey r' = t_pkey r ∧ nr_account r' = nr_account r ∧ nr_nonce r' = nr_nonce r ∧
  state_le late (nr_state r) (nr_state r') = true.

Definition table_after (t t' : list NonceRow) : Prop :=
  ∀ r, r ∈ t → ∃ r', r' ∈ t' ∧ row_after r r'.

#[export] Instance row_after_preorder : PreOrder row_after.
Proof.
  split.
  - intros r. unfold row_after. split_and!; try done. by destruct (nr_state r), late.
  - intros r1 r2 r3 (Hk & Ha & Hn & Hs) (Hk' & Ha' & Hn' & Hs').
    unfold row_after. split_and!; try congruence.
    by destruct (nr_state r1), (nr_state r2), (nr_state r3), late.
Qed.

#[export] Instance table_after_preorder : PreOrder table_after.
Proof.
  split.
  - intros t r Hr. exists r. by split.
  - intros t1 t2 t3 H12 H23 r Hr. destruct (H12 r Hr) as (r2 & Hr2 & Ha).
    destruct (H23 r2 Hr2) as (r3 & Hr3 & Ha'). exists r3. split; [done|by etrans].
Qed.

Lemma table_after_map (f : NonceRow → NonceRow) t :
  (∀ r, r ∈ t → row_after r (f r)) → table_after t (f <$> t).
Proof.
  intros Hf r Hr. exists (f r). split; [|by apply Hf].
  apply list_elem_of_fmap. eauto.
Qed.

Lemma table_after_app t1 t2 row : table_after t1 t2 → table_after t1 (t2 ++ [row]).
Proof.
  intros H r Hr. destruct (H r Hr) as (r' & Hr' & Ha). exists r'. split; [|done].
  apply elem_of_app. by left.
Qed.

(** Moving the row with key [k] to [st] is a forward move if that row may move. *)
Lemma table_after_update k now st t :
  (∀ r, r ∈ t → t_pkey r = k → state_le late (nr_state r) st = true) →
  table_after t (update_key k (nonce_set_state now st) t).
Proof.
  intros Hst. apply table_after_map. intros r Hr. case_bool_decide as Hk; [|done].
  unfold row_after. split_and!; try done. by apply Hst.
Qed.

(** With unique keys, the row that a query selected is the only one with its key. *)
Lemma pkey_inj t r r' :
  t_ok t = true → r ∈ t → r' ∈ t → t_pkey r = t_pkey r' → r = r'.
Proof.
  rewrite t_ok_nonce. intros [Hp _]. by apply pkey_unique.
Qed.

Lemma consume_target_after chain from locked now t :
  t_ok t = true →
  table_after t (consume_target now (target_release chain from locked t) t).
Proof.
  intros Hok. destruct (target_release chain from locked t) as [r|] eqn:Ht; [|done].
  apply target_release_Some in Ht as (Hr & _ & Hst & _).
  apply table_after_update. intros r' Hr' Hk.
  apply (pkey_inj t) in Hk as ->; try done. by rewrite Hst.
Qed.

Lemma reserved_of_Some e locked t r :
  reserved_of e locked t = Some r →
  r ∈ t ∧ nr_execution_id r = e ∧ nr_state r = NReserved.
Proof.
  intros [Hr Hp]%latest_Some.
  rewrite !andb_true_iff, !bool_decide_eq_true in Hp. by destruct Hp as [[??]_].
Qed.

Lemma sweep_row_after now (keys : list (ExecutionId * Z)) (t : list NonceRow) r :
  (∀ r', r' ∈ t → (nr_execution_id r', nr_revision r') ∈ keys → nr_state r' = NReserved) →
  r ∈ t →
  row_after r (if bool_decide ((nr_execution_id r, nr_revision r) ∈ keys)
               then nonce_set_state now NReleased r else r).
Proof.
  intros Hk Hr. case_bool_decide as Hin; [|done].
  unfold row_after. split_and!; try done. by rewrite (Hk r Hr Hin).
Qed.

End forward.

(** The sweeper's keys name sweepable rows. *)
Lemma sweep_targets_elem now t k :
  k ∈ sweep_targets now t → ∃ r, r ∈ t ∧ t_pkey r = k ∧ sweepable now r = true.
Proof.
  intros Hk. unfold sweep_targets in Hk.
  apply elem_of_take in Hk as (i & Hk & _). apply list_elem_of_lookup_2 in Hk.
  apply list_elem_of_fmap in Hk as (r & -> & Hr). apply distinct_latest_elem in Hr.
  apply latest_Some in Hr as [Hr [_ Hs]%andb_true_iff]. by exists r.
Qed.

Lemma sweep_targets_reserved now t r :
  t_ok t = true → r ∈ t → t_pkey r ∈ sweep_targets now t →
  nr_state r = NReserved ∧ nr_updated_at r < now - interval_secs 125.
Proof.
  intros Hok Hr (r' & Hr' & Hk & Hs)%sweep_targets_elem.
  apply (pkey_inj t) in Hk as ->; try done.
  unfold sweepable in Hs. apply andb_true_iff in Hs as [H1 H2].
  by apply bool_decide_eq_true in H1; apply Z.ltb_lt in H2.
Qed.

(** Every step keeps the constraints and only moves rows forward. *)
Lemma nonce_step_after late now t now' t' :
  t_ok t = true → table_step late (now, t) (now', t') →
  t_ok t' = true ∧ table_after late t t' ∧ now ≤ now'.
Proof.
  intros Hok Hstep. inversion Hstep; subst; [done|..]; unfold commit in *;
    match goal with H : match ?b with _ => _ end = _ |- _ =>
      destruct b as [[a t'']|] eqn:Hq; [|done]; destruct (t_ok t'') eqn:Hok'; [|done] end;
    simplify_eq; (split_and!; [done| |lia]).
  - unfold reserve_query in Hq. destruct (has_lease _ _ _ _); simplify_eq.
    + by apply consume_target_after.
    + case_match; simplify_eq. by apply table_after_app, consume_target_after.
  - unfold sync_query in Hq. case_match; simplify_eq; [done|].
    case_match; simplify_eq. by apply table_after_app.
  - unfold resolve_query in Hq. destruct (reserved_of _ _ _) as [r|] eqn:Hr; simplify_eq; [|done].
    apply reserved_of_Some in Hr as (Hr & _ & Hst).
    apply table_after_update. intros r' Hr' Hk. apply (pkey_inj t) in Hk as ->; try done.
    by rewrite Hst.
  - unfold expire_query in Hq. simplify_eq. apply table_after_map. intros r Hr.
    apply (sweep_row_after _ _ _ t); [|done]. intros r' Hr' Hk.
    by apply (sweep_targets_reserved now' t) in Hk as [? _].
  - unfold expire_query in Hq. simplify_eq. apply table_after_map. intros r Hr. case_bool_decide; [|done].
    unfold row_after. split_and!; try done. by destruct (nr_state r).
Qed.

Lemma nonce_steps_after late now t now' t' :
  t_ok t = true → rtc (table_step late) (now, t) (now', t') →
  t_ok t' = true ∧ table_after late t t' ∧ now ≤ now'.
Proof.
  intros Hok Hsteps. remember (now, t) as s eqn:Hs. remember (now', t') as s' eqn:Hs'.
  revert now t Hok Hs. induction Hsteps as [s|s [now1 t1] s' Hstep _ IH];
    intros now t Hok ->; [by simplify_eq|].
  destruct (nonce_step_after _ _ _ _ _ Hok Hstep) as (Hok1 & Ha & Hle).
  destruct (IH Hs' now1 t1 Hok1 eq_refl) as (Hok' & Ha' & Hle').
  split_and!; [done|by etrans|lia].
Qed.

(** ** Invariants of the reachable states *)

Definition row_bounded (now : Z) (r : NonceRow) : Prop :=
  0 ≤ nr_nonce r ≤ i64_max ∧ nr_revision r ≤ i64_max ∧ nr_updated_at r ≤ now.

Definition table_bounded (now : Z) (t : list NonceRow) : Prop :=
  ∀ r, r ∈ t → row_bounded now r.

Lemma row_bounded_set_state now st r :
  row_bounded now r → row_bounded now (nonce_set_state now st r).
Proof.
  unfold row_bounded. simpl. intros (? & ? & ?). split_and!; try lia.
  case_decide; lia.
Qed.

Lemma table_bounded_map now (f : NonceRow → NonceRow) t :
  (∀ r, row_bounded now r → row_bounded now (f r)) →
  table_bounded now t → table_bounded now (f <$> t).
Proof. intros Hf Ht r' (r & -> & Hr)%list_elem_of_fmap. by apply Hf, Ht. Qed.

Lemma table_bounded_update now k st t :
  table_bounded now t → table_bounded now (update_key k (nonce_set_state now st) t).
Proof.
  apply table_bounded_map. intros r Hr. case_bool_decide; [|done].
  by apply row_bounded_set_state.
Qed.

Lemma table_bounded_consume now target t :
  table_bounded now t → table_bounded now (consume_target now target t).
Proof. destruct target; [apply table_bounded_update|done]. Qed.

Lemma table_bounded_new now e chain from n t t' :
  0 ≤ n ≤ i64_max → next_revision e t ≤ i64_max →
  table_bounded now t' → table_bounded now (t' ++ [new_nonce_row e chain from n now t]).
Proof.
  intros Hn Hrev Ht r [Hr| ->%list_elem_of_singleton]%elem_of_app; [by apply Ht|].
  unfold row_bounded; simpl. split_and!; lia.
Qed.

Lemma in_i64_le z : in_i64 z = true → z ≤ i64_max.
Proof. unfold in_i64. rewrite andb_true_iff, !Z.leb_le. lia. Qed.

Lemma max_nonce_bound now chain from t :
  table_bounded now t → -1 ≤ max_nonce chain from t ≤ i64_max.
Proof.
  intros Ht. destruct (max_nonce_cases chain from t) as [[-> _]|(r & Hr & _ & _ & <-)].
  - unfold i64_max. lia.
  - destruct (Ht r Hr). lia.
Qed.

Lemma nonce_step_bounded late now t now' t' :
  table_bounded now t → table_step late (now, t) (now', t') → table_bounded now' t'.
Proof.
  intros Ht Hstep. inversion Hstep; subst;
    [intros r Hr; destruct (Ht r Hr) as (?&?&?); unfold row_bounded; split_and!; lia|..];
    unfold commit in *;
    match goal with H : match ?b with _ => _ end = _ |- _ =>
      destruct b as [[a t'']|] eqn:Hq; [|done]; destruct (t_ok t''); [|done] end; simplify_eq.
  - unfold reserve_query in Hq. destruct (has_lease _ _ _ _); simplify_eq;
      [by apply table_bounded_consume|].
    destruct (in_i64 _) eqn:Hn; [|done]; destruct (in_i64 (nr_revision _)) eqn:Hrev; [|done].
    simplify_eq/=. apply table_bounded_new; [split|by apply in_i64_le|by apply table_bounded_consume].
    + destruct (target_release _ _ _ _) as [r|] eqn:Htr.
      * apply target_release_Some in Htr as (Hr & _). by apply Ht.
      * pose proof (max_nonce_bound _ chain from _ Ht). lia.
    + by apply in_i64_le.
  - unfold sync_query in Hq. destruct (_ || _); simplify_eq; [done|].
    destruct (in_i64 _) eqn:Hrev; [|done]. simplify_eq.
    apply table_bounded_new; [done|by apply in_i64_le|done].
  - unfold resolve_query in Hq. destruct (reserved_of _ _ _); simplify_eq; [|done].
    by apply table_bounded_update.
  - unfold expire_query in Hq. simplify_eq. apply table_bounded_map; [|done].
    intros r Hr. case_match; [by apply row_bounded_set_state|done].
  - unfold expire_query in Hq. simplify_eq. apply table_bounded_map; [|done].
    intros r Hr. case_match; [|done]. unfold row_bounded in *. simpl. destruct Hr as (? & ? & ?).
    split_and!; try lia. destruct (decide (nr_state r = NReleased)); lia.
Qed.

Lemma nonce_reachable_inv now t :
  nonce_reachable (now, t) → t_ok t = true ∧ table_bounded now t.
Proof.
  intros Hr. change (t_ok (now, t).2 = true ∧ table_bounded (now, t).1 (now, t).2).
  generalize dependent (now, t). apply rtc_ind_r.
  - split; [done|]. by intros r ?%elem_of_nil.
  - intros [now1 t1] [now2 t2] _ Hstep [Hok Hb]; simpl in *.
    destruct (nonce_step_after _ _ _ _ _ Hok Hstep) as [? _].
    split; [done|by eapply nonce_step_bounded].
Qed.

(** ** The handlers are sequences of steps *)

(** An environment whose interference between two statements of one handler
    consists of statements of the other shards and of the sweeper. *)
Definition respectful_in (late : bool) (q : qenv NonceRow) : Prop :=
  ∀ now t, t_ok t = true → rtc (table_step late) (now, t) (now, interfere q t).

Definition env_respectful_in (late : bool) (db : NonceDb) : Prop :=
  Forall (respectful_in late) (db_script db) ∧ t_ok (db_rows db) = true.

Definition db_state (db : NonceDb) : nstate := (db_clock db, db_rows db).

Definition refines_in (late : bool) {A} (c : Comp NonceDb A) : Prop :=
  ∀ db, env_respectful_in late db →
    env_respectful_in late (c db).2 ∧ rtc (table_step late) (db_state db) (db_state (c db).2).

Abbreviation respectful := (respectful_in true).
Abbreviation env_respectful := (env_respectful_in true).
Abbreviation refines_steps := (refines_in true).

Section refines.
Context {late : bool}.
#[local] Abbreviation refines_steps := (refines_in late).
#[local] Abbreviation nonce_step := (table_step late).

Lemma refines_cret {A} (a : A) : refines_steps (cret a).
Proof. intros db Hdb. split; [done|apply rtc_refl]. Qed.

Lemma refines_cbind {A B} (c : Comp NonceDb A) (k : A → Comp NonceDb B) :
  refines_steps c → (∀ a, refines_steps (k a)) → refines_steps (cbind c k).
Proof.
  intros Hc Hk db Hdb. unfold cbind. destruct (Hc db Hdb) as [Hdb' Hst].
  destruct (c db) as [a db'] eqn:E. simpl in *. destruct (Hk a db' Hdb') as [Hdb'' Hst'].
  split; [done|by etrans].
Qed.

Lemma refines_cbind_ok {A B E} (c : Comp NonceDb (result A E)) (k : A → Comp NonceDb (result B E)) :
  refines_steps c → (∀ a, refines_steps (k a)) → refines_steps (cbind_ok c k).
Proof.
  intros Hc Hk db Hdb. unfold cbind_ok. destruct (Hc db Hdb) as [Hdb' Hst].
  destruct (c db) as [[a|e] db'] eqn:E'; simpl in *; [|done].
  destruct (Hk a db' Hdb') as [Hdb'' Hst']. split; [done|by etrans].
Qed.

Lemma refines_cmap_err {A E F} (f : E → F) (c : Comp NonceDb (result A E)) :
  refines_steps c → refines_steps (cmap_err f c).
Proof.
  intros Hc db Hdb. unfold cmap_err. destruct (Hc db Hdb) as [Hdb' Hst].
  by destruct (c db) as [r db'].
Qed.

Lemma stmt_steps {A} (b : Z → (NonceRow → bool) → list NonceRow → result (A * list NonceRow) SqlxError) db :
  env_respectful_in late db →
  (∀ now locked t v t', db_clock db ≤ now → commit b now locked t = Ok (v, t') →
     rtc nonce_step (now, t) (now, t')) →
  env_respectful_in late (stmt b db).2 ∧ rtc nonce_step (db_state db) (db_state (stmt b db).2).
Proof.
  intros [Hscript Hok] Hb. destruct (stmt b db) as [r db'] eqn:Hs.
  pose proof (stmt_ok b db Hok) as Hok'. rewrite Hs in Hok'.
  apply stmt_cases in Hs. unfold next_env in Hs.
  assert (Hq : ∃ q qs, match db_script db with [] => (quiet, []) | q :: qs => (q, qs) end
            = (q, qs) ∧ respectful_in late q ∧ Forall (respectful_in late) qs).
  { destruct (db_script db) as [|q qs]; [exists quiet, []|exists q, qs].
    - split_and!; [done| |done]. intros now t Ht. unfold interfere; simpl. unfold id.
      by case_match; apply rtc_refl.
    - by inversion Hscript; subst. }
  destruct Hq as (q & qs & Heq & Hq & Hqs). rewrite Heq in Hs.
  destruct Hs as (Hclk & Hscr & Hrows). simpl. split.
  - split; [by rewrite Hscr|done].
  - unfold db_state. rewrite Hclk.
    etrans; [eapply rtc_once, (nstep_tick _ (db_clock db + Z.max 0 (q_elapse q))); lia|].
    etrans; [by apply Hq|].
    destruct Hrows as [[-> _]|(a & t' & Hbt & Hokt & -> & _)]; [apply rtc_refl|].
    apply (Hb _ (is_locked q) _ a); [lia|]. unfold commit. by rewrite Hbt, Hokt.
Qed.

Lemma refines_stmt {A} (b : Z → (NonceRow → bool) → list NonceRow → result (A * list NonceRow) SqlxError) :
  (∀ now locked t v t', commit b now locked t = Ok (v, t') →
     rtc nonce_step (now, t) (now, t')) →
  refines_steps (stmt b).
Proof. intros Hb db Hdb. apply stmt_steps; [done|]. intros. by eapply Hb. Qed.

Lemma refines_select {A} (f : Z → list NonceRow → A) : refines_steps (stmt (select f)).
Proof.
  apply refines_stmt. intros now locked t v t'. unfold commit, select.
  destruct (t_ok t); intros; simplify_eq. apply rtc_refl.
Qed.

Lemma refines_reserve e chain from : refines_steps (stmt (reserve_query e chain from)).
Proof. apply refines_stmt. intros. eapply rtc_once, nstep_reserve. done. Qed.

Lemma refines_sync e chain from n :
  0 ≤ n ≤ i64_max → refines_steps (stmt (sync_query e chain from n)).
Proof. intros Hn. apply refines_stmt. intros. by eapply rtc_once, nstep_sync. Qed.

Lemma refines_resolve e st : st ≠ NReserved → refines_steps (stmt (resolve_query e st)).
Proof. intros Hst. apply refines_stmt. intros. by eapply rtc_once, nstep_resolve. Qed.

End refines.

(** A sweep, whatever the others commit between its two phases. *)
Lemma refines_sweep : refines_steps expire_states.
Proof.
  intros db Hdb. unfold expire_states, cbind_ok.
  destruct (refines_select (late := true) (λ now t, (now, sweep_targets now t)) db Hdb) as [Hdb1 Hst1].
  destruct (stmt (select _) db) as [[[start keys]|e] db1] eqn:Hs; simpl in *; [|done].
  assert (Hstart : start ≤ db_clock db1).
  { apply stmt_cases in Hs. destruct (next_env db) as [q qs]. destruct Hs as (-> & _ & Hs).
    destruct Hs as [[_ Hn]|(a & t' & Hsel & _ & _ & [[= <-]|Hn])]; [done| |done].
    injection Hsel as <- _. done. }
  destruct (stmt_steps (late := true) (expire_query start keys) db1 Hdb1) as [Hdb2 Hst2].
  { intros now locked t v t' Hnow Hc. eapply rtc_once, nstep_late_sweep; [done| |exact Hc]. lia. }
  destruct (stmt (expire_query start keys) db1) as [[ids|e] db2]; simpl in *; (split; [done|by etrans]).
Qed.

Create HintDb nonce_refine.
#[export] Hint Resolve refines_cret refines_cmap_err refines_select refines_reserve
  refines_resolve refines_sweep : nonce_refine.

(** Walks through a handler, statement by statement. *)
Ltac refine_handler :=
  repeat first
    [ solve [eauto with nonce_refine]
    | apply refines_cbind_ok; [|intros ?]
    | apply refines_cbind; [|intros ?]
    | apply refines_cmap_err
    | match goal with
      | |- refines_in _ (clift _) => apply refines_cret
      | |- refines_in _ (match ?x with _ => _ end) => destruct x
      | |- refines_in _ (if ?x then _ else _) => destruct x
      end ].

(** Nonces are unsigned in the code. *)
Definition nonce_command_ok (cmd : NonceCommand) : Prop :=
  match cmd with CmdSync _ _ _ n => 0 ≤ nonce_u256 n | _ => True end.

Section dispatch.
Context {late : bool}.
#[local] Abbreviation refines_steps := (refines_in late).

Lemma refines_clift_ok {A B E} (a : A) (k : A → Comp NonceDb (result B E)) :
  refines_steps (k a) → refines_steps (cbind_ok (clift (Ok a)) k).
Proof. done. Qed.

Lemma refines_clift_err {A B E} (e : E) (k : A → Comp NonceDb (result B E)) :
  refines_steps (cbind_ok (clift (Err e)) k).
Proof. apply (refines_cret (Err e)). Qed.

Lemma handle_sync_refines chain_id from e n :
  0 ≤ nonce_u256 n → refines_steps (handle_sync chain_id from e n).
Proof.
  intros Hn. unfold handle_sync. apply refines_cbind_ok; [apply refines_cret|intros chain].
  unfold u256_try_i64. destruct (Z.leb_spec (nonce_u256 n) i64_max).
  - apply refines_clift_ok. apply refines_cbind_ok; [|intros; refine_handler].
    by apply refines_cmap_err, refines_sync.
  - apply refines_clift_err.
Qed.

#[local] Hint Resolve handle_sync_refines : nonce_refine.

Lemma nonce_dispatch_refines cmd :
  nonce_command_ok cmd → refines_steps (nonce_dispatch cmd).
Proof.
  destruct cmd as [c from e|e st|c from e n]; simpl; intros Hcmd.
  - unfold handle_reserve. refine_handler.
  - unfold handle_resolve. destruct st; refine_handler; by apply refines_resolve.
  - refine_handler.
Qed.
End dispatch.

#[export] Hint Resolve handle_sync_refines : nonce_refine.
