(* ===== verification/NonceProps.v ===== *)
(** * Properties of the nonce actor

    Safety under any interleaving with the other shards and the sweeper, and
    the functional behaviour of each command when it runs alone. *)


From stdpp Require Import sorting.
From S2P Require Import Prelude Types Sql Actor Nonce NonceSpec.

(** ** Vocabulary of the statements *)

(** A database that nobody else uses. *)
Abbreviation idle t now := (mkDb (Row := NonceRow) t now []).
Abbreviation unlocked := (λ _ : NonceRow, false).

(** A database in a reachable state, whose environment is respectful. *)
Definition db_reachable (db : NonceDb) : Prop :=
  env_respectful db ∧ nonce_reachable (db_state db).

Definition alloc_nonce (chain : Z) (from : Address) (t : list NonceRow) : Z :=
  match target_release chain from unlocked t with
  | Some r => nr_nonce r
  | None => max_nonce chain from t + 1
  end.

(** No active row of the account holds [n]. *)
Definition nonce_free (chain : Z) (from : Address) (n : Z) (t : list NonceRow) : Prop :=
  ∀ r, r ∈ t → nr_account r = (chain, from) → nonce_active (nr_state r) = true → nr_nonce r ≠ n.

#[export] Instance nonce_free_dec chain from n t : Decision (nonce_free chain from n t).
Proof.
  refine (cast_if (decide (Forall (λ r, ¬ (nr_account r = (chain, from) ∧
    nonce_active (nr_state r) = true ∧ nr_nonce r = n)) t))); rewrite list.Forall_forall in *;
    unfold nonce_free; naive_solver.
Defined.

(** [e] has no row yet. *)
Definition unseen (e : ExecutionId) (t : list NonceRow) : Prop :=
  ∀ r, r ∈ t → nr_execution_id r ≠ e.

Definition no_released (chain : Z) (from : Address) (t : list NonceRow) : Prop :=
  target_release chain from unlocked t = None.

(** Another reservation of the nonce, still within its five minutes. *)
Definition sync_taken (now chain : Z) (from : Address) (n : Z) (t : list NonceRow) : Prop :=
  ∃ r, r ∈ t ∧ nr_account r = (chain, from) ∧ nr_nonce r = n ∧ nr_state r = NReserved ∧
       now - interval_secs 300 < nr_updated_at r.

(** ** Helpers *)

Lemma nonce_run_refines_steps {late} cmds :
  Forall nonce_command_ok cmds → refines_in late (nonce_run cmds).
Proof.
  unfold nonce_run. induction 1 as [|cmd cmds Hcmd _ IH]; simpl; [apply refines_cret|].
  apply refines_cbind; [by apply nonce_dispatch_refines|intros reply].
  apply refines_cbind; [done|intros replies]. apply refines_cret.
Qed.

Lemma refines_reachable {A} (c : Comp NonceDb A) db :
  refines_steps c → db_reachable db → db_reachable (c db).2.
Proof.
  intros Hc [Henv Hr]. destruct (Hc db Henv) as [Henv' Hst].
  split; [done|by apply (rtc_trans _ _ _ Hr Hst)].
Qed.

Lemma db_reachable_inv db :
  db_reachable db → t_ok (db_rows db) = true ∧ table_bounded (db_clock db) (db_rows db).
Proof. intros [_ Hr]. by apply nonce_reachable_inv in Hr. Qed.

Lemma active_of_Some e t r :
  active_of e t = Some r →
  r ∈ t ∧ nr_execution_id r = e ∧ nonce_active (nr_state r) = true.
Proof.
  intros [Hr Hp]%latest_Some. apply andb_true_iff in Hp as [He Ha].
  by apply bool_decide_eq_true in He.
Qed.

(** A successful reply of a single-statement computation comes from the
    statement's body. *)
Lemma stmt_ok_inv {Row A} `{SqlTable Row} (b : Z → (Row → bool) → list Row → result (A * list Row) SqlxError)
    db a db' :
  stmt b db = (Ok a, db') →
  ∃ now locked t, b now locked t = Ok (a, db_rows db') ∧ db_clock db' = now ∧
    t_ok (db_rows db') = true.
Proof.
  intros Hs. apply stmt_cases in Hs. destruct (next_env db) as [q qs].
  destruct Hs as (Hclk & _ & [[_ ?]|(a' & t' & Hb & Hok & Hrows & Hr)]); [done|].
  destruct Hr as [[= ->]|?]; [|done].
  exists (db_clock db + Z.max 0 (q_elapse q)), (is_locked q), (interfere q (db_rows db)).
  by rewrite Hrows.
Qed.

Lemma cmap_err_ok_inv {S A E F} (f : E → F) (c : Comp S (result A E)) s a s' :
  cmap_err f c s = (Ok a, s') → c s = (Ok a, s').
Proof. unfold cmap_err. destruct (c s) as [[x|x] s1]; simpl; congruence. Qed.

Lemma cbind_ok_inv {S A B E} (c : Comp S (result A E)) (k : A → Comp S (result B E)) s b s' :
  cbind_ok c k s = (Ok b, s') → ∃ a s1, c s = (Ok a, s1) ∧ k a s1 = (Ok b, s').
Proof. unfold cbind_ok. destruct (c s) as [[x|x] s1]; [eauto|congruence]. Qed.

(** Takes apart a handler run that returned [Ok]. *)
Ltac ok_inv :=
  repeat match goal with
  | H : cbind_ok _ _ _ = (Ok _, _) |- _ =>
      apply cbind_ok_inv in H as (? & ? & ? & H)
  | H : cmap_err _ _ _ = (Ok _, _) |- _ => apply cmap_err_ok_inv in H
  | H : clift (Ok _) _ = (Ok _, _) |- _ => unfold clift, cret in H
  | H : clift (Err _) _ = (Ok _, _) |- _ => discriminate H
  | H : clift _ _ = (Ok _, _) |- _ => unfold clift, cret in H
  | H : (_, _) = (_, _) |- _ => injection H as ? ?
  end; subst.

Lemma TxNonce_reply_bounded now t r n :
  table_bounded now t → r ∈ t → TxNonce_try_from (nr_nonce r) = Ok n → nonce_u256 n = nr_nonce r.
Proof.
  intros Ht Hr Hn. destruct (Ht r Hr) as [[_ Hb] _].
  apply TxNonce_try_from_Ok in Hn as [_ ->]; done.
Qed.

Definition command_execution (cmd : NonceCommand) : ExecutionId :=
  match cmd with CmdReserve _ _ e | CmdResolve e _ | CmdSync _ _ e _ => e end.

(** The row a query inserted is in the table it commits. *)
Lemma reserve_query_row e chain from now locked t n rev t' :
  reserve_query e chain from now locked t = Ok (Some (n, rev), t') →
  ∃ r, r ∈ t' ∧ nr_execution_id r = e ∧ nr_state r = NReserved ∧ nr_nonce r = n.
Proof.
  unfold reserve_query. destruct (has_lease _ _ _ _); [done|].
  destruct (_ && _); intros; simplify_eq.
  eexists. split; [apply elem_of_app; right; apply list_elem_of_here|done].
Qed.

Lemma sync_query_row e chain from n0 now locked t n rev t' :
  sync_query e chain from n0 now locked t = Ok (Some (n, rev), t') →
  ∃ r, r ∈ t' ∧ nr_execution_id r = e ∧ nr_state r = NReserved ∧ nr_nonce r = n.
Proof.
  unfold sync_query. destruct (_ || _); [done|].
  destruct (in_i64 _); intros; simplify_eq.
  eexists. split; [apply elem_of_app; right; apply list_elem_of_here|done].
Qed.

(** The fallback [SELECT] of both handlers answers a row of the table. *)
Lemma select_active_inv e db o db' :
  stmt (select (λ _ t, active_of e t)) db = (Ok o, db') → o = active_of e (db_rows db').
Proof. intros (now & locked & t & Hq & _)%stmt_ok_inv. by injection Hq as <- <-. Qed.

Definition backed (e : ExecutionId) (n : TxNonce) (t : list NonceRow) : Prop :=
  ∃ r, r ∈ t ∧ nr_execution_id r = e ∧ nonce_active (nr_state r) = true ∧
       TxNonce_try_from (nr_nonce r) = Ok n.

Lemma backed_reserved e n t r :
  r ∈ t → nr_execution_id r = e → nr_state r = NReserved →
  TxNonce_try_from (nr_nonce r) = Ok n → backed e n t.
Proof. intros ? ? Hst ?. exists r. by rewrite Hst. Qed.

Lemma backed_active_of e n t r :
  active_of e t = Some r → TxNonce_try_from (nr_nonce r) = Ok n → backed e n t.
Proof. intros (? & ? & ?)%active_of_Some ?. by exists r. Qed.

Lemma handle_reserve_backed c from e db n db' :
  handle_reserve c from e db = (Ok n, db') → backed e n (db_rows db').
Proof.
  unfold handle_reserve. intros Hrun. ok_inv.
  match type of Hrun with match ?o with _ => _ end _ = _ => destruct o as [[n' rev]|] end.
  - ok_inv. match goal with H : stmt _ _ = _ |- _ =>
      apply stmt_ok_inv in H as (now & locked & t & Hq & _) end.
    apply reserve_query_row in Hq as (r & Hr & He & Hst & <-). by eapply backed_reserved.
  - ok_inv. match goal with H : stmt (select _) _ = _ |- _ => apply select_active_inv in H as -> end.
    match type of Hrun with match ?o with _ => _ end _ = _ => destruct o as [r|] eqn:Ha end; ok_inv.
    by eapply backed_active_of.
Qed.

Lemma handle_sync_backed c from e n0 db n db' :
  handle_sync c from e n0 db = (Ok n, db') → backed e n (db_rows db').
Proof.
  unfold handle_sync. intros Hrun. ok_inv.
  match type of Hrun with match ?o with _ => _ end _ = _ => destruct o as [[n' rev]|] end.
  - ok_inv. match goal with H : stmt _ _ = _ |- _ =>
      apply stmt_ok_inv in H as (now & locked & t & Hq & _) end.
    apply sync_query_row in Hq as (r & Hr & He & Hst & <-). by eapply backed_reserved.
  - ok_inv. match goal with H : stmt (select _) _ = _ |- _ => apply select_active_inv in H as -> end.
    match type of Hrun with match ?o with _ => _ end _ = _ => destruct o as [r|] eqn:Ha end; ok_inv.
    by eapply backed_active_of.
Qed.


(** ** Concrete tables for the witnesses *)

Definition ex_chain : ChainId := mkChainId 1.
Definition ex_e1 : ExecutionId := mkExecutionId 1.
Definition ex_e2 : ExecutionId := mkExecutionId 2.
Definition ex_e3 : ExecutionId := mkExecutionId 3.
Definition ex_row (e : ExecutionId) (n : Z) (st : NonceState) : NonceRow :=
  mkNonceRow e 1 1 [] n st 0 0.

(** A database whose next two statements are slow, and the second loses its
    reply. *)
Definition ex_db : NonceDb :=
  mkDb [] 0 [mkQenv 1000000 id [] NoFault; mkQenv 5 id [] (FailAfter "connection reset")].
Definition ex_db1 : NonceDb := (handle_reserve ex_chain [] ex_e1 (idle [] 0)).2.

Lemma id_respectful d locked f : respectful (mkQenv d id locked f).
Proof.
  intros now t Hok. unfold interfere. simpl. unfold id. case_match; apply rtc_refl.
Qed.

Lemma ex_db_reachable : db_reachable ex_db.
Proof.
  split; [split; [|done]|apply rtc_refl]. repeat constructor; apply id_respectful.
Qed.

Lemma ex_db1_reachable : db_reachable ex_db1.
Proof.
  apply (refines_reachable (handle_reserve ex_chain [] ex_e1)).
  - unfold handle_reserve. refine_handler.
  - split; [split; [by constructor|done]|apply rtc_refl].
Qed.

(** Facts about a concrete table. *)
Ltac each_row :=
  match goal with
  | |- ∀ r : NonceRow, r ∈ _ → _ => intros r Hr; unfold ex_row in *;
      repeat (apply elem_of_cons in Hr as [->|Hr]; [vm_compute; intuition congruence|]);
      by apply elem_of_nil in Hr
  end.
Ltac solve_table :=
  unfold table_bounded, nonce_free, unseen, no_released in *;
  first [ reflexivity
        | each_row
        | match goal with |- NoDup _ => solve [apply (bool_decide_unpack _); vm_compute; exact I] end
        | solve [repeat (apply list.Forall_cons; split; [each_row|]); apply list.Forall_nil; done]
        | solve [vm_compute; intuition congruence]
        | solve [vm_compute; repeat constructor] ].

(** ** Safety *)

(** C9: whatever commands a shard serves, from a reachable table and with the
    other shards and the sweeper running any of their statements in between,
    lost statements and lost replies included: every command is answered, the
    state stays reachable, and no two rows of an account ever hold the same
    nonce actively (reserved or finalized). *)
Theorem nonce_run_exclusive cmds db :
  Forall nonce_command_ok cmds → db_reachable db →
  length (nonce_run cmds db).1 = length cmds ∧
  db_reachable (nonce_run cmds db).2 ∧
  ∀ r1 r2, r1 ∈ db_rows (nonce_run cmds db).2 → r2 ∈ db_rows (nonce_run cmds db).2 →
    nonce_active (nr_state r1) = true → nonce_active (nr_state r2) = true →
    nr_account r1 = nr_account r2 → nr_nonce r1 = nr_nonce r2 → r1 = r2.
Proof.
  intros Hcmds Hdb. split; [apply run_loop_length|].
  assert (Hr : db_reachable (nonce_run cmds db).2)
    by (apply refines_reachable; [by apply nonce_run_refines_steps|done]).
  split; [done|]. apply db_reachable_inv in Hr as [Hok _]. intros. by eapply active_rows_unique.
Qed.

Lemma nonce_run_exclusive_witness :
  length (nonce_run [CmdReserve ex_chain [] ex_e1; CmdResolve ex_e1 NReleased] ex_db).1 = 2%nat ∧
  db_reachable (nonce_run [CmdReserve ex_chain [] ex_e1; CmdResolve ex_e1 NReleased] ex_db).2.
Proof.
  destruct (nonce_run_exclusive [CmdReserve ex_chain [] ex_e1; CmdResolve ex_e1 NReleased] ex_db)
    as (H1 & H2 & _); [by repeat constructor|apply ex_db_reachable|done].
Defined.

(** C25: whatever commands a shard serves and whatever the other shards and the
    sweeper do in between, an execution's row is never lost, keeps its account
    and its nonce, is never reserved again once it was resolved, and becomes
    finalized only from reserved; a released row stays released or becomes
    consumed.  As long as no sweep acts on a selection made before a row was
    resolved ([late] is false), finalized and consumed are for ever; a sweep
    that does ([late] is true; the [UPDATE] of [expire_states] does not look at
    the state again, see [late_sweep_frees_finalized]) releases such a row. *)
Theorem nonce_rows_forward late cmds db r :
  Forall nonce_command_ok cmds → env_respectful_in late db → r ∈ db_rows db →
  ∃ r', r' ∈ db_rows (nonce_run cmds db).2 ∧ t_pkey r' = t_pkey r ∧
    nr_account r' = nr_account r ∧ nr_nonce r' = nr_nonce r ∧
    (nr_state r' = NReserved → nr_state r = NReserved) ∧
    (nr_state r' = NFinalized → nr_state r = NReserved ∨ nr_state r = NFinalized) ∧
    (nr_state r = NReleased → nr_state r' = NReleased ∨ nr_state r' = NConsumed) ∧
    (late = false →
      (nr_state r = NFinalized → nr_state r' = NFinalized) ∧
      (nr_state r = NConsumed → nr_state r' = NConsumed)).
Proof.
  intros Hcmds Hdb Hr. pose proof (proj2 Hdb) as Hok.
  destruct (nonce_run_refines_steps cmds Hcmds db Hdb) as [_ Hst].
  apply nonce_steps_after in Hst as (_ & Ha & _); [|done].
  destruct (Ha r Hr) as (r' & Hr' & Hk & Hacc & Hn & Hle). exists r'.
  do 4 (split; [done|]). destruct (nr_state r), (nr_state r'); simpl in Hle; (split_and!; auto; try done);
    intros ->; by split.
Qed.

Lemma nonce_rows_forward_witness :
  ∃ r', r' ∈ db_rows (nonce_run [CmdSync ex_chain [] ex_e2 (mkTxNonce 7)] ex_db1).2 ∧
    t_pkey r' = (ex_e1, 1).
Proof.
  destruct (nonce_rows_forward true [CmdSync ex_chain [] ex_e2 (mkTxNonce 7)] ex_db1
              (mkNonceRow ex_e1 1 1 [] 0 NReserved 0 0)) as (r' & H1 & H2 & _).
  - by repeat constructor.
  - apply ex_db1_reachable.
  - vm_compute. left.
  - exists r'. by split.
Defined.

(** The race of the sweeper: between its two phases another connection
    finalizes the row it has selected (the receipt was found after 126 s); the
    finalized nonce, which is on the chain, is released all the same, and the
    next execution of the account is given it again. *)
Definition late_sweep : Comp NonceDb (result TxNonce LocalError) := λ db,
  let finalize : qenv NonceRow :=
    mkQenv 0 (λ t, db_rows (handle_resolve ex_e1 NFinalized (idle t (interval_secs 126))).2) [] NoFault in
  let db1 := mkDb (db_rows db) (interval_secs 126) [quiet; finalize] in
  (_ <~ expire_states ;; handle_reserve ex_chain [] ex_e2) db1.

Lemma late_sweep_frees_finalized :
  late_sweep (idle [ex_row ex_e1 0 NReserved] 0) =
  (Ok (mkTxNonce 0),
   idle [mkNonceRow ex_e1 1 1 [] 0 NConsumed 0 (interval_secs 126);
         mkNonceRow ex_e2 1 1 [] 0 NReserved (interval_secs 126) (interval_secs 126)] (interval_secs 126)).
Proof. vm_compute. reflexivity. Qed.

(** C10: a nonce that [reserve] or [sync] answers is really held: when the
    answer is sent, the table has an active row of that execution with exactly
    that nonce. *)
Theorem nonce_reply_backed cmd db n db' :
  nonce_command_ok cmd → db_reachable db →
  nonce_dispatch cmd db = (RplNonce (Ok n), db') →
  ∃ r, r ∈ db_rows db' ∧ nr_execution_id r = command_execution cmd ∧
       nonce_active (nr_state r) = true ∧ nr_nonce r = nonce_u256 n.
Proof.
  intros Hcmd Hdb Hrun.
  assert (Hdb' : db_reachable db').
  { change db' with (RplNonce (Ok n), db').2. rewrite <- Hrun.
    apply refines_reachable; [by apply nonce_dispatch_refines|done]. }
  assert (Hb : backed (command_execution cmd) n (db_rows db')).
  { destruct cmd as [c from e|e st|c from e n0]; simpl in *; unfold cbind, cret in Hrun.
    - destruct (handle_reserve c from e db) as [r db1] eqn:Hh; simplify_eq.
      by eapply handle_reserve_backed.
    - by destruct (handle_resolve e st db).
    - destruct (handle_sync c from e n0 db) as [r db1] eqn:Hh; simplify_eq.
      by eapply handle_sync_backed. }
  destruct Hb as (r & Hr & He & Ha & Hn). exists r. split_and!; try done.
  apply db_reachable_inv in Hdb' as [_ Hb]. symmetry. by eapply TxNonce_reply_bounded.
Qed.

Lemma nonce_reply_backed_witness :
  ∃ r, r ∈ db_rows ex_db1 ∧ nr_execution_id r = ex_e1 ∧ nonce_active (nr_state r) = true ∧
       nr_nonce r = 0.
Proof.
  apply (nonce_reply_backed (CmdReserve ex_chain [] ex_e1) (idle [] 0) (mkTxNonce 0) ex_db1).
  - done.
  - split; [by repeat constructor|constructor].
  - vm_compute. reflexivity.
Defined.

(** ** The handlers alone: a quiet database *)


Lemma select_quiet {A} (f : Z → list NonceRow → A) t now :
  t_ok t = true → stmt (select f) (idle t now) = (Ok (f now t), idle t now).
Proof. intros Hok. rewrite stmt_quiet. unfold commit, select. by rewrite Hok. Qed.

Lemma commit_t_ok {A} (b : Z → (NonceRow → bool) → list NonceRow → result (A * list NonceRow) SqlxError)
    now locked t a t' :
  commit b now locked t = Ok (a, t') → b now locked t = Ok (a, t') ∧ t_ok t' = true.
Proof.
  unfold commit. destruct (b now locked t) as [[a1 t1]|]; [|done].
  destruct (t_ok t1) eqn:?; intros; by simplify_eq.
Qed.

Lemma chain_to_i64_ok {E} (m : E) c :
  chain_u256 c ≤ i64_max → chain_to_i64 m c = Ok (chain_u256 c).
Proof.
  intros Hc. unfold chain_to_i64, u256_try_i64. by destruct (Z.leb_spec (chain_u256 c) i64_max); [|lia].
Qed.

Lemma handle_reserve_quiet c from e t now :
  chain_u256 c ≤ i64_max →
  handle_reserve c from e (idle t now) =
  match commit (reserve_query e (chain_u256 c) from) now unlocked t with
  | Ok (Some (n, _), t') => (TxNonce_try_from n, idle t' now)
  | Ok (None, t') => (match active_of e t' with
                      | Some row => TxNonce_try_from (nr_nonce row)
                      | None => Err (LDatabaseError row_not_found)
                      end, idle t' now)
  | Err m => (Err (LDatabaseError m), idle t now)
  end.
Proof.
  intros Hc. unfold handle_reserve. rewrite (chain_to_i64_ok _ c Hc).
  unfold cbind_ok, cmap_err, clift, cret. rewrite stmt_quiet.
  destruct (commit _ now unlocked t) as [[[[n rev]|] t']|m] eqn:Hq; simpl; [done| |done].
  apply commit_t_ok in Hq as [_ Hok]. rewrite select_quiet by done. simpl.
  by destruct (active_of e t').
Qed.

Lemma handle_sync_quiet c from e n0 t now :
  chain_u256 c ≤ i64_max → nonce_u256 n0 ≤ i64_max →
  handle_sync c from e n0 (idle t now) =
  match commit (sync_query e (chain_u256 c) from (nonce_u256 n0)) now unlocked t with
  | Ok (Some (n, _), t') => (TxNonce_try_from n, idle t' now)
  | Ok (None, t') => (match active_of e t' with
                      | Some row => TxNonce_try_from (nr_nonce row)
                      | None => Err (LRejected ("nonce " +:+ TxNonce_display n0 +:+
                          " was already reserved by another execution during sync"))
                      end, idle t' now)
  | Err m => (Err (LDatabaseError m), idle t now)
  end.
Proof.
  intros Hc Hn. unfold handle_sync. rewrite (chain_to_i64_ok _ c Hc).
  assert (Hu : u256_try_i64 (nonce_u256 n0) = Some (nonce_u256 n0)).
  { unfold u256_try_i64. by destruct (Z.leb_spec (nonce_u256 n0) i64_max); [|lia]. }
  rewrite Hu. unfold cbind_ok, cmap_err, clift, cret. cbn [result_of_option].
  rewrite stmt_quiet.
  destruct (commit _ now unlocked t) as [[[[n rev]|] t']|m] eqn:Hq; simpl; [done| |done].
  apply commit_t_ok in Hq as [_ Hok]. rewrite select_quiet by done. simpl.
  by destruct (active_of e t').
Qed.

(** Committing the inserted row succeeds exactly when no active row of the
    account holds the nonce. *)
Lemma t_ok_insert t1 e c from n now t :
  t_ok t1 = true → t_pkey <$> t1 = t_pkey <$> t →
  t_ok (t1 ++ [new_nonce_row e c from n now t]) = true ↔
  ∀ r, r ∈ t1 → nr_account r = (c, from) → nonce_active (nr_state r) = true → nr_nonce r ≠ n.
Proof.
  intros Hok Hk. rewrite t_ok_app, Hk. split.
  - intros (_ & _ & Hfree) r Hr Hacc Ha Hn. apply (Hfree (c, from, n)); [done|].
    rewrite <- Hacc, <- Hn. by apply active_key_elem.
  - intros Hfree. split_and!; [done|apply new_nonce_row_fresh|].
    intros k [= <-] Hin. apply list_elem_of_omap in Hin as (r & Hr & Hkey).
    unfold active_key in Hkey. destruct (nonce_active (nr_state r)) eqn:Ha; simplify_eq.
    by apply (Hfree r).
Qed.

Lemma consume_target_keys now target (t : list NonceRow) :
  t_pkey <$> consume_target now target t = t_pkey <$> t.
Proof. destruct target; [by apply update_key_keys|done]. Qed.

Lemma t_ok_consume now target t : t_ok t = true → t_ok (consume_target now target t) = true.
Proof. destruct target; [|done]. apply t_ok_update. by left. Qed.

(** The active rows after the [consumed] CTE are the active rows before it. *)
Lemma consume_target_active now chain from locked t r :
  t_ok t = true → nonce_active (nr_state r) = true →
  r ∈ consume_target now (target_release chain from locked t) t ↔ r ∈ t.
Proof.
  intros Hok Ha. destruct (target_release chain from locked t) as [rt|] eqn:Ht; [|done].
  apply target_release_Some in Ht as (Hrt & _ & Hst & _). simpl. unfold update_key.
  rewrite list_elem_of_fmap. split.
  - intros (r' & -> & Hr'). case_bool_decide; [done|done].
  - intros Hr. exists r. split; [|done]. case_bool_decide as Hk; [|done].
    apply (pkey_inj t) in Hk as ->; try done. by rewrite Hst in Ha.
Qed.

(** ** Reserving *)

Lemma in_i64_true z : i64_min ≤ z ≤ i64_max → in_i64 z = true.
Proof. intros. unfold in_i64. by rewrite andb_true_iff, !Z.leb_le. Qed.

Lemma in_i64_range z : in_i64 z = true → i64_min ≤ z ≤ i64_max.
Proof. unfold in_i64. by rewrite andb_true_iff, !Z.leb_le. Qed.

Lemma alloc_nonce_bound now chain from t :
  table_bounded now t → 0 ≤ alloc_nonce chain from t ≤ i64_max + 1.
Proof.
  intros Ht. unfold alloc_nonce. destruct (target_release _ _ _ t) as [r|] eqn:Hr.
  - apply target_release_Some in Hr as [Hr _]. destruct (Ht r Hr). lia.
  - pose proof (max_nonce_bound _ chain from _ Ht). lia.
Qed.

(** A fresh sequential nonce is always free. *)
Lemma alloc_sequential_free chain from t :
  target_release chain from unlocked t = None →
  nonce_free chain from (alloc_nonce chain from t) t.
Proof.
  intros Ht r Hr Hacc Ha. unfold alloc_nonce. rewrite Ht.
  pose proof (max_nonce_ge chain from t r Hr Hacc Ha). lia.
Qed.

(** What a fresh reservation does: it commits unless the nonce is held. *)
Lemma reserve_query_commit e chain from now t :
  t_ok t = true → table_bounded now t → has_lease now (interval_secs 120) e t = false →
  alloc_nonce chain from t ≤ i64_max → i64_min ≤ next_revision e t ≤ i64_max →
  let n := alloc_nonce chain from t in
  let t1 := consume_target now (target_release chain from unlocked t) t in
  let t' := t1 ++ [new_nonce_row e chain from n now t] in
  commit (reserve_query e chain from) now unlocked t =
    if t_ok t' then Ok (Some (n, next_revision e t), t') else Err constraint_violation.
Proof.
  intros Hok Hb Hl Hn Hrev n t1 t'. unfold commit, reserve_query. rewrite Hl.
  fold (alloc_nonce chain from t). fold n t1. cbn [nr_revision new_nonce_row].
  rewrite !in_i64_true; [done|lia|].
  pose proof (alloc_nonce_bound _ chain from _ Hb). unfold n, i64_min. lia.
Qed.

Lemma t_ok_reserved_iff e chain from n now t :
  t_ok t = true →
  t_ok (consume_target now (target_release chain from unlocked t) t
        ++ [new_nonce_row e chain from n now t]) = true ↔ nonce_free chain from n t.
Proof.
  intros Hok. rewrite t_ok_insert; [|by apply t_ok_consume|apply consume_target_keys].
  split; intros Hf r Hr Hacc Ha; apply Hf; try done; by apply (consume_target_active now chain from unlocked t).
Qed.

(** Some row holds the lease of [e]. *)
Lemma has_lease_true now lease e t :
  has_lease now lease e t = true →
  ∃ r, r ∈ t ∧ nr_execution_id r = e ∧ nonce_active (nr_state r) = true.
Proof.
  intros (r & Hr & Hp)%existsb_exists. apply andb_true_iff in Hp as [He Hl].
  apply bool_decide_eq_true in He. exists r. split_and!; [by apply list_elem_of_In|done|].
  unfold nonce_lease in Hl. by destruct (nr_state r).
Qed.

Lemma active_of_exists e t r :
  r ∈ t → nr_execution_id r = e → nonce_active (nr_state r) = true →
  ∃ r', active_of e t = Some r'.
Proof.
  intros Hr He Ha. destruct (active_of e t) as [r'|] eqn:E; [eauto|].
  apply latest_None with (r := r) in E; [|done].
  rewrite Ha, bool_decide_true in E; done.
Qed.

(** The retry of a reservation whose lease is live, released target or not. *)
Lemma handle_reserve_leased c from e t now :
  chain_u256 c ≤ i64_max → t_ok t = true → table_bounded now t →
  has_lease now (interval_secs 120) e t = true →
  ∃ r, r ∈ t ∧ nr_execution_id r = e ∧ nonce_active (nr_state r) = true ∧
    (∀ r', r' ∈ t → nr_execution_id r' = e → nonce_active (nr_state r') = true →
       nr_revision r' ≤ nr_revision r) ∧
    handle_reserve c from e (idle t now) =
      (Ok (mkTxNonce (nr_nonce r)),
       idle (consume_target now (target_release (chain_u256 c) from unlocked t) t) now).
Proof.
  intros Hc Hok Hb Hl. rewrite handle_reserve_quiet by done.
  unfold commit, reserve_query. rewrite Hl.
  rewrite (t_ok_consume now (target_release (chain_u256 c) from unlocked t)) by done.
  destruct (has_lease_true _ _ _ _ Hl) as (r0 & Hr0 & He0 & Ha0).
  apply (consume_target_active now (chain_u256 c) from unlocked t) in Hr0; [|done..].
  destruct (active_of_exists _ _ _ Hr0 He0 Ha0) as [r Hr]. rewrite Hr.
  pose proof (λ r', latest_max _ _ _ r' Hr) as Hmax. apply active_of_Some in Hr as (Hr & He & Ha).
  apply (consume_target_active now (chain_u256 c) from unlocked t) in Hr; [|done..].
  exists r. split_and!; try done.
  - intros r' Hr' He' Ha'. apply (Hmax r'); [by apply consume_target_active|].
    by rewrite bool_decide_true.
  - destruct (Hb r Hr) as [? _]. by rewrite TxNonce_try_from_nonneg.
Qed.

(** What an insertion that the table's columns cannot hold answers. *)
Lemma reserve_query_out_of_range e chain from now t :
  has_lease now (interval_secs 120) e t = false →
  in_i64 (alloc_nonce chain from t) && in_i64 (next_revision e t) = false →
  commit (reserve_query e chain from) now unlocked t = Err out_of_range.
Proof.
  intros Hl Hr. unfold commit, reserve_query. rewrite Hl. fold (alloc_nonce chain from t).
  cbn [nr_revision new_nonce_row]. by rewrite Hr.
Qed.

(** C24: one reservation on an idle database, every case.  A chain id above
    [i64::MAX] is refused.  While the execution holds a live lease (a finalized
    row, or one reserved less than 120 s ago), the answer is the nonce of its
    active row of the largest revision and no row is added (but a released row
    of the account is consumed all the same, see [reserve_retry_leaks]).
    Otherwise the nonce is the smallest released one of the account if there is
    one, else the successor of the largest active one (0 for a new account):
    if no active row of the account holds it, it is answered, one reserved row
    with the next revision of the execution is inserted, the released row
    becomes consumed, and nothing else changes; if one does (only possible for
    a released nonce, see [reserve_wedged]), the unique index refuses and the
    table stays as it was, as it does if nonce or revision leave the [BIGINT]
    range. *)
Theorem reserve_allocates c from e t now :
  t_ok t = true → table_bounded now t →
  let ch := chain_u256 c in
  let n := alloc_nonce ch from t in
  let target := target_release ch from unlocked t in
  (i64_max < ch →
     handle_reserve c from e (idle t now) = (Err (LInvariant "chain_id does not fit in i64"), idle t now)) ∧
  (ch ≤ i64_max → has_lease now (interval_secs 120) e t = true →
     ∃ r, r ∈ t ∧ nr_execution_id r = e ∧ nonce_active (nr_state r) = true ∧
       (∀ r', r' ∈ t → nr_execution_id r' = e → nonce_active (nr_state r') = true →
          nr_revision r' ≤ nr_revision r) ∧
       handle_reserve c from e (idle t now) =
         (Ok (mkTxNonce (nr_nonce r)), idle (consume_target now target t) now)) ∧
  (ch ≤ i64_max → has_lease now (interval_secs 120) e t = false →
     handle_reserve c from e (idle t now) =
       (if in_i64 n && in_i64 (next_revision e t) then
          if decide (nonce_free ch from n t) then
            (Ok (mkTxNonce n),
             idle (consume_target now target t ++
               [mkNonceRow e (next_revision e t) ch from n NReserved now now]) now)
          else (Err (LDatabaseError constraint_violation), idle t now)
        else (Err (LDatabaseError out_of_range), idle t now)) ∧
     match target with
     | Some r => r ∈ t ∧ nr_account r = (ch, from) ∧ nr_state r = NReleased ∧ n = nr_nonce r ∧
         ∀ r', r' ∈ t → nr_account r' = (ch, from) → nr_state r' = NReleased → n ≤ nr_nonce r'
     | None => (∀ r', r' ∈ t → nr_account r' = (ch, from) → nr_state r' ≠ NReleased) ∧
         n = max_nonce ch from t + 1 ∧ nonce_free ch from n t
     end).
Proof.
  intros Hok Hb ch n target. split_and!.
  - intros Hc. unfold handle_reserve, chain_to_i64, u256_try_i64. fold ch.
    by destruct (Z.leb_spec ch i64_max); [lia|].
  - intros Hc Hl. by apply handle_reserve_leased.
  - intros Hc Hl. split.
    + rewrite handle_reserve_quiet by done. fold ch.
      destruct (in_i64 n && in_i64 (next_revision e t)) eqn:Hr;
        [|by rewrite reserve_query_out_of_range].
      apply andb_true_iff in Hr as [[_ Hn]%in_i64_range Hrev%in_i64_range].
      rewrite reserve_query_commit by done. fold n target.
      pose proof (t_ok_reserved_iff e ch from n now t Hok) as Hiff. fold target in Hiff.
      pose proof (alloc_nonce_bound _ ch from _ Hb) as Hnn. fold n in Hnn.
      destruct (decide (nonce_free ch from n t)) as [Hf|Hf].
      * rewrite (proj2 Hiff Hf), TxNonce_try_from_nonneg by lia. done.
      * destruct (t_ok (_ ++ _)) eqn:E; [by destruct Hf; apply Hiff|done].
    + unfold target, n, alloc_nonce. destruct (target_release ch from unlocked t) as [r|] eqn:Hr.
      * pose proof (λ r', target_release_min _ _ _ _ r r' Hr) as Hmin.
        apply target_release_Some in Hr as (Hr & Hacc & Hst & _). by split_and!; auto.
      * pose proof (alloc_sequential_free ch from t Hr) as Hf. unfold alloc_nonce in Hf. rewrite Hr in Hf.
        split_and!; [|done|done]. intros r' Hr' Hacc Hst.
        apply order_limit1_None in Hr. eapply (elem_of_nil r'). rewrite <- Hr.
        apply list_elem_of_filter. split; [|done]. unfold released_row.
        by rewrite Hst, bool_decide_true, !andb_true_r by done; apply of_account_true.
Qed.

Lemma reserve_allocates_witness :
  let t := [ex_row ex_e1 3 NReleased] in
  chain_u256 ex_chain ≤ i64_max ∧ has_lease 0 (interval_secs 120) ex_e2 t = false ∧
  handle_reserve ex_chain [] ex_e2 (idle t 0) =
    (Ok (mkTxNonce 3), idle [ex_row ex_e1 3 NConsumed; mkNonceRow ex_e2 1 1 [] 3 NReserved 0 0] 0).
Proof.
  intros t. split; [done|]. split; [done|].
  destruct (reserve_allocates ex_chain [] ex_e2 t 0) as (_ & _ & H); [solve_table..|].
  destruct H as [H _]; [done|done|]. exact H.
Defined.

(** a released nonce that is also held by an active row (sync can reserve a
    nonce while a released row still lists it) wedges the account: every
    later reservation picks the released row, hits the unique index, fails, and
    leaves the table as it was, so the next one fails as well. *)
Theorem reserve_wedged c from e t now r r' :
  chain_u256 c ≤ i64_max → t_ok t = true → table_bounded now t →
  has_lease now (interval_secs 120) e t = false → i64_min ≤ next_revision e t ≤ i64_max →
  target_release (chain_u256 c) from unlocked t = Some r →
  r' ∈ t → nr_account r' = (chain_u256 c, from) → nonce_active (nr_state r') = true →
  nr_nonce r' = nr_nonce r →
  handle_reserve c from e (idle t now) = (Err (LDatabaseError constraint_violation), idle t now).
Proof.
  intros Hc Hok Hb Hl Hrev Ht Hr' Hacc Ha Hn.
  assert (Hal : alloc_nonce (chain_u256 c) from t = nr_nonce r) by (unfold alloc_nonce; by rewrite Ht).
  rewrite handle_reserve_quiet by done.
  rewrite reserve_query_commit; try done.
  - destruct (t_ok (_ ++ _)) eqn:E; [|done].
    apply (t_ok_reserved_iff e _ _ _ now _ Hok) in E. exfalso. apply (E r'); congruence.
  - rewrite Hal. apply target_release_Some in Ht as (Hr & _). destruct (Hb r Hr). lia.
Qed.

Lemma reserve_wedged_witness :
  handle_reserve ex_chain [] ex_e3 (idle [ex_row ex_e1 0 NReleased; ex_row ex_e2 0 NReserved] 0) =
  (Err (LDatabaseError constraint_violation), idle [ex_row ex_e1 0 NReleased; ex_row ex_e2 0 NReserved] 0).
Proof.
  apply (reserve_wedged ex_chain [] ex_e3 _ 0 (ex_row ex_e1 0 NReleased) (ex_row ex_e2 0 NReserved));
    solve_table.
Defined.

(** While the account has no released nonce, reserving again for an
    execution whose lease is live is idempotent: it answers a nonce the
    execution already holds and changes nothing. *)
Theorem reserve_idempotent c from e t now :
  chain_u256 c ≤ i64_max → t_ok t = true → table_bounded now t →
  has_lease now (interval_secs 120) e t = true →
  target_release (chain_u256 c) from unlocked t = None →
  ∃ r, r ∈ t ∧ nr_execution_id r = e ∧ nonce_active (nr_state r) = true ∧
    handle_reserve c from e (idle t now) = (Ok (mkTxNonce (nr_nonce r)), idle t now).
Proof.
  intros Hc Hok Hb Hl Ht. destruct (handle_reserve_leased c from e t now) as (r & ? & ? & ? & _ & Hres);
    [done..|]. exists r. by rewrite Hres, Ht.
Qed.

Lemma reserve_idempotent_witness :
  ∃ r, r ∈ [ex_row ex_e1 0 NReserved] ∧ nr_execution_id r = ex_e1 ∧
    nonce_active (nr_state r) = true ∧
    handle_reserve ex_chain [] ex_e1 (idle [ex_row ex_e1 0 NReserved] 0) =
      (Ok (mkTxNonce (nr_nonce r)), idle [ex_row ex_e1 0 NReserved] 0).
Proof. apply reserve_idempotent; solve_table. Defined.

(** But if the account has a released nonce, the same retry throws it away:
    the [consumed] CTE runs although the [INSERT] is blocked by the lease.  The
    answer is the old nonce, and the released row [r] is consumed, although
    nobody was given its nonce. *)
Theorem reserve_retry_leaks c from e t now r :
  chain_u256 c ≤ i64_max → t_ok t = true → table_bounded now t →
  has_lease now (interval_secs 120) e t = true →
  target_release (chain_u256 c) from unlocked t = Some r →
  ∃ n t', handle_reserve c from e (idle t now) = (Ok n, idle t' now) ∧
    nonce_set_state now NConsumed r ∈ t' ∧
    length t' = length t ∧
    ∀ r', r' ∈ t' → nonce_active (nr_state r') = true → r' ∈ t.
Proof.
  intros Hc Hok Hb Hl Ht. destruct (handle_reserve_leased c from e t now) as (r0 & ? & ? & ? & _ & Hres);
    [done..|].
  exists (mkTxNonce (nr_nonce r0)), (consume_target now (Some r) t).
  rewrite Hres, Ht. split_and!; [done| | |].
  - apply target_release_Some in Ht as (Hr & _). simpl. unfold update_key.
    apply list_elem_of_fmap. exists r. split; [by rewrite bool_decide_true|done].
  - simpl. apply length_fmap.
  - intros r' Hr' Ha. rewrite <- Ht in Hr'. by apply consume_target_active in Hr'.
Qed.

Lemma reserve_retry_leaks_witness :
  ∃ n t', handle_reserve ex_chain [] ex_e2
      (idle [ex_row ex_e1 0 NReleased; ex_row ex_e2 1 NReserved] 0) = (Ok n, idle t' 0) ∧
    nonce_set_state 0 NConsumed (ex_row ex_e1 0 NReleased) ∈ t'.
Proof.
  destruct (reserve_retry_leaks ex_chain [] ex_e2
    [ex_row ex_e1 0 NReleased; ex_row ex_e2 1 NReserved] 0 (ex_row ex_e1 0 NReleased))
    as (n & t' & H1 & H2 & _); [solve_table..|]. by exists n, t'.
Defined.

(** ** Resolving *)

Lemma reserved_of_unlocked e t r :
  r ∈ t → nr_execution_id r = e → nr_state r = NReserved →
  ∃ r0, reserved_of e unlocked t = Some r0 ∧ nr_revision r ≤ nr_revision r0.
Proof.
  intros Hr He Hst.
  assert (Hp : bool_decide (nr_execution_id r = e) && bool_decide (nr_state r = NReserved)
                 && negb false = true) by (by rewrite !bool_decide_true).
  destruct (reserved_of e unlocked t) as [r0|] eqn:E.
  - exists r0. split; [done|]. by eapply latest_max in E.
  - eapply latest_None in E; [|done]. by rewrite Hp in E.
Qed.

Lemma resolve_update_ok e st now t r :
  t_ok t = true → reserved_of e unlocked t = Some r →
  t_ok (update_key (t_pkey r) (nonce_set_state now st) t) = true.
Proof.
  intros Hok (Hr & _ & Hst)%reserved_of_Some. apply t_ok_update; [|done].
  right. intros r' Hr' Hk. by apply (pkey_inj t) in Hk as ->.
Qed.

Lemma handle_resolve_quiet e st t now :
  st ≠ NReserved → t_ok t = true →
  handle_resolve e st (idle t now) =
  match reserved_of e unlocked t with
  | Some r => (Ok tt, idle (update_key (t_pkey r) (nonce_set_state now st) t) now)
  | None => (resolve_explain st (latest_of e t), idle t now)
  end.
Proof.
  intros Hst Hok.
  assert (Hh : handle_resolve e st =
    (affected <-? cmap_err LDatabaseError (stmt (resolve_query e st)) ;;
     if 0 <? affected then clift (Ok tt)
     else latest <-? cmap_err LDatabaseError (stmt (select (λ _ t, latest_of e t))) ;;
          clift (resolve_explain st latest))) by (by destruct st).
  rewrite Hh. unfold cbind_ok, cmap_err, clift, cret. rewrite stmt_quiet.
  unfold commit, resolve_query. destruct (reserved_of e unlocked t) as [r|] eqn:Hr.
  - by rewrite (resolve_update_ok e) by done.
  - rewrite Hok. cbn [map_err Z.ltb Z.compare]. by rewrite select_quiet.
Qed.

(** C26: resolving moves exactly the execution's latest reserved row to the
    given state; without a reserved row the table stays as it was and the
    answer tells the repeated request (Ok) from a conflicting one and from an
    unknown execution; resolving to [Reserved] is always refused. *)
Theorem resolve_functional e st t now :
  t_ok t = true →
  match handle_resolve e st (idle t now) with
  | (Ok _, db') =>
      st ≠ NReserved ∧
      ((∃ r, r ∈ t ∧ nr_execution_id r = e ∧ nr_state r = NReserved ∧
          (∀ r', r' ∈ t → nr_execution_id r' = e → nr_state r' = NReserved →
             nr_revision r' ≤ nr_revision r) ∧
          db' = idle (update_key (t_pkey r) (nonce_set_state now st) t) now) ∨
       (db' = idle t now ∧ ∃ r, latest_of e t = Some r ∧ nr_state r = st))
  | (Err m, db') =>
      db' = idle t now ∧
      (st = NReserved ∨
       (∀ r, r ∈ t → nr_execution_id r = e → nr_state r ≠ NReserved) ∧
       match latest_of e t with
       | Some r => nr_state r ≠ st ∧ ∃ text, m = LInternal text
       | None => m = LInvariant "invalid execution_id"
       end)
  end.
Proof.
  intros Hok. destruct (decide (st = NReserved)) as [->|Hst]; [by simpl; auto|].
  rewrite handle_resolve_quiet by done.
  destruct (reserved_of e unlocked t) as [r|] eqn:Hr.
  - split; [done|]. left. pose proof (reserved_of_Some _ _ _ _ Hr) as (Hin & He & Hs).
    exists r. split_and!; try done. intros r' Hr' He' Hs'.
    destruct (reserved_of_unlocked e t r' Hr' He' Hs') as (r0 & Hr0 & Hle). by simplify_eq.
  - assert (Hnone : ∀ r, r ∈ t → nr_execution_id r = e → nr_state r ≠ NReserved).
    { intros r Hin He Hs. destruct (reserved_of_unlocked e t r Hin He Hs) as (r0 & Hr0 & _).
      by rewrite Hr in Hr0. }
    destruct (latest_of e t) as [row|] eqn:Hl; simpl; [|by auto].
    case_decide as Hst'; [by (split; [done|]; right; split; [done|]; exists row)|].
    assert (nr_state row ≠ NReserved).
    { apply latest_Some in Hl as [Hin He%bool_decide_eq_true]. by apply Hnone. }
    destruct (nr_state row) eqn:Hrow; [done|..]; (split; [done|]); right; (split; [done|]); simpl; eauto.
Qed.

Lemma resolve_functional_witness :
  t_ok [ex_row ex_e1 0 NReserved] = true ∧
  match handle_resolve ex_e1 NFinalized (idle [ex_row ex_e1 0 NReserved] 0) with
  | (Ok _, _) => NFinalized ≠ NReserved
  | (Err _, _) => False
  end.
Proof.
  split; [solve_table|].
  pose proof (resolve_functional ex_e1 NFinalized [ex_row ex_e1 0 NReserved] 0 ltac:(solve_table)) as H.
  destruct (handle_resolve ex_e1 NFinalized (idle [ex_row ex_e1 0 NReserved] 0)) as [[u|m] db] eqn:E;
    [by destruct H|]. vm_compute in E. discriminate.
Defined.

(** ** Sequences of reservations *)

Lemma no_released_app chain from t row :
  no_released chain from t → nr_state row ≠ NReleased → no_released chain from (t ++ [row]).
Proof.
  unfold no_released, target_release. rewrite !order_limit1_None, list.filter_app. intros -> Hst.
  rewrite filter_cons_False; [done|]. unfold released_row.
  by rewrite bool_decide_false, andb_false_r by done.
Qed.

Lemma unseen_next_revision e t : unseen e t → next_revision e t = 1.
Proof.
  intros Hu. unfold next_revision, max_revision.
  replace (filter (λ r : NonceRow, t_eid r = e) t) with (@nil NonceRow); [done|].
  symmetry. apply elem_of_nil_inv. intros r [He Hr]%list_elem_of_filter. by apply (Hu r).
Qed.

Lemma unseen_has_lease now lease e t : unseen e t → has_lease now lease e t = false.
Proof.
  intros Hu. destruct (has_lease now lease e t) eqn:Hl; [|done].
  apply has_lease_true in Hl as (r & Hr & He & _). by apply Hu in Hr.
Qed.

Lemma unseen_app e t row : unseen e t → nr_execution_id row ≠ e → unseen e (t ++ [row]).
Proof. by intros Hu Hne r [Hr| ->%list_elem_of_singleton]%elem_of_app; [apply Hu|]. Qed.

Lemma max_nonce_app chain from t row :
  max_nonce chain from t ≤ nr_nonce row →
  max_nonce chain from (t ++ [row]) =
    if of_account chain from row && nonce_active (nr_state row) then nr_nonce row
    else max_nonce chain from t.
Proof.
  unfold max_nonce. rewrite list.filter_app, fmap_app. intros Hle. case_match eqn:E.
  - rewrite filter_cons_True by done. cbn [fmap list_fmap filter list_filter].
    rewrite sql_max_app. destruct (sql_max _); simpl in *; [lia|done].
  - rewrite filter_cons_False; [by rewrite app_nil_r|congruence].
Qed.

(** The row of a first reservation. *)
Definition first_row (e : ExecutionId) (chain : Z) (from : Address) (n now : Z) : NonceRow :=
  mkNonceRow e 1 chain from n NReserved now now.

Lemma reserve_first c from e t now :
  chain_u256 c ≤ i64_max → t_ok t = true → table_bounded now t →
  unseen e t → no_released (chain_u256 c) from t → max_nonce (chain_u256 c) from t < i64_max →
  let n := max_nonce (chain_u256 c) from t + 1 in
  let t' := t ++ [first_row e (chain_u256 c) from n now] in
  handle_reserve c from e (idle t now) = (Ok (mkTxNonce n), idle t' now) ∧
  t_ok t' = true ∧ table_bounded now t'.
Proof.
  intros Hc Hok Hb Hu Hnr Hmax n t'.
  pose proof (max_nonce_bound _ (chain_u256 c) from _ Hb) as Hm.
  assert (Hal : alloc_nonce (chain_u256 c) from t = n) by (unfold alloc_nonce; by rewrite Hnr).
  assert (Hrow : new_nonce_row e (chain_u256 c) from n now t = first_row e (chain_u256 c) from n now)
    by (unfold new_nonce_row; by rewrite unseen_next_revision).
  assert (Hok' : t_ok t' = true).
  { unfold t'. rewrite <- Hrow. pose proof (t_ok_reserved_iff e (chain_u256 c) from n now t Hok) as Hiff.
    rewrite Hnr in Hiff. apply Hiff. rewrite <- Hal. by apply alloc_sequential_free. }
  split_and!; [|done|].
  - rewrite handle_reserve_quiet, reserve_query_commit; try done.
    + rewrite Hal, Hnr. cbn [consume_target]. rewrite Hrow. fold t'. rewrite Hok'.
      rewrite TxNonce_try_from_nonneg; [by rewrite Hnr|unfold n; lia].
    + by apply unseen_has_lease.
    + lia.
    + rewrite unseen_next_revision by done. done.
  - unfold t'. rewrite <- Hrow. apply table_bounded_new; [lia| |done].
    by rewrite unseen_next_revision.
Qed.

(** C39: on an idle database, [k] distinct new executions of an account that has
    no released nonce get the [k] nonces after the largest active one, in the order in which
    they were queued, without gap or repetition. *)
Theorem reserve_sequential c from es t now :
  chain_u256 c ≤ i64_max → t_ok t = true → table_bounded now t →
  NoDup es → Forall (λ e, unseen e t) es → no_released (chain_u256 c) from t →
  max_nonce (chain_u256 c) from t + Z.of_nat (length es) ≤ i64_max →
  (nonce_run (CmdReserve c from <$> es) (idle t now)).1 =
    (λ n, RplNonce (Ok (mkTxNonce n))) <$>
      seqZ (max_nonce (chain_u256 c) from t + 1) (Z.of_nat (length es)).
Proof.
  intros Hc. unfold nonce_run. revert t.
  induction es as [|e es IH]; intros t Hok Hb Hnd Hun Hnr Hmax; [done|].
  apply list.NoDup_cons in Hnd as [Hne Hnd]. apply list.Forall_cons in Hun as [Hu Hun].
  cbn [length] in *.
  destruct (reserve_first c from e t now) as (Hres & Hok' & Hb'); [done..|lia|].
  set (n := max_nonce (chain_u256 c) from t + 1) in *.
  set (t' := t ++ [first_row e (chain_u256 c) from n now]) in *.
  assert (Hmax' : max_nonce (chain_u256 c) from t' = n).
  { unfold t'. rewrite max_nonce_app by (simpl; lia). simpl.
    replace (of_account _ _ _) with true by (symmetry; by apply of_account_true). done. }
  assert (Hfst : (run_loop nonce_dispatch (CmdReserve c from <$> e :: es) (idle t now)).1 =
     RplNonce (Ok (mkTxNonce n)) ::
       (run_loop nonce_dispatch (CmdReserve c from <$> es) (idle t' now)).1).
  { cbn [fmap list_fmap run_loop nonce_dispatch]. unfold cbind, cret. rewrite Hres.
    by destruct (run_loop _ _ _). }
  rewrite Hfst, (IH t'); try done.
  - rewrite Hmax', Nat2Z.inj_succ. rewrite (seqZ_cons n) by lia. by rewrite Z.pred_succ.
  - apply list.Forall_forall. intros e' He'. rewrite list.Forall_forall in Hun.
    apply unseen_app; [by apply Hun|]. simpl. by intros ->.
  - by apply no_released_app.
  - lia.
Qed.

Lemma reserve_sequential_witness :
  (nonce_run (CmdReserve ex_chain [] <$> [ex_e2; ex_e3]) (idle [ex_row ex_e1 4 NFinalized] 0)).1 =
  (λ n, RplNonce (Ok (mkTxNonce n))) <$> seqZ 5 2.
Proof.
  apply (reserve_sequential ex_chain [] [ex_e2; ex_e3] [ex_row ex_e1 4 NFinalized] 0); solve_table.
Defined.

(** Only the last row of the table is [e]'s. *)
Lemma latest_app_unseen (p : NonceRow → bool) e t row :
  unseen e t → (∀ r, p r = true → nr_execution_id r = e) → p row = true →
  latest p (t ++ [row]) = Some row.
Proof.
  intros Hu Hp Hrow. unfold latest. rewrite list.filter_app, filter_cons_True by done.
  replace (filter (λ r, p r = true) t) with (@nil NonceRow); [done|].
  symmetry. apply elem_of_nil_inv. intros r [Hr Hin]%list_elem_of_filter.
  by apply (Hu r); [|apply Hp].
Qed.

(** A consumed nonce is given out again: the largest active nonce is looked
    up without the consumed rows, so when an execution's sequential nonce is
    resolved to [Consumed] (its validation timed out; the transaction may be in
    the mempool), the next execution of the account gets the same nonce. *)
Theorem consumed_nonce_reassigned c from e1 e2 t now :
  chain_u256 c ≤ i64_max → t_ok t = true → table_bounded now t →
  e1 ≠ e2 → unseen e1 t → unseen e2 t → no_released (chain_u256 c) from t →
  max_nonce (chain_u256 c) from t < i64_max →
  let n := max_nonce (chain_u256 c) from t + 1 in
  (nonce_run [CmdReserve c from e1; CmdResolve e1 NConsumed; CmdReserve c from e2]
     (idle t now)).1 =
  [RplNonce (Ok (mkTxNonce n)); RplUnit (Ok tt); RplNonce (Ok (mkTxNonce n))].
Proof.
  intros Hc Hok Hb Hne Hu1 Hu2 Hnr Hmax n.
  destruct (reserve_first c from e1 t now) as (Hres1 & Hok1 & Hb1); [done..|].
  fold n in Hres1, Hok1, Hb1. set (row := first_row e1 (chain_u256 c) from n now) in *.
  set (row' := nonce_set_state now NConsumed row).
  assert (Hlat : reserved_of e1 unlocked (t ++ [row]) = Some row).
  { apply (latest_app_unseen _ e1); [done| |by rewrite !bool_decide_true].
    by intros r [[?%bool_decide_eq_true _]%andb_true_iff _]%andb_true_iff. }
  assert (Hupd : update_key (t_pkey row) (nonce_set_state now NConsumed) (t ++ [row]) = t ++ [row']).
  { apply update_key_app; [|done]. intros (r & Hk & Hr)%list_elem_of_fmap.
    apply (Hu1 r Hr). by injection Hk as ->. }
  assert (Hokr : t_ok (t ++ [row']) = true)
    by (rewrite <- Hupd; by apply (resolve_update_ok e1)).
  assert (Hmax' : max_nonce (chain_u256 c) from (t ++ [row']) = n - 1).
  { rewrite max_nonce_app by (simpl; unfold n; lia). simpl. rewrite andb_false_r. unfold n. lia. }
  destruct (reserve_first c from e2 (t ++ [row']) now) as (Hres2 & _); try done.
  - rewrite <- Hupd. by apply table_bounded_update.
  - by apply unseen_app.
  - by apply no_released_app.
  - rewrite Hmax'. unfold n. lia.
  - cbn [nonce_run run_loop nonce_dispatch]. unfold cbind, cret. rewrite Hres1.
    rewrite handle_resolve_quiet, Hlat, Hupd by done. rewrite Hres2, Hmax'. simpl.
    repeat f_equal. lia.
Qed.

Lemma consumed_nonce_reassigned_witness :
  (nonce_run [CmdReserve ex_chain [] ex_e2; CmdResolve ex_e2 NConsumed; CmdReserve ex_chain [] ex_e3]
     (idle [ex_row ex_e1 4 NFinalized] 0)).1 =
  [RplNonce (Ok (mkTxNonce 5)); RplUnit (Ok tt); RplNonce (Ok (mkTxNonce 5))].
Proof.
  apply (consumed_nonce_reassigned ex_chain [] ex_e2 ex_e3 [ex_row ex_e1 4 NFinalized] 0); solve_table.
Defined.

(** ** Syncing *)

Lemma sync_taken_spec now chain from n t :
  existsb (λ r, of_account chain from r && (nr_nonce r =? n) &&
    bool_decide (nr_state r = NReserved) && nonce_lease now (interval_secs 300) r) t = true ↔
  sync_taken now chain from n t.
Proof.
  rewrite existsb_exists. split.
  - intros (r & Hr & Hp). rewrite !andb_true_iff, of_account_true, Z.eqb_eq, bool_decide_eq_true in Hp.
    destruct Hp as [[[Hacc Hn] Hst] Hl]. unfold nonce_lease in Hl. rewrite Hst in Hl.
    apply Z.ltb_lt in Hl. exists r. by rewrite list_elem_of_In.
  - intros (r & Hr & Hacc & Hn & Hst & Hl). exists r.
    rewrite !andb_true_iff, of_account_true, Z.eqb_eq, bool_decide_eq_true.
    unfold nonce_lease. rewrite Hst, Z.ltb_lt. by rewrite <- list_elem_of_In.
Qed.

#[export] Instance sync_taken_dec now chain from n t : Decision (sync_taken now chain from n t).
Proof.
  refine (cast_if (decide (existsb (λ r, of_account chain from r && (nr_nonce r =? n) &&
    bool_decide (nr_state r = NReserved) && nonce_lease now (interval_secs 300) r) t = true)));
    by rewrite <- sync_taken_spec.
Defined.

(** C27: one sync on an idle database, every case.  A chain id or a nonce above
    [i64::MAX] is refused.  While the execution holds a live lease (a finalized
    row, or one reserved less than 300 s ago), or another execution reserved
    the on-chain nonce less than 300 s ago, nothing changes and the answer is
    the nonce of the execution's active row of the largest revision, whatever
    nonce was asked for, or [Rejected] if it has none.  Otherwise the nonce is
    reserved and answered if no active row of the account holds it; if one
    does, or the revision leaves the [BIGINT] range, the answer is a database
    error and nothing changes. *)
Theorem sync_functional c from e n t now :
  0 ≤ nonce_u256 n → t_ok t = true → table_bounded now t →
  let ch := chain_u256 c in
  let m := nonce_u256 n in
  handle_sync c from e n (idle t now) =
  if i64_max <? ch then (Err (LInvariant "chain_id does not fit in i64"), idle t now)
  else if i64_max <? m then (Err (LInvariant "nonce_on_chain does not fit in i64"), idle t now)
  else if has_lease now (interval_secs 300) e t || bool_decide (sync_taken now ch from m t) then
    (match active_of e t with
     | Some r => Ok (mkTxNonce (nr_nonce r))
     | None => Err (LRejected ("nonce " +:+ TxNonce_display n +:+
                 " was already reserved by another execution during sync"))
     end, idle t now)
  else if in_i64 (next_revision e t) then
    if decide (nonce_free ch from m t) then
      (Ok n, idle (t ++ [mkNonceRow e (next_revision e t) ch from m NReserved now now]) now)
    else (Err (LDatabaseError constraint_violation), idle t now)
  else (Err (LDatabaseError out_of_range), idle t now).
Proof.
  intros Hn Hok Hb ch m. destruct (Z.ltb_spec i64_max ch) as [Hc|Hc].
  { unfold handle_sync, chain_to_i64, u256_try_i64. fold ch. by destruct (Z.leb_spec ch i64_max); [lia|]. }
  destruct (Z.ltb_spec i64_max m) as [Hm|Hm].
  { unfold handle_sync. rewrite (chain_to_i64_ok _ c Hc). unfold cbind_ok, u256_try_i64. fold m.
    by destruct (Z.leb_spec m i64_max); [lia|]. }
  rewrite handle_sync_quiet by done. fold ch m. unfold commit, sync_query.
  destruct (has_lease _ _ _ _ || existsb _ _) eqn:Ht.
  - replace (has_lease _ _ _ _ || bool_decide _) with true.
    + rewrite Hok. destruct (active_of e t) as [r|] eqn:Hr; [|done].
      apply active_of_Some in Hr as [Hr _]. destruct (Hb r Hr) as [? _].
      by rewrite TxNonce_try_from_nonneg.
    + apply orb_true_iff in Ht as [->|Ht%sync_taken_spec]; [done|].
      by rewrite (bool_decide_true _ Ht), orb_true_r.
  - apply orb_false_iff in Ht as [-> Ht]. rewrite bool_decide_false.
    2: { intros Hs%sync_taken_spec. congruence. }
    cbn [orb nr_revision new_nonce_row]. destruct (in_i64 _); [|done].
    pose proof (t_ok_insert t e ch from m now t Hok eq_refl) as Hins.
    destruct (decide (nonce_free ch from m t)) as [Hf|Hf].
    + rewrite (proj2 Hins Hf), TxNonce_try_from_nonneg by done. by destruct n.
    + destruct (t_ok (t ++ _)) eqn:E; [by destruct Hf; exact (proj1 Hins eq_refl)|done].
Qed.

Lemma sync_functional_witness :
  handle_sync ex_chain [] ex_e2 (mkTxNonce 9) (idle [ex_row ex_e1 4 NFinalized] 0) =
  (Ok (mkTxNonce 9),
   idle [ex_row ex_e1 4 NFinalized; mkNonceRow ex_e2 1 1 [] 9 NReserved 0 0] 0).
Proof.
  apply (sync_functional ex_chain [] ex_e2 (mkTxNonce 9) [ex_row ex_e1 4 NFinalized] 0); solve_table.
Defined.

(** ** Sweeping *)

Lemma t_ok_sweep now t (hit : NonceRow → bool) :
  t_ok t = true → t_ok ((λ r, if hit r then nonce_set_state now NReleased r else r) <$> t) = true.
Proof.
  apply t_ok_map; intros r _; destruct (hit r); [done..|by left|by right].
Qed.

Lemma sweep_targets_NoDup now t : NoDup (sweep_targets now t).
Proof.
  unfold sweep_targets. apply (sublist_NoDup _ (t_pkey <$> distinct_latest (sweepable now) t)); [|apply sublist_take].
  apply (NoDup_fmap_1 fst). rewrite <- list_fmap_compose. apply distinct_latest_NoDup.
Qed.

(** The rows a sweep releases. *)
Definition sweep_rows (now : Z) (t : list NonceRow) : list NonceRow :=
  filter (λ r, bool_decide (t_pkey r ∈ sweep_targets now t) = true) t.

(** They are the first hundred of the latest stale rows, one per execution. *)
Lemma sweep_rows_latest now t :
  t_ok t = true → sweep_rows now t ≡ₚ take 100 (distinct_latest (sweepable now) t).
Proof.
  intros [Hp _]%t_ok_nonce. apply NoDup_Permutation.
  - apply (NoDup_fmap_1 t_pkey). eapply sublist_NoDup; [exact Hp|]. apply fmap_sublist, sublist_filter.
  - eapply sublist_NoDup; [|apply sublist_take]. apply (NoDup_fmap_1 t_eid), distinct_latest_NoDup.
  - intros r. unfold sweep_rows, sweep_targets. rewrite list_elem_of_filter, bool_decide_eq_true, <- fmap_take.
    assert (Hin : ∀ r', r' ∈ take 100 (distinct_latest (sweepable now) t) → r' ∈ t).
    { intros r' Hr'. eapply elem_of_sublist in Hr'; [|apply sublist_take].
      by apply distinct_latest_elem, latest_Some in Hr' as [? _]. }
    rewrite list_elem_of_fmap. split; [|eauto].
    intros [(r' & Hk & Hr') Hr]. by rewrite (pkey_unique t r r' Hp Hr (Hin _ Hr') Hk).
Qed.

Lemma expire_states_quiet t now :
  t_ok t = true →
  expire_states (idle t now) =
    (Ok (Z.of_nat (length (sweep_rows now t)), nr_execution_id <$> sweep_rows now t),
     idle ((λ r, if bool_decide (t_pkey r ∈ sweep_targets now t) then nonce_set_state now NReleased r else r) <$> t) now).
Proof.
  intros Hok. unfold expire_states, cbind_ok, clift, cret. rewrite select_quiet by done. cbn [fst snd].
  rewrite stmt_quiet. unfold commit, expire_query.
  pose proof (t_ok_sweep now t (λ r, bool_decide (t_pkey r ∈ sweep_targets now t)) Hok) as Hsw.
  unfold t_pkey in *. cbn [t_eid t_rev nonce_table] in *. rewrite Hsw, length_fmap. done.
Qed.

(** C28: one undisturbed run of the sweeper succeeds on any consistent table.
    It releases exactly the rows in [released], reports exactly their
    executions, and changes nothing else: each is reserved, more than 125
    seconds old and the latest such row of its execution; there is one per
    execution that has such a row, but at most 100, the executions of the
    smallest ids first. *)
Theorem sweep_functional t now :
  t_ok t = true →
  ∃ released,
    expire_states (idle t now) =
      (Ok (Z.of_nat (length released), nr_execution_id <$> released),
       idle ((λ r, if decide (r ∈ released) then nonce_set_state now NReleased r else r) <$> t) now) ∧
    released `sublist_of` t ∧ NoDup (nr_execution_id <$> released) ∧
    length released =
      (100 `min` length (remove_dups (nr_execution_id <$> filter (λ r, sweepable now r = true) t)))%nat ∧
    (∀ r, r ∈ released →
       nr_state r = NReserved ∧ nr_updated_at r < now - interval_secs 125 ∧
       ∀ r', r' ∈ t → nr_execution_id r' = nr_execution_id r → sweepable now r' = true →
         nr_revision r' ≤ nr_revision r) ∧
    (∀ r r', r ∈ released → r' ∈ t → sweepable now r' = true →
       nr_execution_id r' ∉ nr_execution_id <$> released →
       eid_uuid (nr_execution_id r) < eid_uuid (nr_execution_id r')).
Proof.
  intros Hok. pose proof (sweep_rows_latest now t Hok) as Hperm. exists (sweep_rows now t). split_and!.
  - rewrite expire_states_quiet by done. do 2 f_equal. apply list_fmap_ext. intros i r Hi%list_elem_of_lookup_2.
    assert (Hiff : r ∈ sweep_rows now t ↔ t_pkey r ∈ sweep_targets now t).
    { unfold sweep_rows. rewrite list_elem_of_filter, bool_decide_eq_true. naive_solver. }
    destruct (decide (r ∈ sweep_rows now t)) as [H|H]; rewrite Hiff in H; by case_bool_decide.
  - apply sublist_filter.
  - rewrite Hperm. eapply sublist_NoDup; [apply (distinct_latest_NoDup (sweepable now) t)|].
    apply fmap_sublist, sublist_take.
  - rewrite (Permutation_length Hperm), length_take. f_equal. by etrans; [apply distinct_latest_length|].
  - intros r Hr. rewrite Hperm in Hr. eapply elem_of_sublist in Hr; [|apply sublist_take].
    apply distinct_latest_elem in Hr. pose proof Hr as [_ [_ Hs]%andb_true_iff]%latest_Some.
    unfold sweepable in Hs. apply andb_true_iff in Hs as [Hs1%bool_decide_eq_true Hs2%Z.ltb_lt].
    split_and!; [done|done|]. intros r' Hr' He Hs'. apply (latest_max _ _ _ _ Hr Hr').
    simpl. by rewrite bool_decide_true.
  - intros r r' Hr Hr' Hs Hne. rewrite Hperm in Hr.
    destruct (distinct_latest_exists (sweepable now) t r' Hr' Hs) as (r0 & He & [j Hj]%list_elem_of_lookup & _).
    apply elem_of_take in Hr as (i & Hi & Hlt).
    assert (Hge : (100 ≤ j)%nat).
    { apply Nat.nlt_ge. intros Hj'. apply Hne. rewrite Hperm. apply list_elem_of_fmap. exists r0. split; [exact (eq_sym He)|].
      apply elem_of_take. by exists j. }
    pose proof (distinct_latest_sorted _ _ _ _ _ _ Hi Hj ltac:(lia)) as Hlt'. by rewrite He in Hlt'.
Qed.

(** A table where one execution has two stale rows and another a fresh one. *)
Definition ex_stale : list NonceRow :=
  [ex_row ex_e1 0 NReserved; mkNonceRow ex_e2 1 1 [] 1 NReserved 0 (interval_secs 100);
   mkNonceRow ex_e1 2 1 [] 2 NReserved 0 0].

Lemma sweep_functional_witness :
  t_ok ex_stale = true ∧
  ∃ released, length released = 1%nat ∧ released `sublist_of` ex_stale ∧
    (expire_states (idle ex_stale (interval_secs 126))).1 =
      Ok (Z.of_nat (length released), nr_execution_id <$> released).
Proof.
  split; [solve_table|].
  destruct (sweep_functional ex_stale (interval_secs 126) ltac:(solve_table))
    as (released & H1 & H2 & _ & H3 & _).
  exists released. split; [exact H3|]. split; [exact H2|]. by rewrite H1.
Defined.

(** The clock moves on while the execution waits for its receipt. *)
Definition wait (d : Z) : Comp NonceDb unit := λ db,
  (tt, mkDb (db_rows db) (db_clock db + d) (db_script db)).

(** A validation that takes longer than the lease, on an otherwise empty
    account. *)
Definition slow_validation (c : ChainId) (from : Address) (e1 e2 : ExecutionId) (d : Z) :
    Comp NonceDb _ :=
  n1 <~ handle_reserve c from e1 ;;
  _ <~ wait d ;;
  swept <~ expire_states ;;
  n2 <~ handle_reserve c from e2 ;;
  fin <~ handle_resolve e1 NFinalized ;;
  cret (n1, swept, n2, fin).

(** the sweeper does not know that an execution is still being validated:
    125 seconds after its reservation (the validator polls up to 300) the nonce
    of a broadcast transaction is released, the next execution gets the same
    nonce, and finalizing the first one fails. *)
Theorem in_flight_nonce_reassigned :
  slow_validation (mkChainId 1) [] (mkExecutionId 1) (mkExecutionId 2) (interval_secs 200)
    (idle [] 0) =
  ((Ok (mkTxNonce 0), Ok (1, [mkExecutionId 1]), Ok (mkTxNonce 0),
    Err (LInternal "execution_id already resolved to Consumed, cannot transition to Finalized")),
   idle [mkNonceRow (mkExecutionId 1) 1 1 [] 0 NConsumed 0 (interval_secs 200);
         mkNonceRow (mkExecutionId 2) 1 1 [] 0 NReserved (interval_secs 200) (interval_secs 200)]
     (interval_secs 200)).
Proof. vm_compute. reflexivity. Qed.
