(* ===== verification/Recovery.v ===== *)
(** * What the sweeper recovers

    The loop of [src/lobby/src/bots/sweeper.rs] on the table that a crash left
    behind: how many ticks it takes until no nonce is reserved any more, and that
    it changes nothing else. *)

From stdpp Require Import sorting.
From S2P Require Import Prelude Types Sql Actor Nonce NonceSpec NonceProps.

(** ** One sweep *)

Definition reserved (r : NonceRow) : bool := bool_decide (nr_state r = NReserved).
Definition reserved_rows (t : list NonceRow) : list NonceRow := filter (λ r, reserved r = true) t.

(** The table after one undisturbed sweep. *)
Definition swept (now : Z) (t : list NonceRow) : list NonceRow :=
  (λ r, if bool_decide (t_pkey r ∈ sweep_targets now t) then nonce_set_state now NReleased r else r) <$> t.

Lemma expire_states_idle t now :
  t_ok t = true → ∃ ids, expire_states (idle t now) = (Ok (Z.of_nat (length ids), ids), idle (swept now t) now).
Proof.
  intros Hok. exists (nr_execution_id <$> sweep_rows now t).
  rewrite expire_states_quiet by done. by rewrite length_fmap.
Qed.

(** What a row becomes: itself, or, if it was reserved, released. *)
Definition released_later (r r' : NonceRow) : Prop :=
  r' = r ∨ nr_state r = NReserved ∧ ∃ now, r' = nonce_set_state now NReleased r.

Lemma released_later_trans r1 r2 r3 : released_later r1 r2 → released_later r2 r3 → released_later r1 r3.
Proof. intros [->|[Hs [now ->]]] H23; [done|]. destruct H23 as [->|[Hs' _]]; [right; eauto|done]. Qed.

Lemma swept_released now t : t_ok t = true → Forall2 released_later t (swept now t).
Proof.
  intros Hok. unfold swept. apply Forall2_fmap_r, Forall_Forall2_diag, list.Forall_forall. intros r Hr.
  unfold compose. case_bool_decide as Hin; [right|by left]. split; [by eapply sweep_targets_reserved|eauto].
Qed.

Lemma t_ok_swept now t : t_ok t = true → t_ok (swept now t) = true.
Proof. apply (t_ok_sweep now t (λ r, bool_decide (t_pkey r ∈ sweep_targets now t))). Qed.

(** ** How many rows a sweep releases *)

(** Every target is one reserved row. *)
Lemma swept_count now t :
  t_ok t = true →
  (length (reserved_rows (swept now t)) + length (sweep_targets now t) = length (reserved_rows t))%nat.
Proof.
  intros Hok. pose proof Hok as [Hp _]%t_ok_nonce.
  set (hit := λ r : NonceRow, bool_decide (t_pkey r ∈ sweep_targets now t)).
  assert (Hhit : length (sweep_targets now t) = length (filter (λ r, hit r = true) t)).
  { etrans; [|symmetry; exact (Permutation_length (sweep_rows_latest now t Hok))].
    unfold sweep_targets. by rewrite !length_take, length_fmap. }
  rewrite Hhit. assert (Hres : ∀ r, r ∈ t → hit r = true → nr_state r = NReserved).
  { intros r Hr Hh%bool_decide_eq_true. by eapply sweep_targets_reserved. }
  clear Hhit Hok Hp. unfold swept, reserved_rows.
  change ((λ r, if bool_decide (t_pkey r ∈ sweep_targets now t) then nonce_set_state now NReleased r else r) <$> t)
    with ((λ r, if hit r then nonce_set_state now NReleased r else r) <$> t).
  generalize dependent hit. intros hit Hres. induction t as [|r l IH]; [done|]. cbn [fmap list_fmap].
  specialize (IH ltac:(intros r' Hr'; apply Hres; by right)). specialize (Hres r ltac:(left)).
  rewrite !list.filter_cons. destruct (hit r).
  - rewrite (decide_True (P := reserved r = true)) by (by apply bool_decide_eq_true, Hres).
    rewrite decide_False by done. rewrite decide_True by done. cbn [length]. lia.
  - rewrite (decide_False (P := false = true)) by done. case_decide; cbn [length]; lia.
Qed.

(** Reserved for too long, all of them. *)
Definition all_stale (now : Z) (t : list NonceRow) : Prop :=
  ∀ r, r ∈ t → nr_state r = NReserved → sweepable now r = true.

(** Ticks until nothing is reserved: a hundred rows at a time while no execution
    has reserved twice, and at least one in any case. *)
Definition ticks_needed (t : list NonceRow) : nat :=
  let n := length (reserved_rows t) in
  if bool_decide (NoDup (nr_execution_id <$> reserved_rows t)) then ((n + 99) / 100)%nat else n.

Lemma swept_reserved now t r : r ∈ reserved_rows (swept now t) → r ∈ reserved_rows t.
Proof.
  intros [Hr (r0 & -> & Hin)%list_elem_of_fmap]%list_elem_of_filter.
  apply list_elem_of_filter. case_bool_decide; [by apply bool_decide_eq_true in Hr|done].
Qed.

Lemma swept_executions now t :
  NoDup (nr_execution_id <$> reserved_rows t) → NoDup (nr_execution_id <$> reserved_rows (swept now t)).
Proof.
  intros Hnd. eapply sublist_NoDup; [exact Hnd|]. unfold reserved_rows, swept. clear Hnd.
  generalize (sweep_targets now t). intros ks. induction t as [|r t IH]; [done|]. cbn [fmap list_fmap].
  rewrite !list.filter_cons. case_bool_decide as Hk.
  - rewrite (decide_False (P := reserved (nonce_set_state now NReleased r) = true)) by done.
    case_decide; [by apply sublist_cons|done].
  - case_decide; [by apply sublist_skip|done].
Qed.

(** All stale reservations are candidates, one per execution. *)
Lemma targets_enough now t :
  all_stale now t → reserved_rows t ≠ [] →
  (1 ≤ length (sweep_targets now t))%nat ∧
  (NoDup (nr_execution_id <$> reserved_rows t) →
   (100 `min` length (reserved_rows t) ≤ length (sweep_targets now t))%nat).
Proof.
  intros Hst Hne.
  assert (Hin : ∀ r, r ∈ reserved_rows t → ∃ r', t_eid r' = t_eid r ∧ r' ∈ distinct_latest (sweepable now) t).
  { intros r [Hr Hrt]%list_elem_of_filter. apply bool_decide_eq_true in Hr.
    destruct (distinct_latest_exists (sweepable now) t r Hrt (Hst r Hrt Hr)) as (r' & He & Hd & _). eauto. }
  assert (Hlen : length (sweep_targets now t) = (100 `min` length (distinct_latest (sweepable now) t))%nat).
  { unfold sweep_targets. by rewrite length_take, length_fmap. }
  rewrite Hlen. split.
  - destruct (reserved_rows t) as [|r l]; [done|]. destruct (Hin r ltac:(left)) as (r' & _ & Hd).
    destruct (distinct_latest _ t); [by apply elem_of_nil in Hd|cbn [length]; lia].
  - intros Hnd. apply Nat.min_le_compat_l. rewrite <- (length_fmap nr_execution_id (reserved_rows t)).
    rewrite <- (length_fmap t_eid (distinct_latest _ t)). apply submseteq_length, NoDup_submseteq; [done|].
    intros e (r & -> & Hr)%list_elem_of_fmap. destruct (Hin r Hr) as (r' & He & Hd).
    apply list_elem_of_fmap. by exists r'.
Qed.

Lemma swept_needed now t :
  t_ok t = true → all_stale now t → (ticks_needed (swept now t) ≤ Nat.pred (ticks_needed t))%nat.
Proof.
  intros Hok Hst. pose proof (swept_count now t Hok) as Hc.
  assert (Hup : (ticks_needed (swept now t) ≤ length (reserved_rows (swept now t)))%nat).
  { unfold ticks_needed. case_bool_decide; [|done]. apply Nat.lt_succ_r, Nat.Div0.div_lt_upper_bound. lia. }
  destruct (decide (reserved_rows t = [])) as [He|Hne].
  { rewrite He in Hc. cbn in Hc. lia. }
  destruct (targets_enough now t Hst Hne) as [H1 H100].
  unfold ticks_needed at 2. case_bool_decide as Hnd; [|lia].
  unfold ticks_needed. rewrite bool_decide_true by (by apply swept_executions). specialize (H100 Hnd).
  set (c := length (reserved_rows t)) in *. set (c' := length (reserved_rows (swept now t))) in *.
  assert (0 < c)%nat by (unfold c; destruct (reserved_rows t); cbn; [done|lia]).
  pose proof (Nat.div_mod_eq (c + 99) 100). pose proof (Nat.mod_upper_bound (c + 99) 100 ltac:(lia)).
  pose proof (Nat.div_mod_eq (c' + 99) 100). pose proof (Nat.mod_upper_bound (c' + 99) 100 ltac:(lia)). lia.
Qed.

(** ** The loop *)

Fixpoint ticks (n : nat) (now : Z) (t : list NonceRow) : list NonceRow :=
  match n with
  | O => t
  | S n => ticks n (now + interval_secs 30) (swept now t)
  end.

Lemma sweeper_bot_idle n now t :
  t_ok t = true → ∃ rs, sweeper_bot n (idle t now) = (rs, idle (ticks n now t) (now + Z.of_nat n * interval_secs 30)) ∧
    length rs = n ∧ Forall (λ r, is_ok r = true) rs.
Proof.
  revert now t; induction n as [|n IH]; intros now t Hok.
  { exists []. cbn [sweeper_bot ticks]. split_and!; [|done|constructor]. by rewrite Z.add_0_r. }
  cbn [sweeper_bot ticks]. unfold cbind. destruct (expire_states_idle t now Hok) as [ids ->].
  destruct (IH (now + interval_secs 30) (swept now t) (t_ok_swept _ _ Hok)) as (rs & Hrs & Hl & Hf).
  cbn [db_rows db_clock db_script]. rewrite Hrs. exists (Ok (Z.of_nat (length ids), ids) :: rs).
  split_and!; [|cbn [length]; by rewrite Hl|by constructor].
  unfold cret. f_equal. f_equal. rewrite Nat2Z.inj_succ. ring.
Qed.

Lemma ticks_settle n now t :
  t_ok t = true → Forall2 released_later t (ticks n now t) ∧ t_ok (ticks n now t) = true.
Proof.
  revert now t; induction n as [|n IH]; intros now t Hok; cbn [ticks].
  { split; [|done]. apply Forall_Forall2_diag, list.Forall_forall. intros r _. by left. }
  destruct (IH (now + interval_secs 30) (swept now t) (t_ok_swept _ _ Hok)) as [Hf Hok'].
  split; [|done]. eapply list.Forall2_trans; [|by apply swept_released|exact Hf].
  intros r1 r2 r3. apply released_later_trans.
Qed.

(** Every reservation dates from before [since]. *)
Definition reserved_before (since : Z) (t : list NonceRow) : Prop :=
  ∀ r, r ∈ t → nr_state r = NReserved → nr_updated_at r ≤ since.

Lemma swept_before since now t : reserved_before since t → reserved_before since (swept now t).
Proof.
  intros Hb r Hr Hs. apply Hb; [|done].
  assert (Hin : r ∈ reserved_rows (swept now t)).
  { apply list_elem_of_filter. split; [by apply bool_decide_eq_true|done]. }
  apply swept_reserved in Hin. by apply list_elem_of_filter in Hin as [_ ?].
Qed.

Lemma reserved_before_stale since now t :
  reserved_before since t → since + interval_secs 125 < now → all_stale now t.
Proof.
  intros Hb Hn r Hr Hs. specialize (Hb r Hr Hs). unfold sweepable. rewrite bool_decide_true by done.
  apply Z.ltb_lt. lia.
Qed.

Lemma ticks_stale n since now t :
  t_ok t = true → reserved_before since t → since + interval_secs 125 < now → (ticks_needed t ≤ n)%nat →
  reserved_rows (ticks n now t) = [].
Proof.
  revert now t; induction n as [|n IH]; intros now t Hok Hb Hn Hle; cbn [ticks].
  - destruct (reserved_rows t) as [|r l] eqn:Hr; [done|]. exfalso. unfold ticks_needed in Hle. rewrite Hr in Hle.
    case_bool_decide; cbn [length] in Hle; [|lia].
    pose proof (Nat.div_mod_eq (S (length l) + 99) 100).
    pose proof (Nat.mod_upper_bound (S (length l) + 99) 100 ltac:(lia)). lia.
  - pose proof (swept_needed now t Hok (reserved_before_stale _ _ _ Hb Hn)).
    apply IH; [by apply t_ok_swept|by apply swept_before|unfold interval_secs in *; lia|lia].
Qed.

(** Sweeping before the reservations are stale costs no tick. *)
Lemma swept_needed_le now t : t_ok t = true → (ticks_needed (swept now t) ≤ ticks_needed t)%nat.
Proof.
  intros Hok. pose proof (swept_count now t Hok) as Hc. unfold ticks_needed.
  destruct (decide (NoDup (nr_execution_id <$> reserved_rows t))) as [Hnd|Hnd].
  - rewrite !bool_decide_true by (done || by apply swept_executions). apply Nat.Div0.div_le_mono. lia.
  - rewrite (bool_decide_false _ Hnd). case_bool_decide; [|lia].
    destruct (length (reserved_rows (swept now t))) as [|c] eqn:Hl; [cbn; lia|].
    apply Nat.lt_succ_r, Nat.Div0.div_lt_upper_bound. lia.
Qed.

Lemma ticks_recover early n since now t :
  t_ok t = true → reserved_before since t → since + interval_secs 125 < now + Z.of_nat early * interval_secs 30 →
  (early + ticks_needed t ≤ n)%nat → reserved_rows (ticks n now t) = [].
Proof.
  revert n now t; induction early as [|early IH]; intros n now t Hok Hb Hn Hle.
  { apply (ticks_stale n since); [done|done|lia|done]. }
  destruct n as [|n]; [lia|]. cbn [ticks]. pose proof (swept_needed_le now t Hok).
  apply IH; [by apply t_ok_swept|by apply swept_before|lia|lia].
Qed.
