(* ===== verification/Rlp.v ===== *)
(** * RLP: the [rlp] crate as an interface, and the reference encoding

    The crate is third-party code: [RlpStream] lists the operations the
    sources call, [RlpLaws] its documented behaviour (a stack of open lists;
    an item appended to a full list closes it).  [rlp_encode] is the encoding
    of the Yellow Paper, and [Builder] a concrete stream that satisfies the
    laws.  The [EthRlpEncode] functions of
    [src/crate/primitives/src/traits.rs] and [types.rs] are modelled here. *)

From S2P Require Import Prelude Types.

(** ** The reference encoding *)

#[warnings="-register-all"]
Inductive Item :=
| Str (b : Bytes)
| Lst (l : list Item).

(** Minimal big-endian bytes: no leading zero, empty for 0. *)
Fixpoint strip_zeros (l : Bytes) : Bytes :=
  match l with
  | [] => []
  | b :: l' => if byte_val b =? 0 then strip_zeros l' else l
  end.

Definition be_min (v : Z) : Bytes := strip_zeros (be_bytes 32 v).

(** The prefix of a payload of [len] bytes. *)
Definition rlp_header (offset len : Z) : Bytes :=
  if len <? 56 then [byte_of_Z (offset + len)]
  else let n := strip_zeros (be_bytes 8 len) in
       byte_of_Z (offset + 55 + Z.of_nat (length n)) :: n.

Definition rlp_string (b : Bytes) : Bytes :=
  match b with
  | [x] => if byte_val x <? 128 then [x] else rlp_header 128 1 ++ b
  | _ => rlp_header 128 (Z.of_nat (length b)) ++ b
  end.

Definition rlp_list (payload : Bytes) : Bytes :=
  rlp_header 192 (Z.of_nat (length payload)) ++ payload.

Fixpoint rlp_encode (i : Item) : Bytes :=
  match i with
  | Str b => rlp_string b
  | Lst l => rlp_list (concat (map rlp_encode l))
  end.

(** ** The stream interface *)

Class RlpStream (S : Type) := {
  rlp_new : S;
  rlp_new_list : nat → S;
  append_empty_data : S → S;
  append_bytes : Bytes → S → S;        (* [append(&&[u8])], [append(&Bytes)] *)
  append_u8 : Z → S → S;               (* [append(&u8)] *)
  append_raw : Bytes → nat → S → S;
  begin_list : nat → S → S;
  encode_value : Bytes → S → S;        (* [encoder().encode_value(..)] *)
  as_raw : S → Bytes;
  rlp_out : S → Bytes
}.

(** What a stream has been told: the finished items and the open lists,
    innermost first, each with the number of items it still expects. *)
Record Builder := mkBuilder {
  b_done : list Item;
  b_open : list (nat * list Item)
}.

(** Appending an item closes every list it completes. *)
Fixpoint push (i : Item) (done : list Item) (opened : list (nat * list Item)) : Builder :=
  match opened with
  | [] => mkBuilder (done ++ [i]) []
  | (S O, items) :: rest => push (Lst (items ++ [i])) done rest
  | (O, items) :: rest => mkBuilder done ((O, items ++ [i]) :: rest)
  | (S n, items) :: rest => mkBuilder done ((n, items ++ [i]) :: rest)
  end.

Definition b_append (i : Item) (b : Builder) : Builder := push i (b_done b) (b_open b).

Definition b_begin (n : nat) (b : Builder) : Builder :=
  match n with
  | O => b_append (Lst []) b
  | _ => mkBuilder (b_done b) ((n, []) :: b_open b)
  end.

Definition b_empty : Builder := mkBuilder [] [].

Definition u8_item (z : Z) : Item := Str (if z =? 0 then [] else [byte_of_Z z]).

(** The documented behaviour: the stream tracks a builder and, once every list
    is closed, returns the encoding of the items. *)
Class RlpLaws (S : Type) `{RlpStream S} := {
  rlp_state : S → Builder;
  rlp_new_law : rlp_state rlp_new = b_empty;
  rlp_new_list_law n : rlp_state (rlp_new_list n) = b_begin n b_empty;
  append_empty_law s : rlp_state (append_empty_data s) = b_append (Str []) (rlp_state s);
  append_bytes_law b s : rlp_state (append_bytes b s) = b_append (Str b) (rlp_state s);
  append_u8_law z s : rlp_state (append_u8 z s) = b_append (u8_item z) (rlp_state s);
  append_raw_law b s : rlp_state (append_raw (rlp_string b) 1 s) = b_append (Str b) (rlp_state s);
  begin_list_law n s : rlp_state (begin_list n s) = b_begin n (rlp_state s);
  encode_value_law b : as_raw (encode_value b rlp_new) = rlp_string b;
  rlp_out_law s items :
    rlp_state s = mkBuilder items [] → rlp_out s = concat (map rlp_encode items)
}.

(** ** The [EthRlpEncode] functions *)

Section encode.
Context {S : Type} `{RlpStream S}.

(** Source: [crate/primitives/src/traits.rs] lines 116-132, [eth_rlp_append_u256].
    [buf.iter().position(|b| *b != 0)] and the slice from there. *)
Definition eth_rlp_append_u256 (value : Z) (s : S) : S :=
  if value =? 0 then append_empty_data s
  else append_raw (as_raw (encode_value (be_min value) rlp_new)) 1 s.

(** Source: [crate/primitives/src/traits.rs] lines 143-151, [EthRlpEncode for Address]. *)
Definition eth_rlp_append_address (a : Address) (s : S) : S :=
  append_raw (as_raw (encode_value a rlp_new)) 1 s.

(** Source: [crate/primitives/src/types.rs] lines 146-150, [EthRlpEncode for ChainId]. *)
Definition eth_rlp_append_chain_id (c : ChainId) (s : S) : S := eth_rlp_append_u256 (chain_u256 c) s.
(** Source: [crate/primitives/src/types.rs] lines 188-192, [EthRlpEncode for TxNonce]. *)
Definition eth_rlp_append_nonce (n : TxNonce) (s : S) : S := eth_rlp_append_u256 (nonce_u256 n) s.
End encode.

(** ** Lemmas *)

Lemma be_val_strip_zeros l : be_val (strip_zeros l) = be_val l.
Proof.
  induction l as [|b l IH]; [done|]. cbn [strip_zeros].
  destruct (Z.eqb_spec (byte_val b) 0) as [E|]; [|done].
  rewrite IH. cbn [be_val]. rewrite E. lia.
Qed.

Lemma strip_zeros_head l b l' : strip_zeros l = b :: l' → byte_val b ≠ 0.
Proof.
  induction l as [|c l IH]; [done|]. cbn [strip_zeros].
  destruct (Z.eqb_spec (byte_val c) 0); [done|]. by intros [= <- <-].
Qed.

Lemma length_strip_zeros l : (length (strip_zeros l) ≤ length l)%nat.
Proof.
  induction l as [|c l IH]; [done|]. cbn [strip_zeros].
  destruct (_ =? _); simpl; lia.
Qed.

(** The minimal bytes of a 256-bit value: they have that value and do not
    start with a zero byte. *)
Lemma be_min_val v : 0 ≤ v ≤ u256_max → be_val (be_min v) = v.
Proof.
  intros Hv. unfold be_min. rewrite be_val_strip_zeros, be_val_be_bytes.
  apply Z.mod_small. unfold u256_max in Hv. change (256 ^ Z.of_nat 32) with (2 ^ 256). lia.
Qed.

Lemma be_min_zero : be_min 0 = [].
Proof. reflexivity. Qed.

(** Fixed reading: the Ethereum scalar of a value. *)
Definition scalar (v : Z) : Item := Str (be_min v).

Section laws.
Context {S : Type} `{RlpLaws S}.

Lemma eth_rlp_append_u256_law v s :
  rlp_state (eth_rlp_append_u256 v s) = b_append (scalar v) (rlp_state s).
Proof.
  unfold eth_rlp_append_u256. destruct (Z.eqb_spec v 0) as [->|].
  - by rewrite append_empty_law.
  - rewrite encode_value_law. apply append_raw_law.
Qed.

Lemma eth_rlp_append_address_law a s :
  rlp_state (eth_rlp_append_address a s) = b_append (Str a) (rlp_state s).
Proof.
  unfold eth_rlp_append_address. rewrite encode_value_law. apply append_raw_law.
Qed.
End laws.

(** ** Decoding *)

(** The payload that a prefix announces: whether it is a list, its length, and
    what follows the prefix. *)
Definition parse_header (x : Byte.byte) (rest : Bytes) : bool * Z * Bytes :=
  let v := byte_val x in
  if v <? 184 then (false, v - 128, rest)
  else if v <? 192 then
    let n := Z.to_nat (v - 183) in (false, be_val (take n rest), drop n rest)
  else if v <? 248 then (true, v - 192, rest)
  else let n := Z.to_nat (v - 247) in (true, be_val (take n rest), drop n rest).

(** Decodes a sequence of items; [fuel] above the number of bytes is enough. *)
Fixpoint rlp_decode (fuel : nat) (b : Bytes) : option (list Item) :=
  match fuel with
  | O => None
  | S fuel =>
      match b with
      | [] => Some []
      | x :: rest =>
          if byte_val x <? 128 then cons (Str [x]) <$> rlp_decode fuel rest
          else
            let '(is_list, len, rest') := parse_header x rest in
            let payload := take (Z.to_nat len) rest' in
            let after := drop (Z.to_nat len) rest' in
            if is_list : bool then
              l ← rlp_decode fuel payload; cons (Lst l) <$> rlp_decode fuel after
            else cons (Str payload) <$> rlp_decode fuel after
      end
  end.

(** Payload lengths fit the eight length bytes. *)
Definition len_fits (n : nat) : Prop := Z.of_nat n < 2 ^ 64.

Fixpoint rlp_fits (i : Item) : Prop :=
  match i with
  | Str b => len_fits (length b)
  | Lst l => len_fits (length (concat (map rlp_encode l))) ∧ fold_right (λ i P, rlp_fits i ∧ P) True l
  end.
Definition seq_fits (l : list Item) : Prop := fold_right (λ i P, rlp_fits i ∧ P) True l.

Lemma len_bytes_nonempty n : 0 < n < 2 ^ 64 → (0 < length (strip_zeros (be_bytes 8 n)) ≤ 8)%nat.
Proof.
  intros Hn. split.
  - destruct (strip_zeros (be_bytes 8 n)) eqn:E; [|simpl; lia].
    pose proof (be_val_strip_zeros (be_bytes 8 n)) as Hv. rewrite E, be_val_be_bytes in Hv.
    rewrite Z.mod_small in Hv by (change (256 ^ Z.of_nat 8) with (2 ^ 64); lia). simpl in Hv. lia.
  - etrans; [apply length_strip_zeros|by rewrite length_be_bytes].
Qed.

Lemma len_bytes_val n : 0 ≤ n < 2 ^ 64 → be_val (strip_zeros (be_bytes 8 n)) = n.
Proof.
  intros Hn. rewrite be_val_strip_zeros, be_val_be_bytes. apply Z.mod_small.
  change (256 ^ Z.of_nat 8) with (2 ^ 64). lia.
Qed.

(** Reading back a prefix. *)
Lemma rlp_header_parse is_list len rest :
  0 ≤ len < 2 ^ 64 →
  ∃ x tl, rlp_header (if is_list : bool then 192 else 128) len ++ rest = x :: tl ∧
    128 ≤ byte_val x ∧ parse_header x tl = (is_list, len, rest).
Proof.
  intros Hlen. unfold rlp_header. set (off := if is_list then 192 else 128).
  assert (Hoff : off = 128 ∨ off = 192) by (unfold off; destruct is_list; auto).
  destruct (Z.ltb_spec len 56).
  - eexists _, _. split; [reflexivity|].
    rewrite byte_val_of_Z, Z.mod_small by lia. split; [lia|].
    unfold parse_header. rewrite byte_val_of_Z, Z.mod_small by lia. unfold off.
    destruct is_list; repeat (case_match; try (match goal with H : (_ <? _) = _ |- _ =>
      first [apply Z.ltb_lt in H|apply Z.ltb_ge in H]; try lia end)); repeat f_equal; lia.
  - pose proof (len_bytes_nonempty len ltac:(lia)) as Hl.
    pose proof (len_bytes_val len Hlen) as Hv.
    set (n := strip_zeros (be_bytes 8 len)) in *.
    exists (byte_of_Z (off + 55 + Z.of_nat (length n))), (n ++ rest). split; [reflexivity|].
    rewrite byte_val_of_Z, Z.mod_small by lia. split; [lia|].
    unfold parse_header. rewrite byte_val_of_Z, Z.mod_small by lia.
    assert (Ht : ∀ m, m = length n → be_val (take m (n ++ rest)) = len ∧ drop m (n ++ rest) = rest).
    { intros m ->. by rewrite take_app_length, drop_app_length. }
    unfold off. cbv zeta. destruct is_list;
    repeat (case_match; try (match goal with H : (_ <? _) = _ |- _ =>
      first [apply Z.ltb_lt in H|apply Z.ltb_ge in H]; try lia end)).
    + destruct (Ht (Z.to_nat (192 + 55 + Z.of_nat (length n) - 247))) as [-> ->]; [lia|done].
    + destruct (Ht (Z.to_nat (128 + 55 + Z.of_nat (length n) - 183))) as [-> ->]; [lia|done].
Qed.

Lemma rlp_decode_string fuel b rest :
  len_fits (length b) →
  rlp_decode (S fuel) (rlp_string b ++ rest) = cons (Str b) <$> rlp_decode fuel rest.
Proof.
  intros Hb.
  assert (Hlong : rlp_decode (S fuel) (rlp_header 128 (Z.of_nat (length b)) ++ b ++ rest) =
                  cons (Str b) <$> rlp_decode fuel rest).
  { destruct (rlp_header_parse false (Z.of_nat (length b)) (b ++ rest)) as (x & tl & E & Hx & Hp);
      [unfold len_fits in Hb; lia|]. rewrite E. cbn [rlp_decode]. rewrite Hp.
    destruct (Z.ltb_spec (byte_val x) 128); [lia|].
    by rewrite Nat2Z.id, take_app_length, drop_app_length. }
  unfold rlp_string. destruct b as [|x [|y b]]; [exact Hlong| |rewrite <- app_assoc; exact Hlong].
  destruct (Z.ltb_spec (byte_val x) 128) as [Hx|Hx]; [|rewrite <- app_assoc; exact Hlong].
  cbn [app rlp_decode]. by destruct (Z.ltb_spec (byte_val x) 128); [|lia].
Qed.

Lemma rlp_decode_list fuel payload l rest :
  len_fits (length payload) → rlp_decode fuel payload = Some l →
  rlp_decode (S fuel) (rlp_list payload ++ rest) = cons (Lst l) <$> rlp_decode fuel rest.
Proof.
  intros Hb Hl. unfold rlp_list. rewrite <- app_assoc.
  destruct (rlp_header_parse true (Z.of_nat (length payload)) (payload ++ rest))
    as (x & tl & E & Hx & Hp); [unfold len_fits in Hb; lia|].
  rewrite E. cbn [rlp_decode]. rewrite Hp.
  destruct (Z.ltb_spec (byte_val x) 128); [lia|].
  by rewrite Nat2Z.id, take_app_length, drop_app_length, Hl.
Qed.

Lemma rlp_string_nonempty b : (0 < length (rlp_string b))%nat.
Proof.
  unfold rlp_string, rlp_header.
  repeat case_match; rewrite ?length_app; simpl; lia.
Qed.

Lemma rlp_list_length payload : (length payload < length (rlp_list payload))%nat.
Proof. unfold rlp_list, rlp_header. case_match; rewrite length_app; simpl; lia. Qed.

(** Decoding inverts encoding. *)
Lemma rlp_decode_encode fuel l :
  (length (concat (map rlp_encode l)) < fuel)%nat → seq_fits l →
  rlp_decode fuel (concat (map rlp_encode l)) = Some l.
Proof.
  revert l. induction fuel as [|fuel IH]; [lia|]. intros [|i l] Hf Hfit; [done|].
  destruct Hfit as [Hi Hfit]. cbn [map concat] in *. rewrite length_app in Hf.
  destruct i as [b|items]; cbn [rlp_encode] in *.
  - pose proof (rlp_string_nonempty b). rewrite rlp_decode_string by done.
    rewrite IH; [done|lia|done].
  - pose proof (rlp_list_length (concat (map rlp_encode items))).
    destruct Hi as [Hlen Hitems].
    rewrite rlp_decode_list with (l := items); [|done|apply IH; [lia|done]].
    rewrite IH; [done|lia|done].
Qed.

Lemma rlp_encode_inj i1 i2 :
  rlp_fits i1 → rlp_fits i2 → rlp_encode i1 = rlp_encode i2 → i1 = i2.
Proof.
  intros H1 H2 E.
  set (fuel := Datatypes.S (length (rlp_encode i1))).
  assert (E1 : rlp_decode fuel (concat (map rlp_encode [i1])) = Some [i1]).
  { apply rlp_decode_encode; [|by split]. simpl. rewrite app_nil_r. unfold fuel. lia. }
  assert (E2 : rlp_decode fuel (concat (map rlp_encode [i2])) = Some [i2]).
  { apply rlp_decode_encode; [|by split]. simpl. rewrite app_nil_r. unfold fuel. rewrite E. lia. }
  clearbody fuel. simpl in E1, E2. rewrite app_nil_r in E1, E2. congruence.
Qed.

(** ** A stream that satisfies the laws

    [append_raw] decodes the string it is given. *)

Definition decode_string (raw : Bytes) : Bytes :=
  match raw with
  | [] => []
  | x :: rest =>
      let v := byte_val x in
      if v <? 128 then [x]
      else if v <? 184 then rest
      else drop (Z.to_nat (v - 183)) rest
  end.

Lemma decode_string_header b : decode_string (rlp_header 128 (Z.of_nat (length b)) ++ b) = b.
Proof.
  unfold rlp_header. destruct (Z.ltb_spec (Z.of_nat (length b)) 56).
  - cbn [app decode_string]. rewrite byte_val_of_Z, Z.mod_small by lia.
    destruct (Z.ltb_spec (128 + Z.of_nat (length b)) 128); [lia|].
    by destruct (Z.ltb_spec (128 + Z.of_nat (length b)) 184); [|lia].
  - set (n := strip_zeros _). cbn [app decode_string].
    assert (Hn : (length n ≤ 8)%nat)
      by (unfold n; etrans; [apply length_strip_zeros|by rewrite length_be_bytes]).
    rewrite byte_val_of_Z, Z.mod_small by lia.
    destruct (Z.ltb_spec (128 + 55 + Z.of_nat (length n)) 128); [lia|].
    destruct (Z.ltb_spec (128 + 55 + Z.of_nat (length n)) 184).
    + assert (length n = O) as ->%nil_length_inv by lia. done.
    + replace (Z.to_nat _) with (length n) by lia. apply drop_app_length.
Qed.

Lemma decode_string_correct b : decode_string (rlp_string b) = b.
Proof.
  unfold rlp_string. destruct b as [|x [|y b]];
    [done| |apply (decode_string_header (x :: y :: b))].
  destruct (Z.ltb_spec (byte_val x) 128) as [Hx|Hx].
  - simpl. by destruct (Z.ltb_spec (byte_val x) 128); [|lia].
  - apply (decode_string_header [x]).
Qed.

Record BStream := mkBStream { bs_state : Builder; bs_raw : Bytes }.

Definition bs_step (f : Builder → Builder) (s : BStream) : BStream :=
  mkBStream (f (bs_state s)) (bs_raw s).

#[export] Instance bstream : RlpStream BStream := {|
  rlp_new := mkBStream b_empty [];
  rlp_new_list n := mkBStream (b_begin n b_empty) [];
  append_empty_data := bs_step (b_append (Str []));
  append_bytes b := bs_step (b_append (Str b));
  append_u8 z := bs_step (b_append (u8_item z));
  append_raw raw _ := bs_step (b_append (Str (decode_string raw)));
  begin_list n := bs_step (b_begin n);
  encode_value b s := mkBStream (bs_state s) (bs_raw s ++ rlp_string b);
  as_raw := bs_raw;
  rlp_out s := concat (map rlp_encode (b_done (bs_state s)))
|}.

#[export] Instance bstream_laws : RlpLaws BStream.
Proof.
  exists bs_state; try done.
  - intros b s. simpl. by rewrite decode_string_correct.
  - intros s items E. simpl in *. by rewrite E.
Defined.

(** ** Building a list by appending its items *)

Definition appends (l : list Item) (b : Builder) : Builder := fold_left (λ b i, b_append i b) l b.

Lemma appends_open l its done rest :
  appends l (mkBuilder done ((length l, its) :: rest)) =
  match l with [] => mkBuilder done ((O, its) :: rest) | _ => push (Lst (its ++ l)) done rest end.
Proof.
  revert its. induction l as [|i l IH]; intros its; [done|].
  destruct l as [|j l]; [done|].
  transitivity (appends (j :: l) (mkBuilder done ((length (j :: l), its ++ [i]) :: rest))); [done|].
  rewrite IH. by rewrite <- app_assoc.
Qed.

(** Opening a list, appending its items, is appending the list. *)
Lemma appends_list l b : appends l (b_begin (length l) b) = b_append (Lst l) b.
Proof.
  destruct l as [|i l]; [done|]. unfold b_begin. cbn [length].
  exact (appends_open (i :: l) [] (b_done b) (b_open b)).
Qed.

Lemma appends_app l1 l2 b : appends (l1 ++ l2) b = appends l2 (appends l1 b).
Proof. apply fold_left_app. Qed.

(** The top-level list, once complete. *)
Lemma appends_top {S} `{RlpLaws S} l s :
  rlp_state s = appends l (b_begin (length l) b_empty) → rlp_out s = rlp_encode (Lst l).
Proof.
  rewrite appends_list. intros Hs. rewrite (rlp_out_law s [Lst l]) by done. apply app_nil_r.
Qed.

(** ** Short enough encodings have short enough parts *)

Lemma length_concat_elem (l : list Item) i :
  i ∈ l → (length (rlp_encode i) ≤ length (concat (map rlp_encode l)))%nat.
Proof.
  induction l as [|j l IH]; [by intros ?%elem_of_nil|].
  intros [->|Hi]%elem_of_cons; cbn [map concat]; rewrite length_app; [lia|].
  specialize (IH Hi). lia.
Qed.

Lemma rlp_string_length b : (length b ≤ length (rlp_string b))%nat.
Proof.
  unfold rlp_string, rlp_header. destruct b as [|x [|y b]]; [simpl; lia| |];
    repeat case_match; rewrite ?length_app; simpl; lia.
Qed.

Fixpoint rlp_encode_fits (i : Item) : len_fits (length (rlp_encode i)) → rlp_fits i.
Proof.
  destruct i as [b|l]; cbn [rlp_encode rlp_fits]; unfold len_fits.
  - pose proof (rlp_string_length b). lia.
  - pose proof (rlp_list_length (concat (map rlp_encode l))) as Hlen. intros Hl.
    split; [lia|].
    assert (Hall : ∀ i, i ∈ l → len_fits (length (rlp_encode i))).
    { intros i Hi%length_concat_elem. unfold len_fits. lia. }
    clear Hl Hlen. induction l as [|i l IH]; [done|]. cbn [fold_right]. split.
    + apply rlp_encode_fits, Hall. left.
    + apply IH. intros j Hj. apply Hall. by right.
Qed.

Lemma be_min_inj v w : 0 ≤ v ≤ u256_max → 0 ≤ w ≤ u256_max → be_min v = be_min w → v = w.
Proof. intros Hv Hw E. by rewrite <- (be_min_val v), <- (be_min_val w), E. Qed.
