(* ===== verification/Eip1559.v ===== *)
(** * EIP-1559 transactions: lint, normalization, encoding, signing

    [src/crate/utils/src/eip1559/{lint,normalize,sign}.rs]. *)

From S2P Require Import Prelude Types Rlp.

(** ** Lint *)

Definition MAX_GAS_LIMIT : Z := 30000000.
Definition SUPPORTED_CHAINS : list Z := [1; 5; 560048; 137; 42161].

(** Source: [crate/utils/src/eip1559/lint.rs] lines 9-67, [transaction_lint]. *)
Definition transaction_lint (txn : Eip1559Transaction) : result unit RelayHostError :=
  if tx_gas_limit txn =? 0 then Err (RHValidationFailed "gas limit cannot be zero")
  else if MAX_GAS_LIMIT <? tx_gas_limit txn then
    Err (RHValidationFailed ("lint error: fee exeeds max gas limit: " +:+ pretty MAX_GAS_LIMIT))
  else if tx_max_fee_per_gas txn =? 0 then
    Err (RHValidationFailed "lint error: max_fee_per_gas cannot be zero")
  else if tx_max_fee_per_gas txn <=? tx_max_priority_fee_per_gas txn then
    Err (RHValidationFailed
      "lint error: max_priority_fee_per_gas cannot exceed max_fee_per_gas")
  else match u256_try_u64 (chain_u256 (tx_chain_id txn)) with
       | None => Err (RHValidationFailed "lint error: invalid chain_id format")
       | Some c =>
           if existsb (Z.eqb c) SUPPORTED_CHAINS then Ok tt
           else Err (RHValidationFailed "lint error: unsupported chain_id")
       end.

(** ** Hexadecimal

    [u64::from_str_radix] is the standard library's; [U256::from_str_radix]
    (ruint) and [hex::decode] are third-party. *)

Definition hex_val (c : Ascii.ascii) : option Z :=
  let n := Z.of_N (Ascii.N_of_ascii c) in
  if (48 <=? n) && (n <=? 57) then Some (n - 48)
  else if (97 <=? n) && (n <=? 102) then Some (n - 87)
  else if (65 <=? n) && (n <=? 70) then Some (n - 55)
  else None.

Fixpoint parse_hex_digits (acc : Z) (s : string) : option Z :=
  match s with
  | EmptyString => Some acc
  | String c s' => match hex_val c with
                   | Some d => parse_hex_digits (acc * 16 + d) s'
                   | None => None
                   end
  end.

(** [u64::from_str_radix(s, 16)]: an optional [+], at least one digit, no
    overflow. *)
Definition u64_from_str_radix16 (s : string) : option Z :=
  let digits := match s with String "+"%char s' => s' | _ => s end in
  match digits with
  | EmptyString => None
  | _ => match parse_hex_digits 0 digits with
         | Some z => if z <=? u64_max then Some z else None
         | None => None
         end
  end.

(** [s.strip_prefix("0x").unwrap_or(s)]. *)
Definition strip_0x (s : string) : option string :=
  match s with
  | String "0"%char (String "x"%char s') => Some s'
  | _ => None
  end.

Class HexOps := {
  u256_from_str_radix16 : string → option Z;
  hex_decode : string → result Bytes string
}.

(** Printing and parsing agree, and printing is injective on bytes. *)
Class HexLaws `{HexOps} := {
  u256_radix_law z s : 0 ≤ z ≤ u256_max → parse_hex_digits 0 s = Some z → s ≠ "" →
    u256_from_str_radix16 s = Some z;
  hex_decode_law b : hex_decode (hex_encode b) = Ok b
}.

Inductive NormalizationError := InvalidField (f : string).
#[export] Instance NormalizationError_eq_dec : EqDecision NormalizationError.
Proof. solve_decision. Defined.

(** Source: [crate/utils/src/eip1559/normalize.rs] lines 8-12, [Display for NormalizationError]. *)
Definition NormalizationError_display (e : NormalizationError) : string :=
  match e with InvalidField f => "Invalid field: " +:+ f end.

Section normalize.
Context `{HexOps}.

(** Source: [crate/utils/src/eip1559/normalize.rs] lines 103-107, [parse_hex_u64]. *)
Definition parse_hex_u64 (s : string) : option Z := u64_from_str_radix16 (default s (strip_0x s)).
(** Source: [crate/utils/src/eip1559/normalize.rs] lines 109-113, [parse_hex_u256]. *)
Definition parse_hex_u256 (s : string) : option Z := u256_from_str_radix16 (default s (strip_0x s)).
(** Source: [crate/utils/src/eip1559/normalize.rs] lines 115-120, [parse_hex_bytes]. *)
Definition parse_hex_bytes (s : string) : option Bytes :=
  match hex_decode (default s (strip_0x s)) with Ok b => Some b | Err _ => None end.

(** [opt.as_ref().map(parse).transpose().map_err(..)?.unwrap_or(d)]. *)
Definition opt_field {A} (name : string) (parse : string → option A) (d : A) (o : option string) :
    result A NormalizationError :=
  match o with
  | None => Ok d
  | Some s => result_of_option (parse s) (InvalidField name)
  end.

(** Source: [crate/utils/src/eip1559/normalize.rs] lines 69-83, [normalize_eip1193_transaction (access list)]. *)
Definition normalize_access_item (item : AccessListItem) :
    result (Address * list Z) NormalizationError :=
  match mapM parse_hex_u256 (ali_storage_keys item) with
  | Some keys => Ok (ali_address item, keys)
  | None => Err (InvalidField "access_list")
  end.

Fixpoint collect {A B E} (f : A → result B E) (l : list A) : result (list B) E :=
  match l with
  | [] => Ok []
  | x :: l' => match f x with
               | Err e => Err e
               | Ok y => match collect f l' with Ok ys => Ok (y :: ys) | Err e => Err e end
               end
  end.

(** Rust's [?] on pure results. *)
Definition rbind {A B E} (r : result A E) (k : A → result B E) : result B E :=
  match r with Ok a => k a | Err e => Err e end.

(** Source: [crate/utils/src/eip1559/normalize.rs] lines 17-98, [normalize_eip1193_transaction].
    [None] is the panic of [ChainId::try_from(chain_id_u64 as i64).unwrap()]. *)
Definition normalize_eip1193_transaction (params : Eip1193SendTransactionParams) :
    option (result (Eip1559Transaction * Address) NormalizationError) :=
  match parse_hex_u64 (p_chain_id params) with
  | None => Some (Err (InvalidField "chain_id"))
  | Some chain_id_u64 =>
  match ChainId_try_from (u64_as_i64 chain_id_u64) with
  | Err _ => None
  | Ok chain_id => Some (
      rbind (opt_field "gas" parse_hex_u256 0 (p_gas params)) (λ gas_limit,
      rbind (opt_field "max_fee_per_gas" parse_hex_u256 0 (p_max_fee_per_gas params)) (λ max_fee,
      rbind (opt_field "max_priority_fee_per_gas" parse_hex_u256 0
               (p_max_priority_fee_per_gas params)) (λ max_prio,
      rbind (opt_field "value" parse_hex_u256 0 (p_value params)) (λ value,
      rbind (opt_field "data" parse_hex_bytes [] (p_data params)) (λ data,
      rbind (collect normalize_access_item (default [] (p_access_list params))) (λ access_list,
      Ok (mkEip1559 chain_id (mkTxNonce 0) max_prio max_fee gas_limit (p_to params) value data
            access_list, p_from params))))))))
  end end.
End normalize.

(** ** Encoding *)

Section encode.
Context {S : Type} `{RlpStream S}.

Definition append_to (to : option Address) (s : S) : S :=
  match to with Some a => eth_rlp_append_address a s | None => append_empty_data s end.

(** Source: [crate/utils/src/eip1559/sign.rs] lines 89-98, [encode_eip1559_unsigned (accessList)]. *)
Definition append_access_list (al : list (Address * list Z)) (s : S) : S :=
  fold_left (λ s '(addr, keys),
    let s := eth_rlp_append_address addr (begin_list 2 s) in
    fold_left (λ s key, eth_rlp_append_u256 key s) keys (begin_list (length keys) s))
    al (begin_list (length al) s).

(** Source: [crate/utils/src/eip1559/sign.rs] lines 68-101, [encode_eip1559_unsigned].
    The nine fields both encodings share. *)
Definition append_fields (tx : Eip1559Transaction) (s : S) : S :=
  let s := eth_rlp_append_chain_id (tx_chain_id tx) s in
  let s := eth_rlp_append_nonce (tx_nonce tx) s in
  let s := eth_rlp_append_u256 (tx_max_priority_fee_per_gas tx) s in
  let s := eth_rlp_append_u256 (tx_max_fee_per_gas tx) s in
  let s := eth_rlp_append_u256 (tx_gas_limit tx) s in
  let s := append_to (tx_to tx) s in
  let s := eth_rlp_append_u256 (tx_value tx) s in
  let s := append_bytes (tx_data tx) s in
  append_access_list (tx_access_list tx) s.

(** Source: [crate/utils/src/eip1559/sign.rs] lines 68-101, [encode_eip1559_unsigned]. *)
Definition encode_eip1559_unsigned (tx : Eip1559Transaction) : result Bytes LocalError :=
  Ok (rlp_out (append_fields tx (rlp_new_list 9))).

(** Source: [crate/utils/src/eip1559/sign.rs] lines 155-166, [strip_leading_zeros].
    [None] is the underflow of [bytes.len() - 1] on an empty slice. *)
Definition strip_leading_zeros (bytes : Bytes) : option Bytes :=
  match strip_zeros bytes with
  | [] => match list.last bytes with Some b => Some [b] | None => None end
  | l => Some l
  end.

(** Source: [crate/utils/src/eip1559/sign.rs] lines 105-150, [encode_eip1559_signed].
    [r] and [s] are 32-byte arrays, so [strip_leading_zeros] never panics. *)
Definition encode_eip1559_signed (tx : Eip1559Transaction) (y_parity : Z) (r s : Bytes) :
    result Bytes LocalError :=
  let srlp := append_fields tx (rlp_new_list 12) in
  let srlp := append_u8 y_parity srlp in
  let srlp := append_bytes (default [] (strip_leading_zeros r)) srlp in
  let srlp := append_bytes (default [] (strip_leading_zeros s)) srlp in
  Ok (rlp_out srlp).

(** ** Signing

    Keccak and secp256k1 are third-party: [Signature] and [SigningKey] are
    whatever the crates use. *)

Class Crypto := {
  SigningKey : Type;
  Signature : Type;
  keccak256 : Bytes → Bytes;
  signing_key_from_bytes : Bytes → result SigningKey string;
  sign_prehash_recoverable : SigningKey → Bytes → result (Signature * Z) string;
  sig_s_is_high : Signature → bool;
  sig_normalize_s : Signature → option Signature;
  sig_r : Signature → Bytes;
  sig_s : Signature → Bytes
}.

Context `{Crypto}.

(** Source: [crate/utils/src/eip1559/sign.rs] lines 42-47, [sign_eip1559_transaction (low s)]. *)
Definition canonical_signature (sig : Signature) : result Signature LocalError :=
  if sig_s_is_high sig
  then result_of_option (sig_normalize_s sig) (LInternal "Failed to normalize signature")
  else Ok sig.

(** Source: [crate/utils/src/eip1559/sign.rs] lines 16-63, [sign_eip1559_transaction]. *)
Definition sign_eip1559_transaction (tx : Eip1559Transaction) (pvt_key : Bytes) :
    result SignedTransaction LocalError :=
  let signing_nonce := tx_nonce tx in
  rbind (encode_eip1559_unsigned tx) (λ unsigned_rlp,
  let signing_hash := keccak256 (byte_of_Z 2 :: unsigned_rlp) in
  rbind (map_err (λ e, LInternal ("Invalid private key: " +:+ e))
           (signing_key_from_bytes pvt_key)) (λ signing_key,
  rbind (map_err (λ e, LInvariant ("Signing failed: " +:+ e))
           (sign_prehash_recoverable signing_key signing_hash)) (λ '(sig, y_parity),
  rbind (canonical_signature sig) (λ sig,
  rbind (encode_eip1559_signed tx y_parity (sig_r sig) (sig_s sig)) (λ signed_rlp,
  Ok (mkSigned (byte_of_Z 2 :: signed_rlp) signing_nonce)))))).
End encode.

(** ** Lint: the accepted transactions *)

Lemma lint_chain_ok c :
  match u256_try_u64 c with Some c => existsb (Z.eqb c) SUPPORTED_CHAINS | None => false end = true ↔
  c ∈ SUPPORTED_CHAINS.
Proof.
  unfold u256_try_u64. destruct (Z.leb_spec c u64_max) as [Hc|Hc].
  - rewrite existsb_exists, list_elem_of_In. setoid_rewrite Z.eqb_eq.
    split; [by intros (x & Hx & ->)|by exists c].
  - split; [done|]. intros Hin. unfold u64_max in Hc. unfold SUPPORTED_CHAINS in Hin.
    rewrite !elem_of_cons, elem_of_nil in Hin. lia.
Qed.

(** Lint accepts a transaction exactly when its gas limit is in
    1..30,000,000, its max fee is positive and strictly above the priority fee,
    and its chain is one of the five supported ones; so every accepted
    transaction fits the database's checks (positive gas limit and fee, a
    64-bit chain id). *)
Theorem transaction_lint_spec txn :
  (0 ≤ tx_gas_limit txn ∧ 0 ≤ tx_max_fee_per_gas txn) →
  (transaction_lint txn = Ok tt ↔
    1 ≤ tx_gas_limit txn ≤ 30000000 ∧ 0 < tx_max_fee_per_gas txn ∧
    tx_max_priority_fee_per_gas txn < tx_max_fee_per_gas txn ∧
    chain_u256 (tx_chain_id txn) ∈ SUPPORTED_CHAINS).
Proof.
  intros [Hg Hf]. unfold transaction_lint, MAX_GAS_LIMIT.
  rewrite <- (lint_chain_ok (chain_u256 (tx_chain_id txn))).
  destruct (Z.eqb_spec (tx_gas_limit txn) 0); [split; [done|lia]|].
  destruct (Z.ltb_spec 30000000 (tx_gas_limit txn)); [split; [done|lia]|].
  destruct (Z.eqb_spec (tx_max_fee_per_gas txn) 0); [split; [done|lia]|].
  destruct (Z.leb_spec (tx_max_fee_per_gas txn) (tx_max_priority_fee_per_gas txn)); [split; [done|lia]|].
  destruct (u256_try_u64 _); [|split; [done|by intros (_ & _ & _ & ?)]].
  destruct (existsb _ _); (split; [try done|try by intros (_ & _ & _ & ?)]). intros _. split_and!; try done; lia.
Qed.

(** ** Hex rendering and parsing *)

Lemma hex_val_digit d : 0 ≤ d < 16 → hex_val (hex_digit d) = Some d.
Proof.
  intros Hd.
  assert (Hc : d = 0 ∨ d = 1 ∨ d = 2 ∨ d = 3 ∨ d = 4 ∨ d = 5 ∨ d = 6 ∨ d = 7 ∨
    d = 8 ∨ d = 9 ∨ d = 10 ∨ d = 11 ∨ d = 12 ∨ d = 13 ∨ d = 14 ∨ d = 15) by lia.
  repeat (destruct Hc as [->|Hc]; [reflexivity|]). by subst.
Qed.

(** The bytes' digits, read as a number. *)
Lemma parse_hex_encode l acc :
  parse_hex_digits acc (hex_encode l) = Some (acc * 256 ^ Z.of_nat (length l) + be_val l).
Proof.
  revert acc; induction l as [|b l IH]; intros acc; [simpl; f_equal; lia|].
  pose proof (byte_val_range b). cbn [hex_encode parse_hex_digits].
  rewrite hex_val_digit by (split; [apply Z.div_pos; lia|apply Z.div_lt_upper_bound; lia]).
  rewrite hex_val_digit by (apply Z.mod_pos_bound; lia).
  rewrite IH. cbn [length be_val]. rewrite Nat2Z.inj_succ, Z.pow_succ_r by lia.
  f_equal. pose proof (Z.div_mod (byte_val b) 16). nia.
Qed.

(** A number of [n] bytes as a hex quantity. *)
Definition hex_quantity (n : nat) (v : Z) : string := "0x" +:+ hex_encode (be_bytes n v).

Lemma strip_0x_quantity s : default (String "0" (String "x" s)) (strip_0x (String "0" (String "x" s))) = s.
Proof. done. Qed.

Lemma parse_hex_u64_quantity v : 0 ≤ v ≤ u64_max → parse_hex_u64 (hex_quantity 8 v) = Some v.
Proof.
  intros Hv. unfold parse_hex_u64, hex_quantity.
  change ("0x" +:+ hex_encode (be_bytes 8 v)) with (String "0" (String "x" (hex_encode (be_bytes 8 v)))).
  rewrite strip_0x_quantity.
  assert (Hp : parse_hex_digits 0 (hex_encode (be_bytes 8 v)) = Some v).
  { rewrite parse_hex_encode, be_val_be_bytes, Z.mod_small; [f_equal; lia|].
    change (256 ^ Z.of_nat 8) with (2 ^ 64). unfold u64_max in Hv. lia. }
  remember (hex_encode (be_bytes 8 v)) as s eqn:Hs.
  destruct s as [|c s]; [done|].
  assert (Hplus : c ≠ "+"%char).
  { intros ->. simpl in Hp. discriminate. }
  unfold u64_from_str_radix16.
  destruct c as [[] [] [] [] [] [] [] []]; try done;
    rewrite Hp; by destruct (Z.leb_spec v u64_max); [|lia].
Qed.

Lemma hex_encode_nonempty b l : hex_encode (b :: l) ≠ "".
Proof. done. Qed.

Section hex_laws.
Context `{HexLaws}.

Lemma parse_hex_u256_quantity v : 0 ≤ v ≤ u256_max → parse_hex_u256 (hex_quantity 32 v) = Some v.
Proof.
  intros Hv. unfold parse_hex_u256, hex_quantity.
  change ("0x" +:+ hex_encode (be_bytes 32 v)) with (String "0" (String "x" (hex_encode (be_bytes 32 v)))).
  rewrite strip_0x_quantity. apply u256_radix_law; [done| |done].
  rewrite parse_hex_encode, be_val_be_bytes, Z.mod_small; [f_equal; lia|].
  change (256 ^ Z.of_nat 32) with (2 ^ 256). unfold u256_max in Hv. lia.
Qed.

Lemma parse_hex_bytes_encode b : parse_hex_bytes ("0x" +:+ hex_encode b) = Some b.
Proof.
  unfold parse_hex_bytes. change ("0x" +:+ hex_encode b) with (String "0" (String "x" (hex_encode b))).
  by rewrite strip_0x_quantity, hex_decode_law.
Qed.
End hex_laws.

(** ** Normalization *)

(** The request a wallet sends for a transaction. *)
Definition render_access_item (p : Address * list Z) : AccessListItem :=
  mkAccessListItem p.1 (hex_quantity 32 <$> p.2).

Definition render_params (tx : Eip1559Transaction) (from : Address) : Eip1193SendTransactionParams :=
  mkEip1193 from (tx_to tx) (Some (hex_quantity 32 (tx_gas_limit tx)))
    (Some (hex_quantity 32 (tx_max_fee_per_gas tx)))
    (Some (hex_quantity 32 (tx_max_priority_fee_per_gas tx)))
    (Some (hex_quantity 32 (tx_value tx))) (Some ("0x" +:+ hex_encode (tx_data tx)))
    (hex_quantity 8 (chain_u256 (tx_chain_id tx)))
    (Some (render_access_item <$> tx_access_list tx)).

Definition is_u256 (v : Z) : Prop := 0 ≤ v ≤ u256_max.

(** Every numeric field is a 256-bit value. *)
Definition tx_in_range (tx : Eip1559Transaction) : Prop :=
  is_u256 (chain_u256 (tx_chain_id tx)) ∧ is_u256 (nonce_u256 (tx_nonce tx)) ∧
  is_u256 (tx_max_priority_fee_per_gas tx) ∧ is_u256 (tx_max_fee_per_gas tx) ∧
  is_u256 (tx_gas_limit tx) ∧ is_u256 (tx_value tx) ∧
  Forall (λ p, Forall is_u256 p.2) (tx_access_list tx).

Section normalize_proofs.
Context `{HexLaws}.

Lemma mapM_quantity keys :
  Forall is_u256 keys → mapM parse_hex_u256 (hex_quantity 32 <$> keys) = Some keys.
Proof.
  intros Hk. apply mapM_Some. apply Forall2_fmap_l.
  induction Hk; constructor; [by apply parse_hex_u256_quantity|done].
Qed.

Lemma collect_access_list al :
  Forall (λ p, Forall is_u256 p.2) al →
  collect normalize_access_item (render_access_item <$> al) = Ok al.
Proof.
  induction 1 as [|[a keys] al Hk _ IH]; [done|]. rewrite fmap_cons. cbn [collect].
  assert (Hi : normalize_access_item (render_access_item (a, keys)) = Ok (a, keys)).
  { unfold normalize_access_item, render_access_item. cbn [ali_storage_keys ali_address fst snd].
    by rewrite mapM_quantity. }
  by rewrite Hi, IH.
Qed.

(** normalizing the request of a transaction gives back that transaction,
    with the nonce reset to 0 (the nonce actor assigns it), and the sender;
    nothing else of the request is lost or changed. *)
Theorem normalize_render tx from :
  tx_in_range tx → chain_u256 (tx_chain_id tx) ≤ i64_max →
  normalize_eip1193_transaction (render_params tx from) =
    Some (Ok (set_tx_nonce (mkTxNonce 0) tx, from)).
Proof.
  intros (Hc & _ & Hp & Hf & Hg & Hv & Hal) Hc64. destruct Hc as [Hc0 _].
  unfold normalize_eip1193_transaction, render_params. cbn [p_chain_id p_gas p_max_fee_per_gas
    p_max_priority_fee_per_gas p_value p_data p_access_list p_to p_from].
  rewrite parse_hex_u64_quantity by (unfold u64_max, i64_max in *; lia).
  unfold u64_as_i64. destruct (Z.leb_spec (chain_u256 (tx_chain_id tx)) i64_max); [|lia].
  rewrite ChainId_try_from_nonneg by done. unfold opt_field.
  rewrite !parse_hex_u256_quantity by done. rewrite parse_hex_bytes_encode.
  cbn [rbind result_of_option from_option]. unfold id. rewrite collect_access_list by done.
  cbn [rbind]. destruct tx as [[c] ? ? ? ? ? ? ? ?]. done.
Qed.
End normalize_proofs.

(** A chain id of 2^63 or more, which parses as a [u64], becomes a negative
    [i64] and its conversion is unwrapped: the request panics instead of being
    rejected, whatever its other fields are. *)
Theorem normalize_chain_id_panics `{HexOps} params c :
  parse_hex_u64 (p_chain_id params) = Some c → i64_max < c ≤ u64_max →
  normalize_eip1193_transaction params = None.
Proof.
  intros Hp Hc. unfold normalize_eip1193_transaction. rewrite Hp. unfold u64_as_i64.
  destruct (Z.leb_spec c i64_max); [lia|]. unfold ChainId_try_from.
  by destruct (Z.ltb_spec (c - 2 ^ 64) 0); [|unfold u64_max in *; lia].
Qed.

(** ** The encodings are the Ethereum ones *)

Definition access_item (p : Address * list Z) : Item :=
  Lst [Str p.1; Lst (map scalar p.2)].

(** The fields of EIP-1559, as RLP items. *)
Definition tx_items (tx : Eip1559Transaction) : list Item :=
  [scalar (chain_u256 (tx_chain_id tx)); scalar (nonce_u256 (tx_nonce tx));
   scalar (tx_max_priority_fee_per_gas tx); scalar (tx_max_fee_per_gas tx);
   scalar (tx_gas_limit tx); Str (default [] (tx_to tx)); scalar (tx_value tx);
   Str (tx_data tx); Lst (map access_item (tx_access_list tx))].

Section encode_proofs.
Context {S : Type} `{RlpLaws S}.

Lemma append_keys_law keys s :
  rlp_state (fold_left (λ s key, eth_rlp_append_u256 key s) keys s) =
  appends (map scalar keys) (rlp_state s).
Proof.
  revert s; induction keys as [|k keys IH]; intros s; [done|]. cbn [fold_left map].
  by rewrite IH, eth_rlp_append_u256_law.
Qed.

Lemma append_access_list_law al s :
  rlp_state (append_access_list al s) = b_append (Lst (map access_item al)) (rlp_state s).
Proof.
  unfold append_access_list. rewrite <- appends_list, length_map, <- begin_list_law.
  generalize (begin_list (length al) s) as s0. clear s.
  induction al as [|[a keys] al IH]; intros s; [done|]. cbn [fold_left map].
  rewrite IH, append_keys_law, begin_list_law, eth_rlp_append_address_law, begin_list_law.
  unfold appends at 1 3. cbn [fold_left]. f_equal.
  change (fold_left (λ b i, b_append i b) (map scalar keys)) with (appends (map scalar keys)).
  rewrite <- (length_map scalar), appends_list. unfold access_item. cbn [fst snd].
  by rewrite <- (appends_list [Str a; Lst (map scalar keys)]).
Qed.

Lemma append_fields_law tx s :
  rlp_state (append_fields tx s) = appends (tx_items tx) (rlp_state s).
Proof.
  unfold append_fields, append_to. rewrite append_access_list_law, append_bytes_law,
    eth_rlp_append_u256_law.
  destruct (tx_to tx) as [a|] eqn:Hto;
    rewrite ?eth_rlp_append_address_law, ?append_empty_law, !eth_rlp_append_u256_law;
    unfold eth_rlp_append_nonce, eth_rlp_append_chain_id; rewrite !eth_rlp_append_u256_law;
    unfold tx_items; by rewrite Hto.
Qed.

Lemma encode_unsigned_items tx :
  encode_eip1559_unsigned tx = Ok (rlp_encode (Lst (tx_items tx))).
Proof.
  unfold encode_eip1559_unsigned. f_equal. apply appends_top.
  by rewrite append_fields_law, rlp_new_list_law.
Qed.

Lemma encode_signed_items tx y r s :
  encode_eip1559_signed tx y r s =
  Ok (rlp_encode (Lst (tx_items tx ++
    [u8_item y; Str (default [] (strip_leading_zeros r)); Str (default [] (strip_leading_zeros s))]))).
Proof.
  unfold encode_eip1559_signed. f_equal. apply appends_top.
  by rewrite !append_bytes_law, append_u8_law, append_fields_law, rlp_new_list_law, appends_app.
Qed.
End encode_proofs.

Definition to_ok (tx : Eip1559Transaction) : Prop := tx_to tx ≠ Some [].

Lemma scalars_inj l1 l2 :
  Forall is_u256 l1 → Forall is_u256 l2 → map scalar l1 = map scalar l2 → l1 = l2.
Proof.
  intros H1. revert l2. induction H1 as [|v l1 Hv _ IH]; intros [|w l2] H2 E; try done.
  apply list.Forall_cons in H2 as [Hw H2]. injection E as Evw E.
  f_equal; [by apply be_min_inj|by apply IH].
Qed.

Lemma access_items_inj al1 al2 :
  Forall (λ p : Address * list Z, Forall is_u256 p.2) al1 → Forall (λ p : Address * list Z, Forall is_u256 p.2) al2 →
  map access_item al1 = map access_item al2 → al1 = al2.
Proof.
  intros H1. revert al2. induction H1 as [|[a k] l1 Hv _ IH]; intros [|[a' k'] l2] H2 E; try done.
  apply list.Forall_cons in H2 as [Hw H2]. injection E as -> Ek E.
  f_equal; [|by apply IH]. f_equal. by apply scalars_inj.
Qed.

Lemma tx_items_inj tx1 tx2 :
  tx_in_range tx1 → tx_in_range tx2 → to_ok tx1 → to_ok tx2 →
  tx_items tx1 = tx_items tx2 → tx1 = tx2.
Proof.
  destruct tx1 as [[c1] [n1] p1 f1 g1 to1 v1 d1 al1], tx2 as [[c2] [n2] p2 f2 g2 to2 v2 d2 al2].
  unfold tx_in_range, to_ok. simpl.
  intros (?&?&?&?&?&?&?) (?&?&?&?&?&?&?) Ht1 Ht2 E. unfold tx_items, scalar in E. simpl in E.
  injection E as Ec En Ep Ef Eg Et Ev Ed Eal.
  apply be_min_inj in Ec, En, Ep, Ef, Eg, Ev; try done. apply access_items_inj in Eal; try done.
  assert (to1 = to2) as -> by (destruct to1 as [x|], to2 as [y|]; cbn in Et; unfold id in Et; subst; done).
  by subst.
Qed.

(** C22: the bytes that get hashed and signed determine the transaction: two
    well-formed transactions with the same unsigned encoding are equal in every
    field, so a signature never covers a second transaction. *)
Theorem encode_unsigned_injective {S} `{RlpLaws S} tx1 tx2 b :
  tx_in_range tx1 → tx_in_range tx2 → to_ok tx1 → to_ok tx2 → len_fits (length b) →
  encode_eip1559_unsigned tx1 = Ok b → encode_eip1559_unsigned tx2 = Ok b → tx1 = tx2.
Proof.
  intros H1 H2 Ht1 Ht2 Hlen. rewrite !encode_unsigned_items. intros E1%Ok_inj E2%Ok_inj.
  apply tx_items_inj; try done.
  assert (Ei : Lst (tx_items tx1) = Lst (tx_items tx2)); [|congruence].
  apply rlp_encode_inj; [apply rlp_encode_fits; by rewrite E1|apply rlp_encode_fits; by rewrite E2|].
  congruence.
Qed.

(** C23: signing hashes 0x02 and the RLP list of the nine EIP-1559 fields, puts
    the signature in low-s form, and answers 0x02 and the RLP list of those
    fields followed by the parity, r and s without leading zeros, together with
    the nonce that was signed. *)
Theorem sign_eip1559_functional {S} `{RlpLaws S} `{Crypto} tx pvt_key st :
  sign_eip1559_transaction (S := S) tx pvt_key = Ok st →
  st_with_nonce st = tx_nonce tx ∧
  ∃ key sig0 sig y,
    signing_key_from_bytes pvt_key = Ok key ∧
    sign_prehash_recoverable key (keccak256 (byte_of_Z 2 :: rlp_encode (Lst (tx_items tx)))) = Ok (sig0, y) ∧
    (if sig_s_is_high sig0 then sig_normalize_s sig0 = Some sig else sig = sig0) ∧
    st_rlp st = byte_of_Z 2 :: rlp_encode (Lst (tx_items tx ++
      [u8_item y; Str (default [] (strip_leading_zeros (sig_r sig)));
       Str (default [] (strip_leading_zeros (sig_s sig)))])).
Proof.
  unfold sign_eip1559_transaction. rewrite encode_unsigned_items. cbn [rbind].
  destruct (signing_key_from_bytes pvt_key) as [key|] eqn:Hk; [|done]. cbn [map_err rbind].
  destruct (sign_prehash_recoverable key _) as [[sig0 y]|] eqn:Hs; [|done]. cbn [map_err rbind].
  unfold canonical_signature. intros Hrun.
  assert (Hsig : ∃ sig, (if sig_s_is_high sig0 then sig_normalize_s sig0 = Some sig else sig = sig0) ∧
    st = mkSigned (byte_of_Z 2 :: rlp_encode (Lst (tx_items tx ++
      [u8_item y; Str (default [] (strip_leading_zeros (sig_r sig)));
       Str (default [] (strip_leading_zeros (sig_s sig)))]))) (tx_nonce tx)).
  { destruct (sig_s_is_high sig0).
    - destruct (sig_normalize_s sig0) as [sig|]; [|done]. exists sig.
      cbn [result_of_option rbind] in Hrun. rewrite encode_signed_items in Hrun. by injection Hrun.
    - exists sig0. cbn [rbind] in Hrun. rewrite encode_signed_items in Hrun. by injection Hrun. }
  destruct Hsig as (sig & Hn & ->). split; [done|]. by exists key, sig0, sig, y.
Qed.

(** ** Concrete instances, for the witnesses *)

(** Parsers that satisfy [HexLaws]. *)
Fixpoint hex_bytes (s : string) : result Bytes string :=
  match s with
  | EmptyString => Ok []
  | String c1 (String c2 s') =>
      match hex_val c1, hex_val c2 with
      | Some h, Some l => match hex_bytes s' with
                          | Ok b => Ok (byte_of_Z (16 * h + l) :: b)
                          | Err e => Err e
                          end
      | _, _ => Err "Invalid character"
      end
  | _ => Err "Odd number of digits"
  end.

#[export] Instance plain_hex : HexOps := {|
  u256_from_str_radix16 s :=
    match parse_hex_digits 0 s with
    | Some z => if z <=? u256_max then Some z else None
    | None => None
    end;
  hex_decode := hex_bytes
|}.

#[export] Instance plain_hex_laws : HexLaws.
Proof.
  constructor.
  - intros z s Hz Hp _. simpl. rewrite Hp. by destruct (Z.leb_spec z u256_max); [|lia].
  - intros b. simpl. induction b as [|x b IH]; [done|]. cbn [hex_encode hex_bytes].
    pose proof (byte_val_range x).
    rewrite hex_val_digit by (split; [apply Z.div_pos; lia|apply Z.div_lt_upper_bound; lia]).
    rewrite hex_val_digit by (apply Z.mod_pos_bound; lia). rewrite IH.
    by rewrite <- Z.div_mod, byte_of_val by lia.
Defined.

(** A toy signature scheme: the key is the byte string, the signature the hash. *)
#[export] Instance toy_crypto : Crypto := {|
  SigningKey := Bytes; Signature := Bytes * Bytes;
  keccak256 b := b;
  signing_key_from_bytes b := if (length b =? 32)%nat then Ok b else Err "length";
  sign_prehash_recoverable k h := Ok ((k, h), 0);
  sig_s_is_high _ := false;
  sig_normalize_s s := Some s;
  sig_r := fst; sig_s := snd
|}.

Definition ex_tx : Eip1559Transaction :=
  mkEip1559 (mkChainId 1) (mkTxNonce 7) 1 2 21000 (Some (replicate 20 (byte_of_Z 9))) 1000
    [byte_of_Z 222] [(replicate 20 (byte_of_Z 3), [5; 6])].

Lemma ex_tx_in_range : tx_in_range ex_tx.
Proof.
  unfold tx_in_range, is_u256, u256_max. split_and!; simpl; try lia.
  repeat first [apply list.Forall_cons; split; simpl; [|]|apply list.Forall_nil; done]; lia.
Qed.

Lemma transaction_lint_spec_witness :
  transaction_lint ex_tx = Ok tt ↔
    1 ≤ tx_gas_limit ex_tx ≤ 30000000 ∧ 0 < tx_max_fee_per_gas ex_tx ∧
    tx_max_priority_fee_per_gas ex_tx < tx_max_fee_per_gas ex_tx ∧
    chain_u256 (tx_chain_id ex_tx) ∈ SUPPORTED_CHAINS.
Proof. apply transaction_lint_spec. split; vm_compute; congruence. Defined.

Lemma normalize_render_witness :
  normalize_eip1193_transaction (render_params ex_tx []) =
    Some (Ok (set_tx_nonce (mkTxNonce 0) ex_tx, [])).
Proof. apply (normalize_render ex_tx []); [apply ex_tx_in_range|vm_compute; congruence]. Defined.

Definition big_chain_params : Eip1193SendTransactionParams :=
  mkEip1193 [] None None None None None None "0xffffffffffffffff" None.

Lemma normalize_chain_id_panics_witness : normalize_eip1193_transaction big_chain_params = None.
Proof.
  apply (normalize_chain_id_panics big_chain_params u64_max);
    [reflexivity|vm_compute; split; congruence].
Defined.

Definition ex_tx_bytes : Bytes :=
  Eval vm_compute in
    match encode_eip1559_unsigned (S := BStream) ex_tx with Ok b => b | Err _ => [] end.

Lemma encode_unsigned_injective_witness :
  encode_eip1559_unsigned (S := BStream) ex_tx = Ok ex_tx_bytes ∧ ex_tx = ex_tx.
Proof.
  assert (Hb : encode_eip1559_unsigned (S := BStream) ex_tx = Ok ex_tx_bytes)
    by (vm_compute; reflexivity).
  split; [exact Hb|].
  exact (encode_unsigned_injective (S := BStream) ex_tx ex_tx ex_tx_bytes ex_tx_in_range ex_tx_in_range
    ltac:(discriminate) ltac:(discriminate) ltac:(vm_compute; reflexivity) Hb Hb).
Defined.

Lemma sign_eip1559_functional_witness :
  ∃ st, sign_eip1559_transaction (S := BStream) ex_tx (replicate 32 (byte_of_Z 1)) = Ok st ∧
    st_with_nonce st = mkTxNonce 7.
Proof.
  destruct (sign_eip1559_transaction (S := BStream) ex_tx (replicate 32 (byte_of_Z 1))) as [st|e] eqn:E.
  - exists st. split; [done|]. by destruct (sign_eip1559_functional (S := BStream) ex_tx _ st E).
  - vm_compute in E. discriminate.
Defined.
