(* ===== verification/Custody.v ===== *)
(** * Custody: the key policy of the sign actor

    [src/crate/utils/src/custody/json_test_policy.rs].  Reading and parsing the
    file is I/O and serde; the accounts it yields, and alloy's address parser
    and checksummed display, are parameters. *)

From S2P Require Import Prelude Types Rlp Eip1559.

(** Source: [crate/utils/src/custody/json_test_policy.rs] lines 12-19, [PolicyAccount]. *)
Record PolicyAccount := mkPolicyAccount {
  pa_pvt_key : string;
  pa_pub_key : string;
  pa_address : string
}.

(** Source: [crate/utils/src/custody/json_test_policy.rs] lines 21-29, [JsonPolicyEngine]. *)
Record JsonPolicyEngine := mkJsonPolicyEngine { jp_keys : gmap Address string }.

Class AddressOps := {
  address_parse : string → option Address;
  address_display : Address → string
}.

Section policy.
Context `{HexOps, AddressOps}.

(** Source: [crate/utils/src/custody/json_test_policy.rs] lines 32-53, [JsonPolicyEngine::load_file].
    [accounts] are the values of the parsed map, in the map's order; [None] is
    a panic (bad address, or an address twice). *)
Fixpoint load_accounts (accounts : list PolicyAccount) (keys : gmap Address string) :
    option (gmap Address string) :=
  match accounts with
  | [] => Some keys
  | account :: rest =>
      address ← address_parse (pa_address account);
      match keys !! address with
      | Some _ => None
      | None => load_accounts rest (<[address := pa_pvt_key account]> keys)
      end
  end.

(** What the process finds at a path: whether it may look there and something
    is there, and the accounts of the file, in the map's order - [None] when it
    cannot be opened or parsed. *)
Record KeysFile := mkKeysFile {
  kf_try_exists : result bool string;
  kf_accounts : option (list PolicyAccount)
}.

(** Source: [crate/utils/src/custody/json_test_policy.rs] lines 31-53, [JsonPolicyEngine::load_file]. *)
Definition load_file (file : KeysFile) : option JsonPolicyEngine :=
  accounts ← kf_accounts file; mkJsonPolicyEngine <$> load_accounts accounts ∅.

(** The path of the keys: the variable's, or the one below the crate's own
    directory. *)
Definition test_keys_path (manifest_dir : string) (env : Env) : string :=
  match env "LOBBY_TEST_KEYS" with
  | Some path => path
  | None => manifest_dir +:+ "/../../test_keys.json"
  end.

(** [{:?}] of a byte vector. *)
Fixpoint bytes_items (l : Bytes) : string :=
  match l with
  | [] => ""
  | [b] => pretty (byte_val b)
  | b :: l' => pretty (byte_val b) +:+ ", " +:+ bytes_items l'
  end.
Definition bytes_debug (l : Bytes) : string := "[" +:+ bytes_items l +:+ "]".

(** Source: [crate/utils/src/custody/json_test_policy.rs] lines 58-78, [JsonPolicyEngine::resolve_key]. *)
Definition resolve_key (policy : JsonPolicyEngine) (from : Address) : result Bytes LocalError :=
  match jp_keys policy !! from with
  | None => Err (LInternal ("Policy violation: no Key detected for: " +:+ address_display from))
  | Some pvt_string =>
      match strip_0x pvt_string with
      | None => Err (LInternal "Unable to parse Pvt Keys")
      | Some pvt_str =>
          match hex_decode pvt_str with
          | Err e => Err (LInvariant e)
          | Ok pvt_bytes =>
              if (length pvt_bytes =? 32)%nat then Ok pvt_bytes
              else Err (LInvariant ("Invalid pvt key length: " +:+ bytes_debug pvt_bytes))
          end
      end
  end.

(** Source: [crate/utils/src/custody/json_test_policy.rs] lines 84-95, [export_custody_key_count]. *)
Definition export_custody_key_count (manifest_dir : string) (files : string → KeysFile) (env : Env) :
    option nat :=
  (λ p, size (jp_keys p)) <$> load_file (files (test_keys_path manifest_dir env)).

(** ** Lemmas *)

Lemma load_accounts_lookup accounts keys keys' a k :
  load_accounts accounts keys = Some keys' →
  keys' !! a = Some k ↔
    keys !! a = Some k ∨ ∃ acc, acc ∈ accounts ∧ address_parse (pa_address acc) = Some a ∧ pa_pvt_key acc = k.
Proof.
  revert keys. induction accounts as [|acc accounts IH]; intros keys Hl; simpl in Hl.
  - injection Hl as ->. split; [by left|]. intros [?|(acc & []%elem_of_nil & _)]. done.
  - destruct (address_parse (pa_address acc)) as [b|] eqn:Hb; simpl in Hl; [|done].
    destruct (keys !! b) eqn:Hkb; [done|]. rewrite (IH _ Hl). clear IH Hl.
    setoid_rewrite elem_of_cons. destruct (decide (a = b)) as [->|Hne].
    + rewrite lookup_insert_eq. split.
      * intros [[= <-]|(acc' & ? & ? & ?)]; right; [by exists acc; auto|exists acc'; auto].
      * intros [?|(acc' & [->|Hin] & Hp & Hk)]; [congruence|left; congruence|right; eauto].
    + rewrite lookup_insert_ne by done. split.
      * intros [?|(acc' & ? & ? & ?)]; [by left|right; exists acc'; auto].
      * intros [?|(acc' & [->|Hin] & Hp & Hk)]; [by left|congruence|right; eauto].
Qed.

(** a policy that loads resolves exactly the addresses of its accounts:
    for a well-formed key the answer is the 32 bytes of that account's key, an
    address without an account is refused. *)
Theorem resolve_key_loaded `{!HexLaws} file accounts policy from :
  kf_accounts file = Some accounts → load_file file = Some policy →
  (∀ acc key, acc ∈ accounts → address_parse (pa_address acc) = Some from →
     length key = 32%nat → pa_pvt_key acc = "0x" +:+ hex_encode key →
     resolve_key policy from = Ok key) ∧
  ((∀ acc, acc ∈ accounts → address_parse (pa_address acc) ≠ Some from) →
     resolve_key policy from =
       Err (LInternal ("Policy violation: no Key detected for: " +:+ address_display from))).
Proof.
  unfold load_file. intros ->. cbn [mbind option_bind].
  destruct (load_accounts accounts ∅) as [keys|] eqn:Hl; [|done].
  intros [= <-]. pose proof (λ a k, load_accounts_lookup _ _ _ a k Hl) as Hlk.
  unfold resolve_key. simpl. split.
  - intros acc key Hacc Ha Hlen Hk.
    assert (keys !! from = Some (pa_pvt_key acc)) as -> by (apply Hlk; right; by exists acc).
    rewrite Hk. change ("0x" +:+ hex_encode key) with (String "0" (String "x" (hex_encode key))).
    cbn [strip_0x]. rewrite hex_decode_law. by rewrite Hlen.
  - intros Hnone. destruct (keys !! from) as [k|] eqn:Hf; [|done].
    apply Hlk in Hf as [?|(acc & Hacc & Ha & _)]; [by rewrite lookup_empty in *|].
    by apply Hnone in Hacc.
Qed.
End policy.

#[export] Instance plain_address : AddressOps := {|
  address_parse s := match hex_bytes (default s (strip_0x s)) with Ok b => Some b | Err _ => None end;
  address_display := fmt_hex
|}.

Definition one_key : KeysFile :=
  mkKeysFile (Ok true) (Some [mkPolicyAccount ("0x" +:+ hex_encode (replicate 32 (byte_of_Z 7))) "" "0x0a"]).

Lemma resolve_key_loaded_witness :
  ∃ policy, load_file one_key = Some policy ∧
    resolve_key policy [byte_of_Z 10] = Ok (replicate 32 (byte_of_Z 7)).
Proof.
  destruct (load_file one_key) as [policy|] eqn:E; [|vm_compute in E; discriminate].
  exists policy. split; [done|].
  apply (proj1 (resolve_key_loaded one_key _ policy [byte_of_Z 10] eq_refl E)
    (mkPolicyAccount ("0x" +:+ hex_encode (replicate 32 (byte_of_Z 7))) "" "0x0a"));
    [left|reflexivity|reflexivity|reflexivity].
Defined.
