(* ===== verification/Lease.v ===== *)
(** * Lease-based request tables

    The sign, broadcast and validator actors open a request with the same
    statement: insert a row with the next revision of the execution, unless a
    row of the execution is finished or holds a live lease; the partial unique
    index allows one active row per execution. *)

From S2P Require Import Prelude Types Sql.

Section lease.
Context {Row : Type} `{SqlTable Row}.

(** [INSERT ... SELECT e, COALESCE(MAX(revision), 0) + 1, ... WHERE NOT EXISTS
    (live row) RETURNING revision], for a revision column that holds at most
    [rev_max]. *)
Definition lease_insert (rev_max : Z) (live : Z → Row → bool) (mk : Z → Z → Row) (e : ExecutionId)
    (now : Z) (locked : Row → bool) (t : list Row) : result (option Z * list Row) SqlxError :=
  if existsb (λ r, bool_decide (t_eid r = e) && live now r) t then Ok (None, t)
  else
    let rev := next_revision e t in
    if rev <=? rev_max then Ok (Some rev, t ++ [mk rev now]) else Err out_of_range.

(** [UPDATE ... WHERE execution_id = e AND revision = rev AND p]: the number
    of rows, and the table. *)
Definition update_where (e : ExecutionId) (rev : Z) (p : Z → Row → bool) (f : Z → Row → Row)
    (now : Z) (locked : Row → bool) (t : list Row) : result (Z * list Row) SqlxError :=
  let hit r := bool_decide (t_pkey r = (e, rev)) && p now r in
  Ok (Z.of_nat (length (filter (λ r, hit r = true) t)), (λ r, if hit r then f now r else r) <$> t).

(** [UPDATE ... WHERE (execution_id, revision) = (SELECT ... WHERE execution_id
    = e AND p ORDER BY revision DESC LIMIT 1 FOR UPDATE SKIP LOCKED)]. *)
Definition update_latest (e : ExecutionId) (p : Row → bool) (f : Z → Row → Row)
    (now : Z) (locked : Row → bool) (t : list Row) : result (Z * list Row) SqlxError :=
  match latest (λ r, bool_decide (t_eid r = e) && p r && negb (locked r)) t with
  | Some r => Ok (1, update_key (t_pkey r) (f now) t)
  | None => Ok (0, t)
  end.

(** [SELECT ... WHERE execution_id = e ORDER BY revision DESC LIMIT 1]. *)
Definition last_of (e : ExecutionId) (t : list Row) : option Row :=
  latest (λ r, bool_decide (t_eid r = e)) t.

(** ** Lemmas *)

Lemma lease_insert_live rev_max live mk e now locked t r :
  r ∈ t → t_eid r = e → live now r = true →
  lease_insert rev_max live mk e now locked t = Ok (None, t).
Proof.
  intros Hr He Hl. unfold lease_insert.
  assert (existsb (λ r, bool_decide (t_eid r = e) && live now r) t = true) as ->; [|done].
  apply existsb_exists. exists r. rewrite <- list_elem_of_In. by rewrite bool_decide_true, Hl.
Qed.

Lemma lease_insert_open rev_max live mk e now locked t :
  (∀ r, r ∈ t → t_eid r = e → live now r = false) → next_revision e t ≤ rev_max →
  lease_insert rev_max live mk e now locked t =
    Ok (Some (next_revision e t), t ++ [mk (next_revision e t) now]).
Proof.
  intros Hl Hrev. unfold lease_insert.
  destruct (existsb _ t) eqn:E.
  - apply existsb_exists in E as (r & Hr%list_elem_of_In & Hp).
    apply andb_true_iff in Hp as [He%bool_decide_eq_true Hlive]. by rewrite Hl in Hlive.
  - by destruct (Z.leb_spec (next_revision e t) rev_max); [|lia].
Qed.

Lemma last_of_Some e t r :
  last_of e t = Some r → r ∈ t ∧ t_eid r = e ∧ ∀ r', r' ∈ t → t_eid r' = e → t_rev r' ≤ t_rev r.
Proof.
  intros Hl. pose proof Hl as [Hr He%bool_decide_eq_true]%latest_Some. split_and!; [done..|].
  intros r' Hr' He'. eapply latest_max; [exact Hl|done|]. by apply bool_decide_eq_true.
Qed.

Lemma last_of_exists e t r : r ∈ t → t_eid r = e → ∃ r', last_of e t = Some r'.
Proof.
  intros Hr He. destruct (last_of e t) as [r'|] eqn:E; [eauto|].
  apply latest_None with (r := r) in E; [|done]. by rewrite bool_decide_true in E.
Qed.

(** The freshly inserted row is the last one of its execution. *)
Lemma last_of_app e t row :
  t_eid row = e → t_rev row = next_revision e t → last_of e (t ++ [row]) = Some row.
Proof.
  intros He Hrev. destruct (last_of_exists e (t ++ [row]) row) as [r Hr]; [|done|].
  { apply elem_of_app; right; apply list_elem_of_here. }
  pose proof (last_of_Some _ _ _ Hr) as (Hin & Her & Hmax).
  apply elem_of_app in Hin as [Hin| ->%list_elem_of_singleton]; [|done].
  pose proof (next_revision_max e t r Hin Her).
  specialize (Hmax row ltac:(apply elem_of_app; right; apply list_elem_of_here) He). lia.
Qed.

(** Updating the row that was just inserted under a fresh key. *)
Lemma update_where_app e rev p f now locked t row :
  (∀ r, r ∈ t → t_pkey r ≠ (e, rev)) → t_pkey row = (e, rev) → p now row = true →
  update_where e rev p f now locked (t ++ [row]) = Ok (1, t ++ [f now row]).
Proof.
  intros Hfresh Hrow Hp.
  set (hit := λ r, bool_decide (t_pkey r = (e, rev)) && p now r).
  change (update_where e rev p f now locked (t ++ [row])) with
    (Ok (E := SqlxError) (Z.of_nat (length (filter (λ r, hit r = true) (t ++ [row]))),
       (λ r, if hit r then f now r else r) <$> (t ++ [row]))).
  assert (Hh : hit row = true) by (unfold hit; by rewrite bool_decide_true, Hp).
  assert (Ht : ∀ r, r ∈ t → hit r = false)
    by (intros r Hr; unfold hit; by rewrite bool_decide_false by (by apply Hfresh)).
  rewrite list.filter_app, filter_cons_True, fmap_app by done. cbn [fmap list_fmap]. rewrite Hh.
  assert (filter (λ r, hit r = true) t = []) as ->.
  { apply elem_of_nil_inv. intros r [Hr Hin]%list_elem_of_filter. by rewrite Ht in Hr. }
  do 2 f_equal. f_equal. rewrite <- (list_fmap_id t) at 2. apply list_fmap_ext.
  intros i r Hr. by rewrite Ht by (by eapply list_elem_of_lookup_2).
Qed.

(** The last row is the only one of its execution that an [update_latest] can
    pick. *)
Lemma update_latest_app e p f now t row :
  (∀ r, r ∈ t → t_eid r = e → p r = false) → t_eid row = e → p row = true →
  (t_pkey row ∉ (t_pkey <$> t)) →
  update_latest e p f now (λ _, false) (t ++ [row]) = Ok (1, t ++ [f now row]).
Proof.
  intros Hp He Hrow Hk. unfold update_latest.
  assert (latest (λ r, bool_decide (t_eid r = e) && p r && negb false) (t ++ [row]) = Some row) as ->.
  { unfold latest. rewrite list.filter_app, filter_cons_True by (by rewrite bool_decide_true, Hrow).
    assert (filter (λ r, bool_decide (t_eid r = e) && p r && negb false = true) t = []) as ->; [|done].
    apply elem_of_nil_inv. intros r [Hr Hin]%list_elem_of_filter.
    rewrite !andb_true_iff, bool_decide_eq_true in Hr. destruct Hr as [[He' Hp'] _].
    by rewrite Hp in Hp'. }
  by rewrite update_key_app.
Qed.

(** The database checks and commits the insertion. *)
Lemma commit_ok {A} (b : Z → (Row → bool) → list Row → result (A * list Row) SqlxError) now locked t a t' :
  b now locked t = Ok (a, t') → t_ok t' = true → commit b now locked t = Ok (a, t').
Proof. intros Hb Hok. unfold commit. by rewrite Hb, Hok. Qed.

Lemma commit_refused {A} (b : Z → (Row → bool) → list Row → result (A * list Row) SqlxError) now locked t a t' :
  b now locked t = Ok (a, t') → t_ok t' = false → commit b now locked t = Err constraint_violation.
Proof. intros Hb Hok. unfold commit. by rewrite Hb, Hok. Qed.

End lease.

(** ** Tables with one active row per execution *)

(** The constraints of such a table: primary key, partial unique index on the
    execution of the active rows, and a CHECK of each row. *)
Class LeaseTable (Row : Type) `{SqlTable Row} := {
  lt_active : Row → bool;
  lt_check : Row → bool;
  lt_ok t : t_ok t = true ↔
    NoDup (t_pkey <$> t) ∧ NoDup (omap (λ r, if lt_active r then Some (t_eid r) else None) t) ∧
    Forall (λ r, lt_check r = true) t
}.

Section lease_table.
Context {Row : Type} `{LeaseTable Row}.

Definition lt_key (r : Row) : option ExecutionId := if lt_active r then Some (t_eid r) else None.

(** All requests of the execution are over and may be repeated. *)
Definition none_active (e : ExecutionId) (t : list Row) : Prop :=
  ∀ r, r ∈ t → t_eid r = e → lt_active r = false.

(** A new row is accepted exactly when it passes its checks, its key is fresh
    and, if it is active, the execution has no active row. *)
Lemma lt_ok_app t row :
  t_ok (t ++ [row]) = true ↔
  t_ok t = true ∧ lt_check row = true ∧ (t_pkey row ∉ (t_pkey <$> t)) ∧
  (lt_active row = true → none_active (t_eid row) t).
Proof.
  rewrite !lt_ok, fmap_app, omap_app, Forall_app, !list.NoDup_app, list.Forall_singleton.
  change (λ r, if lt_active r then Some (t_eid r) else None) with lt_key.
  cbn [fmap list_fmap omap list_omap]. split.
  - intros ((Hp & Hpr & _) & (Hu & Hur & _) & Hc & Hcr). split_and!; [done..| |].
    + intros Hin. apply (Hpr _ Hin). left.
    + intros Hact r Hr He. destruct (lt_active r) eqn:Ha; [|done]. exfalso.
      apply (Hur (t_eid row)).
      * apply list_elem_of_omap. exists r. split; [done|]. unfold lt_key. by rewrite Ha, He.
      * unfold lt_key. rewrite Hact. left.
  - intros ((Hp & Hu & Hc) & Hcr & Hf & Hk). split_and!; [done| | |done| | |done|done].
    + by intros k' Hk' ->%list_elem_of_singleton.
    + apply NoDup_singleton.
    + intros k' Hk' Hin. unfold lt_key in Hin, Hk'. destruct (lt_active row) eqn:Ha; [|by apply elem_of_nil in Hin].
      apply list_elem_of_singleton in Hin as ->.
      apply list_elem_of_omap in Hk' as (r & Hr & Hkey).
      destruct (lt_active r) eqn:Har; [|done]. injection Hkey as He.
      by rewrite (Hk eq_refl r Hr He) in Har.
    + unfold lt_key. destruct (lt_active row); [apply NoDup_singleton|apply NoDup_nil_2].
Qed.

(** A rewrite of rows that keeps keys and checks and never activates a row. *)
Lemma lt_ok_map (f : Row → Row) t :
  (∀ r, r ∈ t → t_pkey (f r) = t_pkey r) → (∀ r, r ∈ t → lt_active (f r) = true → lt_active r = true) →
  (∀ r, r ∈ t → lt_check r = true → lt_check (f r) = true) → t_ok t = true → t_ok (f <$> t) = true.
Proof.
  rewrite !lt_ok. intros Hk Ha Hc (Hp & Hu & Hch). split_and!.
  - by rewrite (fmap_pkey_same f t Hk).
  - eapply sublist_NoDup; [exact Hu|]. apply omap_key_sublist. intros r Hr.
    destruct (lt_active (f r)) eqn:E; [|by left]. right. rewrite (Ha r Hr E).
    specialize (Hk r Hr). unfold t_pkey in Hk. f_equal. congruence.
  - apply list.Forall_fmap, list.Forall_forall. intros r Hr. apply Hc; [done|].
    by apply (proj1 (list.Forall_forall _ _) Hch).
Qed.

(** Two active rows of an execution are the same row. *)
Lemma lt_active_unique (t : list Row) r1 r2 :
  t_ok t = true → r1 ∈ t → r2 ∈ t → t_eid r1 = t_eid r2 →
  lt_active r1 = true → lt_active r2 = true → r1 = r2.
Proof.
  intros Hok H1 H2 He Ha1 Ha2. apply lt_ok in Hok as (_ & Hu & _).
  eapply (unique_on_inj _ t r1 r2 (t_eid r2)); [exact Hu|done|done|cbv beta; by rewrite Ha1, He|cbv beta; by rewrite Ha2].
Qed.

Lemma lt_fresh_key e (t : list Row) row :
  t_pkey row = (e, next_revision e t) → t_pkey row ∉ (t_pkey <$> t).
Proof.
  intros -> (r & Hr & Hin)%list_elem_of_fmap. by apply (next_revision_fresh e t r Hin).
Qed.

Section requests.
Context (rev_max : Z) (live : Z → Row → bool) (mk : Z → Z → Row) (e : ExecutionId).
Hypothesis mk_key : ∀ rev now, t_pkey (mk rev now) = (e, rev).
Hypothesis mk_check : ∀ rev now, lt_check (mk rev now) = true.

Lemma lt_insert_ok t now :
  t_ok t = true → none_active e t → t_ok (t ++ [mk (next_revision e t) now]) = true.
Proof.
  intros Hok Hf. apply lt_ok_app. split_and!; [done|done|by apply (lt_fresh_key e)|].
  intros _. pose proof (mk_key (next_revision e t) now) as Hk. by injection Hk as ->.
Qed.

(** No active and no live row: the request opens under the next revision. *)
Lemma lease_open_commit_live t now :
  t_ok t = true → next_revision e t ≤ rev_max → none_active e t →
  (∀ r, r ∈ t → t_eid r = e → live now r = false) →
  commit (lease_insert rev_max live mk e) now (λ _, false) t =
    Ok (Some (next_revision e t), t ++ [mk (next_revision e t) now]).
Proof.
  intros Hok Hrev Hf Hl. apply commit_ok; [|by apply lt_insert_ok]. by apply lease_insert_open.
Qed.

Lemma lease_open_commit t now :
  (∀ now r, live now r = true → lt_active r = true) →
  t_ok t = true → next_revision e t ≤ rev_max → none_active e t →
  commit (lease_insert rev_max live mk e) now (λ _, false) t =
    Ok (Some (next_revision e t), t ++ [mk (next_revision e t) now]).
Proof.
  intros live_active Hok Hrev Hf. apply lease_open_commit_live; try done. intros r Hr He.
  destruct (live now r) eqn:Hl; [|done]. apply live_active in Hl. by rewrite (Hf r Hr He) in Hl.
Qed.

(** An active row whose lease is over: the lease check passes, the index
    refuses the insertion. *)
Lemma lease_refused_commit t now r :
  (∀ rev now, lt_active (mk rev now) = true) →
  t_ok t = true → next_revision e t ≤ rev_max →
  r ∈ t → t_eid r = e → lt_active r = true →
  (∀ r', r' ∈ t → t_eid r' = e → live now r' = false) →
  commit (lease_insert rev_max live mk e) now (λ _, false) t = Err constraint_violation.
Proof.
  intros Hmk Hok Hrev Hr He Ha Hl. eapply commit_refused; [by apply lease_insert_open|].
  apply not_true_iff_false. intros (_ & _ & _ & Hno)%lt_ok_app.
  pose proof (mk_key (next_revision e t) now) as Hk. injection Hk as Hke _.
  specialize (Hno (Hmk _ _) r Hr). rewrite Hno in Ha; [done|congruence].
Qed.

Lemma lease_live_commit t now r :
  t_ok t = true → r ∈ t → t_eid r = e → live now r = true →
  commit (lease_insert rev_max live mk e) now (λ _, false) t = Ok (None, t).
Proof. intros Hok Hr He Hl. apply commit_ok; [|done]. by eapply lease_insert_live. Qed.

(** Updating the row that was just opened. *)
Lemma lease_update_commit t now (p : Z → Row → bool) (f : Z → Row → Row) :
  (∀ r, t_pkey (f now r) = t_pkey r) → (∀ r, lt_check r = true → lt_check (f now r) = true) →
  t_ok t = true → none_active e t → p now (mk (next_revision e t) now) = true →
  commit (update_where e (next_revision e t) p f) now (λ _, false) (t ++ [mk (next_revision e t) now]) =
    Ok (1, t ++ [f now (mk (next_revision e t) now)]).
Proof.
  intros Hf Hc Hok Hfail Hp. apply commit_ok.
  - apply update_where_app; [|done|done]. intros r Hr. by apply next_revision_fresh.
  - apply lt_ok_app. split_and!; [done|by apply Hc| |].
    + rewrite Hf. by apply (lt_fresh_key e).
    + intros _. pose proof (Hf (mk (next_revision e t) now)) as Hk. rewrite mk_key in Hk.
      by injection Hk as ->.
Qed.
End requests.
End lease_table.

(** Microseconds; a lease of [secs] that starts at [updated]. *)
Definition lease_live (now secs updated : Z) : bool := now - interval_secs secs <? updated.
