(* ===== verification/Sign.v ===== *)
(** * The sign actor

    [src/crate/actors/src/sign/engine.rs] over the table of
    [src/database/migrations/20260203062332_sign.sql]. *)

From S2P Require Import Prelude Types Sql Actor Rlp Eip1559 Custody Lease.

(** ** The table *)

(** Source: [database/migrations/20260203062332_sign.sql] lines 9-20, [sign.sign_requests]. *)
Record SignRow := mkSignRow {
  sr_execution_id : ExecutionId;
  sr_revision : Z;
  sr_chain_id : Z;
  sr_from_address : Address;
  sr_signed_tx : option Bytes;
  sr_state : SignState;
  sr_created_at : Z;
  sr_updated_at : Z
}.
#[export] Instance SignRow_eq_dec : EqDecision SignRow.
Proof. solve_decision. Defined.

Definition sign_active (s : SignState) : bool :=
  match s with SReserved | SSigned => true | SFailed => false end.

Definition sign_active_key (r : SignRow) : option ExecutionId :=
  if sign_active (sr_state r) then Some (sr_execution_id r) else None.

(** Source: [database/migrations/20260203062332_sign.sql] lines 19-25, [uniq_active_reservation]. *)
#[export] Instance sign_table : SqlTable SignRow := {|
  t_eid := sr_execution_id;
  t_rev := sr_revision;
  t_ok t :=
    bool_decide (NoDup ((λ r, (sr_execution_id r, sr_revision r)) <$> t)) &&
    unique_on sign_active_key t
|}.

(** Source: [database/migrations/20260203062332_sign.sql] lines 31-45, [sign.touch_updated_at].
    [SET state = st, signed_tx = tx] with the trigger. *)
Definition sign_set (st : SignState) (tx : option Bytes) (now : Z) (r : SignRow) : SignRow :=
  mkSignRow (sr_execution_id r) (sr_revision r) (sr_chain_id r) (sr_from_address r) tx st
    (sr_created_at r) (if decide (sr_state r = st) then sr_updated_at r else now).

(** [SET state = st] alone. *)
Definition sign_set_state (st : SignState) (now : Z) (r : SignRow) : SignRow :=
  sign_set st (sr_signed_tx r) now r.

(** ** Queries *)

Definition sign_live (now : Z) (r : SignRow) : bool :=
  match sr_state r with
  | SSigned => true
  | SReserved => lease_live now 120 (sr_updated_at r)
  | SFailed => false
  end.

Definition new_sign_row (e : ExecutionId) (chain : Z) (from : Address) (rev now : Z) : SignRow :=
  mkSignRow e rev chain from None SReserved now now.

(** Source: [crate/actors/src/sign/engine.rs] lines 102-136, [handle_sign (INSERT ... RETURNING revision)]. *)
Definition sign_open (e : ExecutionId) (chain : Z) (from : Address) :=
  lease_insert i64_max sign_live (new_sign_row e chain from) e.

(** [state = 'reserved' AND updated_at > now() - interval '5 minutes']. *)
Definition sign_pending (now : Z) (r : SignRow) : bool :=
  bool_decide (sr_state r = SReserved) && lease_live now 300 (sr_updated_at r).

(** Source: [crate/actors/src/sign/engine.rs] lines 150-168, [handle_sign (UPDATE ... 'signed')]. *)
Definition sign_complete (e : ExecutionId) (rev : Z) (signed_tx : Bytes) :=
  update_where e rev sign_pending (sign_set SSigned (Some signed_tx)).

(** Source: [crate/actors/src/sign/engine.rs] lines 178-193, [handle_sign (UPDATE ... 'failed')]. *)
Definition sign_fail (e : ExecutionId) (rev : Z) :=
  update_where e rev sign_pending (sign_set_state SFailed).

(** Source: [crate/actors/src/sign/engine.rs] lines 207-225, [handle_revert (UPDATE ... 'failed')]. *)
Definition sign_revert_query (e : ExecutionId) :=
  update_latest e (λ r, bool_decide (sr_state r = SSigned)) (sign_set_state SFailed).

(** ** Boot *)

(** Source: [crate/actors/src/sign/engine.rs] lines 11-41, [SignEngine::new].
    The keys of the engine; [None] is a panic: the path is missing or may not be
    looked at, or the file does not load. *)
Definition SignEngine_new `{AddressOps} (manifest_dir : string) (files : string → KeysFile) (env : Env) :
    option JsonPolicyEngine :=
  let file := files (test_keys_path manifest_dir env) in
  match kf_try_exists file with
  | Ok true => load_file file
  | Ok false => None
  | Err _ => None
  end.

(** ** Handlers *)

Abbreviation SignDb := (Db SignRow).

Section engine.
Context {St : Type} `{RlpStream St} `{Crypto} `{HexOps} `{AddressOps}.
Context (custody_keys : JsonPolicyEngine).

(** Source: [crate/actors/src/sign/engine.rs] lines 148-203, [SignEngine::handle_sign (signing)]. *)
Definition sign_and_record (txn : Eip1559Transaction) (pvt_key : Bytes) (e : ExecutionId) (rev : Z) :
    Comp SignDb (result SignedTransaction LocalError) :=
  match sign_eip1559_transaction (S := St) txn pvt_key with
  | Ok signed_tx =>
      affected <-? cmap_err LDatabaseError (stmt (sign_complete e rev (st_rlp signed_tx))) ;;
      if affected =? 1 then clift (Ok signed_tx)
      else clift (Err (LInvariant "Invalid sign_requests state transition"))
  | Err err =>
      affected <-? cmap_err LDatabaseError (stmt (sign_fail e rev)) ;;
      if affected =? 1 then clift (Err err)
      else clift (Err (LInvariant "Invalid sign_requests state transition"))
  end.

(** Source: [crate/actors/src/sign/engine.rs] lines 82-204, [SignEngine::handle_sign]. *)
Definition handle_sign (from : Address) (chain_id : ChainId) (execution_id : ExecutionId)
    (txn : Eip1559Transaction) : Comp SignDb (result SignedTransaction LocalError) :=
  pvt_key <-? clift (resolve_key custody_keys from) ;;
  chain <-? clift (result_of_option (u256_try_i64 (chain_u256 chain_id))
                     (LInvariant "Chain_id does not fit in i64")) ;;
  revision <-? cmap_err LDatabaseError (stmt (sign_open execution_id chain from)) ;;
  rev <-? clift (result_of_option revision (LInvariant "Invariant failed while state insertion")) ;;
  sign_and_record txn pvt_key execution_id rev.

(** What [handle_revert] answers when its [UPDATE] matched no row. *)
Definition revert_explain (existing : option SignRow) : result unit LocalError :=
  match existing with
  | Some row =>
      match sr_state row with
      | SReserved => Err (LInternal "txn should have been signed by now, update failed")
      | SFailed => Err (LInternal "txn already updated to failed")
      | SSigned => Err (LInternal "curropted state")
      end
  | None => Err (LInternal "invalid execution_id")
  end.

(** Source: [crate/actors/src/sign/engine.rs] lines 206-262, [SignEngine::handle_revert]. *)
Definition handle_revert (execution_id : ExecutionId) : Comp SignDb (result unit LocalError) :=
  affected <-? cmap_err LDatabaseError (stmt (sign_revert_query execution_id)) ;;
  if 0 <? affected then clift (Ok tt)
  else
    existing <-? cmap_err LDatabaseError (stmt (select (λ _ t, last_of execution_id t))) ;;
    clift (revert_explain existing).

(** ** The actor *)

(** Source: [crate/actors/src/sign/handle.rs] lines 12-24, [SignCommand]. *)
Inductive SignCommand :=
| CmdSign (from : Address) (chain_id : ChainId) (execution_id : ExecutionId) (txn : Eip1559Transaction)
| CmdRevert (execution_id : ExecutionId).

Inductive SignReply :=
| RplSigned (r : result SignedTransaction LocalError)
| RplReverted (r : result unit LocalError).

(** Source: [crate/actors/src/sign/engine.rs] lines 54-77, [SignEngine::run]. *)
Definition sign_dispatch (cmd : SignCommand) : Comp SignDb SignReply :=
  match cmd with
  | CmdSign from c e txn => r <~ handle_sign from c e txn ;; cret (RplSigned r)
  | CmdRevert e => r <~ handle_revert e ;; cret (RplReverted r)
  end.

Definition take_signed (r : SignReply) : option (result SignedTransaction LocalError) :=
  match r with RplSigned r => Some r | RplReverted _ => None end.
Definition take_reverted (r : SignReply) : option (result unit LocalError) :=
  match r with RplReverted r => Some r | RplSigned _ => None end.

Definition sign_closed : LocalError := LInternal "sign actor has shut down".
Definition sign_dropped : LocalError := LInternal "sign actor has dropped its reply channel".

(** Source: [crate/actors/src/sign/handle.rs] lines 44-68, [SignHandle::sign]. *)
Definition sign_handle_sign (d : delivery) (chain_id : ChainId) (from : Address) (e : ExecutionId)
    (txn : Eip1559Transaction) : Comp SignDb (result SignedTransaction LocalError) :=
  handle_call sign_dispatch sign_closed sign_dropped take_signed d (CmdSign from chain_id e txn).

(** Source: [crate/actors/src/sign/handle.rs] lines 70-85, [SignHandle::revert]. *)
Definition sign_handle_revert (d : delivery) (e : ExecutionId) : Comp SignDb (result unit LocalError) :=
  handle_call sign_dispatch sign_closed sign_dropped take_reverted d (CmdRevert e).

End engine.

(** ** Properties *)

Abbreviation sign_idle t now := (mkDb (Row := SignRow) t now []).

#[export] Instance sign_lease : LeaseTable SignRow.
Proof.
  exists (λ r, sign_active (sr_state r)) (λ _, true). intros t. simpl. unfold unique_on.
  rewrite andb_true_iff, !bool_decide_eq_true. split; [|by intros (? & ? & _)].
  intros [? ?]. split_and!; [done|done|]. by apply list.Forall_true.
Defined.

Lemma sign_live_active now r : sign_live now r = true → lt_active r = true.
Proof. simpl. unfold sign_live. by destruct (sr_state r). Qed.

(** All earlier requests of the execution have failed. *)
Definition all_failed (e : ExecutionId) (t : list SignRow) : Prop :=
  ∀ r, r ∈ t → sr_execution_id r = e → sr_state r = SFailed.

Lemma all_failed_none_active e t : all_failed e t → none_active e t.
Proof. intros Hf r Hr He. simpl. by rewrite (Hf r Hr He). Qed.

Section props.
Context {St : Type} `{RlpStream St} `{Crypto} `{HexOps} `{AddressOps}.
Context (custody_keys : JsonPolicyEngine).

Lemma sign_open_commit e chain from t now :
  t_ok t = true → next_revision e t ≤ i64_max → all_failed e t →
  let row := new_sign_row e chain from (next_revision e t) now in
  commit (sign_open e chain from) now (λ _, false) t = Ok (Some (next_revision e t), t ++ [row]) ∧
  t_ok (t ++ [row]) = true.
Proof.
  intros Hok Hrev Hf%all_failed_none_active. split.
  - apply lease_open_commit; try done. apply sign_live_active.
  - by apply (lt_insert_ok (new_sign_row e chain from) e).
Qed.

(** The row just reserved is still reserved and within its five minutes. *)
Lemma sign_update_commit e chain from t now (f : Z → SignRow → SignRow) :
  (∀ r, t_pkey (f now r) = t_pkey r) →
  t_ok t = true → all_failed e t →
  let row := new_sign_row e chain from (next_revision e t) now in
  commit (update_where e (next_revision e t) sign_pending f) now (λ _, false) (t ++ [row]) =
    Ok (1, t ++ [f now row]).
Proof.
  intros Hf Hok Hfail%all_failed_none_active. apply (lease_update_commit (new_sign_row e chain from)); try done.
  unfold sign_pending, lease_live, interval_secs. simpl. apply Z.ltb_lt; lia.
Qed.

Definition sign_row (st : SignState) (e : ExecutionId) (chain : Z) (from : Address) (rev : Z)
    (tx : option Bytes) (now : Z) : SignRow := mkSignRow e rev chain from tx st now now.

Lemma handle_sign_first from c e txn key t now :
  resolve_key custody_keys from = Ok key → chain_u256 c ≤ i64_max →
  t_ok t = true → next_revision e t ≤ i64_max → all_failed e t →
  handle_sign (St := St) custody_keys from c e txn (sign_idle t now) =
  match sign_eip1559_transaction (S := St) txn key with
  | Ok st => (Ok st, sign_idle (t ++ [sign_row SSigned e (chain_u256 c) from (next_revision e t)
                                        (Some (st_rlp st)) now]) now)
  | Err err => (Err err, sign_idle (t ++ [sign_row SFailed e (chain_u256 c) from (next_revision e t)
                                            None now]) now)
  end.
Proof.
  intros Hk Hc Hok Hrev Hf. unfold handle_sign. rewrite Hk.
  assert (Hu : u256_try_i64 (chain_u256 c) = Some (chain_u256 c)).
  { unfold u256_try_i64. by destruct (Z.leb_spec (chain_u256 c) i64_max); [|lia]. }
  rewrite Hu. unfold cbind_ok, cmap_err, clift, cret. cbn [result_of_option]. rewrite stmt_quiet.
  destruct (sign_open_commit e (chain_u256 c) from t now Hok Hrev Hf) as [Hopen Hok'].
  rewrite Hopen. cbn [map_err result_of_option]. unfold sign_and_record, cbind_ok, cmap_err, clift, cret.
  destruct (sign_eip1559_transaction txn key) as [st|err].
  - rewrite stmt_quiet. unfold sign_complete. rewrite sign_update_commit by done. done.
  - rewrite stmt_quiet. unfold sign_fail. rewrite sign_update_commit by done. done.
Qed.

(** C29: signing a transaction, by the state of the execution's earlier requests.
    All of them failed (or there are none): the request is recorded with the
    next revision and ends as [signed] with the signed bytes, or as [failed]
    when the signing routine fails, whose error is the answer.  One of them is
    signed, or reserved less than two minutes ago: the answer is an invariant
    error and nothing changes.  One is reserved, and its lease has expired: the
    lease check lets the insertion pass, but the unique index refuses it, so the
    execution can never be signed again. *)
Theorem handle_sign_functional from c e txn key t now :
  resolve_key custody_keys from = Ok key → chain_u256 c ≤ i64_max →
  t_ok t = true → next_revision e t ≤ i64_max →
  (all_failed e t →
     handle_sign (St := St) custody_keys from c e txn (sign_idle t now) =
     match sign_eip1559_transaction (S := St) txn key with
     | Ok st => (Ok st, sign_idle (t ++ [sign_row SSigned e (chain_u256 c) from (next_revision e t)
                                           (Some (st_rlp st)) now]) now)
     | Err err => (Err err, sign_idle (t ++ [sign_row SFailed e (chain_u256 c) from
                                               (next_revision e t) None now]) now)
     end) ∧
  (∀ r, r ∈ t → sr_execution_id r = e → sr_state r ≠ SFailed →
     handle_sign (St := St) custody_keys from c e txn (sign_idle t now) =
     (Err (if sign_live now r then LInvariant "Invariant failed while state insertion"
           else LDatabaseError constraint_violation), sign_idle t now)).
Proof.
  intros Hk Hc Hok Hrev. split; [intros Hf; by apply handle_sign_first|].
  intros r Hr He Hst.
  assert (Hu : u256_try_i64 (chain_u256 c) = Some (chain_u256 c)).
  { unfold u256_try_i64. by destruct (Z.leb_spec (chain_u256 c) i64_max); [|lia]. }
  assert (Hact : lt_active r = true) by (simpl; by destruct (sr_state r)).
  assert (Hcommit : commit (sign_open e (chain_u256 c) from) now (λ _, false) t =
    if sign_live now r then Ok (None, t) else Err constraint_violation).
  { destruct (sign_live now r) eqn:Hl; [by apply (lease_live_commit i64_max sign_live _ e t now r)|].
    apply (lease_refused_commit i64_max sign_live _ e) with (r := r); try done.
    intros r' Hr' He'. destruct (sign_live now r') eqn:Hl'; [|done].
    apply sign_live_active in Hl' as Hact'.
    assert (r' = r) as -> by (apply (lt_active_unique t); try done; by rewrite He'). congruence. }
  unfold handle_sign. rewrite Hk, Hu. unfold cbind_ok, cmap_err, clift, cret. cbn [result_of_option].
  rewrite stmt_quiet, Hcommit. by destruct (sign_live now r).
Qed.

Lemma revert_last e t row now :
  t_ok (t ++ [row]) = true → sr_execution_id row = e → sr_revision row = next_revision e t →
  sr_state row = SSigned → all_failed e t →
  handle_revert e (sign_idle (t ++ [row]) now) =
    (Ok tt, sign_idle (t ++ [sign_set_state SFailed now row]) now) ∧
  t_ok (t ++ [sign_set_state SFailed now row]) = true.
Proof.
  intros Hok He Hrev Hst Hf.
  assert (Hkey : t_pkey row ∉ (t_pkey <$> t)) by (apply (lt_fresh_key e); unfold t_pkey; simpl; congruence).
  assert (Hlat : latest (λ r, bool_decide (t_eid r = e) && bool_decide (sr_state r = SSigned)
                             && negb false) (t ++ [row]) = Some row).
  { unfold latest. rewrite list.filter_app, filter_cons_True by (by rewrite !bool_decide_true).
    assert (filter (λ r : SignRow, bool_decide (t_eid r = e) && bool_decide (sr_state r = SSigned)
              && negb false = true) t = []) as ->; [|done].
    apply elem_of_nil_inv. intros r [Hp Hr]%list_elem_of_filter.
    rewrite !andb_true_iff, !bool_decide_eq_true in Hp. destruct Hp as [[He' Hs] _].
    by rewrite (Hf r Hr He') in Hs. }
  assert (Hupd : update_key (t_pkey row) (sign_set_state SFailed now) (t ++ [row]) =
                 t ++ [sign_set_state SFailed now row]) by (by apply update_key_app).
  assert (Hok' : t_ok (t ++ [sign_set_state SFailed now row]) = true).
  { apply lt_ok_app in Hok as (Hok & Hc & Hk & _). apply lt_ok_app. by split_and!. }
  split; [|done]. unfold handle_revert, cbind_ok, cmap_err, clift, cret. rewrite stmt_quiet.
  unfold commit, sign_revert_query, update_latest. rewrite Hlat, Hupd, Hok'. done.
Qed.

(** reverting makes an execution signable again: sign, revert, sign with a
    corrected transaction leaves the first request failed and the second signed
    under the next revision, and both signings answer their own signed bytes. *)
Theorem sign_revert_resign from c e txn1 txn2 key st1 st2 t now :
  resolve_key custody_keys from = Ok key → chain_u256 c ≤ i64_max →
  t_ok t = true → next_revision e t < i64_max → all_failed e t →
  sign_eip1559_transaction (S := St) txn1 key = Ok st1 →
  sign_eip1559_transaction (S := St) txn2 key = Ok st2 →
  (s1 <~ handle_sign (St := St) custody_keys from c e txn1 ;;
   rv <~ handle_revert e ;;
   s2 <~ handle_sign (St := St) custody_keys from c e txn2 ;;
   cret (s1, rv, s2)) (sign_idle t now) =
  ((Ok st1, Ok tt, Ok st2),
   sign_idle (t ++ [sign_row SFailed e (chain_u256 c) from (next_revision e t) (Some (st_rlp st1)) now;
                    sign_row SSigned e (chain_u256 c) from (next_revision e t + 1) (Some (st_rlp st2)) now])
     now).
Proof.
  intros Hk Hc Hok Hrev Hf Hs1 Hs2. unfold cbind, cret.
  rewrite (handle_sign_first from c e txn1 key t now) by (done || lia). rewrite Hs1.
  set (row1 := sign_row SSigned e _ from _ _ now).
  destruct (sign_open_commit e (chain_u256 c) from t now Hok ltac:(lia) Hf) as [_ Hok1].
  assert (Hok1' : t_ok (t ++ [row1]) = true).
  { apply lt_ok_app in Hok1 as (_ & Hc1 & Hk1 & Ha1). apply lt_ok_app. by split_and!. }
  destruct (revert_last e t row1 now) as [Hrv Hok2]; try done. rewrite Hrv.
  set (row2 := sign_set_state SFailed now row1) in *.
  assert (Hnext : next_revision e (t ++ [row2]) = next_revision e t + 1) by (by apply next_revision_app).
  rewrite (handle_sign_first from c e txn2 key (t ++ [row2]) now); try done.
  - rewrite Hs2, Hnext, <- app_assoc. done.
  - rewrite Hnext. lia.
  - intros r [Hr| ->%list_elem_of_singleton]%elem_of_app He; [by apply Hf|done].
Qed.
End props.

(** ** Witnesses *)

Definition ex_policy : JsonPolicyEngine :=
  mkJsonPolicyEngine {[ [byte_of_Z 10] := "0x" +:+ hex_encode (replicate 32 (byte_of_Z 7)) ]}.

Lemma handle_sign_functional_witness :
  handle_sign (St := BStream) ex_policy [byte_of_Z 10] (mkChainId 1) (mkExecutionId 5) ex_tx
    (sign_idle [sign_row SReserved (mkExecutionId 5) 1 [] 1 None 0] (interval_secs 121)) =
  (Err (LDatabaseError constraint_violation),
   sign_idle [sign_row SReserved (mkExecutionId 5) 1 [] 1 None 0] (interval_secs 121)).
Proof.
  destruct (handle_sign_functional (St := BStream) ex_policy [byte_of_Z 10] (mkChainId 1)
    (mkExecutionId 5) ex_tx (replicate 32 (byte_of_Z 7))
    [sign_row SReserved (mkExecutionId 5) 1 [] 1 None 0] (interval_secs 121)) as [_ H];
    [vm_compute; reflexivity|vm_compute; congruence|reflexivity|vm_compute; congruence|].
  apply (H (sign_row SReserved (mkExecutionId 5) 1 [] 1 None 0)); [left|reflexivity|discriminate].
Defined.

Definition ex_signed : SignedTransaction :=
  Eval vm_compute in
    match sign_eip1559_transaction (S := BStream) ex_tx (replicate 32 (byte_of_Z 7)) with
    | Ok st => st | Err _ => mkSigned [] (mkTxNonce 0) end.

Lemma sign_revert_resign_witness :
  (s1 <~ handle_sign (St := BStream) ex_policy [byte_of_Z 10] (mkChainId 1) (mkExecutionId 5) ex_tx ;;
   rv <~ handle_revert (mkExecutionId 5) ;;
   s2 <~ handle_sign (St := BStream) ex_policy [byte_of_Z 10] (mkChainId 1) (mkExecutionId 5) ex_tx ;;
   cret (s1, rv, s2)) (sign_idle [] 0) =
  ((Ok ex_signed, Ok tt, Ok ex_signed),
   sign_idle ([] ++ [sign_row SFailed (mkExecutionId 5) 1 [byte_of_Z 10] 1 (Some (st_rlp ex_signed)) 0;
                     sign_row SSigned (mkExecutionId 5) 1 [byte_of_Z 10] 2 (Some (st_rlp ex_signed)) 0]) 0).
Proof.
  apply (sign_revert_resign (St := BStream) ex_policy [byte_of_Z 10] (mkChainId 1) (mkExecutionId 5)
    ex_tx ex_tx (replicate 32 (byte_of_Z 7)) ex_signed ex_signed [] 0);
    try (vm_compute; reflexivity); try (vm_compute; congruence).
  by intros r ?%elem_of_nil.
Defined.
