(* ===== verification/Text.v ===== *)
(** * Text: the parts of Rust's [str] and [fmt] that the code uses, and JSON values *)

From S2P Require Import Prelude.

Definition dquote : Ascii.ascii := Ascii.ascii_of_N 34.
Definition newline : Ascii.ascii := Ascii.ascii_of_N 10.

(** [s.strip_prefix(p)] and [s.starts_with(p)]. *)
Fixpoint strip_prefix (p s : string) : option string :=
  match p, s with
  | EmptyString, _ => Some s
  | String a p', String b s' => if decide (a = b) then strip_prefix p' s' else None
  | String _ _, EmptyString => None
  end.

Definition starts_with (p s : string) : bool :=
  match strip_prefix p s with Some _ => true | None => false end.

(** [s.contains(p)]. *)
Fixpoint contains (p s : string) : bool :=
  starts_with p s ||
  match s with
  | EmptyString => false
  | String _ s' => contains p s'
  end.

(** [s.split(c)]: always at least one piece. *)
Fixpoint split_on (c : Ascii.ascii) (s : string) : list string :=
  match s with
  | EmptyString => [EmptyString]
  | String a s' =>
      if decide (a = c) then EmptyString :: split_on c s'
      else match split_on c s' with
           | [] => [String a EmptyString]
           | p :: ps => String a p :: ps
           end
  end.

(** [s.split_once(c)]. *)
Fixpoint split_once (c : Ascii.ascii) (s : string) : option (string * string) :=
  match s with
  | EmptyString => None
  | String a s' =>
      if decide (a = c) then Some (EmptyString, s')
      else match split_once c s' with
           | Some (l, r) => Some (String a l, r)
           | None => None
           end
  end.

(** ASCII white space: tab, line feed, vertical tab, form feed, carriage
    return, space. *)
Definition is_space (c : Ascii.ascii) : bool :=
  let n := Ascii.N_of_ascii c in
  bool_decide (n = 32%N) || (bool_decide (9 ≤ n)%N && bool_decide (n ≤ 13)%N).

Fixpoint trim_start (s : string) : string :=
  match s with
  | String c s' => if is_space c then trim_start s' else s
  | EmptyString => EmptyString
  end.

Fixpoint trim_end (s : string) : string :=
  match s with
  | EmptyString => EmptyString
  | String c s' =>
      match trim_end s' with
      | EmptyString => if is_space c then EmptyString else String c EmptyString
      | t => String c t
      end
  end.

Definition trim (s : string) : string := trim_end (trim_start s).

(** [{:?}] of a string: quoted, with the escapes of [char::escape_debug] for
    the printable range and the named control characters. *)
Definition escape_char (c : Ascii.ascii) : string :=
  let n := Ascii.N_of_ascii c in
  if bool_decide (n = 34%N) || bool_decide (n = 92%N) then String "\" (String c EmptyString)
  else if bool_decide (n = 10%N) then "\n"
  else if bool_decide (n = 13%N) then "\r"
  else if bool_decide (n = 9%N) then "\t"
  else if bool_decide (n = 0%N) then "\0"
  else String c EmptyString.

Fixpoint escape (s : string) : string :=
  match s with
  | EmptyString => EmptyString
  | String c s' => escape_char c +:+ escape s'
  end.

Definition str_debug (s : string) : string :=
  String dquote (escape s +:+ String dquote EmptyString).

(** [{:?}] of a [Duration]: the largest unit that is not zero, with the rest as
    a fraction without trailing zeros. *)
Fixpoint frac_digits (width : nat) (f : Z) : string :=
  match width with
  | O => EmptyString
  | S w =>
      if f =? 0 then EmptyString
      else let p := 10 ^ Z.of_nat w in pretty (f / p) +:+ frac_digits w (f mod p)
  end.

Definition fmt_decimal (int frac : Z) (width : nat) (unit : string) : string :=
  pretty int +:+ (if frac =? 0 then "" else "." +:+ frac_digits width frac) +:+ unit.

Definition micro_sign : string :=
  String (Ascii.ascii_of_N 194) (String (Ascii.ascii_of_N 181) EmptyString).

Definition duration_debug (d : Z) : string :=
  if 1000000000 <=? d then fmt_decimal (d / 1000000000) (d mod 1000000000) 9 "s"
  else if 1000000 <=? d then fmt_decimal (d / 1000000) (d mod 1000000) 6 "ms"
  else if 1000 <=? d then fmt_decimal (d / 1000) (d mod 1000) 3 (micro_sign +:+ "s")
  else fmt_decimal d 0 0 "ns".

Example duration_debug_30s : duration_debug (from_secs 30) = "30s".
Proof. reflexivity. Qed.
Example duration_debug_1_5ms : duration_debug 1500000 = "1.5ms".
Proof. reflexivity. Qed.

(** ** Lemmas *)

Lemma str_app_assoc (a b c : string) : a +:+ (b +:+ c) = (a +:+ b) +:+ c.
Proof. induction a as [|x a IH]; [done|]. exact (f_equal (String x) IH). Qed.

Lemma strip_prefix_app p s : strip_prefix p (p +:+ s) = Some s.
Proof. induction p as [|c p IH]; [done|]. simpl. by rewrite decide_True. Qed.

Lemma starts_with_app p s : starts_with p (p +:+ s) = true.
Proof. unfold starts_with. by rewrite strip_prefix_app. Qed.

Lemma contains_cons p c s : contains p s = true → contains p (String c s) = true.
Proof. intros H. simpl. rewrite H. apply orb_true_r. Qed.

Lemma contains_app_r p a s : contains p s = true → contains p (a +:+ s) = true.
Proof. intros H. induction a as [|c a IH]; [done|]. by apply contains_cons. Qed.

Lemma strip_prefix_app_r p s t r : strip_prefix p s = Some r → strip_prefix p (s +:+ t) = Some (r +:+ t).
Proof.
  revert s. induction p as [|a p IH]; intros s; simpl.
  - by intros [= ->].
  - destruct s as [|b s]; [done|]. simpl. case_decide; [apply IH|done].
Qed.

Lemma contains_unfold p s :
  contains p s = starts_with p s || match s with EmptyString => false | String _ s' => contains p s' end.
Proof. by destruct s. Qed.

Lemma starts_with_app_r p s t : starts_with p s = true → starts_with p (s +:+ t) = true.
Proof.
  unfold starts_with. destruct (strip_prefix p s) as [r|] eqn:E; [|done].
  by rewrite (strip_prefix_app_r _ _ t _ E).
Qed.

Lemma contains_app_l p a s : contains p a = true → contains p (a +:+ s) = true.
Proof.
  induction a as [|c a IH]; rewrite contains_unfold; intros [Hs|Hc]%orb_true_iff; try done.
  - rewrite contains_unfold. by rewrite (starts_with_app_r p EmptyString s Hs).
  - rewrite contains_unfold. by rewrite (starts_with_app_r p (String c a) s Hs).
  - change (String c a +:+ s) with (String c (a +:+ s)). by apply contains_cons, IH.
Qed.

Lemma contains_mid p a b : contains p (a +:+ (p +:+ b)) = true.
Proof.
  apply contains_app_r. destruct (p +:+ b) eqn:E; simpl; rewrite <- E; by rewrite starts_with_app.
Qed.

(** ** JSON values ([serde_json::Value]) *)

#[warnings="-register-all"]
Inductive Json :=
| JNull
| JBool (b : bool)
| JNum (z : Z)
| JStr (s : string)
| JArr (l : list Json)
| JObj (fields : list (string * Json)).

(** A field of an object. *)
Fixpoint json_field (name : string) (fields : list (string * Json)) : option Json :=
  match fields with
  | [] => None
  | (k, v) :: fields => if decide (k = name) then Some v else json_field name fields
  end.

(** [value.get(name)] and [value.as_str()]. *)
Definition json_get (name : string) (v : Json) : option Json :=
  match v with JObj fields => json_field name fields | _ => None end.
Definition json_str (v : Json) : option string := match v with JStr s => Some s | _ => None end.

(** A value read as a [u64]. *)
Definition json_u64 (v : Json) : option Z :=
  match v with JNum z => if (0 <=? z) && (z <=? u64_max) then Some z else None | _ => None end.

(** Values whose numbers are [u64] and whose objects repeat no field. *)
Fixpoint json_plain (v : Json) : bool :=
  match v with
  | JNum z => (0 <=? z) && (z <=? u64_max)
  | JArr l => forallb json_plain l
  | JObj fields => bool_decide (NoDup fields.*1) && forallb (λ p, json_plain p.2) fields
  | _ => true
  end.

(** serde_json's text of a value and the value of a text. *)
Class JsonText := {
  json_text : Json → string;
  json_parse : string → option Json
}.
(** serde_json reads the values it writes. *)
Class JsonTextLaws `{JsonText} := {
  json_parse_text v : json_plain v = true → json_parse (json_text v) = Some v
}.
