(* ===== verification/Float.v ===== *)
(** * [f64]: IEEE 754 binary64, executable

    The standard library's specification of floating point ([SpecFloat]) at
    precision 53 and exponent range 1024: every operation rounds to nearest,
    ties to even, as the hardware does. *)

From Stdlib Require Export SpecFloat.
From S2P Require Import Prelude.

Definition f64 : Type := spec_float.
#[export] Instance f64_eq_dec : EqDecision f64.
Proof. solve_decision. Defined.

Definition f64_prec : Z := 53.
Definition f64_emax : Z := 1024.

Definition f64_zero : f64 := S754_zero false.

(** [z as f64] for an integer. *)
Definition f64_of_Z (z : Z) : f64 := binary_normalize f64_prec f64_emax z 0 false.

Definition f64_add : f64 → f64 → f64 := SFadd f64_prec f64_emax.
Definition f64_mul : f64 → f64 → f64 := SFmul f64_prec f64_emax.
Definition f64_div : f64 → f64 → f64 := SFdiv f64_prec f64_emax.

(** The comparisons of Rust: false as soon as an operand is NaN. *)
Definition f64_gt (x y : f64) : bool :=
  match SFcompare x y with Some Gt => true | _ => false end.
Definition f64_lt (x y : f64) : bool :=
  match SFcompare x y with Some Lt => true | _ => false end.
Definition f64_ge (x y : f64) : bool :=
  match SFcompare x y with Some Gt | Some Eq => true | _ => false end.
Definition f64_eq (x y : f64) : bool :=
  match SFcompare x y with Some Eq => true | _ => false end.

(** [x.max(y)]: the other operand if one is NaN. *)
Definition f64_max (x y : f64) : f64 :=
  match SFcompare x y with
  | Some Lt => y
  | Some _ => x
  | None => match x with S754_nan => y | _ => x end
  end.

(** A decimal literal [n / d]: the nearest double, since [n] and [d] are exact. *)
Definition f64_lit (n d : Z) : f64 := f64_div (f64_of_Z n) (f64_of_Z d).

Lemma f64_ge_lt x y : SFcompare x y ≠ None → f64_ge x y = negb (f64_lt x y).
Proof. unfold f64_ge, f64_lt. by destruct (SFcompare x y) as [[]|]. Qed.

Lemma f64_lt_ge_nan x y : f64_ge x y = false → f64_lt x y = false → SFcompare x y = None.
Proof. unfold f64_ge, f64_lt. by destruct (SFcompare x y) as [[]|]. Qed.
