(* ===== verification/Metrics.v ===== *)
(** * Endpoint metrics

    [src/crate/utils/src/rpc/metrics.rs].  The atomics are the fields of a
    record; an operation is a function on it, of a call that is not interrupted
    ([Atomics.v] has the accesses one by one).  [Instant::now().elapsed()] is the
    time between two reads of the clock: the argument [lag], in milliseconds. *)

From S2P Require Import Prelude Float.

(** ** Constants *)

Definition RESPONSE_TIME_WINDOW_SIZE : Z := 128.
Definition RESPONSE_TIME_MASK : Z := RESPONSE_TIME_WINDOW_SIZE - 1.
Definition DEFAULT_RESPONSE_TIME_MS : f64 := f64_of_Z 100.
(** Source: [crate/utils/src/rpc/metrics.rs] lines 21-22, [CIRCUIT_BREAKER_BACKOFF]. *)
Definition CIRCUIT_BREAKER_BACKOFF : list Z := [10; 30; 60].
Definition MIN_REQUESTS_FOR_HEALTH : Z := 10.
(** Source: [crate/utils/src/rpc/metrics.rs] lines 27-29, [DEGRADED_THRESHOLD]. *)
Definition DEGRADED_THRESHOLD : f64 := f64_lit 15 100.
Definition UNHEALTHY_THRESHOLD : f64 := f64_lit 40 100.

(** ** Health *)

(** Source: [crate/utils/src/rpc/metrics.rs] lines 34-49, [EndpointHealth]. *)
Inductive EndpointHealth := Healthy | Degraded | Unhealthy.
#[export] Instance EndpointHealth_eq_dec : EqDecision EndpointHealth.
Proof. solve_decision. Defined.

(** Source: [crate/utils/src/rpc/metrics.rs] lines 52-60, [EndpointHealth::traffic_multiplier]. *)
Definition traffic_multiplier (h : EndpointHealth) : f64 :=
  match h with
  | Healthy => f64_of_Z 1
  | Degraded => f64_lit 5 10
  | Unhealthy => f64_zero
  end.

(** Source: [crate/utils/src/rpc/metrics.rs] lines 62-66, [EndpointHealth::is_available]. *)
Definition health_is_available (h : EndpointHealth) : bool :=
  match h with Unhealthy => false | _ => true end.

(** ** The metrics of an endpoint *)

(** Source: [crate/utils/src/rpc/metrics.rs] lines 71-112, [EndpointMetrics].
    The thresholds are stored as their bits in the code; [from_bits] of
    [to_bits] is the identity. *)
Record EndpointMetrics := mkMetrics {
  em_id : string;
  em_url : string;
  em_health : Z;
  em_response_times_ms : list Z;
  em_response_time_index : Z;
  em_error_count : Z;
  em_request_count : Z;
  em_last_success_at : Z;
  em_circuit_breaker_until : Z;
  em_circuit_breaker_attempts : Z;
  em_window_epoch : Z;
  em_degraded_threshold : f64;
  em_unhealthy_threshold : f64
}.

(** Source: [crate/utils/src/rpc/metrics.rs] lines 140-161, [EndpointMetrics::new]. *)
Definition metrics_new (id url : string) (lag : Z) : EndpointMetrics :=
  mkMetrics id url 0 (replicate 128 0) 0 0 0 0 0 0 lag DEGRADED_THRESHOLD UNHEALTHY_THRESHOLD.

(** Field updates. *)
Definition set_health (h : Z) (m : EndpointMetrics) : EndpointMetrics :=
  mkMetrics (em_id m) (em_url m) h (em_response_times_ms m) (em_response_time_index m)
    (em_error_count m) (em_request_count m) (em_last_success_at m) (em_circuit_breaker_until m)
    (em_circuit_breaker_attempts m) (em_window_epoch m) (em_degraded_threshold m)
    (em_unhealthy_threshold m).

Definition set_breaker (until attempts : Z) (m : EndpointMetrics) : EndpointMetrics :=
  mkMetrics (em_id m) (em_url m) (em_health m) (em_response_times_ms m) (em_response_time_index m)
    (em_error_count m) (em_request_count m) (em_last_success_at m) until
    attempts (em_window_epoch m) (em_degraded_threshold m) (em_unhealthy_threshold m).

Definition set_counts (errors requests : Z) (m : EndpointMetrics) : EndpointMetrics :=
  mkMetrics (em_id m) (em_url m) (em_health m) (em_response_times_ms m) (em_response_time_index m)
    errors requests (em_last_success_at m) (em_circuit_breaker_until m)
    (em_circuit_breaker_attempts m) (em_window_epoch m) (em_degraded_threshold m)
    (em_unhealthy_threshold m).

Definition set_sample (times : list Z) (index last_success : Z) (m : EndpointMetrics) : EndpointMetrics :=
  mkMetrics (em_id m) (em_url m) (em_health m) times index (em_error_count m) (em_request_count m)
    last_success (em_circuit_breaker_until m) (em_circuit_breaker_attempts m) (em_window_epoch m)
    (em_degraded_threshold m) (em_unhealthy_threshold m).

(** Source: [crate/utils/src/rpc/metrics.rs] lines 166-172, [set_error_thresholds]. *)
Definition set_error_thresholds (degraded unhealthy : f64) (m : EndpointMetrics) : EndpointMetrics :=
  mkMetrics (em_id m) (em_url m) (em_health m) (em_response_times_ms m) (em_response_time_index m)
    (em_error_count m) (em_request_count m) (em_last_success_at m) (em_circuit_breaker_until m)
    (em_circuit_breaker_attempts m) (em_window_epoch m) degraded unhealthy.

(** ** Reading *)

(** The slots the loop visits: [(0..count).step_by(step)]. *)
Definition sample_offsets (count step : Z) : list Z :=
  (λ k, k * step) <$> seqZ 0 ((count + step - 1) / step).

Definition ring_slot (index i : Z) : nat :=
  Z.to_nat (Z.land (wrap_u64 (wrap_u64 (index - 1) - i)) RESPONSE_TIME_MASK).

(** The loop's [sum] and [valid_count]. *)
Definition sum_samples (times : list Z) (index : Z) (offsets : list Z) : Z * Z :=
  fold_left (λ '(sum, valid), λ i,
    let val := default 0 (times !! ring_slot index i) in
    if 0 <? val then (wrap_u64 (sum + val), valid + 1) else (sum, valid)) offsets (0, 0).

(** Source: [crate/utils/src/rpc/metrics.rs] lines 189-222, [average_response_time_ms]. *)
Definition average_response_time_ms (m : EndpointMetrics) : f64 :=
  let index := em_response_time_index m in
  if index =? 0 then DEFAULT_RESPONSE_TIME_MS
  else
    let count := Z.min index RESPONSE_TIME_WINDOW_SIZE in
    let step := if 32 <? count then 4 else 1 in
    let '(sum, valid_count) := sum_samples (em_response_times_ms m) index (sample_offsets count step) in
    if valid_count =? 0 then DEFAULT_RESPONSE_TIME_MS
    else f64_mul (f64_div (f64_of_Z sum) (f64_of_Z valid_count)) (f64_of_Z step).

(** Source: [crate/utils/src/rpc/metrics.rs] lines 224-232, [error_rate]. *)
Definition error_rate (m : EndpointMetrics) : f64 :=
  if em_request_count m <? MIN_REQUESTS_FOR_HEALTH then f64_zero
  else f64_div (f64_of_Z (em_error_count m)) (f64_of_Z (em_request_count m)).

(** Source: [crate/utils/src/rpc/metrics.rs] lines 249-256, [health]. *)
Definition health (m : EndpointMetrics) : EndpointHealth :=
  if em_health m =? 0 then Healthy else if em_health m =? 1 then Degraded else Unhealthy.

(** Source: [crate/utils/src/rpc/metrics.rs] lines 234-247, [load_balancing_score]. *)
Definition load_balancing_score (m : EndpointMetrics) : f64 :=
  let multiplier := traffic_multiplier (health m) in
  if f64_eq multiplier f64_zero then f64_zero
  else
    let avg_ms := f64_max (average_response_time_ms m) (f64_of_Z 1) in
    f64_mul (f64_div (f64_of_Z 1000) avg_ms) multiplier.

(** Source: [crate/utils/src/rpc/metrics.rs] lines 353-357, [is_available]. *)
Definition is_available (m : EndpointMetrics) : bool := health_is_available (health m).

(** ** Recording *)

(** The health of an error rate. *)
Definition health_of_rate (rate degraded unhealthy : f64) : Z :=
  if f64_gt rate unhealthy then 2 else if f64_gt rate degraded then 1 else 0.

(** Source: [crate/utils/src/rpc/metrics.rs] lines 297-325, [update_health_status]. *)
Definition update_health_status (lag : Z) (m : EndpointMetrics) : EndpointMetrics :=
  let cb_until := em_circuit_breaker_until m in
  if (0 <? cb_until) && (lag <? cb_until) then set_health 2 m
  else
    let m := if 0 <? cb_until then set_breaker 0 (em_circuit_breaker_attempts m) m else m in
    set_health (health_of_rate (error_rate m) (em_degraded_threshold m) (em_unhealthy_threshold m)) m.

(** Source: [crate/utils/src/rpc/metrics.rs] lines 261-285, [record_success]. *)
Definition record_success (duration lag : Z) (m : EndpointMetrics) : EndpointMetrics :=
  let duration_ms := wrap_u64 (as_millis duration) in
  let now_millis := wrap_u64 lag in
  let index := em_response_time_index m in
  let slot := Z.to_nat (Z.land index RESPONSE_TIME_MASK) in
  let m := set_sample (<[slot := duration_ms]> (em_response_times_ms m)) (wrap_u64 (index + 1)) now_millis m in
  let m := set_counts (em_error_count m) (wrap_u64 (em_request_count m + 1)) m in
  let cb_until := em_circuit_breaker_until m in
  let m := if (0 <? cb_until) && (cb_until <=? now_millis) then set_breaker 0 0 m else m in
  update_health_status lag m.

(** Source: [crate/utils/src/rpc/metrics.rs] lines 287-292, [record_failure]. *)
Definition record_failure (lag : Z) (m : EndpointMetrics) : EndpointMetrics :=
  update_health_status lag
    (set_counts (wrap_u64 (em_error_count m + 1)) (wrap_u64 (em_request_count m + 1)) m).

(** Source: [crate/utils/src/rpc/metrics.rs] lines 327-342, [activate_circuit_breaker].
    [expiry.elapsed()] of an instant [backoff] in the future saturates at 0. *)
Definition activate_circuit_breaker (lag : Z) (m : EndpointMetrics) : EndpointMetrics :=
  let attempts := em_circuit_breaker_attempts m in
  let backoff_idx := Z.to_nat (Z.min attempts 2) in
  let backoff_secs := default 0 (CIRCUIT_BREAKER_BACKOFF !! backoff_idx) in
  let expiry_ms := saturating_sub lag (backoff_secs * 1000) in
  set_health 2 (set_breaker expiry_ms (wrap_u32 (attempts + 1)) m).

(** Source: [crate/utils/src/rpc/metrics.rs] lines 344-351, [reset_window]. *)
Definition reset_window (lag : Z) (m : EndpointMetrics) : EndpointMetrics :=
  mkMetrics (em_id m) (em_url m) (em_health m) (em_response_times_ms m) (em_response_time_index m)
    0 0 (em_last_success_at m) (em_circuit_breaker_until m) (em_circuit_breaker_attempts m) lag
    (em_degraded_threshold m) (em_unhealthy_threshold m).

(** Source: [crate/utils/src/rpc/metrics.rs] lines 372-383, [last_success].
    An instant is its number of milliseconds; [None] inside is the panic of
    [u64] subtraction. *)
Definition last_success (now lag : Z) (m : EndpointMetrics) : option (option Z) :=
  let millis := em_last_success_at m in
  if millis =? 0 then Some None
  else if lag <? millis then None else Some (Some (now - (lag - millis))).

(** Source: [crate/utils/src/rpc/metrics.rs] lines 390-403, [circuit_breaker_until]. *)
Definition circuit_breaker_until (now lag : Z) (m : EndpointMetrics) : option Z :=
  let millis := em_circuit_breaker_until m in
  if millis =? 0 then None
  else if lag <? millis then Some (now + (millis - lag)) else None.

(** Source: [crate/utils/src/rpc/metrics.rs] lines 420-431, [EndpointMetricsSnapshot]. *)
Record EndpointMetricsSnapshot := mkSnapshot {
  sn_id : string;
  sn_url : string;
  sn_health : EndpointHealth;
  sn_avg_response_time_ms : f64;
  sn_error_rate : f64;
  sn_score : f64;
  sn_request_count : Z;
  sn_error_count : Z
}.

(** Source: [crate/utils/src/rpc/metrics.rs] lines 405-417, [snapshot]. *)
Definition snapshot (m : EndpointMetrics) : EndpointMetricsSnapshot :=
  mkSnapshot (em_id m) (em_url m) (health m) (average_response_time_ms m) (error_rate m)
    (load_balancing_score m) (em_request_count m) (em_error_count m).

(** ** Lemmas *)

Lemma set_health_counts h m :
  em_request_count (set_health h m) = em_request_count m ∧
  em_error_count (set_health h m) = em_error_count m.
Proof. done. Qed.

(** Updating the health touches neither the samples nor the counters. *)
Lemma update_health_fields lag m :
  em_response_times_ms (update_health_status lag m) = em_response_times_ms m ∧
  em_response_time_index (update_health_status lag m) = em_response_time_index m ∧
  em_request_count (update_health_status lag m) = em_request_count m ∧
  em_error_count (update_health_status lag m) = em_error_count m ∧
  em_degraded_threshold (update_health_status lag m) = em_degraded_threshold m ∧
  em_unhealthy_threshold (update_health_status lag m) = em_unhealthy_threshold m.
Proof. unfold update_health_status. by repeat case_match. Qed.

Lemma record_success_fields d lag m :
  em_response_times_ms (record_success d lag m) =
    <[Z.to_nat (Z.land (em_response_time_index m) RESPONSE_TIME_MASK) := wrap_u64 (as_millis d)]>
      (em_response_times_ms m) ∧
  em_response_time_index (record_success d lag m) = wrap_u64 (em_response_time_index m + 1) ∧
  em_request_count (record_success d lag m) = wrap_u64 (em_request_count m + 1) ∧
  em_error_count (record_success d lag m) = em_error_count m ∧
  em_degraded_threshold (record_success d lag m) = em_degraded_threshold m ∧
  em_unhealthy_threshold (record_success d lag m) = em_unhealthy_threshold m.
Proof.
  unfold record_success. cbv zeta.
  match goal with |- context [update_health_status lag ?x] =>
    destruct (update_health_fields lag x) as (-> & -> & -> & -> & -> & ->) end.
  by case_match.
Qed.

Lemma land_mask_mod x : 0 ≤ x → Z.land x RESPONSE_TIME_MASK = x mod 128.
Proof. intros Hx. change RESPONSE_TIME_MASK with (Z.ones 7). by rewrite Z.land_ones. Qed.

Lemma ring_slot_mod index i :
  0 ≤ i < index → index < 2 ^ 64 → ring_slot index i = Z.to_nat ((index - 1 - i) mod 128).
Proof.
  intros Hi Hx. unfold ring_slot, wrap_u64. rewrite land_mask_mod by (apply Z.mod_pos_bound; lia).
  rewrite (Z.mod_small (index - 1)) by lia. by rewrite (Z.mod_small (index - 1 - i)) by lia.
Qed.

(** What the samples hold after recording a list of durations. *)
Definition samples_hold (n : Z) (ds : list Z) (times : list Z) : Prop :=
  length times = 128%nat ∧ n = Z.of_nat (length ds) ∧
  ∀ k d, ds !! k = Some d → n ≤ Z.of_nat k + 128 →
    times !! Z.to_nat (Z.of_nat k mod 128) = Some (wrap_u64 (as_millis d)).

Lemma samples_hold_snoc n ds times d :
  samples_hold n ds times →
  samples_hold (n + 1) (ds ++ [d]) (<[Z.to_nat (n mod 128) := wrap_u64 (as_millis d)]> times).
Proof.
  intros (Hlen & Hn & Hk). unfold samples_hold. rewrite length_insert, length_app. simpl.
  split_and!; [done|lia|]. intros k d' Hd Hk'.
  pose proof (Z.mod_pos_bound n 128 ltac:(lia)).
  pose proof (Z.mod_pos_bound (Z.of_nat k) 128 ltac:(lia)).
  apply lookup_app_Some in Hd as [Hd|[Hge Hd]].
  - apply lookup_lt_Some in Hd as Hlt. rewrite list_lookup_insert_ne; [apply Hk; [done|lia]|].
    intros Heq. apply Z2Nat.inj in Heq; [|lia..].
    assert (Hdiff : (n - Z.of_nat k) mod 128 = 0) by (rewrite Zminus_mod, Heq, Z.sub_diag; done).
    rewrite Z.mod_small in Hdiff; lia.
  - apply list_lookup_singleton_Some in Hd as [Hk0 <-].
    assert (Z.of_nat k = n) as -> by lia. apply list_lookup_insert_eq. lia.
Qed.

Definition record_all (ds : list Z) (m : EndpointMetrics) : EndpointMetrics :=
  fold_left (λ m d, record_success d 0 m) ds m.

Lemma record_all_samples ds id url lag :
  Z.of_nat (length ds) < 2 ^ 64 →
  let m := record_all ds (metrics_new id url lag) in
  em_response_time_index m = Z.of_nat (length ds) ∧ em_request_count m = Z.of_nat (length ds) ∧
  samples_hold (em_response_time_index m) ds (em_response_times_ms m).
Proof.
  induction ds as [|d ds IH] using rev_ind; [done|]. rewrite length_app. simpl. intros Hlen.
  unfold record_all in *. rewrite fold_left_app. simpl.
  destruct IH as (Hi & Hr & Hs); [lia|]. cbv zeta in *.
  set (m := fold_left _ ds _) in *.
  destruct (record_success_fields d 0 m) as (-> & -> & -> & _).
  rewrite Hi, Hr. unfold wrap_u64. rewrite !Z.mod_small by lia.
  rewrite land_mask_mod by lia. split_and!; [lia..|].
  rewrite Hi in Hs. by apply samples_hold_snoc.
Qed.

(** ** Properties *)

(** the ring buffer keeps the most recent 128 response times: after any
    number of recorded requests, the slot that the average reads at offset [i]
    holds the duration of the [i]-th most recent one. *)
Theorem ring_buffer_recent ds id url lag i d :
  Z.of_nat (length ds) < 2 ^ 64 → 0 ≤ i < Z.min (Z.of_nat (length ds)) RESPONSE_TIME_WINDOW_SIZE →
  ds !! (length ds - 1 - Z.to_nat i)%nat = Some d →
  let m := record_all ds (metrics_new id url lag) in
  em_response_time_index m = Z.of_nat (length ds) ∧
  em_response_times_ms m !! ring_slot (em_response_time_index m) i = Some (wrap_u64 (as_millis d)).
Proof.
  intros Hlen Hi Hd m. destruct (record_all_samples ds id url lag Hlen) as (Hidx & _ & Hs).
  fold m in Hidx, Hs. split; [done|]. destruct Hs as (_ & _ & Hs). rewrite Hidx in *.
  unfold RESPONSE_TIME_WINDOW_SIZE in Hi. rewrite ring_slot_mod by lia.
  rewrite <- (Hs _ d Hd) by lia. do 2 f_equal. f_equal. lia.
Qed.

Lemma ring_buffer_recent_witness :
  em_response_times_ms (record_all (replicate 130 (from_millis 5)) (metrics_new "" "" 0)) !!
    ring_slot (em_response_time_index (record_all (replicate 130 (from_millis 5)) (metrics_new "" "" 0))) 127
  = Some (wrap_u64 (as_millis (from_millis 5))).
Proof.
  destruct (ring_buffer_recent (replicate 130 (from_millis 5)) "" "" 0 127 (from_millis 5)) as [_ H];
    [reflexivity|vm_compute; split; congruence|reflexivity|exact H].
Defined.

(** The exact thresholds, in integers. *)
Definition health_exact (errors requests : Z) : Z :=
  if requests <? 10 then 0
  else if 2 * requests <? 5 * errors then 2
  else if 3 * requests <? 20 * errors then 1 else 0.

Definition rate_of (errors requests : Z) : f64 :=
  if requests <? MIN_REQUESTS_FOR_HEALTH then f64_zero
  else f64_div (f64_of_Z errors) (f64_of_Z requests).

Definition thresholds_agree (n : Z) : bool :=
  forallb (λ r, forallb (λ e,
    health_of_rate (rate_of e r) DEGRADED_THRESHOLD UNHEALTHY_THRESHOLD =? health_exact e r)
    (seqZ 0 (r + 1))) (seqZ 0 n).

Lemma thresholds_agree_64 : thresholds_agree 65 = true.
Proof. vm_compute. reflexivity. Qed.

Lemma thresholds_agree_spec n e r :
  thresholds_agree n = true → 0 ≤ e ≤ r → r < n →
  health_of_rate (rate_of e r) DEGRADED_THRESHOLD UNHEALTHY_THRESHOLD = health_exact e r.
Proof.
  intros Hall He Hr. unfold thresholds_agree in Hall.
  rewrite forallb_forall in Hall. specialize (Hall r). rewrite forallb_forall in Hall.
  apply Z.eqb_eq, Hall; apply list_elem_of_In, elem_of_seqZ; lia.
Qed.

Lemma thresholds_exact e r :
  0 ≤ e ≤ r → r ≤ 64 →
  health_of_rate (rate_of e r) DEGRADED_THRESHOLD UNHEALTHY_THRESHOLD = health_exact e r.
Proof. intros He Hr. apply (thresholds_agree_spec 65); [apply thresholds_agree_64|done|lia]. Qed.

(** with the default thresholds and no open circuit breaker, the recorded
    health of an endpoint that has seen at most 64 requests is exact in spite
    of the floating-point division: unhealthy above 40% errors, degraded above
    15%, healthy otherwise and below ten requests. *)
Theorem health_thresholds lag m :
  em_circuit_breaker_until m = 0 →
  em_degraded_threshold m = DEGRADED_THRESHOLD → em_unhealthy_threshold m = UNHEALTHY_THRESHOLD →
  0 ≤ em_error_count m ≤ em_request_count m → em_request_count m ≤ 64 →
  em_health (update_health_status lag m) = health_exact (em_error_count m) (em_request_count m).
Proof.
  intros Hcb Hd Hu He Hr. unfold update_health_status. rewrite Hcb. simpl. rewrite Hd, Hu.
  by apply thresholds_exact.
Qed.

Lemma health_thresholds_witness :
  em_health (update_health_status 0 (set_counts 25 60 (metrics_new "" "" 0))) = 2.
Proof.
  apply (health_thresholds 0 (set_counts 25 60 (metrics_new "" "" 0)));
    solve [reflexivity | vm_compute; split; congruence | vm_compute; congruence].
Defined.

(** The circuit breaker never opens: its expiry is stored as the time elapsed
    since an instant in the future, which is 0 (unless the thread stalls for the
    whole backoff), so the endpoint reports no breaker, and the next recorded
    request recomputes its health from the error rate alone. *)
Theorem circuit_breaker_never_opens lag lag' now d m :
  0 ≤ lag < 10000 → 0 ≤ em_circuit_breaker_attempts m →
  let m' := activate_circuit_breaker lag m in
  health m' = Unhealthy ∧ circuit_breaker_until now lag' m' = None ∧
  em_health (record_success d lag' m') =
    health_of_rate (error_rate (record_success d lag' m')) (em_degraded_threshold m)
      (em_unhealthy_threshold m).
Proof.
  intros Hlag Hatt m'.
  assert (Hb : ∃ b, 10 ≤ b ∧ default 0 (CIRCUIT_BREAKER_BACKOFF !!
    Z.to_nat (Z.min (em_circuit_breaker_attempts m) 2)) = b).
  { assert (Hc : em_circuit_breaker_attempts m = 0 ∨ em_circuit_breaker_attempts m = 1 ∨
      2 ≤ em_circuit_breaker_attempts m) by lia.
    destruct Hc as [->|[->|Hc]]; [exists 10; split; [lia|done]|exists 30; split; [lia|done]|].
    rewrite Z.min_r by lia. exists 60; split; [lia|done]. }
  destruct Hb as (b & Hb & Hdef).
  assert (Hcb : em_circuit_breaker_until m' = 0).
  { unfold m', activate_circuit_breaker. simpl. rewrite Hdef. unfold saturating_sub. lia. }
  split_and!; [done|unfold circuit_breaker_until; by rewrite Hcb|].
  unfold record_success. cbv zeta. cbn [em_circuit_breaker_until set_counts set_sample].
  rewrite Hcb. cbn [Z.ltb Z.compare andb].
  match goal with |- em_health (update_health_status ?l ?x) = _ => set (m2 := x) end.
  assert (H0 : em_circuit_breaker_until m2 = 0) by done.
  destruct (update_health_fields lag' m2) as (_ & _ & Hr & He & _).
  unfold error_rate at 1. rewrite Hr, He. unfold update_health_status. rewrite H0. done.
Qed.

Lemma circuit_breaker_never_opens_witness :
  circuit_breaker_until 5 0 (activate_circuit_breaker 0 (metrics_new "" "" 0)) = None.
Proof.
  destruct (circuit_breaker_never_opens 0 0 5 0 (metrics_new "" "" 0)) as (_ & H & _);
    [lia|simpl; lia|exact H].
Defined.

(** The average is multiplied by the sampling step although it already is an
    average: 32 requests of 100 ms average 100 ms, one more and the average is
    400 ms, and the endpoint's score drops to a quarter. *)
Theorem average_inflated_by_sampling :
  average_response_time_ms (record_all (replicate 32 (from_millis 100)) (metrics_new "" "" 0)) = f64_of_Z 100 ∧
  average_response_time_ms (record_all (replicate 33 (from_millis 100)) (metrics_new "" "" 0)) = f64_of_Z 400 ∧
  load_balancing_score (record_all (replicate 33 (from_millis 100)) (metrics_new "" "" 0)) = f64_lit 25 10.
Proof. vm_compute. split_and!; reflexivity. Qed.
