(* ===== verification/Pool.v ===== *)
(** * Endpoint pools and load balancing

    [src/crate/utils/src/rpc/pool.rs].  A pool owns its endpoints' metrics; the
    [Arc]s that a choice hands out are references to the entry at the choice's
    index, since endpoints are only ever appended.  A draw of [fastrand::f64()]
    is the argument [draw]; the milliseconds between two clock reads are [lag],
    and [delay] is how much later the second clock read of the recovery scan
    is than its first. *)

From S2P Require Import Prelude Types Float Metrics.

(** Source: [crate/utils/src/rpc/pool.rs] lines 26-27, [CACHE_TTL_SECS]. *)
Definition CACHE_TTL_SECS : Z := 5.

(** Source: [crate/utils/src/rpc/pool.rs] lines 45-51, [SelectActor]. *)
Inductive SelectActor := Broadcast | Validator.
#[export] Instance SelectActor_eq_dec : EqDecision SelectActor.
Proof. solve_decision. Defined.

(** Source: [crate/utils/src/rpc/pool.rs] lines 470-491, [LoadBalancingStrategy]. *)
Inductive LoadBalancingStrategy :=
| WeightedLeastResponseTime
| StickySession (sticky_index : nat).

Section pool.
Context {P : Type}.

(** Source: [crate/utils/src/rpc/pool.rs] lines 180-214, [EndpointEntry]. *)
Record EndpointEntry := mkEntry { ee_provider : P; ee_metrics : EndpointMetrics }.

(** Source: [crate/utils/src/rpc/pool.rs] lines 165-178, [EndpointPool]. *)
Record EndpointPool := mkPool {
  ep_chain_id : ChainId;
  ep_endpoints : list EndpointEntry;
  ep_healthy_cache : list nat;
  ep_cache_timestamp : Z
}.

(** Source: [crate/utils/src/rpc/pool.rs] lines 496-530, [LoadBalancerChoice]. *)
Record LoadBalancerChoice := mkChoice { lc_provider : P; lc_index : nat }.

(** Source: [crate/utils/src/rpc/pool.rs] lines 217-225, [EndpointPool::new]. *)
Definition pool_new (chain_id : ChainId) : EndpointPool := mkPool chain_id [] [] 0.

(** Source: [crate/utils/src/rpc/pool.rs] lines 233-237, [get_endpoint_count]. *)
Definition get_endpoint_count (p : EndpointPool) : nat := length (ep_endpoints p).

(** Source: [crate/utils/src/rpc/pool.rs] lines 269-287, [update_healthy_cache]. *)
Definition healthy_indices (es : list EndpointEntry) : list nat :=
  omap (λ '(idx, e), if is_available (ee_metrics e) then Some idx else None) (zip (seq 0 (length es)) es).

Definition update_healthy_cache (lag : Z) (p : EndpointPool) : EndpointPool :=
  mkPool (ep_chain_id p) (ep_endpoints p) (healthy_indices (ep_endpoints p)) (lag / 1000).

(** Source: [crate/utils/src/rpc/pool.rs] lines 239-252, [add_endpoint]. *)
Definition add_endpoint (provider : P) (metrics : EndpointMetrics) (lag : Z) (p : EndpointPool) : EndpointPool :=
  update_healthy_cache lag
    (mkPool (ep_chain_id p) (ep_endpoints p ++ [mkEntry provider metrics]) (ep_healthy_cache p)
       (ep_cache_timestamp p)).

(** Source: [crate/utils/src/rpc/pool.rs] lines 254-267, [healthy_endpoint_count]. *)
Definition healthy_endpoint_count (lag : Z) (p : EndpointPool) : nat * EndpointPool :=
  let now := lag / 1000 in
  if saturating_sub now (ep_cache_timestamp p) <? CACHE_TTL_SECS
  then (length (ep_healthy_cache p), p)
  else let p := update_healthy_cache lag p in (length (ep_healthy_cache p), p).

(** [entry] at an index, as a choice. *)
Definition choice_at (p : EndpointPool) (idx : nat) : option LoadBalancerChoice :=
  (λ e, mkChoice (ee_provider e) idx) <$> ep_endpoints p !! idx.

(** Source: [crate/utils/src/rpc/pool.rs] lines 410-431, [select_circuit_breaker_recovery]. *)
Fixpoint expired_breaker (now delay lag : Z) (idx : nat) (es : list EndpointEntry) : option nat :=
  match es with
  | [] => None
  | e :: es' =>
      match circuit_breaker_until (now + delay) lag (ee_metrics e) with
      | Some expiry => if expiry <? now then Some idx else expired_breaker now delay lag (S idx) es'
      | None => expired_breaker now delay lag (S idx) es'
      end
  end.

Definition select_circuit_breaker_recovery (now delay lag : Z) (p : EndpointPool) : option LoadBalancerChoice :=
  match expired_breaker now delay lag 0 (ep_endpoints p) with
  | Some idx => choice_at p idx
  | None => choice_at p 0
  end.

(** Source: [crate/utils/src/rpc/pool.rs] lines 325-335, [select_by_weighted_score (scores)]. *)
Definition scored_endpoints (es : list EndpointEntry) : list (nat * f64) :=
  omap (λ '(idx, e), let score := load_balancing_score (ee_metrics e) in
                     if f64_gt score f64_zero then Some (idx, score) else None)
    (zip (seq 0 (length es)) es).

Definition total_score (scored : list (nat * f64)) : f64 :=
  fold_left (λ total '(_, score), f64_add total score) scored f64_zero.

(** Source: [crate/utils/src/rpc/pool.rs] lines 343-359, [select_by_weighted_score (roulette wheel)].
    The loop: the index it stopped at, if it did, and the cumulative score. *)
Fixpoint roulette (threshold cumulative : f64) (scored : list (nat * f64)) : option nat * f64 :=
  match scored with
  | [] => (None, cumulative)
  | (idx, score) :: rest =>
      let cumulative := f64_add cumulative score in
      if f64_ge cumulative threshold then (Some idx, cumulative)
      else roulette threshold cumulative rest
  end.

Definition roulette_index (threshold : f64) (scored : list (nat * f64)) : option nat :=
  let '(found, cumulative) := roulette threshold f64_zero scored in
  let selected := default O found in
  if f64_lt cumulative threshold then fst <$> list.last scored else Some selected.

(** Source: [crate/utils/src/rpc/pool.rs] lines 318-369, [select_by_weighted_score]. *)
Definition select_by_weighted_score (now delay lag : Z) (draw : f64) (p : EndpointPool) :
    option LoadBalancerChoice :=
  match ep_endpoints p with
  | [] => None
  | es =>
      match scored_endpoints es with
      | [] => select_circuit_breaker_recovery now delay lag p
      | scored =>
          idx ← roulette_index (f64_mul draw (total_score scored)) scored;
          choice_at p idx
      end
  end.

(** Source: [crate/utils/src/rpc/pool.rs] lines 380-402, [select_by_sticky_session]. *)
Definition select_by_sticky_session (now delay lag : Z) (draw : f64) (sticky_index : nat)
    (p : EndpointPool) : option LoadBalancerChoice :=
  match ep_endpoints p with
  | [] => None
  | es =>
      match es !! sticky_index with
      | Some e => if is_available (ee_metrics e) then Some (mkChoice (ee_provider e) sticky_index)
                  else select_by_weighted_score now delay lag draw p
      | None => select_by_weighted_score now delay lag draw p
      end
  end.

(** Source: [crate/utils/src/rpc/pool.rs] lines 297-309, [select_endpoint]. *)
Definition select_endpoint (now delay lag : Z) (draw : f64) (strategy : LoadBalancingStrategy)
    (p : EndpointPool) : option LoadBalancerChoice :=
  match strategy with
  | WeightedLeastResponseTime => select_by_weighted_score now delay lag draw p
  | StickySession i => select_by_sticky_session now delay lag draw i p
  end.

(** Source: [crate/utils/src/rpc/pool.rs] lines 438-446, [endpoints_metrics]. *)
Definition endpoints_metrics (p : EndpointPool) : list EndpointMetricsSnapshot :=
  (λ e, snapshot (ee_metrics e)) <$> ep_endpoints p.

(** Source: [crate/utils/src/rpc/pool.rs] lines 448-456, [find_endpoint]. *)
Definition find_endpoint (endpoint_id : string) (p : EndpointPool) : option EndpointMetrics :=
  ee_metrics <$> find (λ e, bool_decide (em_id (ee_metrics e) = endpoint_id)) (ep_endpoints p).

(** Source: [crate/utils/src/rpc/pool.rs] lines 461-464, [best_endpoint_index]. *)
Definition best_endpoint_index (now delay lag : Z) (draw : f64) (p : EndpointPool) : option nat :=
  lc_index <$> select_by_weighted_score now delay lag draw p.

(** [metrics.record_success(..)] through a reference to the entry at [idx]. *)
Definition update_metrics (idx : nat) (f : EndpointMetrics → EndpointMetrics) (p : EndpointPool) : EndpointPool :=
  mkPool (ep_chain_id p) (alter (λ e, mkEntry (ee_provider e) (f (ee_metrics e))) idx (ep_endpoints p))
    (ep_healthy_cache p) (ep_cache_timestamp p).

(** ** Lemmas *)

Lemma zip_seq_elem (es : list EndpointEntry) idx e :
  (idx, e) ∈ zip (seq 0 (length es)) es → es !! idx = Some e.
Proof.
  intros [i Hi]%list_elem_of_lookup. rewrite lookup_zip_with in Hi.
  destruct (seq 0 (length es) !! i) as [j|] eqn:Hj; simpl in Hi; [|done].
  destruct (es !! i) as [e'|] eqn:He; simpl in Hi; [|done].
  apply lookup_seq in Hj as [-> _]. by injection Hi as <- <-.
Qed.

Lemma scored_elem es idx score :
  (idx, score) ∈ scored_endpoints es →
  ∃ e, es !! idx = Some e ∧ score = load_balancing_score (ee_metrics e) ∧ f64_gt score f64_zero = true.
Proof.
  intros ([i e] & Hin & Hs)%list_elem_of_omap. apply zip_seq_elem in Hin.
  cbv beta zeta iota in Hs.
  destruct (f64_gt (load_balancing_score (ee_metrics e)) f64_zero) eqn:Hgt; [|discriminate].
  injection Hs as -> <-. by exists e.
Qed.

(** A positive score means available. *)
Lemma score_available m : f64_gt (load_balancing_score m) f64_zero = true → is_available m = true.
Proof.
  unfold load_balancing_score, is_available. destruct (health m); [intros _; reflexivity|intros _; reflexivity|].
  intros H. vm_compute in H. discriminate.
Qed.

Lemma choice_at_Some p idx e :
  ep_endpoints p !! idx = Some e → choice_at p idx = Some (mkChoice (ee_provider e) idx).
Proof. intros He. unfold choice_at. by rewrite He. Qed.

Lemma choice_at_index p idx c : choice_at p idx = Some c → ∃ e, ep_endpoints p !! lc_index c = Some e.
Proof.
  unfold choice_at. destruct (ep_endpoints p !! idx) as [e|] eqn:He; [|done].
  intros [= <-]. by exists e.
Qed.

Lemma weighted_lookup now delay lag draw p c :
  select_by_weighted_score now delay lag draw p = Some c → ∃ e, ep_endpoints p !! lc_index c = Some e.
Proof.
  unfold select_by_weighted_score. destruct (ep_endpoints p) as [|e0 es] eqn:Hes; [done|].
  rewrite <- Hes. destruct (scored_endpoints _) as [|x scored].
  - unfold select_circuit_breaker_recovery. destruct (expired_breaker _ _ _ _ _); apply choice_at_index.
  - destruct (roulette_index _ _); simpl; [apply choice_at_index|done].
Qed.

(** The index of a choice is an index of the pool. *)
Lemma select_endpoint_lookup now delay lag draw strategy p c :
  select_endpoint now delay lag draw strategy p = Some c → ep_endpoints p !! lc_index c ≠ None.
Proof.
  assert (Hw : select_by_weighted_score now delay lag draw p = Some c → ep_endpoints p !! lc_index c ≠ None).
  { intros [e He]%weighted_lookup. by rewrite He. }
  destruct strategy as [|i]; simpl; [done|]. unfold select_by_sticky_session.
  destruct (ep_endpoints p) as [|e0 es] eqn:Hes; [done|]. rewrite <- Hes in *.
  destruct (ep_endpoints p !! i) as [e|] eqn:He; [|done].
  destruct (is_available (ee_metrics e)); [|done]. intros [= <-]. simpl. by rewrite He.
Qed.

(** ** Properties *)

Lemma expired_breaker_None now delay lag idx es :
  0 ≤ delay → expired_breaker now delay lag idx es = None.
Proof.
  intros Hd. revert idx. induction es as [|e es IH]; intros idx; [done|]. cbn [expired_breaker].
  destruct (circuit_breaker_until (now + delay) lag (ee_metrics e)) as [expiry|] eqn:Hc; [|apply IH].
  assert (now < expiry).
  { unfold circuit_breaker_until in Hc. destruct (_ =? 0); [done|].
    destruct (Z.ltb_spec lag (em_circuit_breaker_until (ee_metrics e))); [|done]. injection Hc as <-. lia. }
  destruct (Z.ltb_spec expiry now); [lia|apply IH].
Qed.

(** Recovery never finds an expired breaker: an expiry is reported only while it
    is in the future. *)
Theorem recovery_is_first now delay lag p :
  0 ≤ delay → select_circuit_breaker_recovery now delay lag p = choice_at p 0.
Proof. intros Hd. unfold select_circuit_breaker_recovery. by rewrite expired_breaker_None. Qed.

(** The cache of healthy endpoints never expires: its age is the time between two
    adjacent clock reads. *)
Theorem healthy_cache_never_expires lag p :
  0 ≤ lag < 5000 → 0 ≤ ep_cache_timestamp p →
  healthy_endpoint_count lag p = (length (ep_healthy_cache p), p).
Proof.
  intros Hl Ht. unfold healthy_endpoint_count, CACHE_TTL_SECS, saturating_sub.
  assert (lag / 1000 < 5) by (apply Z.div_lt_upper_bound; lia).
  by destruct (Z.ltb_spec (Z.max 0 (lag / 1000 - ep_cache_timestamp p)) 5); [|lia].
Qed.

Lemma choice_at_lookup p idx :
  (idx < length (ep_endpoints p))%nat →
  ∃ e, ep_endpoints p !! idx = Some e ∧ choice_at p idx = Some (mkChoice (ee_provider e) idx).
Proof.
  intros Hi. destruct (lookup_lt_is_Some_2 _ _ Hi) as [e He]. exists e.
  split; [done|by apply choice_at_Some].
Qed.

(** The sum of the first [S k] scores, added in order. *)
Definition score_sum (k : nat) (scored : list (nat * f64)) : f64 := total_score (take (S k) scored).

(** The entry at which the wheel stops for a threshold: the first whose
    cumulative score reaches it; the last, if rounding keeps the total below it;
    index 0, if the two do not compare (a NaN). *)
Inductive wheel (threshold : f64) (scored : list (nat * f64)) : nat → Prop :=
| wheel_stops k idx score :
    scored !! k = Some (idx, score) → f64_ge (score_sum k scored) threshold = true →
    (∀ j, (j < k)%nat → f64_ge (score_sum j scored) threshold = false) → wheel threshold scored idx
| wheel_last idx score :
    list.last scored = Some (idx, score) → f64_lt (total_score scored) threshold = true →
    (∀ j, (j < length scored)%nat → f64_ge (score_sum j scored) threshold = false) → wheel threshold scored idx
| wheel_incomparable :
    SFcompare (total_score scored) threshold = None →
    (∀ j, (j < length scored)%nat → f64_ge (score_sum j scored) threshold = false) → wheel threshold scored 0.

Definition sum_from (c : f64) (scored : list (nat * f64)) : f64 :=
  fold_left (λ total '(_, score), f64_add total score) scored c.

Lemma roulette_sums threshold c scored :
  match roulette threshold c scored with
  | (Some idx, cum) => ∃ k score, scored !! k = Some (idx, score) ∧ cum = sum_from c (take (S k) scored) ∧
      f64_ge cum threshold = true ∧
      ∀ j, (j < k)%nat → f64_ge (sum_from c (take (S j) scored)) threshold = false
  | (None, cum) => cum = sum_from c scored ∧
      ∀ j, (j < length scored)%nat → f64_ge (sum_from c (take (S j) scored)) threshold = false
  end.
Proof.
  revert c; induction scored as [|[i s] scored IH]; intros c; cbn [roulette]; cbv zeta; [split; [done|cbn; lia]|].
  destruct (f64_ge (f64_add c s) threshold) eqn:Hge.
  - exists O, s. split_and!; [done|done|done|lia].
  - specialize (IH (f64_add c s)). destruct (roulette threshold (f64_add c s) scored) as [[idx|] cum].
    + destruct IH as (k & score & Hk & -> & Hc & Hj). exists (S k), score. split_and!; [done|done|done|].
      intros [|j] Hlt; [exact Hge|]. apply Hj. lia.
    + destruct IH as [-> Hj]. split; [done|]. intros [|j] Hlt; [exact Hge|]. apply Hj. cbn in Hlt. lia.
Qed.

Lemma f64_ge_not_lt x y : f64_ge x y = true → f64_lt x y = false.
Proof. unfold f64_ge, f64_lt. by destruct (SFcompare x y) as [[]|]. Qed.

Lemma roulette_index_wheel threshold scored :
  scored ≠ [] → ∃ idx, roulette_index threshold scored = Some idx ∧ wheel threshold scored idx.
Proof.
  intros Hne. unfold roulette_index. pose proof (roulette_sums threshold f64_zero scored) as Hr.
  destruct (roulette threshold f64_zero scored) as [[idx|] cum].
  - destruct Hr as (k & score & Hk & Hc & Hge & Hj). rewrite (f64_ge_not_lt _ _ Hge). exists idx. split; [done|].
    eapply wheel_stops; [exact Hk|by rewrite Hc in Hge|exact Hj].
  - destruct Hr as [-> Hj]. change (sum_from f64_zero scored) with (total_score scored).
    destruct (f64_lt (total_score scored) threshold) eqn:Hlt.
    + destruct (list.last scored) as [[idx score]|] eqn:Hl; [|by apply list.last_None in Hl].
      exists idx. split; [done|]. by eapply wheel_last.
    + exists O. split; [done|]. apply wheel_incomparable; [|exact Hj].
      apply f64_lt_ge_nan; [|done]. specialize (Hj (pred (length scored))). unfold score_sum in Hj.
      assert (0 < length scored)%nat by (destruct scored; [done|cbn; lia]).
      rewrite take_ge in Hj by lia. apply Hj. lia.
Qed.

(** The endpoint that a sticky session gets. *)
Definition sticky_hit (strategy : LoadBalancingStrategy) (p : EndpointPool) : option nat :=
  match strategy with
  | WeightedLeastResponseTime => None
  | StickySession i =>
      e ← ep_endpoints p !! i;
      if is_available (ee_metrics e) then Some i else None
  end.

Lemma weighted_exact now delay lag draw p :
  0 ≤ delay → ep_endpoints p ≠ [] →
  let scored := scored_endpoints (ep_endpoints p) in
  ∃ idx e, ep_endpoints p !! idx = Some e ∧
    select_by_weighted_score now delay lag draw p = Some (mkChoice (ee_provider e) idx) ∧
    (scored = [] → idx = O) ∧ (scored ≠ [] → wheel (f64_mul draw (total_score scored)) scored idx).
Proof.
  intros Hd Hne scored. unfold select_by_weighted_score. subst scored.
  destruct (ep_endpoints p) as [|e0 es] eqn:Hes; [done|]. clear Hne. rewrite <- Hes.
  assert (H0' : (0 < length (ep_endpoints p))%nat) by (rewrite Hes; simpl; lia).
  destruct (scored_endpoints (ep_endpoints p)) as [|x scored] eqn:Hs.
  - rewrite recovery_is_first by done. destruct (choice_at_lookup p 0 H0') as (e & He & Hc). exists O, e. by split_and!.
  - assert (Hx : x :: scored ≠ []) by done.
    destruct (roulette_index_wheel (f64_mul draw (total_score (x :: scored))) _ Hx) as (idx & Hr & Hw).
    rewrite Hr. simpl. assert (Hi : (idx < length (ep_endpoints p))%nat).
    { assert (Hin : ∀ i s, (i, s) ∈ x :: scored → (i < length (ep_endpoints p))%nat).
      { intros i s Hin. rewrite <- Hs in Hin. apply scored_elem in Hin as (e & He & _). by eapply lookup_lt_Some. }
      destruct Hw as [k i s Hk _ _|i s Hl _ _|_ _]; [|by apply last_Some_elem_of in Hl; eapply Hin|done].
      eapply Hin, list_elem_of_lookup_2, Hk. }
    destruct (choice_at_lookup p idx Hi) as (e & He & Hc). exists idx, e. by split_and!.
Qed.

(** C38: a pool with endpoints always yields one of them, at its own index.  A
    sticky session gets exactly the endpoint it asks for while that one is
    available.  Otherwise the choice is the roulette wheel's: over the endpoints
    of positive score, in order, the first whose cumulative score reaches the
    draw times the total (with the two roundings of [wheel]), which is an
    available endpoint unless the wheel's sums are NaN; and when no endpoint has
    a positive score it is the first endpoint, available or not. *)
Theorem select_endpoint_sound now delay lag draw strategy p :
  0 ≤ delay → ep_endpoints p ≠ [] →
  let scored := scored_endpoints (ep_endpoints p) in
  let threshold := f64_mul draw (total_score scored) in
  ∃ idx e, ep_endpoints p !! idx = Some e ∧
    select_endpoint now delay lag draw strategy p = Some (mkChoice (ee_provider e) idx) ∧
    match sticky_hit strategy p with
    | Some i => idx = i ∧ is_available (ee_metrics e) = true
    | None =>
        (scored = [] → idx = O) ∧
        (scored ≠ [] → wheel threshold scored idx ∧
           (SFcompare (total_score scored) threshold ≠ None → is_available (ee_metrics e) = true))
    end.
Proof.
  intros Hd Hne scored threshold.
  destruct (weighted_exact now delay lag draw p Hd Hne) as (idx & e & He & Hw & H0' & Hwheel).
  fold scored threshold in H0', Hwheel.
  assert (Hw' : (scored = [] → idx = O) ∧ (scored ≠ [] → wheel threshold scored idx ∧
      (SFcompare (total_score scored) threshold ≠ None → is_available (ee_metrics e) = true))).
  { split; [done|]. intros Hx. specialize (Hwheel Hx). split; [done|]. intros Hcmp.
    assert (Hin : ∀ i s, (i, s) ∈ scored → i = idx → is_available (ee_metrics e) = true).
    { intros i s Hin ->. apply scored_elem in Hin as (e' & He' & -> & Hgt).
      rewrite He in He'. injection He' as <-. by apply score_available. }
    destruct Hwheel as [k i s Hk _ _|i s Hl _ _|Hn _]; [|by eapply Hin; [apply last_Some_elem_of|]|done].
    eapply Hin; [by eapply list_elem_of_lookup_2|done]. }
  destruct strategy as [|i]; cbn [sticky_hit select_endpoint].
  { by exists idx, e. }
  unfold select_by_sticky_session. destruct (ep_endpoints p) as [|e0 es] eqn:Hes; [done|]. rewrite <- Hes in *.
  destruct (ep_endpoints p !! i) as [ei|] eqn:Hi; cbn [mbind option_bind]; [|by exists idx, e].
  destruct (is_available (ee_metrics ei)) eqn:Hav; [|by exists idx, e].
  exists i, ei. by split_and!.
Qed.

End pool.
Arguments EndpointEntry P : clear implicits.
Arguments EndpointPool P : clear implicits.
Arguments LoadBalancerChoice P : clear implicits.

(** Two healthy endpoints of equal weight, and a sticky session on neither. *)
Definition two_endpoints : EndpointPool unit :=
  add_endpoint tt (metrics_new "b" "v" 0) 0 (add_endpoint tt (metrics_new "a" "u" 0) 0 (pool_new (mkChainId 1))).

Lemma select_endpoint_sound_witness :
  ∃ idx e, ep_endpoints two_endpoints !! idx = Some e ∧
    select_endpoint 0 0 0 (f64_lit 3 4) (StickySession 7) two_endpoints = Some (mkChoice (ee_provider e) idx) ∧
    let scored := scored_endpoints (ep_endpoints two_endpoints) in
    wheel (f64_mul (f64_lit 3 4) (total_score scored)) scored idx.
Proof.
  destruct (select_endpoint_sound 0 0 0 (f64_lit 3 4) (StickySession 7) two_endpoints) as (idx & e & H1 & H2 & H3);
    [lia|discriminate|].
  exists idx, e. split; [exact H1|]. split; [exact H2|]. cbn [sticky_hit] in H3.
  destruct H3 as [_ H3]. apply H3. vm_compute. discriminate.
Defined.

(** A draw in the upper half of the wheel goes to the second. *)
Example two_endpoints_draw :
  lc_index <$> select_endpoint 0 0 0 (f64_lit 3 4) WeightedLeastResponseTime two_endpoints = Some 1%nat ∧
  lc_index <$> select_endpoint 0 0 0 (f64_lit 1 4) WeightedLeastResponseTime two_endpoints = Some 0%nat.
Proof. vm_compute. split; reflexivity. Qed.
