(* ===== verification/RpcClient.v ===== *)
(** * The RPC client

    [src/crate/utils/src/rpc/client.rs] and [mod.rs] over the pools of
    [Pool.v].  A provider (alloy) is a parameter: an operation on the network
    and the clock.  The semaphores, the pools and the statistics cache are the
    client's shared state, seen by one caller at a time; what the other tasks
    that hold permits do is a list of choices. *)

From S2P Require Import Prelude Types Text Float Metrics Pool.

(** ** Errors *)

(** Source: [crate/utils/src/rpc/mod.rs] lines 25-65, [LobbyRpcError]. *)
Inductive LobbyRpcError :=
| PermitAcquisitionTimeout (timeout : Z)
| SemaphoreClosed
| NoEndpointsAvailable (chain_id : ChainId)
| AllEndpointsUnhealthy (chain_id : ChainId)
| TransportError (m : string)
| ProviderConstructionError (m : string)
| InvalidUrl (m : string)
| RpcBroadcastError (m : string)
| NonceFetchError (m : string)
| ReceiptFetchFailed (m : string)
| BlockNotFound (m : string)
| EndpointPoolCorrupted (m : string).
#[export] Instance LobbyRpcError_eq_dec : EqDecision LobbyRpcError.
Proof. solve_decision. Defined.

(** Source: [crate/utils/src/rpc/mod.rs] lines 25-65, [Display for LobbyRpcError]. *)
Definition LobbyRpcError_display (e : LobbyRpcError) : string :=
  match e with
  | PermitAcquisitionTimeout t => "Failed to acquire RPC permit within " +:+ duration_debug t
  | SemaphoreClosed => "Semaphore closed"
  | NoEndpointsAvailable c => "No RPC endpoints available for chain " +:+ ChainId_display c
  | AllEndpointsUnhealthy c => "All RPC endpoints unhealthy for chain " +:+ ChainId_display c
  | TransportError m => "Transport error: " +:+ m
  | ProviderConstructionError m => "Provider construction failed: " +:+ m
  | InvalidUrl m => "Invalid URL: " +:+ m
  | RpcBroadcastError m => "Rpc broadcast failed error: " +:+ m
  | NonceFetchError m => "Nonce fetch failed : " +:+ m
  | ReceiptFetchFailed m => "Transaction receipt fetching failed for tx_hash: " +:+ m
  | BlockNotFound m => "Block not found for transaction: " +:+ m
  | EndpointPoolCorrupted m => "Endpoint pool corrupted: " +:+ m
  end.

(** [#[derive(Debug)]]. *)
Definition debug_tuple (name m : string) : string := name +:+ "(" +:+ str_debug m +:+ ")".
Definition debug_chain (c : ChainId) : string := "ChainId(" +:+ pretty (chain_u256 c) +:+ ")".

Definition LobbyRpcError_debug (e : LobbyRpcError) : string :=
  match e with
  | PermitAcquisitionTimeout t => "PermitAcquisitionTimeout { timeout: " +:+ duration_debug t +:+ " }"
  | SemaphoreClosed => "SemaphoreClosed"
  | NoEndpointsAvailable c => "NoEndpointsAvailable { chain_id: " +:+ debug_chain c +:+ " }"
  | AllEndpointsUnhealthy c => "AllEndpointsUnhealthy { chain_id: " +:+ debug_chain c +:+ " }"
  | TransportError m => debug_tuple "TransportError" m
  | ProviderConstructionError m => debug_tuple "ProviderConstructionError" m
  | InvalidUrl m => debug_tuple "InvalidUrl" m
  | RpcBroadcastError m => debug_tuple "RpcBroadcastError" m
  | NonceFetchError m => debug_tuple "NonceFetchError" m
  | ReceiptFetchFailed m => debug_tuple "ReceiptFetchFailed" m
  | BlockNotFound m => debug_tuple "BlockNotFound" m
  | EndpointPoolCorrupted m => debug_tuple "EndpointPoolCorrupted" m
  end.

(** ** The client's world *)

(** Source: [crate/utils/src/rpc/client.rs] lines 35-46, [EndpointStats]. *)
Record EndpointStats := mkEndpointStats {
  st_id : string;
  st_url : string;
  st_health : EndpointHealth;
  st_avg_response_time_ms : f64;
  st_error_rate : f64;
  st_score : f64;
  st_request_count : Z;
  st_error_count : Z
}.

(** Source: [crate/utils/src/rpc/client.rs] lines 281-295, [get_unary_endpoint_stats (conversion)]. *)
Definition stats_of_snapshot (s : EndpointMetricsSnapshot) : EndpointStats :=
  mkEndpointStats (sn_id s) (sn_url s) (sn_health s) (sn_avg_response_time_ms s) (sn_error_rate s) (sn_score s)
    (sn_request_count s) (sn_error_count s).

Section client.
Context {P N : Type}.

(** Source: [crate/utils/src/rpc/client.rs] lines 72-85, [RpcClient]. *)
Record RpcWorld := mkRpcWorld {
  rw_broadcast : gmap ChainId (EndpointPool P);
  rw_validator : gmap ChainId (EndpointPool P);
  rw_broadcast_permits : Z;
  rw_validator_permits : Z;
  rw_stats_cache : gmap ChainId (list EndpointStats * Z);
  rw_clock : Z;                 (* nanoseconds *)
  rw_waits : list bool;         (* does a holder release its permit in time? *)
  rw_draws : list f64;          (* the draws of fastrand *)
  rw_net : N
}.

Definition RPC_BROADCAST_CONCURRENCY : Z := 32.
Definition RPC_VALIDATOR_CONCURRENCY : Z := 32.

(** Source: [crate/utils/src/rpc/pool.rs] lines 69-78, [RpcProviderStack::new]. *)
Definition stack_new (clock : Z) (waits : list bool) (draws : list f64) (net : N) : RpcWorld :=
  mkRpcWorld ∅ ∅ RPC_BROADCAST_CONCURRENCY RPC_VALIDATOR_CONCURRENCY ∅ clock waits draws net.

Definition set_pools (b v : gmap ChainId (EndpointPool P)) (w : RpcWorld) : RpcWorld :=
  mkRpcWorld b v (rw_broadcast_permits w) (rw_validator_permits w) (rw_stats_cache w) (rw_clock w)
    (rw_waits w) (rw_draws w) (rw_net w).
Definition set_permits (b v : Z) (w : RpcWorld) : RpcWorld :=
  mkRpcWorld (rw_broadcast w) (rw_validator w) b v (rw_stats_cache w) (rw_clock w)
    (rw_waits w) (rw_draws w) (rw_net w).
Definition set_stats (c : gmap ChainId (list EndpointStats * Z)) (w : RpcWorld) : RpcWorld :=
  mkRpcWorld (rw_broadcast w) (rw_validator w) (rw_broadcast_permits w) (rw_validator_permits w) c
    (rw_clock w) (rw_waits w) (rw_draws w) (rw_net w).
Definition set_env (clock : Z) (waits : list bool) (draws : list f64) (net : N) (w : RpcWorld) : RpcWorld :=
  mkRpcWorld (rw_broadcast w) (rw_validator w) (rw_broadcast_permits w) (rw_validator_permits w)
    (rw_stats_cache w) clock waits draws net.

Definition permits (actor : SelectActor) (w : RpcWorld) : Z :=
  match actor with Broadcast => rw_broadcast_permits w | Validator => rw_validator_permits w end.

Definition add_permits (actor : SelectActor) (n : Z) (w : RpcWorld) : RpcWorld :=
  match actor with
  | Broadcast => set_permits (rw_broadcast_permits w + n) (rw_validator_permits w) w
  | Validator => set_permits (rw_broadcast_permits w) (rw_validator_permits w + n) w
  end.

(** Source: [crate/utils/src/rpc/pool.rs] lines 111-124, [get_pool]. *)
Definition get_pool (actor : SelectActor) (chain_id : ChainId) (w : RpcWorld) : option (EndpointPool P) :=
  match actor with
  | Broadcast => rw_broadcast w !! chain_id
  | Validator => rw_validator w !! chain_id
  end.

Definition alter_pool (actor : SelectActor) (chain_id : ChainId) (f : EndpointPool P → EndpointPool P)
    (w : RpcWorld) : RpcWorld :=
  match actor with
  | Broadcast => set_pools (alter f chain_id (rw_broadcast w)) (rw_validator w) w
  | Validator => set_pools (rw_broadcast w) (alter f chain_id (rw_validator w)) w
  end.

(** Source: [crate/utils/src/rpc/pool.rs] lines 126-135, [register_chain_pool]. *)
Definition register_chain_pool (chain_id : ChainId) (bp vp : EndpointPool P) (w : RpcWorld) : RpcWorld :=
  set_pools (<[chain_id := bp]> (rw_broadcast w)) (<[chain_id := vp]> (rw_validator w)) w.

(** Source: [crate/utils/src/rpc/pool.rs] lines 137-146, [get_registred_chains]. *)
Definition get_registred_chains (w : RpcWorld) : list ChainId := (map_to_list (rw_broadcast w)).*1.

(** Source: [crate/utils/src/rpc/pool.rs] lines 80-110, [get_semaphore].
    A permit if one is free; otherwise the caller waits until a holder returns
    its permit or the timeout is over.  Nothing closes the semaphores. *)
Definition get_semaphore (timeout : Z) (actor : SelectActor) : Comp RpcWorld (result unit LobbyRpcError) :=
  λ w,
    if 0 <? permits actor w then (Ok tt, add_permits actor (-1) w)
    else match rw_waits w with
         | true :: waits => (Ok tt, set_env (rw_clock w) waits (rw_draws w) (rw_net w) w)
         | [] | false :: _ =>
             (Err (PermitAcquisitionTimeout timeout),
              set_env (rw_clock w + timeout) (tail (rw_waits w)) (rw_draws w) (rw_net w) w)
         end.

(** [drop(permit)]. *)
Definition drop_permit (actor : SelectActor) : Comp RpcWorld unit := λ w, (tt, add_permits actor 1 w).

(** One draw of [fastrand::f64()]; a selection that needs none leaves it
    unused. *)
Definition next_draw : Comp RpcWorld f64 := λ w,
  match rw_draws w with
  | [] => (f64_zero, w)
  | d :: ds => (d, set_env (rw_clock w) (rw_waits w) ds (rw_net w) w)
  end.

(** Milliseconds between two adjacent clock reads, and within the recovery
    scan. *)
Context (lag delay : Z).

Definition now_ms (w : RpcWorld) : Z := rw_clock w / 1000000.

(** Source: [crate/utils/src/rpc/client.rs] lines 51-67, [UnaryContext].
    The metrics are those of the endpoint at the index. *)
Record UnaryContext := mkContext {
  uc_provider : P;
  uc_actor : SelectActor;
  uc_chain_id : ChainId;
  uc_index : nat;
  uc_endpoint_id : string
}.

(** [metrics().id()] of the chosen endpoint. *)
Definition endpoint_id_at (p : EndpointPool P) (idx : nat) : string :=
  default "" ((λ e, em_id (ee_metrics e)) <$> ep_endpoints p !! idx).

(** Source: [crate/utils/src/rpc/client.rs] lines 128-180, [acquire_unary_context].
    On the two error paths after the permit was acquired it is dropped. *)
Definition acquire_unary_context (actor : SelectActor) (chain_id : ChainId) (sticky_index : option nat)
    (timeout : Z) : Comp RpcWorld (result UnaryContext LobbyRpcError) :=
  _ <-? get_semaphore timeout actor ;;
  λ w,
    match get_pool actor chain_id w with
    | None => (Err (NoEndpointsAvailable chain_id), (drop_permit actor w).2)
    | Some pool =>
        let strategy := match sticky_index with
                        | Some index => StickySession index
                        | None => WeightedLeastResponseTime
                        end in
        let '(draw, w) := next_draw w in
        match select_endpoint (now_ms w) delay lag draw strategy pool with
        | None => (Err (AllEndpointsUnhealthy chain_id), (drop_permit actor w).2)
        | Some choice =>
            (Ok (mkContext (lc_provider choice) actor chain_id (lc_index choice)
                   (endpoint_id_at pool (lc_index choice))), w)
        end
    end.

(** Source: [crate/utils/src/rpc/client.rs] lines 390-400, [UnaryContext::record_success]. *)
Definition ctx_record_success (ctx : UnaryContext) (duration : Z) : Comp RpcWorld unit := λ w,
  (tt, alter_pool (uc_actor ctx) (uc_chain_id ctx)
         (update_metrics (uc_index ctx) (record_success duration lag)) w).
Definition ctx_record_failure (ctx : UnaryContext) : Comp RpcWorld unit := λ w,
  (tt, alter_pool (uc_actor ctx) (uc_chain_id ctx)
         (update_metrics (uc_index ctx) (record_failure lag)) w).

(** A provider call acts on the network and the clock. *)
Definition run_operation {R} (op : Comp (N * Z) (result R string)) : Comp RpcWorld (result R string) := λ w,
  let '(r, (net, clock)) := op (rw_net w, rw_clock w) in
  (r, set_env clock (rw_waits w) (rw_draws w) net w).

(** Source: [crate/utils/src/rpc/client.rs] lines 206-243, [execute_unary]. *)
Definition execute_unary {R} (actor : SelectActor) (chain_id : ChainId) (sticky_index : option nat)
    (timeout : Z) (operation : P → Comp (N * Z) (result R string)) :
    Comp RpcWorld (result R LobbyRpcError) := λ w0,
  let start := rw_clock w0 in
  let '(acq, w) := acquire_unary_context actor chain_id sticky_index timeout w0 in
  match acq with
  | Ok ctx =>
      let '(res, w) := run_operation (operation (uc_provider ctx)) w in
      match res with
      | Ok result =>
          let '(_, w) := ctx_record_success ctx (rw_clock w - start) w in
          let '(_, w) := drop_permit actor w in (Ok result, w)
      | Err e =>
          let '(_, w) := ctx_record_failure ctx w in
          let '(_, w) := drop_permit actor w in (Err (TransportError e), w)
      end
  | Err e => (Err e, w)
  end.

(** Source: [crate/utils/src/rpc/client.rs] lines 248-259, [register_chain]. *)
Definition register_chain (chain_id : ChainId) (bp vp : EndpointPool P) : Comp RpcWorld unit := λ w,
  let w := register_chain_pool chain_id bp vp w in
  (tt, set_stats (delete chain_id (rw_stats_cache w)) w).

(** Source: [crate/utils/src/rpc/client.rs] lines 25-26, [STATS_CACHE_TTL_MS]. *)
Definition STATS_CACHE_TTL_MS : Z := 1000.

(** The fresh statistics, stored in the cache. *)
Definition fetch_stats (actor : SelectActor) (chain_id : ChainId) : Comp RpcWorld (option (list EndpointStats)) :=
  λ w,
    match get_pool actor chain_id w with
    | None => (None, w)
    | Some pool =>
        let stats := stats_of_snapshot <$> endpoints_metrics pool in
        (Some stats, set_stats (<[chain_id := (stats, rw_clock w)]> (rw_stats_cache w)) w)
    end.

(** Source: [crate/utils/src/rpc/client.rs] lines 264-303, [get_unary_endpoint_stats]. *)
Definition get_unary_endpoint_stats (actor : SelectActor) (chain_id : ChainId) :
    Comp RpcWorld (option (list EndpointStats)) := λ w,
  match rw_stats_cache w !! chain_id with
  | Some (stats, timestamp) =>
      if as_millis (rw_clock w - timestamp) <? STATS_CACHE_TTL_MS then (Some stats, w)
      else fetch_stats actor chain_id w
  | None => fetch_stats actor chain_id w
  end.

(** Source: [crate/utils/src/rpc/client.rs] lines 305-313, [refresh_stats]. *)
Definition refresh_stats (actor : SelectActor) (chain_id : ChainId) :
    Comp RpcWorld (option (list EndpointStats)) := λ w,
  get_unary_endpoint_stats actor chain_id (set_stats (delete chain_id (rw_stats_cache w)) w).

(** Source: [crate/utils/src/rpc/client.rs] lines 348-373, [get_endpoint_hashmap].
    The chains are those of the broadcast registry, so its pools exist. *)
Definition get_endpoint_hashmap (w : RpcWorld) : result (gmap ChainId nat) LobbyRpcError :=
  fold_left (λ acc chain_id,
    match acc with
    | Err e => Err e
    | Ok m => match get_pool Broadcast chain_id w with
              | None => Err (EndpointPoolCorrupted ("pool no found for: " +:+ debug_chain chain_id))
              | Some p => Ok (<[chain_id := get_endpoint_count p]> m)
              end
    end) (get_registred_chains w) (Ok ∅).

(** ** The calls of the actors *)

(** Alloy's receipt: the status bit and the block number. *)
Record TransactionReceipt := mkReceipt { rc_status : bool; rc_block_number : option Z }.

(** The provider methods. *)
Class ProviderOps := {
  pr_send_raw_transaction : P → Bytes → Comp (N * Z) (result TxHash string);
  pr_transaction_count_pending : P → Address → Comp (N * Z) (result Z string);
  pr_transaction_receipt : P → TxHash → Comp (N * Z) (result (option TransactionReceipt) string);
  pr_block_number : P → Comp (N * Z) (result Z string)
}.
Context `{ProviderOps}.

(** [match strategy { StickySession { sticky_index } => Some(..), .. }]. *)
Definition sticky_of (strategy : LoadBalancingStrategy) : option nat :=
  match strategy with StickySession i => Some i | WeightedLeastResponseTime => None end.

(** Source: [crate/utils/src/rpc/mod.rs] lines 196-220, [send_raw_transaction]. *)
Definition send_raw_transaction (chain_id : ChainId) (strategy : LoadBalancingStrategy)
    (signed_txn : Bytes) (timeout : Z) : Comp RpcWorld (result TxHash LobbyRpcError) :=
  cmap_err (λ e, RpcBroadcastError (LobbyRpcError_display e))
    (execute_unary Broadcast chain_id (sticky_of strategy) timeout
       (λ provider, pr_send_raw_transaction provider signed_txn)).

(** Source: [crate/utils/src/rpc/mod.rs] lines 255-279, [get_transaction_count]. *)
Definition get_transaction_count (chain_id : ChainId) (strategy : LoadBalancingStrategy)
    (from_address : Address) (timeout : Z) : Comp RpcWorld (result TxNonce LobbyRpcError) :=
  nonce <-? cmap_err (λ e, NonceFetchError (LobbyRpcError_display e))
    (execute_unary Broadcast chain_id (sticky_of strategy) timeout
       (λ provider, pr_transaction_count_pending provider from_address)) ;;
  clift (Ok (mkTxNonce nonce)).

(** Source: [crate/utils/src/rpc/mod.rs] lines 316-338, [get_transaction_receipt]. *)
Definition get_transaction_receipt (chain_id : ChainId) (strategy : LoadBalancingStrategy)
    (tx_hash : TxHash) (timeout : Z) : Comp RpcWorld (result (option TransactionReceipt) LobbyRpcError) :=
  cmap_err (λ e, ReceiptFetchFailed (LobbyRpcError_display e))
    (execute_unary Validator chain_id (sticky_of strategy) timeout
       (λ provider, pr_transaction_receipt provider tx_hash)).

(** Source: [crate/utils/src/rpc/mod.rs] lines 369-392, [get_block_number]. *)
Definition get_block_number (chain_id : ChainId) (strategy : LoadBalancingStrategy)
    (timeout : Z) : Comp RpcWorld (result Z LobbyRpcError) :=
  cmap_err (λ e, BlockNotFound (LobbyRpcError_display e))
    (execute_unary Validator chain_id (sticky_of strategy) timeout
       (λ provider, pr_block_number provider)).

(** Source: [crate/utils/src/rpc/mod.rs] lines 463-484, [acquire_healthy_endpoint].
    The permit is dropped on both paths. *)
Definition acquire_healthy_endpoint (chain_id : ChainId) (timeout : Z) :
    Comp RpcWorld (result (option nat) LobbyRpcError) :=
  _ <-? get_semaphore timeout Validator ;;
  λ w,
    match get_pool Validator chain_id w with
    | None => (Err (NoEndpointsAvailable chain_id), (drop_permit Validator w).2)
    | Some pool =>
        let '(draw, w) := next_draw w in
        let index := best_endpoint_index (now_ms w) delay lag draw pool in
        (Ok index, (drop_permit Validator w).2)
    end.

(** ** Building the client *)

(** The [url] crate and alloy's connection. *)
Class UrlOps := {
  Url : Type;
  url_parse : string → result Url string;
  url_scheme : Url → string;
  connect_http : Url → P
}.
Context `{UrlOps}.

(** Source: [crate/utils/src/rpc/client.rs] lines 318-338, [create_unary_provider]. *)
Definition create_unary_provider (url : string) : result P LobbyRpcError :=
  match url_parse url with
  | Err e => Err (InvalidUrl ("Failed to parse URL: " +:+ e))
  | Ok u =>
      if bool_decide (url_scheme u = "http") || bool_decide (url_scheme u = "https")
      then Ok (connect_http u)
      else Err (InvalidUrl ("Unary provider requires http:// or https:// scheme, got: " +:+ url_scheme u))
  end.

(** [value.split(',').map(trim).filter(non-empty)]. *)
Definition endpoint_urls (value : string) : list string :=
  filter (λ s, s ≠ "") (trim <$> split_on "," value).

Definition endpoint_id (actor : string) (chain_id : ChainId) (index : nat) : string :=
  actor +:+ "-" +:+ ChainId_display chain_id +:+ "-" +:+ pretty (Z.of_nat index).

(** Source: [crate/utils/src/rpc/mod.rs] lines 127-147, [build_rpc_client (add endpoints)].
    The endpoints of one chain, added to both pools. *)
Fixpoint add_endpoints (chain_id : ChainId) (index : nat) (urls : list string)
    (bp vp : EndpointPool P) : result (EndpointPool P * EndpointPool P) LobbyRpcError :=
  match urls with
  | [] => Ok (bp, vp)
  | url :: rest =>
      match create_unary_provider url with
      | Err e => Err e
      | Ok broadcast_provider =>
          match create_unary_provider url with
          | Err e => Err e
          | Ok validator_provider =>
              add_endpoints chain_id (S index) rest
                (add_endpoint broadcast_provider
                   (metrics_new (endpoint_id "broadcast" chain_id index) url lag) lag bp)
                (add_endpoint validator_provider
                   (metrics_new (endpoint_id "validator" chain_id index) url lag) lag vp)
          end
      end
  end.

(** Source: [crate/utils/src/rpc/mod.rs] lines 100-152, [build_rpc_client (one variable)].
    [None]: the variable is skipped. *)
Definition build_chain (key value : string) :
    result (option (ChainId * EndpointPool P * EndpointPool P)) LobbyRpcError :=
  match strip_prefix "RPC_ENDPOINT_" key with
  | None => Ok None
  | Some chain_id_str =>
      match ChainId_from_str "" chain_id_str with
      | Err _ => Err (ProviderConstructionError
                        ("Invalid chain ID in environment variable: " +:+ key))
      | Ok chain_id =>
          match endpoint_urls value with
          | [] => Ok None
          | urls =>
              match add_endpoints chain_id 0 urls (pool_new chain_id) (pool_new chain_id) with
              | Err e => Err e
              | Ok (bp, vp) => Ok (Some (chain_id, bp, vp))
              end
          end
      end
  end.

Fixpoint build_from (vars : list (string * string)) (found_endpoints : bool) (w : RpcWorld) :
    result RpcWorld LobbyRpcError :=
  match vars with
  | [] =>
      if found_endpoints then Ok w
      else Err (ProviderConstructionError "No RPC_ENDPOINT_* environment variables found")
  | (key, value) :: rest =>
      match build_chain key value with
      | Err e => Err e
      | Ok None => build_from rest found_endpoints w
      | Ok (Some (chain_id, bp, vp)) => build_from rest true (register_chain chain_id bp vp w).2
      end
  end.

(** Source: [crate/utils/src/rpc/mod.rs] lines 91-162, [build_rpc_client]. *)
Definition build_rpc_client (vars : list (string * string)) (clock : Z) (waits : list bool)
    (draws : list f64) (net : N) : result RpcWorld LobbyRpcError :=
  build_from vars false (stack_new clock waits draws net).

End client.
Arguments RpcWorld P N : clear implicits.
Arguments UnaryContext P : clear implicits.
Arguments ProviderOps P N : clear implicits.

(** ** Properties *)

Section props.
Context {P N : Type} (lag delay : Z).
Abbreviation World := (RpcWorld P N).

Lemma permits_add actor actor' n (w : World) :
  permits actor' (add_permits actor n w) = permits actor' w + if decide (actor = actor') then n else 0.
Proof. destruct actor, actor'; simpl; rewrite ?decide_True, ?decide_False by done; lia. Qed.

(** Everything of the client that one call does not touch. *)
Definition same_pools (w w' : World) : Prop :=
  rw_broadcast w' = rw_broadcast w ∧ rw_validator w' = rw_validator w ∧
  rw_stats_cache w' = rw_stats_cache w.

Lemma same_pools_get actor c w w' : same_pools w w' → get_pool actor c w' = get_pool actor c w.
Proof. intros (Hb & Hv & _). destruct actor; simpl; by rewrite ?Hb, ?Hv. Qed.

(** The permit came from a holder that returned it while we waited. *)
Definition waited (actor : SelectActor) (w : World) : bool :=
  negb (0 <? permits actor w) && bool_decide (head (rw_waits w) = Some true).

Definition b2z (b : bool) : Z := if b then 1 else 0.
Definition at_actor (actor a : SelectActor) (n : Z) : Z := if decide (actor = a) then n else 0.

Lemma get_semaphore_effect timeout actor (w : World) r w' :
  get_semaphore timeout actor w = (r, w') →
  same_pools w w' ∧
  ∀ a, permits a w' = permits a w + at_actor actor a (b2z (waited actor w) - b2z (is_ok r)).
Proof.
  unfold get_semaphore, waited, at_actor. destruct (0 <? permits actor w) eqn:Hp.
  - intros [= <- <-]. split; [by destruct actor|]. intros a. rewrite permits_add. simpl. case_decide; lia.
  - destruct (rw_waits w) as [|[] ws]; intros [= <- <-];
      (split; [done|]; intros a; simpl; case_decide; destruct a; simpl; lia).
Qed.

Lemma drop_permit_effect actor (w : World) :
  same_pools w (drop_permit actor w).2 ∧
  ∀ a, permits a (drop_permit actor w).2 = permits a w + at_actor actor a 1.
Proof. split; [by destruct actor|]. intros a. apply permits_add. Qed.

Lemma next_draw_effect (w : World) :
  same_pools w (next_draw w).2 ∧ ∀ a, permits a (next_draw w).2 = permits a w.
Proof. unfold next_draw. by destruct (rw_draws w). Qed.

#[local] Instance same_pools_preorder : PreOrder same_pools.
Proof.
  split; [done|]. intros w1 w2 w3 (?&?&?) (?&?&?). unfold same_pools. split_and!; congruence.
Qed.

(** Acquiring a context takes one permit, or none if it fails. *)
Lemma acquire_effect actor c sticky timeout (w : World) r w' :
  acquire_unary_context lag delay actor c sticky timeout w = (r, w') →
  same_pools w w' ∧
  (∀ a, permits a w' = permits a w + at_actor actor a (b2z (waited actor w) - b2z (is_ok r))) ∧
  match r with
  | Ok ctx => uc_actor ctx = actor ∧ uc_chain_id ctx = c ∧
      ∃ pool e, get_pool actor c w = Some pool ∧ ep_endpoints pool !! uc_index ctx = Some e
  | Err _ => True
  end.
Proof.
  unfold acquire_unary_context, cbind_ok.
  destruct (get_semaphore timeout actor w) as [[[]|e] w1] eqn:Hs;
    apply get_semaphore_effect in Hs as [Hp Hperm]; [|by intros [= <- <-]].
  destruct (get_pool actor c w1) as [pool|] eqn:Hpool.
  2:{ intros [= <- <-]. destruct (drop_permit_effect actor w1) as [Hp' Hd]. split_and!; [by etrans| |done].
      intros a. rewrite Hd, Hperm. unfold at_actor. simpl. case_decide; lia. }
  destruct (next_draw w1) as [draw w2] eqn:Hdraw.
  destruct (next_draw_effect w1) as [Hp2 Hperm2]. rewrite Hdraw in Hp2, Hperm2. cbn [snd] in *.
  set (strategy := match sticky with Some index => StickySession index | None => _ end).
  destruct (select_endpoint (now_ms w2) delay lag draw strategy pool) as [choice|] eqn:Hsel.
  - intros [= <- <-]. split_and!; [by etrans| |done|done|].
    + intros a. rewrite Hperm2, Hperm. done.
    + exists pool. simpl. rewrite <- (same_pools_get actor c w w1 Hp).
      destruct (ep_endpoints pool !! lc_index choice) as [e|] eqn:He; [by exists e|].
      by apply select_endpoint_lookup in Hsel.
  - intros [= <- <-]. destruct (drop_permit_effect actor w2) as [Hp' Hd].
    split_and!; [by etrans; [exact Hp|etrans]| |done].
    intros a. rewrite Hd, Hperm2, Hperm. unfold at_actor. simpl. case_decide; lia.
Qed.

Lemma run_operation_effect {R} (op : Comp (N * Z) (result R string)) (w : World) :
  same_pools w (run_operation op w).2 ∧ ∀ a, permits a (run_operation op w).2 = permits a w.
Proof. unfold run_operation. by destruct (op _) as [r [net clock]]. Qed.

Lemma alter_pool_permits actor c f a (w : World) : permits a (alter_pool actor c f w) = permits a w.
Proof. by destruct actor, a. Qed.

(** one call through the client, for any provider behaviour.  The permit it
    takes is always given back, on every error path (if it had to wait, the one
    permit more is the one another task returned), and only the actor's own
    semaphore is used.  It reaches at most one endpoint, one of the actor's own
    pool of that chain, and records there exactly one success if the answer is a
    result and exactly one failure if it is a transport error; every other
    metric, the other actor's pools and the cache stay as they were. *)
Theorem execute_unary_effect {R} actor c sticky timeout
    (operation : P → Comp (N * Z) (result R string)) (w : World) r w' :
  execute_unary lag delay actor c sticky timeout operation w = (r, w') →
  (∀ a, permits a w' = permits a w + at_actor actor a (b2z (waited actor w))) ∧
  (same_pools w w' ∧ (∃ e, r = Err e) ∨
   ∃ pool idx f, get_pool actor c w = Some pool ∧ is_Some (ep_endpoints pool !! idx) ∧
     same_pools (alter_pool actor c (update_metrics idx f) w) w' ∧
     match r with
     | Ok _ => ∃ d, f = record_success d lag
     | Err e => f = record_failure lag ∧ ∃ m, e = TransportError m
     end).
Proof.
  unfold execute_unary. destruct (acquire_unary_context lag delay actor c sticky timeout w)
    as [[ctx|e] w1] eqn:Hacq; apply acquire_effect in Hacq as (Hp1 & Hperm1 & Hctx).
  2:{ intros [= <- <-]. split; [|left; eauto]. intros a. rewrite Hperm1. unfold at_actor. simpl. case_decide; lia. }
  destruct Hctx as (Ha & Hc & pool & e0 & Hpool & He0).
  destruct (run_operation (operation (uc_provider ctx)) w1) as [res w2] eqn:Hop.
  destruct (run_operation_effect (operation (uc_provider ctx)) w1) as [Hp2 Hperm2].
  rewrite Hop in Hp2, Hperm2. cbn [snd] in *.
  assert (Hend : ∀ f a,
    permits a (drop_permit actor (alter_pool actor c (update_metrics (uc_index ctx) f) w2)).2 =
      permits a w + at_actor actor a (b2z (waited actor w)) ∧
    same_pools (alter_pool actor c (update_metrics (uc_index ctx) f) w)
      (drop_permit actor (alter_pool actor c (update_metrics (uc_index ctx) f) w2)).2).
  { intros f a. destruct (drop_permit_effect actor (alter_pool actor c (update_metrics (uc_index ctx) f) w2)) as [Hp3 Hperm3].
    rewrite Hperm3, alter_pool_permits, Hperm2, Hperm1. split.
    - unfold at_actor. simpl. case_decide; lia.
    - etrans; [|exact Hp3]. destruct Hp1 as (Hb1&Hv1&Hs1), Hp2 as (Hb2&Hv2&Hs2).
      unfold same_pools. destruct actor; simpl; rewrite Hb2, Hv2, Hs2, Hb1, Hv1, Hs1; done. }
  destruct res as [result|err]; unfold ctx_record_success, ctx_record_failure; rewrite Ha, Hc;
    intros Hfin; cbn [drop_permit] in Hfin; injection Hfin as <- <-.
  - split; [intros a; apply (Hend (record_success (rw_clock w2 - rw_clock w) lag) a)|right].
    exists pool, (uc_index ctx), (record_success (rw_clock w2 - rw_clock w) lag).
    split_and!; [done|by rewrite He0| |eauto]. apply (Hend _ actor).
  - split; [intros a; apply (Hend (record_failure lag) a)|right].
    exists pool, (uc_index ctx), (record_failure lag).
    split_and!; [done|by rewrite He0| |eauto|eauto]. apply (Hend _ actor).
Qed.

(** The statistics cache is shared by the two actors: what one of them stored is
    answered to the other for a second. *)
Theorem stats_cache_ignores_actor c actor1 actor2 stats (w : World) w1 :
  fetch_stats actor1 c w = (Some stats, w1) →
  get_unary_endpoint_stats actor2 c w1 = (Some stats, w1).
Proof.
  unfold fetch_stats. destruct (get_pool actor1 c w) as [pool|]; [|done]. intros [= <- <-].
  unfold get_unary_endpoint_stats. simpl. rewrite lookup_insert_eq.
  by rewrite Z.sub_diag.
Qed.

(** ** The two registries match *)

(** The endpoints of both pools of a chain have the same providers. *)
Definition pools_match (w : World) : Prop :=
  ∀ c, match rw_broadcast w !! c, rw_validator w !! c with
       | Some bp, Some vp => ee_provider <$> ep_endpoints bp = ee_provider <$> ep_endpoints vp ∧
                             ep_endpoints bp ≠ []
       | None, None => True
       | _, _ => False
       end.

Lemma add_endpoints_match `{!UrlOps (P := P)} c index urls (bp vp bp' vp' : EndpointPool P) :
  ee_provider <$> ep_endpoints bp = ee_provider <$> ep_endpoints vp →
  add_endpoints lag c index urls bp vp = Ok (bp', vp') →
  ee_provider <$> ep_endpoints bp' = ee_provider <$> ep_endpoints vp' ∧
  length (ep_endpoints bp') = (length (ep_endpoints bp) + length urls)%nat.
Proof.
  revert index bp vp. induction urls as [|url urls IH]; intros index bp vp Hm; simpl.
  - intros [= <- <-]. split; [done|lia].
  - destruct (create_unary_provider url) as [pr|]; [|done]. intros Hadd. apply IH in Hadd.
    + destruct Hadd as [? Hlen]. split; [done|]. rewrite Hlen. simpl. rewrite length_app. simpl. lia.
    + simpl. by rewrite !fmap_app, Hm.
Qed.

Lemma build_from_match `{!UrlOps (P := P)} vars found (w w' : World) :
  pools_match w → (found = true → ∃ c, is_Some (rw_broadcast w !! c)) →
  build_from lag vars found w = Ok w' →
  pools_match w' ∧ ∃ c, is_Some (rw_broadcast w' !! c).
Proof.
  revert found w. induction vars as [|[key value] vars IH]; intros found w Hm Hf; simpl.
  - destruct found; [|done]. intros [= <-]. auto.
  - unfold build_chain. destruct (strip_prefix _ key); [|by apply IH].
    destruct (ChainId_from_str "" s) as [c|]; [|done].
    destruct (endpoint_urls value) as [|u us] eqn:Hu; [by apply IH|].
    destruct (add_endpoints lag c 0 (u :: us) (pool_new c) (pool_new c)) as [[bp vp]|] eqn:Hadd; [|done].
    apply add_endpoints_match in Hadd as [Hbv Hlen]; [|done]. apply IH.
    + intros c'. simpl. destruct (decide (c = c')) as [->|Hne].
      * rewrite !lookup_insert_eq. split; [done|]. intros E. rewrite E in Hlen. done.
      * rewrite !lookup_insert_ne by done. apply Hm.
    + intros _. exists c. simpl. by rewrite lookup_insert_eq.
Qed.

(** a client built from the environment has, for every configured chain, a
    broadcast and a validator pool over the same non-empty list of endpoints, so
    a sticky index picked in one pool means the same node in the other; without
    any endpoint variable the build fails. *)
Theorem build_rpc_client_matching `{!UrlOps (P := P)} vars clock waits draws (net : N) w :
  build_rpc_client lag vars clock waits draws net = Ok w →
  pools_match w ∧ ∃ c, is_Some (get_pool Validator c w).
Proof.
  intros Hb. apply build_from_match in Hb as [Hm [c Hc]].
  - split; [done|]. exists c. simpl. specialize (Hm c). destruct Hc as [bp Hbp]. rewrite Hbp in Hm.
    by destruct (rw_validator w !! c).
  - intros c. simpl. by rewrite !lookup_empty.
  - done.
Qed.
End props.

(** ** Witnesses *)

#[export] Instance plain_url : UrlOps (P := string) := {|
  Url := string; url_parse s := Ok s;
  url_scheme s := if starts_with "http" s then "http" else "ws"; connect_http s := s
|}.

Definition ex_world : RpcWorld string unit :=
  match build_rpc_client 0 [("RPC_ENDPOINT_1", "http://a, http://b")] 0 [] [f64_lit 1 2] tt with
  | Ok w => w
  | Err _ => stack_new 0 [] [] tt
  end.

Lemma build_rpc_client_matching_witness :
  pools_match ex_world ∧ ∃ c, is_Some (get_pool Validator c ex_world).
Proof.
  apply (build_rpc_client_matching 0 [("RPC_ENDPOINT_1", "http://a, http://b")] 0 [] [f64_lit 1 2] tt).
  vm_compute. reflexivity.
Defined.

Lemma execute_unary_effect_witness :
  permits Broadcast (execute_unary 0 0 Broadcast (mkChainId 1) (Some 1%nat) (from_secs 30)
    (λ provider s, (Ok (E := string) provider, s)) ex_world).2 = 32.
Proof.
  destruct (execute_unary 0 0 Broadcast (mkChainId 1) (Some 1%nat) (from_secs 30)
    (λ provider s, (Ok (E := string) provider, s)) ex_world) as [r w'] eqn:E.
  destruct (execute_unary_effect 0 0 Broadcast (mkChainId 1) (Some 1%nat) (from_secs 30) _ ex_world r w' E)
    as [H _]. cbn [snd]. rewrite H. vm_compute. reflexivity.
Defined.
