(* ===== verification/Threads.v ===== *)
(** * Code as atomic steps, and threads of it

    Where several calls touch the same atomics, what matters is every single
    access.  A [Prog] is code cut at its accesses to the shared state; a
    schedule gives turns to the threads of a pool in any order.  [pays] is the
    rule by which a quantity of the shared state is accounted for, whatever the
    other threads do; [within] bounds the accesses that are left. *)

From S2P Require Import Prelude.

Section prog.
Context {L I S : Type}.

(** The next access has a label, gets an input from outside, and does not
    happen ([None]) while it has to wait. *)
Inductive Prog (A : Type) : Type :=
| Ret (a : A)
| Act (l : L) (f : I → S → option (Prog A * S)).
Arguments Ret {A} a.
Arguments Act {A} l f.

(** What holds of the code after every possible access holds of the code. *)
Lemma Prog_rect_step {A} (Q : Prog A → Prop) :
  (∀ a, Q (Ret a)) → (∀ l f, (∀ i s p s', f i s = Some (p, s') → Q p) → Q (Act l f)) → ∀ p, Q p.
Proof.
  intros HR HA. fix IH 1. intros [a|l f]; [apply HR|apply HA]. intros i s p s'.
  destruct (f i s) as [[p1 s1]|]; [|discriminate]. pose proof (IH p1) as Hp.
  intros [= <- <-]. exact Hp.
Qed.

Fixpoint bind {A B} (p : Prog A) (k : A → Prog B) : Prog B :=
  match p with
  | Ret a => k a
  | Act l f => Act l (λ i s, match f i s with
                             | Some (p', s') => Some (bind p' k, s')
                             | None => None
                             end)
  end.

(** An access that never waits. *)
Definition atomic {A} (l : L) (c : I → Comp S A) : Prog A :=
  Act l (λ i s, let '(a, s') := c i s in Some (Ret a, s')).

Definition next {A} (p : Prog A) : option L := match p with Ret _ => None | Act l _ => Some l end.
Definition value {A} (p : Prog A) : option A := match p with Ret a => Some a | Act _ _ => None end.

(** Alone, with the same input all the time. *)
Fixpoint alone {A} (i : I) (p : Prog A) (s : S) : option (A * S) :=
  match p with
  | Ret a => Some (a, s)
  | Act _ f => match f i s with Some (p', s') => alone i p' s' | None => None end
  end.

Lemma alone_bind {A B} i (p : Prog A) (k : A → Prog B) s :
  alone i (bind p k) s = match alone i p s with Some (a, s') => alone i (k a) s' | None => None end.
Proof.
  revert s; induction p as [a|l f IH] using Prog_rect_step; intros s; cbn; [done|].
  destruct (f i s) as [[p' s']|] eqn:Hf; [by eapply IH|done].
Qed.

(** ** A pool of threads *)

(** A turn of the [i]-th thread: nothing happens if it has ended or waits. *)
Definition turn {A} (t : nat * I) (st : list (Prog A) * S) : option (list (Prog A) * S) :=
  match st.1 !! t.1 with
  | Some (Act _ f) =>
      match f t.2 st.2 with
      | Some (p', s') => Some (<[t.1 := p']> st.1, s')
      | None => None
      end
  | _ => None
  end.

Fixpoint run_turns {A} (sched : list (nat * I)) (st : list (Prog A) * S) : list (Prog A) * S :=
  match sched with
  | [] => st
  | t :: sched => run_turns sched (default st (turn t st))
  end.

(** The turns of a schedule in which something happens. *)
Fixpoint moves {A} (sched : list (nat * I)) (st : list (Prog A) * S) : nat :=
  match sched with
  | [] => 0
  | t :: sched =>
      match turn t st with
      | Some st' => 1 + moves sched st'
      | None => moves sched st
      end
  end.

Lemma turn_Some {A} t (st st' : list (Prog A) * S) :
  turn t st = Some st' → ∃ l f p', st.1 !! t.1 = Some (Act l f) ∧ f t.2 st.2 = Some (p', st'.2) ∧
    st'.1 = <[t.1 := p']> st.1.
Proof.
  unfold turn. destruct (st.1 !! t.1) as [[a|l f]|]; [done| |done].
  destruct (f t.2 st.2) as [[p' s']|] eqn:Hf; [|done]. intros [= <-]. by exists l, f, p'.
Qed.

Lemma run_turns_ind {A} (P : list (Prog A) * S → Prop) :
  (∀ t st st', P st → turn t st = Some st' → P st') →
  ∀ sched st, P st → P (run_turns sched st).
Proof.
  intros Hstep sched. induction sched as [|t sched IH]; intros st Hst; cbn; [done|].
  apply IH. destruct (turn t st) eqn:Ht; [by eapply Hstep|done].
Qed.

(** ** Accounting for a quantity *)

Section accounts.
Context (Inv : S → Prop) (q : S → Z) (E : relation Z) `{!Equivalence E, !Proper (E ==> E ==> E) Z.add}.
Context (G : L → Z → Prop).

(** The code has changed the quantity by [spent] so far, up to [E]; every
    access that is left adds to that what it changes, whatever the state it
    finds, and is made at a balance that [G] allows; the balance at the end is
    one that [Q] allows for the result. *)
Fixpoint pays {A} (Q : A → Z → Prop) (p : Prog A) (spent : Z) : Prop :=
  match p with
  | Ret a => Q a spent
  | Act l f => G l spent ∧ ∀ i s, Inv s →
      match f i s with
      | Some (p', s') => Inv s' ∧ ∃ spent', E (q s') (q s + (spent' - spent)) ∧ pays Q p' spent'
      | None => True
      end
  end.

Lemma pays_bind {A B} (Q : A → Z → Prop) (Q' : B → Z → Prop) p k spent :
  pays Q p spent → (∀ a spent', Q a spent' → pays Q' (k a) spent') → pays Q' (bind p k) spent.
Proof.
  intros Hp Hk. revert spent Hp. induction p as [a|l f IH] using Prog_rect_step; intros spent; cbn; [apply Hk|].
  intros [HG Hf]. split; [done|]. intros i s Hs. specialize (Hf i s Hs).
  destruct (f i s) as [[p' s']|] eqn:Hfi; [|done]. destruct Hf as (Hi & spent' & He & Hp'). split; [done|].
  exists spent'. split; [done|]. by eapply IH.
Qed.

Lemma pays_weaken {A} (Q Q' : A → Z → Prop) p spent : (∀ a x, Q a x → Q' a x) → pays Q p spent → pays Q' p spent.
Proof.
  intros HQ. revert spent; induction p as [a|l f IH] using Prog_rect_step; intros spent; cbn; [apply HQ|].
  intros [HG Hf]. split; [done|]. intros i s Hs. specialize (Hf i s Hs).
  destruct (f i s) as [[p' s']|] eqn:Hfi; [|done]. destruct Hf as (Hi & spent' & He & Hp'). split; [done|].
  exists spent'. split; [done|]. by eapply IH.
Qed.

Lemma pays_atomic {A} (Q : A → Z → Prop) l (c : I → Comp S A) spent :
  G l spent →
  (∀ i s, Inv s → Inv (c i s).2 ∧ ∃ spent', E (q (c i s).2) (q s + (spent' - spent)) ∧ Q (c i s).1 spent') →
  pays Q (atomic l c) spent.
Proof.
  intros HG Hc. split; [done|]. intros i s Hs. specialize (Hc i s Hs). by destruct (c i s) as [a s'].
Qed.

Definition total (spents : list Z) : Z := foldr Z.add 0 spents.

Lemma total_insert spents i x y :
  spents !! i = Some x → total (<[i := y]> spents) = total spents + (y - x).
Proof.
  unfold total. revert i; induction spents as [|z spents IH]; intros [|i]; [done|done| |].
  - intros [= ->]. cbn. ring.
  - intros Hi. specialize (IH i Hi). change (z + foldr Z.add 0 (<[i:=y]> spents) = z + foldr Z.add 0 spents + (y - x)).
    lia.
Qed.

(** The threads' balances account for what happened to the quantity. *)
Definition accounted {A} (Q : A → Z → Prop) (q0 : Z) (st : list (Prog A) * S) : Prop :=
  Inv st.2 ∧ ∃ spents, Forall2 (pays Q) st.1 spents ∧ E (q st.2) (q0 + total spents).

Lemma accounted_turn {A} (Q : A → Z → Prop) q0 t st st' :
  accounted Q q0 st → turn t st = Some st' → accounted Q q0 st'.
Proof.
  intros (Hi & spents & Hps & He) (l & f & p' & Hp & Hf & Hps')%turn_Some.
  destruct (Forall2_lookup_l _ _ _ _ _ Hps Hp) as (spent & Hspent & HG & Hstep).
  specialize (Hstep t.2 st.2 Hi). rewrite Hf in Hstep. destruct Hstep as (Hi' & spent' & He' & Hp').
  split; [done|]. exists (<[t.1 := spent']> spents). split.
  - rewrite Hps'. by apply Forall2_insert.
  - rewrite He', He, (total_insert _ _ _ _ Hspent).
    replace (q0 + (total spents + (spent' - spent))) with (q0 + total spents + (spent' - spent)) by lia. done.
Qed.

Lemma accounted_run {A} (Q : A → Z → Prop) sched (ps : list (Prog A)) s :
  Inv s → Forall (λ p, pays Q p 0) ps → accounted Q (q s) (run_turns sched (ps, s)).
Proof.
  intros Hi Hps. apply run_turns_ind; [intros t st st'; apply accounted_turn|]. split; [done|].
  exists (replicate (length ps) 0). split.
  - by apply Forall2_replicate_r.
  - assert (total (replicate (length ps) 0) = 0) as ->; [|by rewrite Z.add_0_r].
    clear. induction ps as [|p ps IH]; [done|]. unfold total in *. cbn. lia.
Qed.

(** When every thread has ended, its result says what it spent. *)
Lemma accounted_ended {A} (Q : A → Z → Prop) (N : A → Z) q0 (st : list (Prog A) * S) results :
  (∀ a spent, Q a spent → spent = N a) → accounted Q q0 st → st.1 = Ret <$> results →
  E (q st.2) (q0 + total (N <$> results)).
Proof.
  intros HQ (_ & spents & Hps & He) Hst. rewrite Hst in Hps. assert (spents = N <$> results) as ->; [|done].
  clear -Hps HQ. revert spents Hps. induction results as [|a results IH]; intros spents Hps.
  - by apply Forall2_nil_inv_l in Hps.
  - apply Forall2_cons_inv_l in Hps as (spent & spents' & Ha & Hps & ->). cbn. f_equal; [by apply HQ|by apply IH].
Qed.
End accounts.

(** ** Waiting and ending *)

Section progress.
Context (Inv : S → Prop) (Wait : L → S → Prop).

(** At most [n] accesses are left to a result in [Q], and one that waits does so
    for [Wait]. *)
Fixpoint within {A} (Q : A → Prop) (p : Prog A) (n : nat) : Prop :=
  match p with
  | Ret a => Q a
  | Act l f => ∃ m, n = Datatypes.S m ∧ ∀ i s, Inv s →
      match f i s with
      | Some (p', s') => Inv s' ∧ within Q p' m
      | None => Wait l s
      end
  end.

Lemma within_le {A} Q (p : Prog A) n m : within Q p n → (n ≤ m)%nat → within Q p m.
Proof.
  revert n m; induction p as [a|l f IH] using Prog_rect_step; intros n m; cbn; [done|].
  intros (k & -> & Hf) Hm. destruct m as [|m]; [lia|]. exists m. split; [done|]. intros i s Hs.
  specialize (Hf i s Hs). destruct (f i s) as [[p' s']|] eqn:Hfi; [|done]. destruct Hf as [? Hp]. split; [done|].
  eapply IH; [done|exact Hp|lia].
Qed.

Lemma within_bind {A B} Q Q' (p : Prog A) (k : A → Prog B) n m :
  within Q p n → (∀ a, Q a → within Q' (k a) m) → within Q' (bind p k) (n + m).
Proof.
  intros Hp Hk. revert n Hp. induction p as [a|l f IH] using Prog_rect_step; intros n; cbn.
  - intros Ha. eapply within_le; [by apply Hk|lia].
  - intros (j & -> & Hf). exists (j + m)%nat. split; [done|]. intros i s Hs. specialize (Hf i s Hs).
    destruct (f i s) as [[p' s']|] eqn:Hfi; [|done]. destruct Hf. split; [done|]. by eapply IH.
Qed.

Lemma within_atomic {A} (Q : A → Prop) l (c : I → Comp S A) :
  (∀ i s, Inv s → Inv (c i s).2 ∧ Q (c i s).1) → within Q (atomic l c) 1.
Proof. intros Hc. exists 0%nat. split; [done|]. intros i s Hs. specialize (Hc i s Hs). by destruct (c i s). Qed.

Definition pool_within {A} (Q : A → Prop) (st : list (Prog A) * S) (ns : list nat) : Prop :=
  Inv st.2 ∧ Forall2 (within Q) st.1 ns.

Lemma pool_within_turn {A} (Q : A → Prop) t (st st' : list (Prog A) * S) ns :
  pool_within Q st ns → turn t st = Some st' →
  ∃ ns', pool_within Q st' ns' ∧ sum_list ns = Datatypes.S (sum_list ns').
Proof.
  intros [Hi Hns] (l & f & p' & Hp & Hf & Hps)%turn_Some.
  destruct (Forall2_lookup_l _ _ _ _ _ Hns Hp) as (n & Hn & m & -> & Hstep).
  specialize (Hstep t.2 st.2 Hi). rewrite Hf in Hstep. destruct Hstep as [Hi' Hm].
  exists (<[t.1 := m]> ns). split; [split; [done|rewrite Hps; by apply Forall2_insert]|].
  clear -Hn. revert Hn. generalize t.1. induction ns as [|x ns IH]; intros [|i]; [done|done| |].
  - intros [= ->]. done.
  - intros Hi. change ((x + sum_list ns)%nat = Datatypes.S (x + sum_list (<[i:=m]> ns))). rewrite (IH i Hi). lia.
Qed.

(** No schedule moves the threads more often than they have accesses. *)
Lemma moves_bound {A} (Q : A → Prop) sched (st : list (Prog A) * S) ns :
  pool_within Q st ns → (moves sched st ≤ sum_list ns)%nat.
Proof.
  revert st ns; induction sched as [|t sched IH]; intros st ns Hst; cbn; [lia|].
  destruct (turn t st) as [st'|] eqn:Ht; [|by apply IH].
  destruct (pool_within_turn _ _ _ _ _ Hst Ht) as (ns' & Hst' & ->). specialize (IH st' ns' Hst'). lia.
Qed.

Lemma pool_within_run {A} (Q : A → Prop) sched (st : list (Prog A) * S) ns :
  pool_within Q st ns → ∃ ns', pool_within Q (run_turns sched st) ns'.
Proof.
  intros Hst. apply (run_turns_ind (λ st, ∃ ns, pool_within Q st ns)); [|by exists ns].
  intros t st1 st2 [ns1 H1] Ht. destruct (pool_within_turn _ _ _ _ _ H1 Ht) as (ns' & ? & _). by exists ns'.
Qed.

(** A thread that has not ended moves at its turn, or waits for [Wait]. *)
Lemma turn_or_wait {A} (Q : A → Prop) i inp (st : list (Prog A) * S) ns p l :
  pool_within Q st ns → st.1 !! i = Some p → next p = Some l →
  is_Some (turn (i, inp) st) ∨ Wait l st.2.
Proof.
  intros [Hi Hns] Hp Hl. destruct p as [a|l' f]; [done|]. injection Hl as ->.
  destruct (Forall2_lookup_l _ _ _ _ _ Hns Hp) as (n & _ & m & _ & Hstep). specialize (Hstep inp st.2 Hi).
  unfold turn. cbn. rewrite Hp. destruct (f inp st.2) as [[p' s']|]; [left; by eexists|by right].
Qed.
End progress.
End prog.
Arguments Prog L I S A : clear implicits.
Arguments bind : simpl never.
Arguments atomic : simpl never.
Arguments pays : simpl never.
Arguments within : simpl never.
Arguments Ret {L I S A} a.
Arguments Act {L I S A} l f.

Notation "x ↤ p ;; k" := (bind p (λ x, k)) (at level 60, p at next level, right associativity) : lobby_scope.

(** ** Code over a part of the state *)

Section zoom.
Context {L I S T : Type} (get : S → T) (put : T → S → S).

Fixpoint zoom {A} (p : Prog L I T A) : Prog L I S A :=
  match p with
  | Ret a => Ret a
  | Act l f => Act l (λ i s, match f i (get s) with
                             | Some (p', t) => Some (zoom p', put t s)
                             | None => None
                             end)
  end.

Context (Inv : S → Prop).
Hypothesis put_inv : ∀ t s, Inv s → Inv (put t s).
Hypothesis get_put : ∀ t s, Inv s → get (put t s) = t.

Lemma alone_zoom {A} i (p : Prog L I T A) s :
  (∀ s, Inv s → put (get s) s = s) → (∀ t t' s, Inv s → put t (put t' s) = put t s) → Inv s →
  alone i (zoom p) s = match alone i p (get s) with Some (a, t) => Some (a, put t s) | None => None end.
Proof.
  intros Hpg Hpp. revert s; induction p as [a|l f IH] using Prog_rect_step; intros s Hs; cbn.
  - by rewrite Hpg.
  - destruct (f i (get s)) as [[p' t]|] eqn:Hf; [|done]. rewrite (IH _ _ _ _ Hf) by auto.
    rewrite get_put by done. destruct (alone i p' t) as [[a t']|]; [|done]. by rewrite Hpp.
Qed.

(** What the part accounts for, the whole accounts for. *)
Lemma pays_zoom {A} (E : relation Z) (G0 G : L → Z → Prop) (qt : T → Z) (qs : S → Z) (Q : A → Z → Prop) p spent :
  (∀ s, Inv s → qs s = qt (get s)) → (∀ l x, G0 l x → G l x) →
  pays (λ _, True) qt E G0 Q p spent → pays Inv qs E G Q (zoom p) spent.
Proof.
  intros Hq HG0. revert spent; induction p as [a|l f IH] using Prog_rect_step; intros spent; [done|].
  intros [HG Hf]. split; [by apply HG0|]. intros i s Hs. specialize (Hf i (get s) Logic.I).
  destruct (f i (get s)) as [[p' t]|] eqn:Hfi; [|done]. destruct Hf as (_ & spent' & He & Hp).
  split; [by apply put_inv|]. exists spent'. split; [|by eapply IH].
  rewrite !Hq, get_put by auto. done.
Qed.

(** A quantity elsewhere is not touched. *)
Lemma pays_zoom_quiet {A} (E0 E : relation Z) `{!Reflexive E} (G0 G : L → Z → Prop) (qt : T → Z) (qs : S → Z)
    (Q0 Q : A → Z → Prop) p x spent :
  (∀ t s, Inv s → qs (put t s) = qs s) → (∀ l y, G0 l y → G l spent) → (∀ a y, Q0 a y → Q a spent) →
  pays (λ _, True) qt E0 G0 Q0 p x → pays Inv qs E G Q (zoom p) spent.
Proof.
  intros Hq HG HQ. revert x; induction p as [a|l f IH] using Prog_rect_step; intros x; [apply HQ|].
  intros [HG0 Hf]. split; [by eapply HG|]. intros i s Hs. specialize (Hf i (get s) Logic.I).
  destruct (f i (get s)) as [[p' t]|] eqn:Hfi; [|done]. destruct Hf as (_ & x' & _ & Hp).
  split; [by apply put_inv|]. exists spent. split; [|by eapply IH]. by rewrite Hq, Z.sub_diag, Z.add_0_r.
Qed.

Lemma within_zoom {A} Wait Wait' (Q : A → Prop) (p : Prog L I T A) n :
  (∀ l s, Inv s → Wait l (get s) → Wait' l s) →
  within (λ _, True) Wait Q p n → within Inv Wait' Q (zoom p) n.
Proof.
  intros HW. revert n; induction p as [a|l f IH] using Prog_rect_step; intros n; [done|].
  intros (m & -> & Hf). exists m. split; [done|]. intros i s Hs. specialize (Hf i (get s) Logic.I).
  destruct (f i (get s)) as [[p' t]|] eqn:Hfi; [|by apply HW]. destruct Hf as [_ Hf].
  split; [by apply put_inv|by eapply IH].
Qed.
End zoom.
