(* ===== verification/Atomics.v ===== *)
(** * The metrics of an endpoint, access by access

    [src/crate/utils/src/rpc/metrics.rs] again, for calls that record on the
    same endpoint at the same time: every load, store and fetch_add is an access
    of its own.  Run alone they are the functions of [Metrics.v]; under any
    interleaving the counters still count. *)

From S2P Require Import Prelude Float Metrics Pool Threads.

(** What an access is for. *)
Inductive Access :=
| AcClock | AcSemaphore (actor : SelectActor) | AcPool | AcDraw | AcRead | AcCall (actor : SelectActor)
| AcMetrics | AcRelease (actor : SelectActor).

(** What happens around an access: the time since the last one, and whether a
    waiting call's timeout is over. *)
Record Around := mkAround { ar_elapsed : Z; ar_timeout : bool }.

Abbreviation Steps := (Prog Access Around EndpointMetrics).

Definition load {A} (fld : EndpointMetrics → A) : Steps A := atomic AcMetrics (λ _ m, (fld m, m)).
Definition update (f : EndpointMetrics → EndpointMetrics) : Steps unit := atomic AcMetrics (λ _ m, (tt, f m)).

Definition set_until (v : Z) (m : EndpointMetrics) : EndpointMetrics := set_breaker v (em_circuit_breaker_attempts m) m.
Definition set_attempts (v : Z) (m : EndpointMetrics) : EndpointMetrics := set_breaker (em_circuit_breaker_until m) v m.
Definition set_last_success (v : Z) (m : EndpointMetrics) : EndpointMetrics :=
  set_sample (em_response_times_ms m) (em_response_time_index m) v m.
Definition set_slot (slot : nat) (v : Z) (m : EndpointMetrics) : EndpointMetrics :=
  set_sample (<[slot := v]> (em_response_times_ms m)) (em_response_time_index m) (em_last_success_at m) m.

(** The [fetch_add]s, the first with the value before. *)
Definition fetch_add_index : Steps Z :=
  atomic AcMetrics (λ _ m, (em_response_time_index m,
    set_sample (em_response_times_ms m) (wrap_u64 (em_response_time_index m + 1)) (em_last_success_at m) m)).
Definition fetch_add_requests : Steps unit :=
  update (λ m, set_counts (em_error_count m) (wrap_u64 (em_request_count m + 1)) m).
Definition fetch_add_errors : Steps unit :=
  update (λ m, set_counts (wrap_u64 (em_error_count m + 1)) (em_request_count m) m).

(** Source: [crate/utils/src/rpc/metrics.rs] lines 224-232, [error_rate (accesses)]. *)
Definition error_rate_steps : Steps f64 :=
  requests ↤ load em_request_count ;;
  if requests <? MIN_REQUESTS_FOR_HEALTH then Ret f64_zero
  else
    errors ↤ load em_error_count ;;
    Ret (f64_div (f64_of_Z errors) (f64_of_Z requests)).

(** Source: [crate/utils/src/rpc/metrics.rs] lines 310-325, [update_health_status (accesses, error rate)]. *)
Definition store_health_steps : Steps unit :=
  rate ↤ error_rate_steps ;;
  degraded ↤ load em_degraded_threshold ;;
  unhealthy ↤ load em_unhealthy_threshold ;;
  update (set_health (health_of_rate rate degraded unhealthy)).

(** Source: [crate/utils/src/rpc/metrics.rs] lines 297-325, [update_health_status (accesses)]. *)
Definition update_health_steps (lag : Z) : Steps unit :=
  cb_until ↤ load em_circuit_breaker_until ;;
  if 0 <? cb_until then
    if lag <? cb_until then update (set_health 2)
    else
      _ ↤ update (set_until 0) ;;
      store_health_steps
  else store_health_steps.

(** Source: [crate/utils/src/rpc/metrics.rs] lines 261-285, [record_success (accesses)]. *)
Definition record_success_steps (duration lag : Z) : Steps unit :=
  let duration_ms := wrap_u64 (as_millis duration) in
  let now_millis := wrap_u64 lag in
  index ↤ fetch_add_index ;;
  _ ↤ update (set_slot (Z.to_nat (Z.land index RESPONSE_TIME_MASK)) duration_ms) ;;
  _ ↤ fetch_add_requests ;;
  _ ↤ update (set_last_success now_millis) ;;
  cb_until ↤ load em_circuit_breaker_until ;;
  if (0 <? cb_until) && (cb_until <=? now_millis) then
    _ ↤ update (set_until 0) ;;
    _ ↤ update (set_attempts 0) ;;
    update_health_steps lag
  else update_health_steps lag.

(** Source: [crate/utils/src/rpc/metrics.rs] lines 287-292, [record_failure (accesses)]. *)
Definition record_failure_steps (lag : Z) : Steps unit :=
  _ ↤ fetch_add_errors ;;
  _ ↤ fetch_add_requests ;;
  update_health_steps lag.

(** ** Alone *)

Lemma alone_load {A B} i (fld : EndpointMetrics → A) (k : A → Steps B) m :
  alone i (bind (load fld) k) m = alone i (k (fld m)) m.
Proof. by rewrite alone_bind. Qed.
Lemma alone_update {B} i f (k : unit → Steps B) m : alone i (bind (update f) k) m = alone i (k tt) (f m).
Proof. by rewrite alone_bind. Qed.
Lemma alone_update_last i f m : alone i (update f) m = Some (tt, f m).
Proof. done. Qed.
Lemma alone_index {B} i (k : Z → Steps B) m :
  alone i (bind fetch_add_index k) m = alone i (k (em_response_time_index m))
    (set_sample (em_response_times_ms m) (wrap_u64 (em_response_time_index m + 1)) (em_last_success_at m) m).
Proof. by rewrite alone_bind. Qed.

Lemma store_health_alone i m :
  alone i store_health_steps m =
    Some (tt, set_health (health_of_rate (error_rate m) (em_degraded_threshold m) (em_unhealthy_threshold m)) m).
Proof.
  unfold store_health_steps, error_rate_steps. rewrite alone_bind, alone_load. unfold error_rate.
  destruct (em_request_count m <? MIN_REQUESTS_FOR_HEALTH); [|rewrite alone_load]; cbn [alone];
    by rewrite !alone_load, alone_update_last.
Qed.

Lemma update_health_alone i lag m : alone i (update_health_steps lag) m = Some (tt, update_health_status lag m).
Proof.
  unfold update_health_steps, update_health_status. rewrite alone_load.
  destruct (0 <? em_circuit_breaker_until m); [destruct (lag <? em_circuit_breaker_until m)|]; cbn [andb].
  - apply alone_update_last.
  - by rewrite alone_update, store_health_alone.
  - apply store_health_alone.
Qed.

Lemma record_success_alone i d lag m : alone i (record_success_steps d lag) m = Some (tt, record_success d lag m).
Proof.
  unfold record_success_steps. rewrite alone_index, !alone_update. unfold fetch_add_requests.
  rewrite !alone_update, alone_load. unfold record_success. cbv zeta.
  cbn [set_last_success set_slot set_sample set_counts em_circuit_breaker_until].
  destruct ((0 <? em_circuit_breaker_until m) && (em_circuit_breaker_until m <=? wrap_u64 lag));
    [rewrite !alone_update|]; apply update_health_alone.
Qed.

Lemma record_failure_alone i lag m : alone i (record_failure_steps lag) m = Some (tt, record_failure lag m).
Proof.
  unfold record_failure_steps, fetch_add_errors, fetch_add_requests. rewrite !alone_update. apply update_health_alone.
Qed.

(** ** Counting, whatever the other calls do *)

(** Counters wrap around at 64 bits. *)
Definition mod64 (x y : Z) : Prop := wrap_u64 x = wrap_u64 y.

#[export] Instance mod64_equivalence : Equivalence mod64.
Proof. split; unfold mod64; [done|by intros x y ->|by intros x y z -> ->]. Qed.
#[export] Instance mod64_add : Proper (mod64 ==> mod64 ==> mod64) Z.add.
Proof.
  unfold mod64, wrap_u64. intros x x' Hx y y' Hy. by rewrite Zplus_mod, Hx, Hy, <- Zplus_mod.
Qed.
Lemma mod64_to x y z : mod64 x y → y = z → mod64 x z.
Proof. by intros ? <-. Qed.
Lemma mod64_wrap x : mod64 (wrap_u64 x) x.
Proof. unfold mod64, wrap_u64. by rewrite Z.mod_mod. Qed.

(** A field that counts: what the three [fetch_add]s add to it, up to the wrap,
    and that nothing else writes it. *)
Class Counter (fld : EndpointMetrics → Z) (of_index of_request of_error : Z) := {
  cn_health h m : fld (set_health h m) = fld m;
  cn_breaker u a m : fld (set_breaker u a m) = fld m;
  cn_sample times last_success m : fld (set_sample times (em_response_time_index m) last_success m) = fld m;
  cn_index times last_success m :
    mod64 (fld (set_sample times (wrap_u64 (em_response_time_index m + 1)) last_success m)) (fld m + of_index);
  cn_request m : mod64 (fld (set_counts (em_error_count m) (wrap_u64 (em_request_count m + 1)) m)) (fld m + of_request);
  cn_error m : mod64 (fld (set_counts (wrap_u64 (em_error_count m + 1)) (em_request_count m) m)) (fld m + of_error)
}.

#[export] Instance request_counter : Counter em_request_count 0 1 0.
Proof. split; intros; cbn; rewrite ?Z.add_0_r; [done..|apply mod64_wrap|done]. Qed.
#[export] Instance error_counter : Counter em_error_count 0 0 1.
Proof. split; intros; cbn; rewrite ?Z.add_0_r; [done..|apply mod64_wrap]. Qed.
#[export] Instance index_counter : Counter em_response_time_index 1 0 0.
Proof. split; intros; cbn; rewrite ?Z.add_0_r; [done..|apply mod64_wrap|done|done]. Qed.

Section counting.
Context (fld : EndpointMetrics → Z) {of_index of_request of_error : Z} `{!Counter fld of_index of_request of_error}.

Abbreviation counts := (pays (L := Access) (I := Around) (λ _, True) fld mod64 (λ l _, l = AcMetrics)).

Lemma counts_load {A B} (g : EndpointMetrics → A) (k : A → Steps B) Q spent :
  (∀ v, counts Q (k v) spent) → counts Q (bind (load g) k) spent.
Proof.
  intros Hk. eapply (pays_bind _ _ _ _ (λ _ x, x = spent)); [|intros v ? ->; apply Hk].
  apply pays_atomic; [done|]. intros i m _. split; [done|]. exists spent. cbn. by rewrite Z.sub_diag, Z.add_0_r.
Qed.

Lemma counts_step {A B} (c : EndpointMetrics → A * EndpointMetrics) δ (k : A → Steps B) Q spent :
  (∀ m, mod64 (fld (c m).2) (fld m + δ)) → (∀ v, counts Q (k v) (spent + δ)) →
  counts Q (bind (atomic AcMetrics (λ _, c)) k) spent.
Proof.
  intros Hf Hk. eapply (pays_bind _ _ _ _ (λ _ x, x = spent + δ)); [|intros v ? ->; apply Hk].
  apply pays_atomic; [done|]. intros i m _. split; [done|]. exists (spent + δ). cbn.
  replace (spent + δ - spent) with δ by lia. done.
Qed.

Lemma counts_same {B} f (k : unit → Steps B) Q spent :
  (∀ m, fld (f m) = fld m) → counts Q (k tt) spent → counts Q (bind (update f) k) spent.
Proof.
  intros Hf Hk. eapply (counts_step (λ m, (tt, f m)) 0); [|intros []; by rewrite Z.add_0_r].
  intros m. cbn. by rewrite Hf, Z.add_0_r.
Qed.

Lemma counts_same_last f (Q : unit → Z → Prop) spent :
  (∀ m, fld (f m) = fld m) → Q tt spent → counts Q (update f) spent.
Proof.
  intros Hf HQ. apply pays_atomic; [done|]. intros i m _. split; [done|]. exists spent. cbn.
  by rewrite Hf, Z.sub_diag, Z.add_0_r.
Qed.

Lemma health_counts lag spent : counts (λ _ x, x = spent) (update_health_steps lag) spent.
Proof.
  assert (Hs : counts (λ _ x, x = spent) store_health_steps spent).
  { unfold store_health_steps. eapply (pays_bind _ _ _ _ (λ _ x, x = spent)).
    - unfold error_rate_steps. apply counts_load. intros r. destruct (r <? _); [done|]. by apply counts_load.
    - intros rate ? ->. apply counts_load. intros d. apply counts_load. intros u.
      apply counts_same_last; [|done]. intros m. apply cn_health. }
  unfold update_health_steps. apply counts_load. intros cb. destruct (0 <? cb); [|done].
  destruct (lag <? cb).
  - apply counts_same_last; [|done]. intros m. apply cn_health.
  - apply counts_same; [|done]. intros m. apply cn_breaker.
Qed.

Lemma record_success_counts d lag spent :
  counts (λ _ x, x = spent + (of_index + of_request)) (record_success_steps d lag) spent.
Proof.
  unfold record_success_steps, fetch_add_index, fetch_add_requests, update. cbv zeta.
  eapply counts_step; [intros m; apply cn_index|]. intros index.
  apply counts_same; [intros m; apply cn_sample|]. eapply counts_step; [intros m; apply cn_request|]. intros _.
  apply counts_same; [intros m; apply cn_sample|]. apply counts_load. intros cb.
  replace (spent + (of_index + of_request)) with (spent + of_index + of_request) by lia.
  destruct (_ && _); [|apply health_counts].
  do 2 (apply counts_same; [intros m; apply cn_breaker|]). apply health_counts.
Qed.

Lemma record_failure_counts lag spent :
  counts (λ _ x, x = spent + (of_error + of_request)) (record_failure_steps lag) spent.
Proof.
  unfold record_failure_steps, fetch_add_errors, fetch_add_requests, update.
  eapply counts_step; [intros m; apply cn_error|]. intros _. eapply counts_step; [intros m; apply cn_request|]. intros _.
  replace (spent + (of_error + of_request)) with (spent + of_error + of_request) by lia. apply health_counts.
Qed.
End counting.

(** ** Ending *)

Abbreviation ends := (within (L := Access) (I := Around) (S := EndpointMetrics) (λ _, True) (λ _ _, False) (λ _, True)).

Lemma ends_access {A B} n (c : EndpointMetrics → A * EndpointMetrics) (k : A → Steps B) :
  (∀ a, ends (k a) n) → ends (bind (atomic AcMetrics (λ _, c)) k) (S n).
Proof. intros Hk. apply (within_bind _ _ (λ _, True) _ _ _ 1 n); [by apply within_atomic|auto]. Qed.

Lemma ends_last {A} n (c : EndpointMetrics → A * EndpointMetrics) : ends (atomic AcMetrics (λ _, c)) (S n).
Proof. eapply within_le; [by apply within_atomic|lia]. Qed.

Lemma health_ends lag : ends (update_health_steps lag) 7.
Proof.
  assert (Hs : ends store_health_steps 5).
  { apply (within_bind _ _ (λ _, True) _ _ _ 2 3).
    - apply ends_access. intros r. destruct (r <? _); [done|]. by apply ends_access.
    - intros rate _. do 2 (apply ends_access; intros ?). apply ends_last. }
  apply ends_access. intros cb. destruct (0 <? cb); [destruct (lag <? cb)|].
  - apply ends_last.
  - apply ends_access. by intros _.
  - eapply within_le; [exact Hs|lia].
Qed.

Lemma record_success_ends d lag : ends (record_success_steps d lag) 14.
Proof.
  unfold record_success_steps. cbv zeta. do 5 (apply ends_access; intros ?).
  destruct (_ && _); [do 2 (apply ends_access; intros ?); apply health_ends|].
  eapply within_le; [apply health_ends|lia].
Qed.

Lemma record_failure_ends lag : ends (record_failure_steps lag) 9.
Proof. do 2 (apply ends_access; intros ?). apply health_ends. Qed.

(** ** A stale health *)

(** A failure that brings the endpoint to 5 errors in 10 requests, and the three
    successes recorded while it is about to store the health it computed. *)
Definition stale_start : EndpointMetrics := set_counts 4 9 (metrics_new "" "" 0).
Definition stale_schedule : list (nat * Around) :=
  (λ i, (i, mkAround 0 false)) <$> (replicate 7 0%nat ++ replicate 11 1%nat ++ replicate 11 2%nat ++ replicate 11 3%nat ++ [0%nat]).


Definition stale_calls : list (Steps unit) :=
  record_failure_steps 0 :: replicate 3 (record_success_steps (from_millis 5) 0).

(** The failure's store comes last: every call has ended, the counters say 5
    errors in 13 requests, which is degraded, and the health is unhealthy. *)
Example stale_health :
  let '(calls, m) := run_turns stale_schedule (stale_calls, stale_start) in
  calls = replicate 4 (Ret tt) ∧ em_error_count m = 5 ∧ em_request_count m = 13 ∧
  health (update_health_status 0 m) = Degraded ∧ health m = Unhealthy.
Proof. vm_compute. split_and!; reflexivity. Qed.
