(* ===== verification/RpcCalls.v ===== *)
(** * Concurrent calls of the RPC client

    [execute_unary] of [src/crate/utils/src/rpc/client.rs] with
    [select_endpoint] of [pool.rs], access by access, for any number of calls at
    the same time: the semaphores, the metrics of the endpoints and the network
    are shared, the calls take turns in any order.  The permits are as many as
    tokio's semaphores have; any waiting call may get a free one, which includes
    their order of arrival.  One endpoint's score is read at once. *)

From S2P Require Import Prelude Types Float Metrics Pool RpcClient Threads Atomics.

Section calls.
Context {P N : Type} (lag delay : Z).
Abbreviation World := (RpcWorld P N).
Abbreviation Calls := (Prog Access Around World).

Definition access {A} (l : Access) (c : Comp World A) : Calls A := atomic l (λ _, c).

(** A clock read, after whatever time has passed. *)
Definition read_clock : Calls Z :=
  atomic AcClock (λ i w,
    let now := rw_clock w + Z.max 0 (ar_elapsed i) in
    (now, set_env now (rw_waits w) (rw_draws w) (rw_net w) w)).

(** The metrics of an endpoint, through the [Arc] that a choice hands out. *)
Definition metrics_at (actor : SelectActor) (chain_id : ChainId) (idx : nat) (w : World) : EndpointMetrics :=
  default (metrics_new "" "" 0) (pool ← get_pool actor chain_id w; ee_metrics <$> ep_endpoints pool !! idx).
Definition put_metrics (actor : SelectActor) (chain_id : ChainId) (idx : nat) (m : EndpointMetrics) : World → World :=
  alter_pool actor chain_id (update_metrics idx (λ _, m)).

Definition read_metrics {A} actor chain_id idx (g : EndpointMetrics → A) : Calls A :=
  access AcRead (λ w, (g (metrics_at actor chain_id idx w), w)).

(** Source: [crate/utils/src/rpc/pool.rs] lines 80-110, [get_semaphore (concurrent)].
    The call waits while no permit is free and its timeout is not over. *)
Definition get_semaphore_steps (timeout : Z) (actor : SelectActor) : Calls (result unit LobbyRpcError) :=
  Act (AcSemaphore actor) (λ i w,
    if 0 <? permits actor w then Some (Ret (Ok tt), add_permits actor (-1) w)
    else if ar_timeout i then Some (Ret (Err (PermitAcquisitionTimeout timeout)), w)
    else None).

Definition release (actor : SelectActor) : Calls unit := access (AcRelease actor) (drop_permit actor).

(** ** Selection *)

Section selection.
Context (actor : SelectActor) (chain_id : ChainId).

(** Source: [crate/utils/src/rpc/pool.rs] lines 410-431, [select_circuit_breaker_recovery (accesses)]. *)
Fixpoint recovery_steps (now : Z) (idx n : nat) : Calls nat :=
  match n with
  | O => Ret O
  | S n =>
      breaker ↤ read_metrics actor chain_id idx (circuit_breaker_until (now + delay) lag) ;;
      match breaker with
      | Some expiry => if expiry <? now then Ret idx else recovery_steps now (S idx) n
      | None => recovery_steps now (S idx) n
      end
  end.

(** Source: [crate/utils/src/rpc/pool.rs] lines 325-335, [select_by_weighted_score (scores, accesses)]. *)
Fixpoint scores_steps (idx n : nat) : Calls (list (nat * f64)) :=
  match n with
  | O => Ret []
  | S n =>
      score ↤ read_metrics actor chain_id idx load_balancing_score ;;
      rest ↤ scores_steps (S idx) n ;;
      Ret (if f64_gt score f64_zero then (idx, score) :: rest else rest)
  end.

(** Source: [crate/utils/src/rpc/pool.rs] lines 318-369, [select_by_weighted_score (accesses)]. *)
Definition weighted_steps (draw : f64) (n : nat) : Calls (option nat) :=
  match n with
  | O => Ret None
  | S _ =>
      scored ↤ scores_steps 0 n ;;
      match scored with
      | [] =>
          now ↤ read_clock ;;
          idx ↤ recovery_steps (now / 1000000) 0 n ;;
          Ret (Some idx)
      | _ => Ret (roulette_index (f64_mul draw (total_score scored)) scored)
      end
  end.

(** Source: [crate/utils/src/rpc/pool.rs] lines 380-402, [select_by_sticky_session (accesses)]. *)
Definition sticky_steps (draw : f64) (sticky_index n : nat) : Calls (option nat) :=
  if (sticky_index <? n)%nat then
    available ↤ read_metrics actor chain_id sticky_index is_available ;;
    if available : bool then Ret (Some sticky_index) else weighted_steps draw n
  else weighted_steps draw n.

(** Source: [crate/utils/src/rpc/pool.rs] lines 297-309, [select_endpoint (accesses)]. *)
Definition select_steps (draw : f64) (strategy : LoadBalancingStrategy) (n : nat) : Calls (option nat) :=
  match strategy with
  | WeightedLeastResponseTime => weighted_steps draw n
  | StickySession i => sticky_steps draw i n
  end.

(** Source: [crate/utils/src/rpc/client.rs] lines 128-180, [acquire_unary_context (accesses)].
    The endpoints of a pool are fixed once the client is built. *)
Definition acquire_steps (sticky_index : option nat) (timeout : Z) : Calls (result (UnaryContext P) LobbyRpcError) :=
  permit ↤ get_semaphore_steps timeout actor ;;
  match permit with
  | Err e => Ret (Err e)
  | Ok _ =>
      found ↤ access AcPool (λ w, (get_pool actor chain_id w, w)) ;;
      match found with
      | None => _ ↤ release actor ;; Ret (Err (NoEndpointsAvailable chain_id))
      | Some pool =>
          let strategy := match sticky_index with
                          | Some index => StickySession index
                          | None => WeightedLeastResponseTime
                          end in
          draw ↤ access AcDraw next_draw ;;
          choice ↤ select_steps draw strategy (length (ep_endpoints pool)) ;;
          match choice ≫= choice_at pool with
          | None => _ ↤ release actor ;; Ret (Err (AllEndpointsUnhealthy chain_id))
          | Some choice =>
              Ret (Ok (mkContext (lc_provider choice) actor chain_id (lc_index choice)
                         (endpoint_id_at pool (lc_index choice))))
          end
      end
  end.
End selection.

(** ** A call *)

(** The result of a call and, for what is proved of it, the endpoint that
    answered and whether its answer is a result. *)
Record Ended (R : Type) := mkEnded {
  en_result : result R LobbyRpcError;
  en_served : option (SelectActor * ChainId * nat * bool)
}.
Arguments mkEnded {R}.
Arguments en_result {R}.
Arguments en_served {R}.

(** The metrics of a context, access by access. *)
Definition recorded (ctx : UnaryContext P) : Prog Access Around EndpointMetrics unit → Calls unit :=
  zoom (metrics_at (uc_actor ctx) (uc_chain_id ctx) (uc_index ctx))
       (put_metrics (uc_actor ctx) (uc_chain_id ctx) (uc_index ctx)).

Definition served_by (ctx : UnaryContext P) (ok : bool) : SelectActor * ChainId * nat * bool :=
  (uc_actor ctx, uc_chain_id ctx, uc_index ctx, ok).

(** Source: [crate/utils/src/rpc/client.rs] lines 206-243, [execute_unary (accesses)]. *)
Definition execute_unary_steps {R} (actor : SelectActor) (chain_id : ChainId) (sticky_index : option nat)
    (timeout : Z) (operation : P → Comp (N * Z) (result R string)) : Calls (Ended R) :=
  start ↤ read_clock ;;
  acq ↤ acquire_steps actor chain_id sticky_index timeout ;;
  match acq with
  | Ok ctx =>
      res ↤ access (AcCall actor) (run_operation (operation (uc_provider ctx))) ;;
      match res with
      | Ok result =>
          now ↤ read_clock ;;
          _ ↤ recorded ctx (record_success_steps (now - start) lag) ;;
          _ ↤ release actor ;;
          Ret (mkEnded (Ok result) (Some (served_by ctx true)))
      | Err e =>
          _ ↤ recorded ctx (record_failure_steps lag) ;;
          _ ↤ release actor ;;
          Ret (mkEnded (Err (TransportError e)) (Some (served_by ctx false)))
      end
  | Err e => Ret (mkEnded (Err e) None)
  end.

(** ** The pools under an update *)

Lemma get_put_pool actor c a c' f (w : World) :
  get_pool a c' (alter_pool actor c f w) = (if decide (a = actor ∧ c' = c) then f <$> get_pool a c' w else get_pool a c' w).
Proof.
  destruct actor, a; cbn; try (rewrite decide_False by naive_solver; done);
    (destruct (decide (c' = c)) as [->|Hne];
      [rewrite decide_True by done; by rewrite lookup_alter_eq|
       rewrite decide_False by naive_solver; by rewrite lookup_alter_ne by done]).
Qed.

Definition has_endpoint (actor : SelectActor) (c : ChainId) (idx : nat) (w : World) : Prop :=
  ∃ pool, get_pool actor c w = Some pool ∧ (idx < length (ep_endpoints pool))%nat.

Lemma metrics_put actor c idx m (w : World) :
  has_endpoint actor c idx w → metrics_at actor c idx (put_metrics actor c idx m w) = m.
Proof.
  intros (pool & Hp & [e He]%lookup_lt_is_Some_2). unfold metrics_at, put_metrics.
  rewrite get_put_pool, decide_True, Hp by done. cbn. by rewrite list_lookup_alter_eq, He.
Qed.

Lemma metrics_put_other actor c idx a c' i m (w : World) :
  (a, c', i) ≠ (actor, c, idx) → metrics_at a c' i (put_metrics actor c idx m w) = metrics_at a c' i w.
Proof.
  intros Hne. unfold metrics_at, put_metrics. rewrite get_put_pool. case_decide as Hd; [|done].
  destruct Hd as [-> ->]. destruct (get_pool actor c w) as [pool|]; [|done]. cbn.
  rewrite list_lookup_alter_ne by congruence. done.
Qed.

Lemma alter_pool_ext actor c f g (w : World) :
  (∀ pool, get_pool actor c w = Some pool → f pool = g pool) → alter_pool actor c f w = alter_pool actor c g w.
Proof. intros Hfg. destruct actor; cbn; f_equal; apply alter_ext; exact Hfg. Qed.

Lemma alter_pool_id actor c f (w : World) :
  (∀ pool, get_pool actor c w = Some pool → f pool = pool) → alter_pool actor c f w = w.
Proof. intros Hf. destruct w, actor; cbn in *; unfold set_pools; cbn; f_equal; by apply alter_id. Qed.

Lemma alter_pool_compose actor c f g (w : World) :
  alter_pool actor c f (alter_pool actor c g w) = alter_pool actor c (f ∘ g) w.
Proof. destruct w, actor; cbn; unfold set_pools; cbn; f_equal; by rewrite alter_alter_eq. Qed.

Lemma put_get actor c idx (w : World) : put_metrics actor c idx (metrics_at actor c idx w) w = w.
Proof.
  apply alter_pool_id. intros pool Hp. unfold metrics_at. rewrite Hp. destruct pool as [ch es hc ts]. cbn.
  unfold update_metrics. cbn. f_equal. apply list_eq. intros i. destruct (decide (i = idx)) as [->|Hne].
  - rewrite list_lookup_alter_eq. by destruct (es !! idx) as [[pr m]|].
  - by rewrite list_lookup_alter_ne.
Qed.

Lemma put_put actor c idx m m' (w : World) :
  put_metrics actor c idx m (put_metrics actor c idx m' w) = put_metrics actor c idx m w.
Proof.
  unfold put_metrics. rewrite alter_pool_compose. apply alter_pool_ext. intros pool _.
  unfold update_metrics. cbn. f_equal. by rewrite list_alter_alter_eq.
Qed.

(** ** Alone *)

Definition quietly : Around := mkAround 0 false.

Lemma set_env_id (w : World) : set_env (rw_clock w) (rw_waits w) (rw_draws w) (rw_net w) w = w.
Proof. by destruct w. Qed.

Lemma alone_clock {B} (k : Z → Calls B) w :
  alone quietly (bind read_clock k) w = alone quietly (k (rw_clock w)) w.
Proof.
  rewrite alone_bind. unfold read_clock, atomic. cbn [alone ar_elapsed quietly].
  by rewrite Z.max_id, Z.add_0_r, set_env_id.
Qed.

Lemma alone_access {A B} l (c : Comp World A) (k : A → Calls B) w :
  alone quietly (bind (access l c) k) w = alone quietly (k (c w).1) (c w).2.
Proof. rewrite alone_bind. unfold access, atomic. cbn. by destruct (c w). Qed.

Definition scored_from (idx n : nat) (l : list (EndpointEntry P)) : list (nat * f64) :=
  omap (λ '(idx, e), let score := load_balancing_score (ee_metrics e) in
                     if f64_gt score f64_zero then Some (idx, score) else None) (zip (seq idx n) l).

Section selection_alone.
Context (actor : SelectActor) (c : ChainId) (w : World) (pool : EndpointPool P).
Hypothesis Hpool : get_pool actor c w = Some pool.
Abbreviation es := (ep_endpoints pool).

Lemma alone_read {A B} (g : EndpointMetrics → A) idx e (k : A → Calls B) :
  es !! idx = Some e →
  alone quietly (bind (read_metrics actor c idx g) k) w = alone quietly (k (g (ee_metrics e))) w.
Proof. intros He. unfold read_metrics. rewrite alone_access. cbn. unfold metrics_at. rewrite Hpool. cbn. by rewrite He. Qed.

Lemma recovery_alone now n idx :
  (idx + n = length es)%nat →
  alone quietly (recovery_steps actor c now idx n) w = Some (default O (expired_breaker now delay lag idx (drop idx es)), w).
Proof.
  revert idx; induction n as [|n IH]; intros idx Hn; cbn [recovery_steps].
  - by rewrite drop_ge by lia.
  - destruct (lookup_lt_is_Some_2 es idx) as [e He]; [lia|]. rewrite (alone_read _ _ e) by done.
    rewrite (drop_S es e idx) by done. cbn [expired_breaker].
    destruct (circuit_breaker_until _ _ _) as [expiry|]; [destruct (expiry <? now); [done|]|]; apply IH; lia.
Qed.

Lemma scores_alone n idx :
  (idx + n = length es)%nat →
  alone quietly (scores_steps actor c idx n) w =
    Some (scored_from idx n (drop idx es), w).
Proof.
  unfold scored_from. revert idx; induction n as [|n IH]; intros idx Hn; cbn [scores_steps]; [done|].
  destruct (lookup_lt_is_Some_2 es idx) as [e He]; [lia|]. rewrite (alone_read _ _ e) by done.
  rewrite alone_bind, IH by lia. rewrite (drop_S es e idx) by done. cbn.
  by destruct (f64_gt (load_balancing_score (ee_metrics e)) f64_zero).
Qed.

Lemma weighted_alone draw :
  ∃ idx, alone quietly (weighted_steps actor c draw (length es)) w = Some (idx, w) ∧
    idx ≫= choice_at pool = select_by_weighted_score (now_ms w) delay lag draw pool.
Proof.
  destruct (decide (es = [])) as [Hes|Hes].
  { exists None. unfold select_by_weighted_score. by rewrite Hes. }
  assert (∃ n, length es = S n) as [n Hn] by (destruct es; [done|by eexists]).
  unfold weighted_steps. rewrite Hn, <- Hn, alone_bind, scores_alone by done. rewrite drop_0.
  change (scored_from 0 (length es) es) with (scored_endpoints es).
  assert (Hsel : select_by_weighted_score (now_ms w) delay lag draw pool =
    match scored_endpoints es with
    | [] => select_circuit_breaker_recovery (now_ms w) delay lag pool
    | scored => idx ← roulette_index (f64_mul draw (total_score scored)) scored; choice_at pool idx
    end) by (unfold select_by_weighted_score; destruct es; done).
  rewrite Hsel. destruct (scored_endpoints es) as [|x scored].
  - cbv beta iota. rewrite alone_clock, alone_bind, recovery_alone by done. eexists. split; [done|].
    unfold select_circuit_breaker_recovery, now_ms. rewrite drop_0. cbn [mbind option_bind].
    by destruct (expired_breaker _ _ _ _ _).
  - by eexists.
Qed.

Lemma select_alone draw strategy :
  ∃ idx, alone quietly (select_steps actor c draw strategy (length es)) w = Some (idx, w) ∧
    idx ≫= choice_at pool = select_endpoint (now_ms w) delay lag draw strategy pool.
Proof.
  destruct strategy as [|i]; [apply weighted_alone|]. cbn [select_steps select_endpoint].
  destruct (weighted_alone draw) as (widx & Hw & Hwc).
  assert (Hsel : select_by_sticky_session (now_ms w) delay lag draw i pool =
    match es !! i with
    | Some e => if is_available (ee_metrics e) then choice_at pool i
                else select_by_weighted_score (now_ms w) delay lag draw pool
    | None => select_by_weighted_score (now_ms w) delay lag draw pool
    end).
  { unfold select_by_sticky_session, select_by_weighted_score, choice_at. destruct es as [|e0 l]; [done|].
    destruct ((e0 :: l) !! i) as [e|]; [by destruct (is_available (ee_metrics e))|done]. }
  rewrite Hsel. unfold sticky_steps. destruct (Nat.ltb_spec i (length es)) as [Hi|Hi].
  - destruct (lookup_lt_is_Some_2 es i Hi) as [e He]. rewrite (alone_read _ _ e), He by done.
    destruct (is_available (ee_metrics e)); [by exists (Some i)|by exists widx].
  - exists widx. split; [done|]. by rewrite lookup_ge_None_2.
Qed.
End selection_alone.

Lemma alone_release {B} actor (k : unit → Calls B) w :
  alone quietly (bind (release actor) k) w = alone quietly (k tt) (drop_permit actor w).2.
Proof. apply alone_access. Qed.

Lemma acquire_alone actor c sticky timeout (w : World) :
  0 < permits actor w →
  alone quietly (acquire_steps actor c sticky timeout) w = Some (acquire_unary_context lag delay actor c sticky timeout w).
Proof.
  intros Hp%Z.ltb_lt. unfold acquire_steps, acquire_unary_context, cbind_ok, get_semaphore_steps, get_semaphore.
  rewrite alone_bind. cbn [alone]. rewrite Hp. set (w1 := add_permits actor (-1) w). cbn [alone].
  rewrite alone_access. cbn [fst snd]. destruct (get_pool actor c w1) as [pool|] eqn:Hpool.
  2:{ by rewrite alone_release. }
  cbv zeta. rewrite alone_access. pose proof (next_draw_effect w1) as [Hsame _].
  destruct (next_draw w1) as [draw w2]. cbn [fst snd] in *. rewrite alone_bind.
  rewrite <- (same_pools_get actor c _ _ Hsame) in Hpool.
  set (strategy := match sticky with Some index => _ | None => _ end).
  destruct (select_alone actor c w2 pool Hpool draw strategy) as (idx & -> & Hsel). rewrite <- Hsel.
  destruct (idx ≫= choice_at pool) as [choice|].
  - done.
  - cbv beta iota. by rewrite alone_release.
Qed.

Lemma recorded_alone ctx p f (w : World) :
  has_endpoint (uc_actor ctx) (uc_chain_id ctx) (uc_index ctx) w →
  (∀ m, alone quietly p m = Some (tt, f m)) →
  alone quietly (recorded ctx p) w =
    Some (tt, alter_pool (uc_actor ctx) (uc_chain_id ctx) (update_metrics (uc_index ctx) f) w).
Proof.
  intros Hhas Hp. unfold recorded. rewrite (alone_zoom _ _ (has_endpoint (uc_actor ctx) (uc_chain_id ctx) (uc_index ctx))).
  - rewrite Hp. f_equal. f_equal. apply alter_pool_ext. intros pool Hpool. unfold update_metrics. f_equal.
    apply list_eq. intros i. destruct (decide (i = uc_index ctx)) as [->|Hne].
    + rewrite !list_lookup_alter_eq. unfold metrics_at. rewrite Hpool. cbn.
      by destruct (ep_endpoints pool !! uc_index ctx).
    + by rewrite !list_lookup_alter_ne.
  - intros m w' (pool & Hpool & Hidx). unfold has_endpoint, put_metrics. rewrite get_put_pool, decide_True, Hpool by done.
    eexists. split; [done|]. cbn. by rewrite length_alter.
  - intros m w'. apply metrics_put.
  - intros. apply put_get.
  - intros. apply put_put.
  - done.
Qed.

(** a call whose accesses are not interrupted is the call of [RpcClient.v]: the
    same result, permits, metrics and network, whenever a permit is free. *)
Theorem execute_unary_alone {R} actor c sticky timeout (operation : P → Comp (N * Z) (result R string)) (w : World) :
  0 < permits actor w →
  ∃ served, alone quietly (execute_unary_steps actor c sticky timeout operation) w =
    (let '(r, w') := execute_unary lag delay actor c sticky timeout operation w in Some (mkEnded r served, w')).
Proof.
  intros Hp. unfold execute_unary_steps, execute_unary. rewrite alone_clock, alone_bind, acquire_alone by done.
  destruct (acquire_unary_context lag delay actor c sticky timeout w) as [[ctx|e] w1] eqn:Hacq; [|by exists None].
  apply acquire_effect in Hacq as (Hsame & _ & Ha & Hc & pool & e0 & Hpool & He0).
  rewrite alone_access. pose proof (run_operation_effect (operation (uc_provider ctx)) w1) as [Hsame2 _].
  destruct (run_operation (operation (uc_provider ctx)) w1) as [res w2]. cbn [fst snd] in *.
  assert (Hhas : has_endpoint (uc_actor ctx) (uc_chain_id ctx) (uc_index ctx) w2).
  { exists pool. rewrite Ha, Hc, !(same_pools_get actor c _ _ Hsame2), (same_pools_get actor c _ _ Hsame).
    split; [done|]. by eapply lookup_lt_Some. }
  destruct res as [r|e]; [rewrite alone_clock|]; rewrite alone_bind.
  - rewrite (recorded_alone ctx _ (record_success (rw_clock w2 - rw_clock w) lag)) by
      (done || intros m; apply record_success_alone).
    rewrite alone_release. by eexists.
  - rewrite (recorded_alone ctx _ (record_failure lag)) by (done || intros m; apply record_failure_alone).
    rewrite alone_release. by eexists.
Qed.
End calls.
Arguments mkEnded {R}.
Arguments en_result {R}.
Arguments en_served {R}.

(** ** Accounting for a call *)

Section accounting.
Context {P N : Type} (lag delay : Z) (w0 : RpcWorld P N).
Abbreviation World := (RpcWorld P N).
Abbreviation Calls := (Prog Access Around World).

Definition pool_size (a : SelectActor) (c : ChainId) (w : World) : option nat :=
  length ∘ ep_endpoints <$> get_pool a c w.

(** Between any two accesses: the pools are as large as at first, and no
    semaphore owes a permit. *)
Definition steady (w : World) : Prop :=
  (∀ a c, pool_size a c w = pool_size a c w0) ∧ ∀ a, 0 ≤ permits a w.

Lemma steady_endpoint a c n idx w :
  steady w → pool_size a c w0 = Some n → (idx < n)%nat → has_endpoint a c idx w.
Proof.
  intros [Hs _] Hn Hi. specialize (Hs a c). rewrite Hn in Hs.
  apply fmap_Some in Hs as (pool & Hp & ->). by exists pool.
Qed.

Lemma steady_same w w' : steady w → same_pools w w' → (∀ a, 0 ≤ permits a w') → steady w'.
Proof.
  intros [Hs _] Hsame Hp. split; [|done]. intros a c. rewrite <- Hs. unfold pool_size.
  by rewrite (same_pools_get _ _ _ _ Hsame).
Qed.

Lemma steady_permit a n w : steady w → 0 ≤ permits a w + n → steady (add_permits a n w).
Proof.
  intros Hs Hn. apply (steady_same w); [done|by destruct a|]. intros b. rewrite permits_add.
  destruct Hs as [_ Hp]. specialize (Hp b). case_decide as Hd; [by destruct Hd|lia].
Qed.

Lemma steady_put a c idx m w : steady w → steady (put_metrics a c idx m w).
Proof.
  intros [Hs Hp]. split; [|intros b; unfold put_metrics; rewrite alter_pool_permits; apply Hp].
  intros b d. rewrite <- Hs. unfold pool_size, put_metrics. rewrite get_put_pool. case_decide; [|done].
  destruct (get_pool b d w); [|done]. cbn. by rewrite length_alter.
Qed.

(** A quantity that the permits held and the recorded answers change. *)
Context (q : World → Z) (E : relation Z) `{!Equivalence E, !Proper (E ==> E ==> E) Z.add} (G : Access → Z → Prop).
Context (actor : SelectActor) (held : Z) (gain : SelectActor * ChainId * nat * bool → Z).
Hypothesis q_same : ∀ w w', same_pools w w' → (∀ a, permits a w' = permits a w) → q w' = q w.
Hypothesis q_permit : ∀ n w, q (add_permits actor n w) = q w + n * held.
Hypothesis G_start : G AcClock 0 ∧ G (AcSemaphore actor) 0.
Hypothesis G_held : ∀ l, (∀ a, l ≠ AcSemaphore a) → (∀ a, l = AcCall a → a = actor) → G l (- held).

Abbreviation paid := (pays (I := Around) steady q E G).

Lemma paid_access {A B} (Q : A → Prop) l (c : Comp World A) (k : A → Calls B) Q' spent :
  G l spent → (∀ w, steady w → same_pools w (c w).2 ∧ (∀ a, permits a (c w).2 = permits a w) ∧ Q (c w).1) →
  (∀ a, Q a → paid Q' (k a) spent) → paid Q' (bind (access l c) k) spent.
Proof.
  intros HG Hc Hk. eapply (pays_bind _ _ _ _ (λ a x, x = spent ∧ Q a)); [|intros a ? [-> Ha]; by apply Hk].
  apply pays_atomic; [done|]. intros i w Hw. destruct (Hc w Hw) as (Hsame & Hp & HQ). split.
  - apply (steady_same w); [done..|]. intros a. rewrite Hp. apply Hw.
  - exists spent. rewrite (q_same _ _ Hsame Hp), Z.sub_diag, Z.add_0_r. done.
Qed.

Lemma paid_clock {B} (k : Z → Calls B) Q spent :
  G AcClock spent → (∀ now, paid Q (k now) spent) → paid Q (bind read_clock k) spent.
Proof.
  intros HG Hk. eapply (pays_bind _ _ _ _ (λ _ x, x = spent)); [|intros now ? ->; apply Hk].
  apply pays_atomic; [done|]. intros i w Hw. cbn [fst snd]. split; [by apply (steady_same w); [..|apply Hw]|].
  exists spent. rewrite (q_same w) by done. by rewrite Z.sub_diag, Z.add_0_r.
Qed.

Lemma paid_read {A B} c idx (g : EndpointMetrics → A) (k : A → Calls B) Q :
  (∀ a, paid Q (k a) (- held)) → paid Q (bind (read_metrics actor c idx g) k) (- held).
Proof. intros Hk. apply (paid_access (λ _, True)); [by apply G_held|done|auto]. Qed.

Lemma paid_release {B} (k : unit → Calls B) Q spent :
  G (AcRelease actor) spent → paid Q (k tt) (spent + held) → paid Q (bind (release actor) k) spent.
Proof.
  intros HG Hk. eapply (pays_bind _ _ _ _ (λ _ x, x = spent + held)); [|intros [] ? ->; exact Hk].
  apply pays_atomic; [done|]. intros i w Hw. cbn [drop_permit fst snd]. split.
  - apply steady_permit; [done|]. destruct Hw as [_ Hp]. specialize (Hp actor). lia.
  - exists (spent + held). rewrite q_permit. replace (q w + 1 * held) with (q w + (spent + held - spent)) by lia. done.
Qed.

(** *** Selection costs nothing *)

Lemma recovery_paid c now idx n : paid (λ _ x, x = - held) (recovery_steps lag delay actor c now idx n) (- held).
Proof.
  revert idx; induction n as [|n IH]; intros idx; [done|]. cbn [recovery_steps]. apply paid_read. intros [e|]; [|apply IH].
  destruct (e <? now); [done|apply IH].
Qed.

Lemma scores_paid c idx n : paid (λ _ x, x = - held) (scores_steps actor c idx n) (- held).
Proof.
  revert idx; induction n as [|n IH]; intros idx; [done|]. cbn [scores_steps]. apply paid_read. intros score.
  eapply pays_bind; [apply IH|]. by intros rest ? ->.
Qed.

Lemma weighted_paid c draw n : paid (λ _ x, x = - held) (weighted_steps lag delay actor c draw n) (- held).
Proof.
  destruct n as [|n]; [done|]. unfold weighted_steps. eapply pays_bind; [apply scores_paid|].
  intros [|x scored] ? ->; [|done]. apply paid_clock; [by apply G_held|]. intros now.
  eapply pays_bind; [apply recovery_paid|]. by intros idx ? ->.
Qed.

Lemma select_paid c draw strategy n : paid (λ _ x, x = - held) (select_steps lag delay actor c draw strategy n) (- held).
Proof.
  destruct strategy as [|i]; [apply weighted_paid|]. cbn [select_steps]. unfold sticky_steps.
  destruct (i <? n)%nat; [|apply weighted_paid]. apply paid_read. intros []; [done|apply weighted_paid].
Qed.

(** *** A call takes a permit, and gives it back *)

Definition valid_context (c : ChainId) (ctx : UnaryContext P) : Prop :=
  uc_actor ctx = actor ∧ uc_chain_id ctx = c ∧ ∃ n, pool_size actor c w0 = Some n ∧ (uc_index ctx < n)%nat.

Definition acquired (c : ChainId) (r : result (UnaryContext P) LobbyRpcError) (spent : Z) : Prop :=
  match r with Ok ctx => spent = - held ∧ valid_context c ctx | Err _ => spent = 0 end.

Lemma semaphore_paid timeout :
  paid (λ r x, x = match r with Ok _ => - held | Err _ => 0 end) (get_semaphore_steps timeout actor) 0.
Proof.
  split; [by destruct G_start|]. intros i w Hw. destruct (Z.ltb_spec 0 (permits actor w)) as [Hp|Hp].
  - split; [apply steady_permit; [done|lia]|]. exists (- held). split; [|done].
    rewrite q_permit. replace (q w + -1 * held) with (q w + (- held - 0)) by lia. done.
  - destruct (ar_timeout i); [|done]. split; [done|]. exists 0. split; [|done]. by rewrite Z.add_0_r.
Qed.

Lemma released c (e : LobbyRpcError) : paid (acquired c) (_ ↤ release actor ;; Ret (Err e)) (- held).
Proof. apply paid_release; [by apply G_held|]. change (- held + held = 0). lia. Qed.

Lemma acquire_paid c sticky timeout : paid (acquired c) (acquire_steps lag delay actor c sticky timeout) 0.
Proof.
  unfold acquire_steps. eapply pays_bind; [apply semaphore_paid|]. intros [[]|e] ? ->; [|done].
  apply (paid_access (λ found, option_map (length ∘ ep_endpoints) found = pool_size actor c w0)).
  - by apply G_held.
  - intros w Hw. split_and!; [done..|]. cbn. apply Hw.
  - intros [pool|] Hsize; [|apply released].
    apply (paid_access (λ _, True)); [by apply G_held| |].
    { intros w _. destruct (next_draw_effect w) as [H1 H2]. auto. }
    intros draw _. eapply pays_bind; [apply select_paid|]. intros idx ? ->.
    destruct (idx ≫= choice_at pool) as [choice|] eqn:Hc;
      [|apply released].
    split; [done|]. split; [done|]. split; [done|]. exists (length (ep_endpoints pool)). split; [done|]. cbn.
    destruct idx as [idx|]; [|done]. apply choice_at_index in Hc as [e He]. by eapply lookup_lt_Some.
Qed.

(** What a call that has ended adds, and that its answer is what it says. *)
Definition gained {R} (en : Ended R) : Z := match en_served en with Some sv => gain sv | None => 0 end.
Definition honest {R} (en : Ended R) : Prop :=
  match en_served en with
  | Some sv => sv.2 = is_ok (en_result en)
  | None => is_ok (en_result en) = false
  end.

Hypothesis success_recorded : ∀ c ctx d, valid_context c ctx →
  paid (λ _ x, x = gain (served_by ctx true) - held) (recorded ctx (record_success_steps d lag)) (- held).
Hypothesis failure_recorded : ∀ c ctx, valid_context c ctx →
  paid (λ _ x, x = gain (served_by ctx false) - held) (recorded ctx (record_failure_steps lag)) (- held).
Hypothesis G_release : ∀ ok sv, sv.2 = ok → G (AcRelease actor) (gain sv - held).

Lemma call_paid {R} c sticky timeout (operation : P → Comp (N * Z) (result R string)) :
  paid (λ en x, x = gained en ∧ honest en) (execute_unary_steps lag delay actor c sticky timeout operation) 0.
Proof.
  unfold execute_unary_steps. apply paid_clock; [apply G_start|]. intros start.
  eapply pays_bind; [apply acquire_paid|]. intros [ctx|e] ?; [intros [-> Hctx]|by intros ->].
  apply (paid_access (λ _, True)); [by apply G_held; [|intros ? [= ->]]| |].
  { intros w _. destruct (run_operation_effect (operation (uc_provider ctx)) w). auto. }
  intros [r|e] _; [apply paid_clock; [by apply G_held|]; intros now|].
  - eapply pays_bind; [by eapply success_recorded|]. intros [] ? ->.
    apply paid_release; [by eapply G_release|]. split; [unfold gained; cbn [en_served]; lia|done].
  - eapply pays_bind; [by eapply failure_recorded|]. intros [] ? ->.
    apply paid_release; [by eapply G_release|]. split; [unfold gained; cbn [en_served]; lia|done].
Qed.
End accounting.

(** ** Witness *)

Definition echo_call : Prog Access Around (RpcWorld string unit) (Ended string) :=
  execute_unary_steps 0 0 Broadcast (mkChainId 1) (Some 1%nat) (from_secs 30) (λ provider s, (Ok provider, s)).

Lemma execute_unary_alone_witness :
  ∃ served, alone quietly echo_call ex_world =
    (let '(r, w') := execute_unary 0 0 Broadcast (mkChainId 1) (Some 1%nat) (from_secs 30)
                       (λ provider s, (Ok provider, s)) ex_world in Some (mkEnded r served, w')).
Proof. apply (execute_unary_alone 0 0 Broadcast (mkChainId 1) (Some 1%nat)). reflexivity. Defined.
