(* ===== verification/RpcConcurrent.v ===== *)
(** * Any number of RPC calls at the same time

    The calls of [RpcCalls.v] as the threads of one client: what holds whatever
    the order of their accesses. *)

From S2P Require Import Prelude Types Float Metrics Pool RpcClient Threads Atomics RpcCalls.

Section concurrent.
Context {P N R : Type} (lag delay : Z) (w0 : RpcWorld P N).
Abbreviation World := (RpcWorld P N).
Abbreviation Calls := (Prog Access Around World).

(** The arguments of [execute_unary]; [R] is the sum of the types of results. *)
Record Call := mkCall {
  cl_actor : SelectActor;
  cl_chain_id : ChainId;
  cl_sticky_index : option nat;
  cl_timeout : Z;
  cl_operation : P → Comp (N * Z) (result R string)
}.

Definition call_steps (x : Call) : Calls (Ended R) :=
  execute_unary_steps lag delay (cl_actor x) (cl_chain_id x) (cl_sticky_index x) (cl_timeout x) (cl_operation x).

Abbreviation steady := (steady w0).

(** ** Permits *)

(** Who waits for a permit has none, who waits for a reply has one. *)
Definition holding (a : SelectActor) (l : Access) (x : Z) : Prop :=
  -1 ≤ x ≤ 0 ∧
  match l with AcSemaphore _ => x = 0 | AcCall b => b = a → x = -1 | _ => True end.

Definition one_if (a b : SelectActor) : Z := if decide (a = b) then 1 else 0.

Definition no_gain (_ : SelectActor * ChainId * nat * bool) : Z := 0.

Lemma one_if_range a b : 0 ≤ one_if a b ≤ 1.
Proof. unfold one_if. case_decide; lia. Qed.

(** Recording touches no permit. *)
Lemma recorded_permits a h ctx E0 qt Q0 p x :
  0 ≤ h ≤ 1 → pays (λ _, True) qt E0 (λ l _, l = AcMetrics) Q0 p x →
  pays steady (permits a) eq (holding a) (λ _ y, y = 0 - h) (recorded ctx p) (- h).
Proof.
  intros Hh Hp. apply (pays_zoom_quiet _ _ steady) with (6 := Hp); [|typeclasses eauto|..].
  - intros m w Hw. by apply steady_put.
  - intros m w _. apply alter_pool_permits.
  - intros l y ->. split; [lia|done].
  - intros _ y _. lia.
Qed.

Lemma call_permits a (x : Call) :
  pays steady (permits a) eq (holding a) (λ en y, y = 0 ∧ honest en) (call_steps x) 0.
Proof.
  pose proof (one_if_range (cl_actor x) a) as H1.
  apply (pays_weaken _ _ _ _ (λ en y, y = gained no_gain en ∧ honest en)).
  { intros en y [-> Hh]. split; [|done]. unfold gained. by destruct (en_served en). }
  apply (call_paid _ _ _ _ eq _ _ (one_if (cl_actor x) a)).
  - intros w w' _ Hp. apply Hp.
  - intros n w. rewrite permits_add. unfold one_if. case_decide; lia.
  - split; split; done || lia.
  - intros l Hs Hc. split; [lia|]. destruct l as [|b| | | |b| |]; try done; [by destruct (Hs b)|].
    intros ->. unfold one_if. by rewrite (Hc a), decide_True.
  - intros c ctx d _. eapply recorded_permits; [done|]. apply (record_success_counts em_request_count _ _ 0).
  - intros c ctx _. eapply recorded_permits; [done|]. apply (record_failure_counts em_request_count _ 0).
  - intros ok sv _. unfold no_gain. split; [lia|done].
Qed.

(** Calls of [a] that wait for the reply of an endpoint. *)
Definition awaits_reply (a : SelectActor) (p : Calls (Ended R)) : Prop := next p = Some (AcCall a).
#[local] Instance awaits_reply_dec a p : Decision (awaits_reply a p).
Proof.
  unfold awaits_reply. destruct (next p) as [[|b| | | |b| |]|]; try (right; congruence).
  destruct (decide (b = a)) as [->|]; [by left|right; congruence].
Defined.

Definition in_flight (a : SelectActor) (threads : list (Calls (Ended R))) : Z :=
  Z.of_nat (length (filter (awaits_reply a) threads)).

Abbreviation holds a := (pays (A := Ended R) steady (permits a) eq (holding a) (λ en y, y = 0 ∧ honest en)).

Lemma holds_range a (p : Calls (Ended R)) x :
  holds a p x → -1 ≤ x ≤ 0 ∧ (awaits_reply a p → x = -1) ∧ (∀ l, next p = Some l → holding a l x) ∧
    (next p = None → x = 0).
Proof.
  destruct p as [en|l f]; [intros [-> _]|intros [[Hr Hl] _]]; (split; [lia|]).
  - by split_and!.
  - split_and!; [|by intros ? [= <-]|done]. unfold awaits_reply. cbn. intros [= ->]. by apply Hl.
Qed.

Lemma total_in_flight a threads spents :
  Forall2 (holds a) threads spents → in_flight a threads ≤ - total spents.
Proof.
  unfold in_flight, total. induction 1 as [|p x threads spents Hp _ IH]; [done|].
  apply holds_range in Hp as (Hr & Ha & _). cbn [foldr]. rewrite list.filter_cons.
  case_decide as Hd; [apply Ha in Hd; cbn [length]; lia|lia].
Qed.

Lemma total_negative a threads spents :
  Forall2 (holds a) threads spents → total spents < 0 →
  ∃ i (p : Calls (Ended R)) l, threads !! i = Some p ∧ next p = Some l ∧ ∀ b, l ≠ AcSemaphore b.
Proof.
  induction 1 as [|p x threads spents Hp _ IH]; [done|]. unfold total in *. cbn [foldr]. intros Ht.
  destruct (decide (x = 0)) as [->|Hx].
  - destruct IH as (i & p' & l & Hi & Hl); [lia|]. by exists (S i), p', l.
  - apply holds_range in Hp as (Hr & _ & Hl & Hn). destruct (next p) as [l|] eqn:Hnext; [|by rewrite Hn in Hx].
    exists O, p, l. split_and!; [done|done|]. intros b ->. specialize (Hl _ eq_refl). by destruct Hl as [_ ?].
Qed.

(** ** Accesses *)

Definition blocked (l : Access) (w : World) : Prop := ∃ a, l = AcSemaphore a ∧ permits a w ≤ 0.

Context (most : nat).
Hypothesis pools_small : ∀ a c n, pool_size a c w0 = Some n → (n ≤ most)%nat.

Abbreviation short := (within (I := Around) steady blocked).

Lemma short_access {A B} (Q : A → Prop) Q' l (c : Comp World A) (k : A → Calls B) n :
  (∀ w, steady w → steady (c w).2 ∧ Q (c w).1) → (∀ a, Q a → short Q' (k a) n) → short Q' (bind (access l c) k) (S n).
Proof. intros Hc Hk. apply (within_bind _ _ Q _ _ _ 1 n); [|done]. apply within_atomic. intros i w. apply Hc. Qed.

Lemma steady_env clock waits draws net (w : World) : steady w → steady (set_env clock waits draws net w).
Proof. intros Hw. apply (steady_same _ w); [done..|]. apply Hw. Qed.

Lemma short_clock {B} Q' (k : Z → Calls B) n : (∀ now, short Q' (k now) n) → short Q' (bind read_clock k) (S n).
Proof.
  intros Hk. apply (within_bind _ _ (λ _, True) _ _ _ 1 n); [|auto]. apply within_atomic. intros i w Hw.
  split; [by apply steady_env|done].
Qed.

Lemma short_read {A B} Q' a c idx (g : EndpointMetrics → A) (k : A → Calls B) n :
  (∀ v, short Q' (k v) n) → short Q' (bind (read_metrics a c idx g) k) (S n).
Proof. intros Hk. apply (short_access (λ _, True)); [done|auto]. Qed.

Lemma short_release {B} Q' a (k : unit → Calls B) n :
  short Q' (k tt) n → short Q' (bind (release a) k) (S n).
Proof.
  intros Hk. apply (short_access (λ _, True)); [|by intros []]. intros w Hw. split; [|done].
  apply steady_permit; [done|]. destruct Hw as [_ Hp]. specialize (Hp a). lia.
Qed.

Abbreviation any := (λ _, True).

Lemma recovery_short a c now idx n : short any (recovery_steps lag delay a c now idx n) n.
Proof.
  revert idx; induction n as [|n IH]; intros idx; [done|]. apply short_read. intros [e|]; [|apply IH].
  destruct (e <? now); [done|apply IH].
Qed.

Lemma scores_short a c idx n : short any (scores_steps a c idx n) n.
Proof.
  revert idx; induction n as [|n IH]; intros idx; [done|]. apply short_read. intros score.
  eapply within_le; [apply (within_bind _ _ any _ _ _ n 0); [apply IH|done]|lia].
Qed.

Lemma weighted_short a c draw n : short any (weighted_steps lag delay a c draw n) (2 * n + 1).
Proof.
  destruct n as [|n]; [done|]. replace (2 * S n + 1)%nat with (S n + S (S n + 0))%nat by lia.
  apply (within_bind _ _ any); [apply scores_short|]. intros [|x scored] _; [|done].
  apply short_clock. intros now. eapply within_bind; [apply recovery_short|done].
Qed.

Lemma select_short a c draw strategy n : short any (select_steps lag delay a c draw strategy n) (2 * n + 2).
Proof.
  assert (Hw : short any (weighted_steps lag delay a c draw n) (2 * n + 2)).
  { eapply within_le; [apply weighted_short|lia]. }
  destruct strategy as [|i]; [done|]. cbn [select_steps]. unfold sticky_steps. destruct (i <? n)%nat; [|done].
  replace (2 * n + 2)%nat with (S (2 * n + 1)) by lia. apply short_read. intros []; [done|apply weighted_short].
Qed.

Lemma acquire_short a c sticky timeout : short any (acquire_steps lag delay a c sticky timeout) (2 * most + 6).
Proof.
  replace (2 * most + 6)%nat with (1 + S (S ((2 * most + 2) + 1)))%nat by lia.
  apply (within_bind _ _ any).
  { exists O. split; [done|]. intros i w Hw. destruct (Z.ltb_spec 0 (permits a w)).
    - split; [apply steady_permit; [done|lia]|done].
    - destruct (ar_timeout i); [done|]. by exists a. }
  intros [[]|e] _; [|done]. apply (short_access (λ found, option_map (length ∘ ep_endpoints) found = pool_size a c w0)).
  { intros w Hw. split; [done|]. apply Hw. }
  intros [pool|] Hsize; [|by apply short_release]. apply (short_access any).
  { intros w Hw. split; [|done]. unfold next_draw. by destruct (rw_draws w); [|apply steady_env]. }
  intros draw _. apply (within_bind _ _ any).
  - eapply within_le; [apply select_short|]. pose proof (pools_small a c _ (eq_sym Hsize)). cbn in *. lia.
  - intros idx _. destruct (idx ≫= choice_at pool); [done|]. by apply short_release.
Qed.

Lemma recorded_short ctx p n : ends p n → short any (recorded (N := N) ctx p) n.
Proof. intros Hp. apply (within_zoom _ _ steady) with (3 := Hp); [|by intros]. intros m w. apply steady_put. Qed.

Definition accesses : nat := 2 * most + 24.

Lemma call_short (x : Call) : short any (call_steps x) accesses.
Proof.
  unfold accesses. replace (2 * most + 24)%nat with (S ((2 * most + 6) + S (S (14 + 1))))%nat by lia.
  apply short_clock. intros start. apply (within_bind _ _ any); [apply acquire_short|].
  intros [ctx|e] _; [|done]. apply (short_access any).
  { intros w Hw. split; [|done]. unfold run_operation. destruct (cl_operation x _ _) as [r [net clock]].
    by apply steady_env. }
  intros [r|e] _.
  - apply short_clock. intros now. apply (within_bind _ _ any); [apply recorded_short, record_success_ends|].
    intros _ _. by apply short_release.
  - eapply within_le; [apply (within_bind _ _ any any _ _ 9 1)|lia]; [apply recorded_short, record_failure_ends|].
    intros _ _. by apply short_release.
Qed.

(** ** Counters *)

Section counter.
Context (a : SelectActor) (c : ChainId) (idx : nat) (fld : EndpointMetrics → Z).
Context {of_index of_request of_error : Z} `{!Counter fld of_index of_request of_error}.

(** What an answer adds to the counter of the endpoint. *)
Definition adds (sv : SelectActor * ChainId * nat * bool) : Z :=
  if decide (sv.1 = (a, c, idx)) then (if sv.2 then of_index + of_request else of_error + of_request) else 0.

Lemma recorded_adds actor chain ctx p δ ok :
  valid_context w0 actor chain ctx → δ = (if ok : bool then of_index + of_request else of_error + of_request) →
  pays (λ _, True) fld mod64 (λ l _, l = AcMetrics) (λ _ y, y = 0 + δ) p 0 →
  pays steady (λ w, fld (metrics_at a c idx w)) mod64 (λ _ _, True) (λ _ y, y = adds (served_by ctx ok) - 0)
    (recorded ctx p) (- 0).
Proof.
  intros (<- & <- & n & Hn & Hlt) Hδ Hp. unfold recorded, adds, served_by. cbn [fst snd]. rewrite <- Hδ.
  case_decide as Hd.
  - injection Hd as <- <- <-. apply (pays_weaken _ _ _ _ (λ _ y, y = 0 + δ)); [intros _ y ->; lia|].
    eapply (pays_zoom _ _ steady); [| | | |exact Hp]; [intros m w; apply steady_put| |done..].
    intros m w Hw. apply metrics_put. by eapply steady_endpoint.
  - apply (pays_zoom_quiet _ _ steady) with (6 := Hp); [|typeclasses eauto| |done|lia].
    + intros m w. apply steady_put.
    + intros m w _. f_equal. by apply metrics_put_other.
Qed.

Lemma call_counts (x : Call) :
  pays steady (λ w, fld (metrics_at a c idx w)) mod64 (λ _ _, True) (λ en y, y = gained adds en ∧ honest en)
    (call_steps x) 0.
Proof.
  apply (call_paid _ _ _ _ _ _ _ 0).
  - intros w w' Hsame _. unfold metrics_at. by rewrite (same_pools_get _ _ _ _ Hsame).
  - intros n w. rewrite Z.mul_0_r, Z.add_0_r. unfold metrics_at. by destruct (cl_actor x), a.
  - done.
  - done.
  - intros chain ctx d Hctx. eapply recorded_adds; [done|reflexivity|]. apply (record_success_counts fld).
  - intros chain ctx Hctx. eapply (recorded_adds _ _ _ _ _ false); [done|reflexivity|]. apply (record_failure_counts fld).
  - done.
Qed.
End counter.
Arguments adds : clear implicits.

(** The calls that the endpoint answered, with a result or with an error. *)
Definition answered (a : SelectActor) (c : ChainId) (idx : nat) (ok : bool) (ens : list (Ended R)) : Z :=
  Z.of_nat (length (filter (λ en, en_served en = Some (a, c, idx, ok)) ens)).

Lemma total_adds a c idx fld of_index of_request of_error `{!Counter fld of_index of_request of_error} ens :
  total (gained (adds a c idx of_index of_request of_error) <$> ens) =
    (of_index + of_request) * answered a c idx true ens + (of_error + of_request) * answered a c idx false ens.
Proof.
  unfold answered, total. induction ens as [|en ens IH]; [cbn; lia|].
  cbn [fmap list_fmap foldr]. cbn [fmap] in IH. rewrite IH, !list.filter_cons. unfold gained, adds.
  destruct (en_served en) as [[sv []]|]; cbn [fst snd]; repeat case_decide; simplify_eq; cbn [length]; lia.
Qed.

(** ** Every schedule *)

Lemma total_zero {A} (l : list A) : total ((λ _, 0) <$> l) = 0.
Proof. unfold total. by induction l. Qed.

(** What is accounted for during any schedule of the calls. *)
Lemma run_accounted (calls : list Call) (q : World → Z) E G Q sched
    `{!Equivalence E, !Proper (E ==> E ==> E) Z.add} :
  steady w0 → (∀ x, pays steady q E G Q (call_steps x) 0) →
  accounted steady q E G Q (q w0) (run_turns sched (call_steps <$> calls, w0)).
Proof.
  intros Hs Hq. apply (accounted_run _ _ _ _ _ _ _ _ Hs). apply Forall_fmap, Forall_true. intros x. apply Hq.
Qed.

Lemma permits_accounted a calls sched :
  steady w0 →
  let st := run_turns sched (call_steps <$> calls, w0) in
  ∃ spents, Forall2 (holds a) st.1 spents ∧ permits a st.2 = permits a w0 + total spents ∧ 0 ≤ permits a st.2.
Proof.
  intros Hs st. pose proof (run_accounted calls (permits a) eq _ _ sched Hs (call_permits a)) as (Hst & spents & Hf & He).
  exists spents. split_and!; [done..|apply Hst].
Qed.

Lemma counter_accounted a c idx fld of_index of_request of_error `{!Counter fld of_index of_request of_error}
    calls sched ens w :
  steady w0 → run_turns sched (call_steps <$> calls, w0) = (Ret <$> ens, w) →
  mod64 (fld (metrics_at a c idx w))
    (fld (metrics_at a c idx w0) + ((of_index + of_request) * answered a c idx true ens +
                                    (of_error + of_request) * answered a c idx false ens)).
Proof.
  intros Hs Hrun. rewrite <- (total_adds a c idx fld of_index of_request of_error).
  pose proof (run_accounted calls (λ w, fld (metrics_at a c idx w)) mod64 _ _ sched Hs (call_counts a c idx fld)) as Hacc.
  rewrite Hrun in Hacc. apply (accounted_ended _ _ _ _ _ (gained (adds a c idx of_index of_request of_error)) _ _ _) with (2 := Hacc); [|done].
  by intros en y [-> _].
Qed.

Lemma ended_honest calls sched ens w :
  steady w0 → run_turns sched (call_steps <$> calls, w0) = (Ret <$> ens, w) →
  Forall honest ens ∧ ∀ a, permits a w = permits a w0.
Proof.
  intros Hs Hrun. split.
  - destruct (permits_accounted Broadcast calls sched Hs) as (spents & Hf & _). rewrite Hrun in Hf. cbn [fst] in Hf.
    clear Hrun. revert spents Hf. induction ens as [|en ens IH]; [done|]. intros spents Hf.
    apply Forall2_cons_inv_l in Hf as (x & spents' & [_ Hh] & Hf & _). constructor; [done|by eapply IH].
  - intros a. pose proof (run_accounted calls (permits a) eq _ _ sched Hs (call_permits a)) as Hacc. rewrite Hrun in Hacc.
    eapply (accounted_ended _ _ _ _ _ (λ _, 0)) in Hacc; [|by intros ? ? [-> _]|done].
    cbn [snd] in Hacc. by rewrite Hacc, total_zero, Z.add_0_r.
Qed.

Lemma calls_within calls :
  steady w0 → pool_within steady blocked any (call_steps <$> calls, w0) (replicate (length calls) accesses).
Proof.
  intros Hs. split; [done|]. cbn [fst]. rewrite <- (length_fmap call_steps). apply Forall2_replicate_r; [done|].
  apply Forall_fmap, Forall_true. intros x. apply call_short.
Qed.

(** A call that waits for a permit waits for one that can move. *)
Lemma some_call_moves calls sched inp i p l :
  steady w0 → (∀ a, 0 < permits a w0) →
  let st := run_turns sched (call_steps <$> calls, w0) in
  st.1 !! i = Some p → next p = Some l → ∃ j, is_Some (turn (j, inp) st).
Proof.
  intros Hs Hp0 st Hi Hl. destruct (pool_within_run _ _ _ sched _ _ (calls_within calls Hs)) as [ns Hns].
  fold st in Hns. destruct (turn_or_wait _ _ _ i inp st ns p l Hns Hi Hl) as [Hm|(a & _ & Hw)]; [by exists i|].
  destruct (permits_accounted a calls sched Hs) as (spents & Hf & He & _). fold st in Hf, He. specialize (Hp0 a).
  destruct (total_negative a _ _ Hf) as (j & p' & l' & Hj & Hl' & Hns'); [lia|].
  destruct (turn_or_wait _ _ _ j inp st ns p' l' Hns Hj Hl') as [Hm|(b & -> & _)]; [by exists j|by destruct (Hns' b)].
Qed.

(** C12: any number of calls of one client, their accesses to the semaphores, the
    endpoints' atomics and the network interleaved in any order.  No more calls
    of an actor wait for a reply than its semaphore had permits, and together
    with the free permits they never exceed it; as long as a call has not ended
    some call can move, timeouts or not, and no schedule moves them more often
    than the accesses they consist of.  When all have ended, every permit is
    back, every answer is a result exactly if the endpoint it names recorded a
    success, and every counter of every endpoint has grown by exactly the calls
    it answered, modulo its 64 bits. *)
Theorem rpc_calls_concurrent (calls : list Call) sched :
  (∀ a, 0 < permits a w0) →
  let st := run_turns sched (call_steps <$> calls, w0) in
  (∀ a, 0 ≤ permits a st.2 ∧ permits a st.2 + in_flight a st.1 ≤ permits a w0) ∧
  (∀ inp i p l, st.1 !! i = Some p → next p = Some l → ∃ j, is_Some (turn (j, inp) st)) ∧
  (moves sched (call_steps <$> calls, w0) ≤ length calls * accesses)%nat ∧
  ∀ ens, st.1 = Ret <$> ens →
    Forall honest ens ∧ (∀ a, permits a st.2 = permits a w0) ∧
    ∀ a c idx,
      let before := metrics_at a c idx w0 in
      let after := metrics_at a c idx st.2 in
      let ok := answered a c idx true ens in
      let failed := answered a c idx false ens in
      mod64 (em_request_count after) (em_request_count before + (ok + failed)) ∧
      mod64 (em_error_count after) (em_error_count before + failed) ∧
      mod64 (em_response_time_index after) (em_response_time_index before + ok).
Proof.
  intros Hp0 st. assert (Hs : steady w0) by (split; [done|intros a; specialize (Hp0 a); lia]). split_and!.
  - intros a. destruct (permits_accounted a calls sched Hs) as (spents & Hf & He & H0). fold st in Hf, He, H0.
    apply total_in_flight in Hf. lia.
  - intros inp i p l. by apply some_call_moves.
  - etrans; [apply (moves_bound _ _ _ _ _ _ (calls_within calls Hs))|]. by rewrite sum_list_replicate.
  - intros ens Hens. assert (Hrun : run_turns sched (call_steps <$> calls, w0) = (Ret <$> ens, st.2)).
    { rewrite <- Hens. apply surjective_pairing. }
    destruct (ended_honest calls sched ens _ Hs Hrun) as [Hh Hp]. split_and!; [done..|]. intros a c idx. cbv zeta.
    pose proof (counter_accounted a c idx em_request_count _ _ _ calls sched ens _ Hs Hrun) as H1.
    pose proof (counter_accounted a c idx em_error_count _ _ _ calls sched ens _ Hs Hrun) as H2.
    pose proof (counter_accounted a c idx em_response_time_index _ _ _ calls sched ens _ Hs Hrun) as H3.
    split_and!; [eapply mod64_to; [exact H1|lia]|eapply mod64_to; [exact H2|lia]|eapply mod64_to; [exact H3|lia]].
Qed.
End concurrent.

(** ** Two calls and one permit *)

Definition one_permit : RpcWorld string unit := set_permits 1 1 ex_world.

Definition echo (reply : bool) : Call (P := string) (N := unit) (R := string) :=
  mkCall Broadcast (mkChainId 1) (Some 1%nat) (from_secs 30)
    (λ provider s, (if reply then Ok provider else Err "refused", s)).

(** The second call asks for a permit while the first one has it. *)
Definition taking_turns : list (nat * Around) :=
  (λ i, (i, mkAround 1000000 false)) <$> concat (replicate 40 [0; 1]%nat).

Example two_calls :
  let '(threads, w) := run_turns taking_turns (call_steps 0 0 <$> [echo true; echo false], one_permit) in
  threads = [Ret (mkEnded (Ok "http://b") (Some (Broadcast, mkChainId 1, 1%nat, true)));
             Ret (mkEnded (Err (TransportError "refused")) (Some (Broadcast, mkChainId 1, 1%nat, false)))] ∧
  permits Broadcast w = 1 ∧ em_request_count (metrics_at Broadcast (mkChainId 1) 1 w) = 2 ∧
  em_error_count (metrics_at Broadcast (mkChainId 1) 1 w) = 1.
Proof. vm_compute. split_and!; reflexivity. Qed.

Lemma one_permit_pools a c n : pool_size a c one_permit = Some n → (n ≤ 2)%nat.
Proof.
  assert (Hall : ∀ b, map_Forall (λ _ p, (length (ep_endpoints p) ≤ 2)%nat)
    (match b with Broadcast => rw_broadcast one_permit | Validator => rw_validator one_permit end)).
  { intros []; apply (bool_decide_unpack _); vm_compute; exact I. }
  intros (pool & Hp & ->)%fmap_Some. apply (Hall a c). by destruct a.
Qed.

Lemma rpc_calls_concurrent_witness :
  let st := run_turns taking_turns (call_steps 0 0 <$> [echo true; echo false], one_permit) in
  permits Broadcast st.2 = 1 ∧
  mod64 (em_request_count (metrics_at Broadcast (mkChainId 1) 1 st.2)) (0 + (1 + 1)).
Proof.
  intros st.
  destruct (rpc_calls_concurrent 0 0 one_permit 2 one_permit_pools [echo true; echo false] taking_turns)
    as (_ & _ & _ & Hend); [intros []; reflexivity|].
  destruct (Hend [mkEnded (Ok "http://b") (Some (Broadcast, mkChainId 1, 1%nat, true));
                  mkEnded (Err (TransportError "refused")) (Some (Broadcast, mkChainId 1, 1%nat, false))])
    as (_ & Hp & Hc); [vm_compute; reflexivity|].
  split; [exact (Hp Broadcast)|]. exact (proj1 (Hc Broadcast (mkChainId 1) 1%nat)).
Defined.
