(* ===== verification/RpcApi.v ===== *)
(** * The RPC interface of the broadcast and validator actors

    The four calls of [src/crate/utils/src/rpc/mod.rs] that the actors make,
    with the clock they read, as a class; the client of [RpcClient.v] is an
    instance, and [FakeRpc] a scripted one for the witnesses. *)

From S2P Require Import Prelude Types Pool RpcClient.

Class RpcApi (R : Type) := {
  api_send_raw_transaction : ChainId → LoadBalancingStrategy → Bytes → Z → Comp R (result TxHash LobbyRpcError);
  api_get_transaction_count : ChainId → LoadBalancingStrategy → Address → Z → Comp R (result TxNonce LobbyRpcError);
  api_get_transaction_receipt : ChainId → LoadBalancingStrategy → TxHash → Z →
    Comp R (result (option TransactionReceipt) LobbyRpcError);
  api_get_block_number : ChainId → LoadBalancingStrategy → Z → Comp R (result Z LobbyRpcError);
  (** the monotonic clock and [tokio::time::sleep], in nanoseconds *)
  api_now : R → Z;
  api_sleep : Z → R → R
}.

(** Time passes: no call sets the clock back, and a sleep lasts. *)
Class RpcApiLaws (R : Type) `{RpcApi R} := {
  api_receipt_now c st h t s : api_now s ≤ api_now (api_get_transaction_receipt c st h t s).2;
  api_block_now c st t s : api_now s ≤ api_now (api_get_block_number c st t s).2;
  api_sleep_now d s : api_now s + Z.max 0 d ≤ api_now (api_sleep d s)
}.

Section client.
Context {P N : Type} `{ProviderOps P N} (lag delay : Z).

#[export] Instance client_api : RpcApi (RpcWorld P N) := {|
  api_send_raw_transaction := send_raw_transaction lag delay;
  api_get_transaction_count := get_transaction_count lag delay;
  api_get_transaction_receipt := get_transaction_receipt lag delay;
  api_get_block_number := get_block_number lag delay;
  api_now := rw_clock;
  api_sleep d w := set_env (rw_clock w + Z.max 0 d) (rw_waits w) (rw_draws w) (rw_net w) w
|}.

(** A provider call takes time. *)
Class ProviderTime := {
  pt_receipt p h s : s.2 ≤ (pr_transaction_receipt p h s).2.2;
  pt_block p s : s.2 ≤ (pr_block_number p s).2.2
}.

Lemma get_semaphore_clock timeout actor (w : RpcWorld P N) :
  0 ≤ timeout → rw_clock w ≤ rw_clock (get_semaphore timeout actor w).2.
Proof.
  intros Ht. unfold get_semaphore. destruct (0 <? permits actor w); [by destruct actor|].
  destruct (rw_waits w) as [|[] ws]; simpl; lia.
Qed.

Lemma acquire_clock actor c sticky timeout (w : RpcWorld P N) :
  0 ≤ timeout → rw_clock w ≤ rw_clock (acquire_unary_context lag delay actor c sticky timeout w).2.
Proof.
  intros Ht. pose proof (get_semaphore_clock timeout actor w Ht) as Hs.
  unfold acquire_unary_context, cbind_ok.
  destruct (get_semaphore timeout actor w) as [[[]|e] w1]; [|done]. cbn [snd] in Hs.
  destruct (get_pool actor c w1); [|by destruct actor].
  unfold next_draw. destruct (rw_draws w1); cbn [fst snd]; destruct (select_endpoint _ _ _ _ _ _);
    by destruct actor.
Qed.

Lemma execute_unary_clock {R} actor c sticky timeout (op : P → Comp (N * Z) (result R string)) w :
  0 ≤ timeout → (∀ p s, s.2 ≤ (op p s).2.2) →
  rw_clock w ≤ rw_clock (execute_unary lag delay actor c sticky timeout op w).2.
Proof.
  intros Ht Hop. pose proof (acquire_clock actor c sticky timeout w Ht) as Ha.
  unfold execute_unary. destruct (acquire_unary_context lag delay actor c sticky timeout w) as [[ctx|e] w1];
    [|done]. cbn [snd] in Ha. unfold run_operation.
  specialize (Hop (uc_provider ctx) (rw_net w1, rw_clock w1)).
  destruct (op (uc_provider ctx) (rw_net w1, rw_clock w1)) as [res [net clock]]. simpl in Hop.
  destruct res; simpl; destruct actor, (uc_actor ctx); simpl; lia.
Qed.
End client.

(** ** A scripted network *)

Record FakeRpc := mkFakeRpc {
  fk_sends : list (result TxHash LobbyRpcError);
  fk_counts : list (result TxNonce LobbyRpcError);
  fk_receipts : list (result (option TransactionReceipt) LobbyRpcError);
  fk_blocks : list (result Z LobbyRpcError);
  fk_clock : Z
}.

#[export] Instance fake_api : RpcApi FakeRpc := {|
  api_send_raw_transaction _ _ _ _ w :=
    (default (Err SemaphoreClosed) (head (fk_sends w)),
     mkFakeRpc (tail (fk_sends w)) (fk_counts w) (fk_receipts w) (fk_blocks w) (fk_clock w));
  api_get_transaction_count _ _ _ _ w :=
    (default (Err SemaphoreClosed) (head (fk_counts w)),
     mkFakeRpc (fk_sends w) (tail (fk_counts w)) (fk_receipts w) (fk_blocks w) (fk_clock w));
  api_get_transaction_receipt _ _ _ _ w :=
    (default (Ok None) (head (fk_receipts w)),
     mkFakeRpc (fk_sends w) (fk_counts w) (tail (fk_receipts w)) (fk_blocks w) (fk_clock w));
  api_get_block_number _ _ _ w :=
    (default (Ok 0) (head (fk_blocks w)),
     mkFakeRpc (fk_sends w) (fk_counts w) (fk_receipts w) (tail (fk_blocks w)) (fk_clock w));
  api_now := fk_clock;
  api_sleep d w := mkFakeRpc (fk_sends w) (fk_counts w) (fk_receipts w) (fk_blocks w) (fk_clock w + Z.max 0 d)
|}.

#[export] Instance fake_laws : RpcApiLaws FakeRpc.
Proof. split; intros; simpl; lia. Qed.
