(* ===== verification/Broadcast.v ===== *)
(** * The broadcast actor

    [src/crate/actors/src/broadcast/engine.rs] over the table of
    [src/database/migrations/20260203055307_broadcast.sql] and the RPC client.
    The state is a pair: the database, and the client's world. *)

From S2P Require Import Prelude Types Text Sql Actor Lease Pool RpcClient RpcApi.

(** ** The table *)

(** Source: [database/migrations/20260203055307_broadcast.sql] lines 3-7, [broadcast.broadcast_state]. *)
Inductive BroadcastState := BReceived | BSubmitted | BRejectedState.
#[export] Instance BroadcastState_eq_dec : EqDecision BroadcastState.
Proof. solve_decision. Defined.

(** Source: [database/migrations/20260203055307_broadcast.sql] lines 9-21, [broadcast.broadcast_requests]. *)
Record BroadcastRow := mkBroadcastRow {
  br_execution_id : ExecutionId;
  br_revision : Z;
  br_chain_id : Z;
  br_from_address : Address;
  br_tx_hash : option TxHash;
  br_state : BroadcastState;
  br_rejection_reason : option string;
  br_created_at : Z;
  br_updated_at : Z
}.
#[export] Instance BroadcastRow_eq_dec : EqDecision BroadcastRow.
Proof. solve_decision. Defined.

Definition broadcast_active (s : BroadcastState) : bool :=
  match s with BReceived | BSubmitted => true | BRejectedState => false end.

Definition broadcast_active_key (r : BroadcastRow) : option ExecutionId :=
  if broadcast_active (br_state r) then Some (br_execution_id r) else None.

(** Source: [database/migrations/20260203055307_broadcast.sql] lines 20-26, [uniq_active_broadcast]. *)
#[export] Instance broadcast_table : SqlTable BroadcastRow := {|
  t_eid := br_execution_id;
  t_rev := br_revision;
  t_ok t :=
    bool_decide (NoDup ((λ r, (br_execution_id r, br_revision r)) <$> t)) &&
    unique_on broadcast_active_key t
|}.

(** Source: [database/migrations/20260203055307_broadcast.sql] lines 32-46, [broadcast.touch_updated_at].
    [SET state, tx_hash, rejection_reason] with the trigger. *)
Definition broadcast_set (st : BroadcastState) (hash : option TxHash) (reason : option string) (now : Z)
    (r : BroadcastRow) : BroadcastRow :=
  mkBroadcastRow (br_execution_id r) (br_revision r) (br_chain_id r) (br_from_address r) hash st reason
    (br_created_at r) (if decide (br_state r = st) then br_updated_at r else now).

(** ** Queries *)

Definition broadcast_live (now : Z) (r : BroadcastRow) : bool :=
  match br_state r with
  | BSubmitted => true
  | BReceived => lease_live now 120 (br_updated_at r)
  | BRejectedState => false
  end.

Definition new_broadcast_row (e : ExecutionId) (chain : Z) (from : Address) (rev now : Z) : BroadcastRow :=
  mkBroadcastRow e rev chain from None BReceived None now now.

(** Source: [crate/actors/src/broadcast/engine.rs] lines 101-137, [handle_broadcast (INSERT ... RETURNING revision)]. *)
Definition broadcast_open (e : ExecutionId) (chain : Z) (from : Address) :=
  lease_insert i64_max broadcast_live (new_broadcast_row e chain from) e.

(** Source: [crate/actors/src/broadcast/engine.rs] lines 196-212, [handle_broadcast (UPDATE ... 'submitted')]. *)
Definition broadcast_submit (e : ExecutionId) (rev : Z) (hash : TxHash) :=
  update_where e rev (λ _ (_ : BroadcastRow), true)
    (λ now r, broadcast_set BSubmitted (Some hash) (br_rejection_reason r) now r).

(** Source: [crate/actors/src/broadcast/engine.rs] lines 258-274, [handle_broadcast (UPDATE ... 'rejected')]. *)
Definition broadcast_reject (e : ExecutionId) (rev : Z) (reason : string) :=
  update_where e rev (λ _ (_ : BroadcastRow), true)
    (λ now r, broadcast_set BRejectedState (br_tx_hash r) (Some reason) now r).

(** ** Handlers *)

Section engine.
Context {R : Type} `{RpcApi R}.

Abbreviation BroadcastWorld := (Db BroadcastRow * R)%type.
Abbreviation db_stmt b := (on_fst (T := R) (cmap_err BDatabaseError (stmt b))).

(** Hardcoded waits for a semaphore permit. *)
Definition rpc_timeout : Z := from_secs 30.

(** Source: [crate/actors/src/broadcast/engine.rs] lines 35-51, [fetch_current_nonce]. *)
Definition fetch_current_nonce (chain_id : ChainId) (from_address : Address) (sticky_index : nat) :
    Comp BroadcastWorld (result TxNonce BroadcastError) :=
  on_snd (cmap_err (λ e, BRpcError (LobbyRpcError_debug e))
    (api_get_transaction_count chain_id (StickySession sticky_index) from_address rpc_timeout)).

(** Source: [crate/actors/src/broadcast/engine.rs] lines 141-179, [handle_broadcast (existing request)].
    The stored hash has 32 bytes, as every [TxHash]. *)
Definition broadcast_existing (row : option BroadcastRow) : result BroadcastOutcome BroadcastError :=
  match row with
  | None => Err (BDatabaseError row_not_found)
  | Some row =>
      match br_state row with
      | BSubmitted =>
          match br_tx_hash row with
          | Some h => Ok (mkBroadcastOutcome h)
          | None => Err (BInvariant "Tx hash submitted with invalid format")
          end
      | BRejectedState => Err (BRejected
          (default "rejection reason unknown to database" (br_rejection_reason row)))
      | BReceived => Err (BDatabaseError "unknown database inclusion error")
      end
  end.

(** [err_str.contains("nonce") || err_str.contains("known transaction")]. *)
Definition is_nonce_error (err_str : string) : bool :=
  contains "nonce" err_str || contains "known transaction" err_str.

(** Source: [crate/actors/src/broadcast/engine.rs] lines 181-276, [handle_broadcast (send)].
    The request with revision [rev] is open: send, and record the outcome. *)
Definition broadcast_send (chain_id : ChainId) (from_address : Address) (e : ExecutionId)
    (txn : SignedTransaction) (sticky_index : nat) (rev : Z) :
    Comp BroadcastWorld (result BroadcastOutcome BroadcastError) :=
  sent <~ on_snd (cmap_err (λ e, BRpcError (LobbyRpcError_debug e))
    (api_send_raw_transaction chain_id (StickySession sticky_index) (st_rlp txn) rpc_timeout)) ;;
  match sent with
  | Ok hash =>
      _ <-? db_stmt (broadcast_submit e rev hash) ;;
      clift (Ok (mkBroadcastOutcome hash))
  | Err err =>
      let err_str := BroadcastError_display err in
      if is_nonce_error err_str then
        nonce_on_chain <-? fetch_current_nonce chain_id from_address sticky_index ;;
        _ <-? db_stmt (broadcast_reject e rev err_str) ;;
        clift (Err (BNonceTooLow nonce_on_chain (st_with_nonce txn)))
      else
        _ <-? db_stmt (broadcast_reject e rev err_str) ;;
        clift (Err (BRejected err_str))
  end.

(** Source: [crate/actors/src/broadcast/engine.rs] lines 81-277, [BroadcastEngine::handle_broadcast]. *)
Definition handle_broadcast (chain_id : ChainId) (from_address : Address) (execution_id : ExecutionId)
    (txn : SignedTransaction) (sticky_index : nat) :
    Comp BroadcastWorld (result BroadcastOutcome BroadcastError) :=
  chain <-? clift (result_of_option (u256_try_i64 (chain_u256 chain_id))
                     (BInvariant "chain_id does not fit in i64")) ;;
  revision <-? db_stmt (broadcast_open execution_id chain from_address) ;;
  match revision with
  | Some rev => broadcast_send chain_id from_address execution_id txn sticky_index rev
  | None =>
      row <-? db_stmt (select (λ _ t, last_of execution_id t)) ;;
      clift (broadcast_existing row)
  end.

(** ** The actor *)

(** Source: [crate/actors/src/broadcast/handle.rs] lines 12-21, [BroadcastCommand]. *)
Inductive BroadcastCommand :=
| CmdBroadcast (chain_id : ChainId) (from_address : Address) (execution_id : ExecutionId)
    (txn : SignedTransaction) (sticky_index : nat).

(** Source: [crate/actors/src/broadcast/engine.rs] lines 58-76, [BroadcastEngine::run]. *)
Definition broadcast_dispatch (cmd : BroadcastCommand) :
    Comp BroadcastWorld (result BroadcastOutcome BroadcastError) :=
  match cmd with CmdBroadcast c from e txn i => handle_broadcast c from e txn i end.

(** Source: [crate/actors/src/broadcast/handle.rs] lines 41-67, [BroadcastHandle::broadcast]. *)
Definition broadcast_handle (d : delivery) (chain_id : ChainId) (from : Address) (e : ExecutionId)
    (txn : SignedTransaction) (sticky_index : nat) :
    Comp BroadcastWorld (result BroadcastOutcome BroadcastError) :=
  handle_call broadcast_dispatch (BInternal "broadcast actor has shut down")
    (BInternal "broadcast actor has dropped its reply channel") Some d
    (CmdBroadcast chain_id from e txn sticky_index).

End engine.

(** ** Properties *)

Abbreviation bc_idle t now := (mkDb (Row := BroadcastRow) t now []).

#[export] Instance broadcast_lease : LeaseTable BroadcastRow.
Proof.
  exists (λ r, broadcast_active (br_state r)) (λ _, true). intros t. simpl. unfold unique_on.
  rewrite andb_true_iff, !bool_decide_eq_true. split; [|by intros (? & ? & _)].
  intros [? ?]. split_and!; [done|done|]. by apply list.Forall_true.
Defined.

Lemma broadcast_live_active now r : broadcast_live now r = true → lt_active r = true.
Proof. simpl. unfold broadcast_live. by destruct (br_state r). Qed.

(** The rows an execution's request can leave. *)
Definition bc_row (st : BroadcastState) (e : ExecutionId) (chain : Z) (from : Address) (rev : Z)
    (hash : option TxHash) (reason : option string) (now : Z) : BroadcastRow :=
  mkBroadcastRow e rev chain from hash st reason now now.

Section props.
Context {R : Type} `{RpcApi R}.

Lemma bc_update_commit e chain from t now (f : Z → BroadcastRow → BroadcastRow) :
  (∀ r, t_pkey (f now r) = t_pkey r) → t_ok t = true → none_active e t →
  commit (update_where e (next_revision e t) (λ _ (_ : BroadcastRow), true) f) now (λ _, false)
    (t ++ [new_broadcast_row e chain from (next_revision e t) now]) =
  Ok (1, t ++ [f now (new_broadcast_row e chain from (next_revision e t) now)]).
Proof. intros Hf Hok Hn. by apply (lease_update_commit (new_broadcast_row e chain from)). Qed.

(** What sending answers and leaves, by the network's answers. *)
Definition broadcast_result (c : ChainId) (from : Address) (txn : SignedTransaction) (sticky : nat)
    (row : BroadcastState → option TxHash → option string → BroadcastRow) (w : R) :
    result BroadcastOutcome BroadcastError * BroadcastRow * R :=
  match api_send_raw_transaction c (StickySession sticky) (st_rlp txn) rpc_timeout w with
  | (Ok hash, w) => (Ok (mkBroadcastOutcome hash), row BSubmitted (Some hash) None, w)
  | (Err err, w) =>
      let err_str := BroadcastError_display (BRpcError (LobbyRpcError_debug err)) in
      if is_nonce_error err_str then
        match api_get_transaction_count c (StickySession sticky) from rpc_timeout w with
        | (Ok n, w) => (Err (BNonceTooLow n (st_with_nonce txn)), row BRejectedState None (Some err_str), w)
        | (Err err', w) => (Err (BRpcError (LobbyRpcError_debug err')), row BReceived None None, w)
        end
      else (Err (BRejected err_str), row BRejectedState None (Some err_str), w)
  end.

Lemma broadcast_send_quiet c from e txn sticky chain t now (w : R) :
  t_ok t = true → none_active e t →
  let rev := next_revision e t in
  let '(answer, row, w') := broadcast_result c from txn sticky
        (λ st h r, bc_row st e chain from rev h r now) w in
  broadcast_send c from e txn sticky rev
    (bc_idle (t ++ [new_broadcast_row e chain from rev now]) now, w) =
  (answer, (bc_idle (t ++ [row]) now, w')).
Proof.
  intros Hok Hn. cbv zeta. unfold broadcast_result, broadcast_send, fetch_current_nonce.
  unfold cbind, cbind_ok, on_snd, on_fst, cmap_err, clift, cret. cbn [fst snd].
  destruct (api_send_raw_transaction _ _ _ _ w) as [[hash|err] w1]; cbn [map_err fst snd].
  - rewrite stmt_quiet. unfold broadcast_submit. by rewrite bc_update_commit.
  - destruct (is_nonce_error _).
    + cbv beta zeta; cbn [fst snd]; destruct (api_get_transaction_count _ _ _ _ w1) as [[n|err'] w2]; cbn [map_err fst snd]; [|reflexivity].
      rewrite stmt_quiet. unfold broadcast_reject. by rewrite bc_update_commit.
    + cbv beta zeta; cbn [fst snd]; rewrite stmt_quiet. unfold broadcast_reject. by rewrite bc_update_commit.
Qed.

Lemma chain_i64 (c : ChainId) : chain_u256 c ≤ i64_max → u256_try_i64 (chain_u256 c) = Some (chain_u256 c).
Proof. intros Hc. unfold u256_try_i64. by destruct (Z.leb_spec (chain_u256 c) i64_max); [|lia]. Qed.

(** The first request of an execution: one send, recorded with its outcome. *)
Lemma handle_broadcast_first c from e txn sticky t now (w : R) :
  chain_u256 c ≤ i64_max → t_ok t = true → next_revision e t ≤ i64_max → none_active e t →
  handle_broadcast c from e txn sticky (bc_idle t now, w) =
  let '(answer, row, w') := broadcast_result c from txn sticky
    (λ st h r, bc_row st e (chain_u256 c) from (next_revision e t) h r now) w in
  (answer, (bc_idle (t ++ [row]) now, w')).
Proof.
  intros Hc Hok Hrev Hn. unfold handle_broadcast. rewrite (chain_i64 c Hc).
  unfold cbind_ok at 1 2. unfold on_fst, cmap_err, clift, cret. cbn [result_of_option fst snd].
  rewrite stmt_quiet. unfold broadcast_open.
  rewrite (lease_open_commit i64_max broadcast_live (new_broadcast_row e (chain_u256 c) from) e)
    by (try done; apply broadcast_live_active).
  cbn [map_err]. pose proof (broadcast_send_quiet c from e txn sticky (chain_u256 c) t now w Hok Hn) as Hs.
  cbv zeta in Hs. by destruct (broadcast_result _ _ _ _ _ _) as [[answer row] w'].
Qed.

(** C30: broadcasting, by the state of the execution's earlier requests.  None is
    active: the transaction is sent exactly once, and the recorded row and the
    answer follow the network: a hash ends as [submitted]; an error that mentions
    the nonce fetches the on-chain nonce and ends as [rejected] with
    [NonceTooLow], which names it and the nonce that was signed (if that fetch
    fails, the row stays [received]); any other error ends as [rejected].  A
    submitted request is answered with its stored hash, and nothing is sent.  A
    received one is refused, while its lease lives as unknown, later by the
    unique index, and nothing is sent either. *)
Theorem handle_broadcast_functional c from e txn sticky t now (w : R) :
  chain_u256 c ≤ i64_max → t_ok t = true → next_revision e t ≤ i64_max →
  (none_active e t →
     handle_broadcast c from e txn sticky (bc_idle t now, w) =
     let '(answer, row, w') := broadcast_result c from txn sticky
       (λ st h r, bc_row st e (chain_u256 c) from (next_revision e t) h r now) w in
     (answer, (bc_idle (t ++ [row]) now, w'))) ∧
  (∀ r, last_of e t = Some r → broadcast_active (br_state r) = true →
     handle_broadcast c from e txn sticky (bc_idle t now, w) =
     (match br_state r, br_tx_hash r with
      | BSubmitted, Some h => Ok (mkBroadcastOutcome h)
      | BSubmitted, None => Err (BInvariant "Tx hash submitted with invalid format")
      | _, _ => Err (BDatabaseError (if broadcast_live now r then "unknown database inclusion error"
                                     else constraint_violation))
      end, (bc_idle t now, w))).
Proof.
  intros Hc Hok Hrev. split; [intros Hn; by apply handle_broadcast_first|].
  unfold handle_broadcast. rewrite (chain_i64 c Hc).
  intros r Hl Ha. pose proof (last_of_Some _ _ _ Hl) as (Hr & He & _).
  unfold cbind_ok, on_fst, cmap_err, clift, cret. cbn [result_of_option fst snd].
  rewrite stmt_quiet. unfold broadcast_open. destruct (broadcast_live now r) eqn:Hlive.
  - rewrite (lease_live_commit i64_max broadcast_live _ e t now r) by done. cbn [map_err].
    cbv beta zeta; cbn [fst snd]; rewrite stmt_quiet. unfold commit, select. rewrite Hok. cbn [map_err]. rewrite Hl. simpl.
    destruct (br_state r) eqn:Hst; [done| |done]. by destruct (br_tx_hash r).
  - rewrite (lease_refused_commit i64_max broadcast_live _ e) with (r := r); try done.
    + cbn [map_err]. unfold broadcast_live in Hlive. by destruct (br_state r).
    + intros r' Hr' He'. destruct (broadcast_live now r') eqn:Hl'; [|done].
      apply broadcast_live_active in Hl' as Hact'.
      assert (r' = r) as -> by (apply (lt_active_unique t); try done; by rewrite He'). congruence.
Qed.
End props.

Definition ex_fake : FakeRpc :=
  mkFakeRpc [Err (RpcBroadcastError "Transport error: nonce too low")] [Ok (mkTxNonce 9)] [] [] 0.

Lemma handle_broadcast_functional_witness :
  (handle_broadcast (mkChainId 1) [] (mkExecutionId 5) (mkSigned [] (mkTxNonce 4)) 0 (bc_idle [] 0, ex_fake)).1 =
  Err (BNonceTooLow (mkTxNonce 9) (mkTxNonce 4)).
Proof.
  destruct (handle_broadcast_functional (mkChainId 1) [] (mkExecutionId 5) (mkSigned [] (mkTxNonce 4)) 0
    [] 0 ex_fake) as [H _]; [vm_compute; congruence|reflexivity|vm_compute; congruence|].
  rewrite H; [vm_compute; reflexivity|]. by intros r ?%elem_of_nil.
Defined.
