(* ===== verification/Validator.v ===== *)
(** * The validator actor

    [src/crate/actors/src/validator/engine.rs] over the table of
    [src/database/migrations/20260225203657_validate.sql] and the RPC client. *)

From S2P Require Import Prelude Types Sql Actor Lease Pool RpcClient RpcApi.

(** Source: [crate/actors/src/validator/mod.rs] lines 44-58, [ValidatorConfig]. *)
Record ValidatorConfig := mkValidatorConfig {
  poll_interval : Z;
  vc_timeout : Z;
  required_confirmations : Z
}.

(** Source: [crate/actors/src/validator/mod.rs] lines 60-70, [ValidatorConfig::default]. *)
Definition ValidatorConfig_default : ValidatorConfig := mkValidatorConfig (from_secs 2) (from_secs 300) 0.

(** ** The table *)

(** Source: [database/migrations/20260225203657_validate.sql] lines 3-16, [validator.validation_requests]. *)
Record ValidationRow := mkValidationRow {
  vr_execution_id : ExecutionId;
  vr_revision : Z;
  vr_chain_id : Z;
  vr_tx_hash : TxHash;
  vr_state : string;
  vr_created_at : Z;
  vr_updated_at : Z
}.
#[export] Instance ValidationRow_eq_dec : EqDecision ValidationRow.
Proof. solve_decision. Defined.

Definition validation_states : list string := ["pending"; "included"; "not_included"; "timed_out"].

(** Source: [database/migrations/20260225203657_validate.sql] lines 8-15, [CHECK]. *)
Definition validation_check (r : ValidationRow) : bool :=
  bool_decide (vr_state r ∈ validation_states) && (length (vr_tx_hash r) =? 32)%nat.

Definition is_pending (r : ValidationRow) : bool := bool_decide (vr_state r = "pending").

Definition pending_key (r : ValidationRow) : option ExecutionId :=
  if is_pending r then Some (vr_execution_id r) else None.

(** Source: [database/migrations/20260225203657_validate.sql] lines 28-31, [idx_validation_no_concurrent]. *)
#[export] Instance validation_table : SqlTable ValidationRow := {|
  t_eid := vr_execution_id;
  t_rev := vr_revision;
  t_ok t :=
    bool_decide (NoDup ((λ r, (vr_execution_id r, vr_revision r)) <$> t)) &&
    unique_on pending_key t && forallb validation_check t
|}.

(** Source: [database/migrations/20260225203657_validate.sql] lines 34-46, [validator.update_updated_at].
    [SET state = st] with the trigger. *)
Definition validation_set (st : string) (now : Z) (r : ValidationRow) : ValidationRow :=
  mkValidationRow (vr_execution_id r) (vr_revision r) (vr_chain_id r) (vr_tx_hash r) st
    (vr_created_at r) now.

(** ** Queries *)

Definition validation_live (now : Z) (r : ValidationRow) : bool :=
  bool_decide (vr_state r = "included") || bool_decide (vr_state r = "not_included") ||
  (is_pending r && lease_live now 120 (vr_updated_at r)).

Definition new_validation_row (e : ExecutionId) (chain : Z) (hash : TxHash) (rev now : Z) : ValidationRow :=
  mkValidationRow e rev chain hash "pending" now now.

Definition i32_max : Z := 2 ^ 31 - 1.

(** Source: [crate/actors/src/validator/engine.rs] lines 214-247, [record_validation_request (INSERT)]. *)
Definition validation_open (e : ExecutionId) (chain : Z) (hash : TxHash) :=
  lease_insert i32_max validation_live (new_validation_row e chain hash) e.

(** Source: [crate/actors/src/validator/engine.rs] lines 266-285, [record_outcome (UPDATE)]. *)
Definition validation_close (e : ExecutionId) (outcome : string) :=
  update_latest e is_pending (validation_set outcome).

(** ** Database operations *)

Section engine.
Context {R : Type} `{RpcApi R}.
Context (config : ValidatorConfig).

Abbreviation ValidatorWorld := (Db ValidationRow * R)%type.
Abbreviation db_stmt b := (on_fst (T := R) (cmap_err VDatabase (stmt b))).

(** Source: [crate/actors/src/validator/engine.rs] lines 174-200, [check_cached_result]. *)
Definition cached_outcome (row : option ValidationRow) : option ValidatorOutcome :=
  match row with
  | Some r =>
      if decide (vr_state r = "included") then Some (Included 0 0)
      else if decide (vr_state r = "not_included") then Some NotIncluded
      else None
  | None => None
  end.

Definition check_cached_result (e : ExecutionId) :
    Comp ValidatorWorld (result (option ValidatorOutcome) ValidatorError) :=
  row <-? db_stmt (select (λ _ t, last_of e t)) ;;
  clift (Ok (cached_outcome row)).

(** Source: [crate/actors/src/validator/engine.rs] lines 203-252, [record_validation_request]. *)
Definition record_validation_request (chain_id : ChainId) (e : ExecutionId) (hash : TxHash) :
    Comp ValidatorWorld (result unit ValidatorError) :=
  chain <-? clift (result_of_option (u256_try_i64 (chain_u256 chain_id))
                     (VInternal "chain_id does not fit in i64")) ;;
  _ <-? db_stmt (validation_open e chain hash) ;;
  clift (Ok tt).

Definition outcome_str (o : ValidatorOutcome) : string :=
  match o with
  | Included _ _ => "included"
  | NotIncluded => "not_included"
  | Timeout => "timed_out"
  end.

(** What [record_outcome] answers when its [UPDATE] matched no row. *)
Definition outcome_explain (str : string) (existing : option ValidationRow) : result unit ValidatorError :=
  match existing with
  | Some row =>
      if bool_decide (vr_state row = "included") || bool_decide (vr_state row = "not_included")
         || bool_decide (vr_state row = "timed_out")
      then Err (VInternal ("validation already completed with state '" +:+ vr_state row +:+
                           "', cannot update to '" +:+ str +:+ "'"))
      else Err (VInternal "validation should have been pending, update failed")
  | None => Err (VInternal "invalid execution_id, no validation request found")
  end.

(** Source: [crate/actors/src/validator/engine.rs] lines 255-326, [record_outcome]. *)
Definition record_outcome (e : ExecutionId) (outcome : ValidatorOutcome) :
    Comp ValidatorWorld (result unit ValidatorError) :=
  affected <-? db_stmt (validation_close e (outcome_str outcome)) ;;
  if 0 <? affected then clift (Ok tt)
  else
    existing <-? db_stmt (select (λ _ t, last_of e t)) ;;
    clift (outcome_explain (outcome_str outcome) existing).

(** ** Polling *)

Definition now_of : Comp ValidatorWorld Z := λ w, (api_now w.2, w).
Definition sleep (d : Z) : Comp ValidatorWorld unit := λ w, (tt, (w.1, api_sleep d w.2)).

Definition rpc_timeout : Z := from_secs 30.

(** Source: [crate/actors/src/validator/engine.rs] lines 111-166, [handle_validation (loop body)].
    One round of the loop after the timeout check: an answer, or [None] to poll
    again. *)
Definition poll_once (chain_id : ChainId) (e : ExecutionId) (hash : TxHash) (sticky : nat) :
    Comp ValidatorWorld (option (result ValidatorOutcome ValidatorError)) :=
  receipt <~ on_snd (api_get_transaction_receipt chain_id (StickySession sticky) hash rpc_timeout) ;;
  match receipt with
  | Ok (Some receipt) =>
      if negb (rc_status receipt) then
        r <~ (_ <-? record_outcome e NotIncluded ;; clift (Err (VReverted hash))) ;;
        cret (Some r)
      else
        block <~ on_snd (cmap_err (λ e, VRpcError (LobbyRpcError_debug e))
                   (api_get_block_number chain_id (StickySession sticky) rpc_timeout)) ;;
        match block with
        | Err err => cret (Some (Err err))
        | Ok current_block =>
            let tx_block := default 0 (rc_block_number receipt) in
            let confirmations := saturating_sub current_block tx_block in
            if required_confirmations config <=? confirmations then
              let outcome := Included tx_block confirmations in
              r <~ (_ <-? record_outcome e outcome ;; clift (Ok outcome)) ;;
              cret (Some r)
            else cret None
        end
  | Ok None => cret None
  | Err err =>
      r <~ (_ <-? record_outcome e NotIncluded ;; clift (Err (VRpcError (LobbyRpcError_debug err)))) ;;
      cret (Some r)
  end.

(** Source: [crate/actors/src/validator/engine.rs] lines 97-167, [handle_validation (loop)].
    [None]: out of fuel. *)
Fixpoint poll_loop (fuel : nat) (start : Z) (chain_id : ChainId) (e : ExecutionId) (hash : TxHash)
    (sticky : nat) : Comp ValidatorWorld (option (result ValidatorOutcome ValidatorError)) :=
  match fuel with
  | O => cret None
  | S fuel =>
      now <~ now_of ;;
      if vc_timeout config <? now - start then
        r <~ (_ <-? record_outcome e Timeout ;; clift (Ok Timeout)) ;;
        cret (Some r)
      else
        answer <~ poll_once chain_id e hash sticky ;;
        match answer with
        | Some r => cret (Some r)
        | None =>
            _ <~ sleep (poll_interval config) ;;
            poll_loop fuel start chain_id e hash sticky
        end
  end.

(** Enough rounds: each one sleeps at least [poll_interval]. *)
Definition poll_rounds : nat := Z.to_nat (vc_timeout config / poll_interval config + 2).

(** Source: [crate/actors/src/validator/engine.rs] lines 75-168, [ValidatorEngine::handle_validation]. *)
Definition handle_validation (chain_id : ChainId) (e : ExecutionId) (hash : TxHash) (sticky : nat) :
    Comp ValidatorWorld (option (result ValidatorOutcome ValidatorError)) :=
  cache <~ check_cached_result e ;;
  match cache with
  | Err err => cret (Some (Err err))
  | Ok (Some outcome) => cret (Some (Ok outcome))
  | Ok None =>
      recorded <~ record_validation_request chain_id e hash ;;
      match recorded with
      | Err err => cret (Some (Err err))
      | Ok _ =>
          start <~ now_of ;;
          poll_loop poll_rounds start chain_id e hash sticky
      end
  end.

(** ** The actor *)

(** Source: [crate/actors/src/validator/handle.rs] lines 10-18, [ValidatorCommand]. *)
Inductive ValidatorCommand :=
| CmdValidate (chain_id : ChainId) (execution_id : ExecutionId) (tx_hash : TxHash) (sticky_index : nat).

(** Source: [crate/actors/src/validator/engine.rs] lines 42-70, [ValidatorEngine::run]. *)
Definition validator_dispatch (cmd : ValidatorCommand) :
    Comp ValidatorWorld (option (result ValidatorOutcome ValidatorError)) :=
  match cmd with CmdValidate c e h i => handle_validation c e h i end.

(** Source: [crate/actors/src/validator/handle.rs] lines 38-62, [ValidatorHandle::validate]. *)
Definition validator_handle (d : delivery) (chain_id : ChainId) (e : ExecutionId) (hash : TxHash)
    (sticky : nat) : Comp ValidatorWorld (result ValidatorOutcome ValidatorError) :=
  handle_call validator_dispatch (VInternal "validator actor shutdown")
    (VInternal "validator actor has droped the reply channel") id d (CmdValidate chain_id e hash sticky).

End engine.

(** ** Properties *)

Abbreviation vd_idle t now := (mkDb (Row := ValidationRow) t now []).

#[export] Instance validation_lease : LeaseTable ValidationRow.
Proof.
  exists is_pending validation_check. intros t. simpl. unfold unique_on.
  rewrite !andb_true_iff, !bool_decide_eq_true, forallb_forall, list.Forall_forall.
  setoid_rewrite list_elem_of_In. split; [by intros [[? ?] ?]|by intros (? & ? & ?)].
Defined.

Section termination.
Context {R : Type} `{RpcApiLaws R} (config : ValidatorConfig).

Lemma record_outcome_now e o (w : Db ValidationRow * R) :
  (record_outcome e o w).2.2 = w.2.
Proof.
  unfold record_outcome, cbind_ok, on_fst, cmap_err, clift, cret.
  destruct (stmt (validation_close e (outcome_str o)) w.1) as [[n|m] db]; cbn [map_err fst snd]; [|done].
  destruct (0 <? n); [done|]. cbn [fst snd].
  destruct (stmt (select _) db) as [[x|m] db']; done.
Qed.

(** Takes apart the computation whose result is returned as it is. *)
Ltac split_run :=
  match goal with |- context [let '(_, _) := ?x in _] => destruct x end.

(** A round that does not answer has not set the clock back. *)
Lemma poll_once_now c e h i (w : Db ValidationRow * R) w' :
  poll_once config c e h i w = (None, w') → api_now w.2 ≤ api_now w'.2.
Proof.
  unfold poll_once, cbind, on_snd, cmap_err, cret. cbv beta.
  pose proof (api_receipt_now c (StickySession i) h rpc_timeout w.2) as Hr.
  destruct (api_get_transaction_receipt c (StickySession i) h rpc_timeout w.2) as [[[receipt|]|err] w1];
    cbn [fst snd] in *.
  - destruct (negb (rc_status receipt)); [by split_run|]. cbv beta. cbn [fst snd].
    pose proof (api_block_now c (StickySession i) rpc_timeout w1) as Hb.
    destruct (api_get_block_number c (StickySession i) rpc_timeout w1) as [[b|err] w2]; cbn [map_err fst snd] in *;
      [|done].
    destruct (_ <=? _); [by split_run|]. intros [= <-]. cbn [snd]. lia.
  - intros [= <-]. done.
  - by split_run.
Qed.

Lemma poll_loop_terminates fuel start c e h i (w : Db ValidationRow * R) :
  0 < poll_interval config → start ≤ api_now w.2 →
  vc_timeout config < (api_now w.2 - start) + (Z.of_nat fuel - 1) * poll_interval config →
  (0 < fuel)%nat →
  ∃ r, (poll_loop config fuel start c e h i w).1 = Some r.
Proof.
  intros Hp. revert w. induction fuel as [|fuel IH]; intros w Hs Ht Hf; [lia|].
  cbn [poll_loop]. unfold cbind, now_of, cret. cbv beta zeta.
  destruct (Z.ltb_spec (vc_timeout config) (api_now w.2 - start)) as [Hto|Hto].
  { split_run. by eexists. }
  destruct (poll_once config c e h i w) as [[r|] w1] eqn:Hpo; [by exists r|].
  apply poll_once_now in Hpo. unfold sleep. cbv beta zeta.
  pose proof (api_sleep_now (poll_interval config) w1.2) as Hsl.
  apply IH; cbn [fst snd]; [lia| |]; destruct fuel; nia.
Qed.

(** The loop answers within its rounds. *)
Lemma handle_validation_answers c e h i (w : Db ValidationRow * R) :
  0 < poll_interval config → 0 ≤ vc_timeout config →
  ∃ r, (handle_validation config c e h i w).1 = Some r.
Proof.
  intros Hp Ht. unfold handle_validation, cbind, cret, now_of.
  destruct (check_cached_result e w) as [[[o|]|err] w1]; [eauto| |eauto].
  destruct (record_validation_request c e h w1) as [[u|err] w2]; [|eauto].
  assert (Hr : 0 ≤ vc_timeout config / poll_interval config) by (apply Z.div_pos; lia).
  pose proof (Z.mul_succ_div_gt (vc_timeout config) (poll_interval config) Hp) as Hd.
  apply poll_loop_terminates; [done|lia| |unfold poll_rounds; lia].
  unfold poll_rounds. rewrite Z2Nat.id by lia. nia.
Qed.

(** C31: validation always answers, whatever the database and the node do: with a
    positive poll interval the loop ends after at most timeout / interval + 2
    rounds. *)
Theorem handle_validation_terminates c e h i (w : Db ValidationRow * R) :
  0 < poll_interval config → 0 ≤ vc_timeout config →
  ∃ r, (handle_validation config c e h i w).1 = Some r.
Proof. apply handle_validation_answers. Qed.
End termination.

Lemma handle_validation_terminates_witness :
  ∃ r, (handle_validation ValidatorConfig_default (mkChainId 1) (mkExecutionId 1) (replicate 32 Byte.x00) 0
          (vd_idle [] 0, mkFakeRpc [] [] [] [] 0)).1 = Some r.
Proof.
  apply (handle_validation_terminates ValidatorConfig_default); vm_compute; congruence.
Defined.

(** ** What a validation records *)

Section recorded.
Context {R : Type} `{RpcApi R} (config : ValidatorConfig).
Context (e : ExecutionId) (chain : Z) (hash : TxHash) (t : list ValidationRow) (now : Z).

Definition vd_row (st : string) : ValidationRow := mkValidationRow e (next_revision e t) chain hash st now now.

(** The database with the execution's request in state [st]. *)
Definition vd_with (st : string) : Db ValidationRow := vd_idle (t ++ [vd_row st]) now.

Hypothesis table_ok : t_ok t = true.
Hypothesis no_pending : none_active e t.
Hypothesis hash_ok : length hash = 32%nat.

Lemma vd_table_ok st : st ∈ validation_states → t_ok (t ++ [vd_row st]) = true.
Proof.
  intros Hst. apply lt_ok_app. split_and!; [done| | |].
  - simpl. unfold validation_check. rewrite bool_decide_true by done. simpl. by rewrite hash_ok.
  - by apply (lt_fresh_key e).
  - intros _. apply no_pending.
Qed.

Lemma record_outcome_pending o (w : R) :
  record_outcome e o (vd_with "pending", w) = (Ok tt, (vd_with (outcome_str o), w)).
Proof.
  unfold record_outcome, cbind_ok, on_fst, cmap_err, clift, cret, vd_with. cbn [fst snd].
  rewrite stmt_quiet. unfold commit, validation_close.
  rewrite update_latest_app; [|exact no_pending|done|done|by apply (lt_fresh_key e)].
  change (validation_set (outcome_str o) now (vd_row "pending")) with (vd_row (outcome_str o)).
  rewrite vd_table_ok; [done|]. unfold validation_states. destruct o; simpl; set_solver.
Qed.

(** Which states go with an answer. *)
Definition answer_recorded (r : result ValidatorOutcome ValidatorError) (st : string) : Prop :=
  match r with
  | Ok (Included block n) => st = "included" ∧ required_confirmations config ≤ n
  | Ok Timeout => st = "timed_out"
  | Ok NotIncluded => False
  | Err (VReverted h) => st = "not_included" ∧ h = hash
  | Err (VRpcError _) => st = "not_included" ∨ st = "pending"
  | Err _ => False
  end.

Lemma poll_once_recorded c i (w : R) :
  ∃ r st w', poll_once config c e hash i (vd_with "pending", w) = (r, (vd_with st, w')) ∧
    match r with Some r => answer_recorded r st | None => st = "pending" end.
Proof.
  unfold poll_once, cbind, on_snd, cmap_err, cret. cbv beta. cbn [fst snd].
  destruct (api_get_transaction_receipt c (StickySession i) hash rpc_timeout w) as [[[receipt|]|err] w1];
    cbn [fst snd].
  - destruct (negb (rc_status receipt)).
    { unfold cbind_ok, clift, cret. rewrite record_outcome_pending. eexists _, _, _. split; [done|]. done. }
    cbv beta. cbn [fst snd].
    destruct (api_get_block_number c (StickySession i) rpc_timeout w1) as [[b|err] w2]; cbn [map_err fst snd].
    2:{ eexists _, "pending", _. split; [done|]. by right. }
    destruct (Z.leb_spec (required_confirmations config)
                (saturating_sub b (default 0 (rc_block_number receipt)))).
    + unfold cbind_ok, clift, cret. rewrite record_outcome_pending. eexists _, _, _. split; [done|]. done.
    + by exists None, "pending", w2.
  - by exists None, "pending", w1.
  - unfold cbind_ok, clift, cret. rewrite record_outcome_pending. eexists _, _, _. split; [done|]. by left.
Qed.

Lemma poll_loop_recorded fuel start c i (w : R) r db :
  poll_loop config fuel start c e hash i (vd_with "pending", w) = (Some r, db) →
  ∃ st w', db = (vd_with st, w') ∧ answer_recorded r st.
Proof.
  revert w. induction fuel as [|fuel IH]; intros w; [done|].
  cbn [poll_loop]. unfold cbind, now_of, cret. cbv beta zeta.
  destruct (_ <? _).
  { unfold cbind_ok, clift, cret. rewrite record_outcome_pending. intros [= <- <-]. by eexists _, _. }
  destruct (poll_once_recorded c i w) as (r1 & st & w1 & -> & Hr).
  destruct r1 as [r1|].
  - intros [= <- <-]. by eexists _, _.
  - rewrite Hr. unfold sleep. apply IH.
Qed.
End recorded.

(** A first validation, on a database that only this actor uses. *)
Lemma handle_validation_first {R} `{RpcApiLaws R} config c e hash i t now (w : R) :
  0 < poll_interval config → 0 ≤ vc_timeout config →
  chain_u256 c ≤ i64_max → length hash = 32%nat → next_revision e t ≤ i32_max →
  t_ok t = true → (∀ r, r ∈ t → vr_execution_id r ≠ e) →
  ∃ r st w',
    handle_validation config c e hash i (vd_idle t now, w) =
      (Some r, (vd_with e (chain_u256 c) hash t now st, w')) ∧
    answer_recorded config hash r st.
Proof.
  intros Hp Hto Hc Hh Hrev Hok Hnew.
  assert (Hlast : last_of e t = None) by (apply latest_None; intros r Hr; by rewrite bool_decide_false by (by apply Hnew)).
  assert (Hnone : none_active e t) by (intros r Hr He; by apply Hnew in Hr).
  destruct (handle_validation_answers config c e hash i (vd_idle t now, w) Hp Hto) as [r Hr].
  destruct (handle_validation config c e hash i (vd_idle t now, w)) as [o db] eqn:Hrun.
  cbn [fst] in Hr. subst o.
  assert (Hcache : check_cached_result e (vd_idle t now, w) = (Ok None, (vd_idle t now, w))).
  { unfold check_cached_result, cbind_ok, on_fst, cmap_err, clift, cret. cbn [fst snd].
    rewrite stmt_quiet. unfold commit, select. rewrite Hok. cbn [map_err]. by rewrite Hlast. }
  assert (Hreq : record_validation_request c e hash (vd_idle t now, w) =
                 (Ok tt, (vd_with e (chain_u256 c) hash t now "pending", w))).
  { unfold record_validation_request, cbind_ok, on_fst, cmap_err, clift, cret.
    rewrite (proj1 (u256_try_i64_Some (chain_u256 c)) Hc). cbn [fst snd result_of_option].
    rewrite stmt_quiet. unfold validation_open.
    rewrite (lease_open_commit_live i32_max validation_live (new_validation_row e (chain_u256 c) hash) e);
      try done.
    - intros rev' now'. simpl. unfold validation_check. simpl. by rewrite Hh.
    - intros r' Hr' He'. by apply Hnew in Hr'. }
  unfold handle_validation, cbind, cret in Hrun. rewrite Hcache, Hreq in Hrun. unfold now_of in Hrun.
  apply (poll_loop_recorded config e (chain_u256 c) hash t now Hok Hnone Hh) in Hrun as (st & w' & -> & Ha).
  by exists r, st, w'.
Qed.

(** C32: on a database that only this actor uses, a first validation inserts one
    row and leaves it in the state that matches its answer: [Included] only
    with the required confirmations, a timeout as [timed_out], a reverted
    transaction as [not_included]; a failed receipt query also closes the row,
    as [not_included], and a failed block-number query leaves it pending.
    [NotIncluded] is never an answer. *)
Theorem handle_validation_recorded {R} `{RpcApiLaws R} config c e hash i t now (w : R) :
  0 < poll_interval config → 0 ≤ vc_timeout config →
  chain_u256 c ≤ i64_max → length hash = 32%nat → next_revision e t ≤ i32_max →
  t_ok t = true → (∀ r, r ∈ t → vr_execution_id r ≠ e) →
  ∃ r st w',
    handle_validation config c e hash i (vd_idle t now, w) =
      (Some r, (vd_with e (chain_u256 c) hash t now st, w')) ∧
    answer_recorded config hash r st.
Proof. apply handle_validation_first. Qed.

Lemma handle_validation_recorded_witness :
  ∃ r st w',
    handle_validation ValidatorConfig_default (mkChainId 1) (mkExecutionId 1) (replicate 32 Byte.x00) 0
      (vd_idle [] 0, mkFakeRpc [] [] [Ok None; Ok (Some (mkReceipt true (Some 7)))] [Ok 9] 0) =
      (Some r, (vd_with (mkExecutionId 1) 1 (replicate 32 Byte.x00) [] 0 st, w')) ∧
    answer_recorded ValidatorConfig_default (replicate 32 Byte.x00) r st.
Proof.
  apply (handle_validation_recorded ValidatorConfig_default (mkChainId 1)); try (vm_compute; congruence).
  by intros r ?%elem_of_nil.
Defined.
