(* ===== verification/RelayHost.v ===== *)
(** * The relay host: the write-once log of transaction intents

    [src/crate/actors/src/relayhost/engine.rs] over the table of
    [src/database/migrations/20260210152024_relayhost.sql]. *)

From S2P Require Import Prelude Types Sql Actor Rlp Eip1559.

(** Source: [database/migrations/20260210152024_relayhost.sql] lines 3-18, [relay_host.transaction_intents]. *)
Record IntentRow := mkIntentRow {
  ti_execution_id : ExecutionId;
  ti_client_id : Z;
  ti_chain_id : Z;
  ti_from_address : Address;
  ti_to_address : option Address;
  ti_value : Z;
  ti_data : Bytes;
  ti_gas_limit : Z;
  ti_max_fee_per_gas : Z;
  ti_max_priority_fee_per_gas : Z;
  ti_access_list : list (Address * list Z);
  ti_created_at : Z
}.
#[export] Instance IntentRow_eq_dec : EqDecision IntentRow.
Proof. solve_decision. Defined.

(** [NUMERIC(78, 0)]. *)
Definition fits_numeric (z : Z) : bool := Z.abs z <? 10 ^ 78.

(** Source: [database/migrations/20260210152024_relayhost.sql] lines 15-18, [CHECK]. *)
Definition intent_check (r : IntentRow) : bool :=
  (0 <? ti_gas_limit r) && (0 <? ti_max_fee_per_gas r) &&
  fits_numeric (ti_value r) && fits_numeric (ti_gas_limit r) &&
  fits_numeric (ti_max_fee_per_gas r) && fits_numeric (ti_max_priority_fee_per_gas r).

(** Source: [database/migrations/20260210152024_relayhost.sql] lines 3-18, [PRIMARY KEY and CHECK]. *)
#[export] Instance intent_table : SqlTable IntentRow := {|
  t_eid := ti_execution_id;
  t_rev _ := 0;
  t_ok t := bool_decide (NoDup (ti_execution_id <$> t)) && forallb intent_check t
|}.

(** Source: [crate/actors/src/relayhost/engine.rs] lines 52-65, [handle_submit_transaction (SELECT EXISTS)]. *)
Definition intent_exists (e : ExecutionId) (t : list IntentRow) : bool :=
  existsb (λ r, bool_decide (ti_execution_id r = e)) t.

Definition intent_row (e : ExecutionId) (txn : Eip1559Transaction) (client : ClientConfig) (chain now : Z) :
    IntentRow :=
  mkIntentRow e (cc_client_id client) chain (cc_from_address client) (tx_to txn) (tx_value txn)
    (tx_data txn) (tx_gas_limit txn) (tx_max_fee_per_gas txn) (tx_max_priority_fee_per_gas txn)
    (tx_access_list txn) now.

(** Source: [crate/actors/src/relayhost/engine.rs] lines 103-136, [handle_submit_transaction (INSERT)]. *)
Definition intent_insert (e : ExecutionId) (txn : Eip1559Transaction) (client : ClientConfig) (chain : Z)
    (now : Z) (locked : IntentRow → bool) (t : list IntentRow) : result (unit * list IntentRow) SqlxError :=
  Ok (tt, t ++ [intent_row e txn client chain now]).

Abbreviation RelayDb := (Db IntentRow).

(** Source: [crate/actors/src/relayhost/engine.rs] lines 43-139, [RelayHostEngine::handle_submit_transaction].
    The decimal and JSON conversions are exact: a [U256] prints and parses as
    itself. *)
Definition handle_submit_transaction (e : ExecutionId) (txn : Eip1559Transaction) (client : ClientConfig) :
    Comp RelayDb (result unit RelayHostError) :=
  exists_ <-? cmap_err RHDatabaseError (stmt (select (λ _ t, intent_exists e t))) ;;
  if exists_ : bool then clift (Ok tt)
  else
    _ <-? clift (transaction_lint txn) ;;
    chain <-? clift (result_of_option (u256_try_i64 (chain_u256 (tx_chain_id txn)))
                       (RHValidationFailed "invalid chain_id format")) ;;
    cmap_err RHDatabaseError (stmt (intent_insert e txn client chain)).

(** Source: [crate/actors/src/relayhost/handle.rs] lines 11-18, [RelayHostCommand]. *)
Inductive RelayHostCommand :=
| SubmitTransaction (e : ExecutionId) (txn : Eip1559Transaction) (client_config : ClientConfig).

(** Source: [crate/actors/src/relayhost/engine.rs] lines 25-41, [RelayHostEngine::run]. *)
Definition relayhost_dispatch (cmd : RelayHostCommand) : Comp RelayDb (result unit RelayHostError) :=
  match cmd with SubmitTransaction e txn client => handle_submit_transaction e txn client end.

(** Source: [crate/actors/src/relayhost/handle.rs] lines 39-62, [RelayHostHandle::register_transaction]. *)
Definition relayhost_register (d : delivery) (e : ExecutionId) (txn : Eip1559Transaction)
    (client : ClientConfig) : Comp RelayDb (result unit RelayHostError) :=
  handle_call relayhost_dispatch (RHInternal "relayhost actor shutdown")
    (RHInternal "relayhost actor has dropped the reply channel") Some d (SubmitTransaction e txn client).

(** ** Properties *)

Abbreviation rh_idle t now := (mkDb (Row := IntentRow) t now []).

Lemma intent_exists_spec e t : intent_exists e t = true ↔ e ∈ (ti_execution_id <$> t).
Proof.
  unfold intent_exists. rewrite existsb_exists, list_elem_of_fmap. setoid_rewrite bool_decide_eq_true.
  setoid_rewrite list_elem_of_In. naive_solver.
Qed.

Lemma t_ok_intent (t : list IntentRow) :
  t_ok t = true ↔ NoDup (ti_execution_id <$> t) ∧ Forall (λ r, intent_check r = true) t.
Proof.
  simpl. rewrite andb_true_iff, bool_decide_eq_true, forallb_forall, list.Forall_forall.
  by setoid_rewrite list_elem_of_In.
Qed.

Lemma fits_numeric_u256 z : is_u256 z → fits_numeric z = true.
Proof.
  intros [H0 H1]. unfold fits_numeric. apply Z.ltb_lt. rewrite Z.abs_eq by done.
  eapply Z.le_lt_trans; [exact H1|]. reflexivity.
Qed.

Lemma lint_facts txn :
  tx_in_range txn → transaction_lint txn = Ok tt →
  0 < tx_gas_limit txn ∧ 0 < tx_max_fee_per_gas txn ∧ chain_u256 (tx_chain_id txn) ≤ i64_max.
Proof.
  intros (_ & _ & _ & [Hf _] & [Hg _] & _) Hl. revert Hl. unfold transaction_lint.
  destruct (Z.eqb_spec (tx_gas_limit txn) 0); [done|].
  destruct (_ <? tx_gas_limit txn); [done|].
  destruct (Z.eqb_spec (tx_max_fee_per_gas txn) 0); [done|].
  destruct (_ <=? _); [done|]. intros Hc.
  pose proof (lint_chain_ok (chain_u256 (tx_chain_id txn))) as Hs.
  destruct (u256_try_u64 _) as [c|]; [|done]. destruct (existsb _ _); [|done].
  apply proj1 in Hs. specialize (Hs eq_refl). unfold SUPPORTED_CHAINS in Hs.
  rewrite !elem_of_cons, elem_of_nil in Hs. unfold i64_max. lia.
Qed.

(** An accepted transaction passes every constraint of the table. *)
Lemma intent_insert_ok e txn client now t :
  tx_in_range txn → transaction_lint txn = Ok tt → t_ok t = true → intent_exists e t = false →
  t_ok (t ++ [intent_row e txn client (chain_u256 (tx_chain_id txn)) now]) = true.
Proof.
  intros Hr Hl Hok Hne. destruct (lint_facts txn Hr Hl) as (Hg & Hf & _).
  destruct Hr as (_ & _ & Hp & Hfr & Hgr & Hv & _).
  apply t_ok_intent in Hok as [Hnd Hall]. apply t_ok_intent. rewrite fmap_app. split.
  - apply list.NoDup_app. split_and!; [done| |apply NoDup_singleton].
    intros e' Hin ->%list_elem_of_singleton. apply intent_exists_spec in Hin.
    simpl in Hin. by rewrite Hne in Hin.
  - apply Forall_app. split; [done|]. apply list.Forall_singleton. unfold intent_check. simpl.
    rewrite !fits_numeric_u256 by done.
    by destruct (Z.ltb_spec 0 (tx_gas_limit txn)), (Z.ltb_spec 0 (tx_max_fee_per_gas txn)); try lia.
Qed.

(** A new intent that passes the lint is inserted. *)
Lemma register_accepted e txn client t now :
  tx_in_range txn → t_ok t = true → intent_exists e t = false → transaction_lint txn = Ok tt →
  handle_submit_transaction e txn client (rh_idle t now) =
  (Ok tt, rh_idle (t ++ [intent_row e txn client (chain_u256 (tx_chain_id txn)) now]) now).
Proof.
  intros Hr Hok Hex Hl. unfold handle_submit_transaction, cbind_ok, cmap_err, clift, cret.
  rewrite stmt_quiet. unfold commit at 1, select. rewrite Hok. cbn [map_err]. rewrite Hex, Hl.
  destruct (lint_facts txn Hr Hl) as (_ & _ & Hc). rewrite (proj1 (u256_try_i64_Some _) Hc).
  cbn [result_of_option]. rewrite stmt_quiet. unfold commit, intent_insert.
  by rewrite intent_insert_ok.
Qed.

(** C33: registering an intent: for an execution that is already registered the
    answer is Ok and nothing changes, whatever the transaction is now; a new one
    is linted, and an error leaves the table as it was; an accepted one is
    inserted, and no constraint of the table ever refuses it. *)
Theorem register_functional e txn client t now :
  tx_in_range txn → t_ok t = true →
  handle_submit_transaction e txn client (rh_idle t now) =
  if intent_exists e t then (Ok tt, rh_idle t now)
  else match transaction_lint txn with
       | Err m => (Err m, rh_idle t now)
       | Ok _ => (Ok tt, rh_idle (t ++ [intent_row e txn client (chain_u256 (tx_chain_id txn)) now]) now)
       end.
Proof.
  intros Hr Hok. destruct (intent_exists e t) eqn:Hex.
  - unfold handle_submit_transaction, cbind_ok, cmap_err, clift, cret.
    rewrite stmt_quiet. unfold commit, select. rewrite Hok. cbn [map_err]. by rewrite Hex.
  - destruct (transaction_lint txn) as [[]|m] eqn:Hl; [by apply register_accepted|].
    unfold handle_submit_transaction, cbind_ok, cmap_err, clift, cret.
    rewrite stmt_quiet. unfold commit at 1, select. rewrite Hok. cbn [map_err]. by rewrite Hex, Hl.
Qed.

Lemma register_functional_witness :
  handle_submit_transaction (mkExecutionId 1) ex_tx (mkClientConfig 1 []) (rh_idle [] 0) =
  (Ok tt, rh_idle [intent_row (mkExecutionId 1) ex_tx (mkClientConfig 1 []) 1 0] 0).
Proof.
  rewrite (register_functional (mkExecutionId 1) ex_tx (mkClientConfig 1 []) [] 0);
    [reflexivity|apply ex_tx_in_range|reflexivity].
Defined.
