(* ===== verification/Shard.v ===== *)
(** * Routing keys to actor shards

    [src/crate/cortex/src/artifacts/pool.rs]: a fixed pool of handles, the
    shard of a key being its hash modulo the size of the pool.  The hash is
    std's [DefaultHasher], SipHash-1-3 with zero keys, written out so that the
    routing can be evaluated. *)

From S2P Require Import Prelude Types.

(** ** [std::hash::DefaultHasher] *)

Definition add64 (a b : Z) : Z := wrap_u64 (a + b).
Definition rotl64 (a k : Z) : Z := Z.lor (wrap_u64 (Z.shiftl a k)) (Z.shiftr a (64 - k)).

Record SipState := mkSip { sv0 : Z; sv1 : Z; sv2 : Z; sv3 : Z }.

Definition sip_round (s : SipState) : SipState :=
  let v0 := add64 (sv0 s) (sv1 s) in
  let v1 := Z.lxor (rotl64 (sv1 s) 13) v0 in
  let v0 := rotl64 v0 32 in
  let v2 := add64 (sv2 s) (sv3 s) in
  let v3 := Z.lxor (rotl64 (sv3 s) 16) v2 in
  let v0 := add64 v0 v3 in
  let v3 := Z.lxor (rotl64 v3 21) v0 in
  let v2 := add64 v2 v1 in
  let v1 := Z.lxor (rotl64 v1 17) v2 in
  let v2 := rotl64 v2 32 in
  mkSip v0 v1 v2 v3.

Definition sip_absorb (m : Z) (s : SipState) : SipState :=
  let s := sip_round (mkSip (sv0 s) (sv1 s) (sv2 s) (Z.lxor (sv3 s) m)) in
  mkSip (Z.lxor (sv0 s) m) (sv1 s) (sv2 s) (sv3 s).

(** Little-endian value of a byte string. *)
Definition le_val (l : Bytes) : Z := be_val (rev l).

(** The words of eight bytes, then the last, padded word with the length in
    its top byte. *)
Fixpoint sip_words (fuel : nat) (len : Z) (l : Bytes) (s : SipState) : SipState :=
  match fuel with
  | O => s
  | Datatypes.S fuel =>
      if (8 <=? length l)%nat
      then sip_words fuel len (drop 8 l) (sip_absorb (le_val (take 8 l)) s)
      else sip_absorb (Z.lor (Z.shiftl (len mod 256) 56) (le_val l)) s
  end.

Definition sip_finish (s : SipState) : Z :=
  let s := mkSip (sv0 s) (sv1 s) (Z.lxor (sv2 s) 255) (sv3 s) in
  let s := sip_round (sip_round (sip_round s)) in
  Z.lxor (Z.lxor (sv0 s) (sv1 s)) (Z.lxor (sv2 s) (sv3 s)).

(** [DefaultHasher::new()], the bytes written to it, [finish()]. *)
Definition default_hasher_finish (written : Bytes) : Z :=
  sip_finish (sip_words (Datatypes.S (length written)) (Z.of_nat (length written)) written
    (mkSip 0x736f6d6570736575 0x646f72616e646f6d 0x6c7967656e657261 0x7465646279746573)).

(** [Hash for [u8]]: the length as a [usize], then the bytes. *)
Definition hash_slice (l : Bytes) : Bytes := rev (be_bytes 8 (Z.of_nat (length l))) ++ l.

(** What a key writes into the hasher. *)
Class Hash (K : Type) := hash_bytes : K → Bytes.

(** Source: [crate/cortex/src/artifacts/pool.rs] lines 80-89, [ByAddress]. *)
Record ByAddress := mkByAddress { by_address : Address }.
#[export] Instance ByAddress_hash : Hash ByAddress := λ k, hash_slice (by_address k).

(** Source: [crate/cortex/src/artifacts/pool.rs] lines 91-102, [ByExecutionId]. *)
Record ByExecutionId := mkByExecutionId { by_execution_id : ExecutionId }.
#[export] Instance ByExecutionId_hash : Hash ByExecutionId :=
  λ k, hash_slice (be_bytes 16 (eid_uuid (by_execution_id k))).

(** [Hash for U256] is the library's: [U256Hash] stands for the bytes it
    writes. *)
Class U256Hash := u256_hash_bytes : Z → Bytes.
(** Source: [crate/cortex/src/artifacts/pool.rs] lines 104-115, [ByChainId]. *)
Record ByChainId := mkByChainId { by_chain_id : ChainId }.
#[export] Instance ByChainId_hash `{U256Hash} : Hash ByChainId :=
  λ k, u256_hash_bytes (chain_u256 (by_chain_id k)).

(** ** The pool *)

(** Source: [crate/cortex/src/artifacts/pool.rs] lines 67-71, [shard_index]. *)
Definition shard_index {K} `{Hash K} (key : K) (n : nat) : nat :=
  Z.to_nat (default_hasher_finish (hash_bytes key) mod Z.of_nat n).

(** Source: [crate/cortex/src/artifacts/pool.rs] lines 11-30, [ShardPool]. *)
Record ShardPool (T : Type) := mkShardPool { shards : list T }.
Arguments mkShardPool {T} _.
Arguments shards {T} _.

(** Source: [crate/cortex/src/artifacts/pool.rs] lines 34-47, [ShardPool::new]. [None] is
    the panic of the [assert!]. *)
Definition ShardPool_new {T} (handles : list T) : option (ShardPool T) :=
  match handles with [] => None | _ => Some (mkShardPool handles) end.

(** Source: [crate/cortex/src/artifacts/pool.rs] lines 57-61, [ShardPool::shard_count]. *)
Definition shard_count {T} (pool : ShardPool T) : nat := length (shards pool).

(** Source: [crate/cortex/src/artifacts/pool.rs] lines 49-55, [ShardPool::get]. [None] is
    the index panic. *)
Definition ShardPool_get {T K} `{Hash K} (pool : ShardPool T) (key : K) : option T :=
  shards pool !! shard_index key (shard_count pool).

#[global] Opaque default_hasher_finish.

Definition shard_map {T U} (f : T → U) (pool : ShardPool T) : ShardPool U :=
  mkShardPool (f <$> shards pool).

(** ** Routing *)

Lemma shard_index_lt {K} `{Hash K} (key : K) n : (0 < n)%nat → (shard_index key n < n)%nat.
Proof.
  intros Hn. unfold shard_index.
  pose proof (Z.mod_pos_bound (default_hasher_finish (hash_bytes key)) (Z.of_nat n)). lia.
Qed.

Lemma ShardPool_get_Some {T K} `{Hash K} (pool : ShardPool T) (key : K) :
  (0 < shard_count pool)%nat → is_Some (ShardPool_get pool key).
Proof.
  intros Hp. by apply lookup_lt_is_Some, shard_index_lt.
Qed.

Lemma ShardPool_get_map {T U K} `{Hash K} (f : T → U) (pool : ShardPool T) (key : K) :
  ShardPool_get (shard_map f pool) key = f <$> ShardPool_get pool key.
Proof.
  unfold ShardPool_get, shard_map, shard_count. simpl. rewrite length_fmap, list_lookup_fmap. reflexivity.
Qed.

Lemma ShardPool_get_elem {T K} `{Hash K} (pool : ShardPool T) (key : K) h :
  ShardPool_get pool key = Some h → h ∈ shards pool.
Proof. apply list_elem_of_lookup_2. Qed.

(** The hash of nothing, as std computes it, and three addresses over five
    shards. *)
Example default_hasher_empty : default_hasher_finish [] = 15130871412783076140.
Proof. vm_compute. reflexivity. Qed.

(** A pool built from a non-empty list of handles routes every key to one
    of them, never out of range, and two keys that write the same bytes to the
    hasher - the same address, the same execution id - always reach the same
    actor; an empty list is refused with a panic, so the remainder by the
    shard count is never a division by zero. *)
Theorem shard_routing {T} (handles : list T) :
  match ShardPool_new handles with
  | None => handles = []
  | Some pool =>
      ∀ (a b : Address),
        (∃ h, ShardPool_get pool (mkByAddress a) = Some h ∧ h ∈ handles) ∧
        (∀ e, ∃ h, ShardPool_get pool (mkByExecutionId e) = Some h ∧ h ∈ handles) ∧
        (hash_slice a = hash_slice b ↔ a = b) ∧
        (a = b → ShardPool_get pool (mkByAddress a) = ShardPool_get pool (mkByAddress b))
  end.
Proof.
  destruct handles as [|h hs]; [done|]. cbn [ShardPool_new]. intros a b.
  assert (Hget : ∀ K `{Hash K} (k : K), ∃ h', ShardPool_get (mkShardPool (h :: hs)) k = Some h' ∧ h' ∈ h :: hs).
  { intros K HK k. destruct (ShardPool_get_Some (mkShardPool (h :: hs)) k (Nat.lt_0_succ _)) as [h' Hh'].
    exists h'. split; [exact Hh'|]. exact (ShardPool_get_elem _ _ _ Hh'). }
  split_and!; [apply Hget|intros e; apply Hget| |by intros ->].
  split; [|by intros ->]. intros Heq. unfold hash_slice in Heq.
  apply app_inj_1 in Heq as [_ ?]; [done|]. by rewrite !length_rev, !length_be_bytes.
Qed.
