(* ===== verification/CortexError.v ===== *)
(** * The orchestrator's error type

    [src/crate/cortex/src/artifacts/error.rs]: its variants, the stage label
    and the text that end up in [PipelineStatus::Failed]. *)

From S2P Require Import Prelude Types Text Pool RpcClient.

(** Source: [crate/cortex/src/artifacts/error.rs] lines 8-69, [CortexError]. *)
Inductive CortexError :=
| CBackpressureTimeout (timeout_ms : Z)
| CEndpointPoolFailed (e : LobbyRpcError)
| CNoHealthyRpcProvider (e : LobbyRpcError)
| CRelayHost (e : RelayHostError)
| CNonceReservation (e : LocalError)
| CNonceResolve (e : LocalError)
| CNonceSync (e : LocalError)
| CSign (e : LocalError)
| CReSign (e : LocalError)
| CBroadcast (e : BroadcastError)
| CValidator (e : ValidatorError)
| CInternal (m : string).

(** Source: [crate/cortex/src/artifacts/error.rs] lines 12-69, [Display for CortexError]. *)
Definition CortexError_display (e : CortexError) : string :=
  match e with
  | CBackpressureTimeout t =>
      "pipeline semaphore timed out after " +:+ pretty t +:+ "ms — server is overloaded"
  | CEndpointPoolFailed e => "EndpointPool busy or curropted: " +:+ LobbyRpcError_display e
  | CNoHealthyRpcProvider e => "No healthy RPC provider available: " +:+ LobbyRpcError_display e
  | CRelayHost e =>
      "relay-host rejected or failed to record the transaction after retries: " +:+ RelayHostError_display e
  | CNonceReservation e => "nonce reservation failed after retries: " +:+ LocalError_display e
  | CNonceResolve e => "nonce resolve failed (lease will expire): " +:+ LocalError_display e
  | CNonceSync e => "failed to sync and reserve nonce after retry: " +:+ LocalError_display e
  | CSign e => "signing failed after retries: " +:+ LocalError_display e
  | CReSign e => "re-signing failed after nonce sync: " +:+ LocalError_display e
  | CBroadcast e => "broadcast failed after retries: " +:+ BroadcastError_display e
  | CValidator e => "Validator failed after retries: " +:+ ValidatorError_display e
  | CInternal m => "internal orchestrator error: " +:+ m
  end.

(** Source: [crate/cortex/src/artifacts/error.rs] lines 74-79, [CortexError::is_transient]. *)
Definition is_transient (e : CortexError) : bool :=
  match e with CBackpressureTimeout _ => true | _ => false end.

(** Source: [crate/cortex/src/artifacts/error.rs] lines 81-97, [CortexError::stage]. *)
Definition stage_of (e : CortexError) : string :=
  match e with
  | CBackpressureTimeout _ => "backpressure"
  | CEndpointPoolFailed _ => "rpc_semaphore_permit"
  | CNoHealthyRpcProvider _ => "acquire_healthy_endpoint"
  | CRelayHost _ => "relay_host"
  | CNonceReservation _ => "nonce_reserve"
  | CNonceResolve _ => "nonce_resolve"
  | CNonceSync _ => "nonce_sync"
  | CSign _ => "sign"
  | CReSign _ => "sign_post_nonce_sync"
  | CBroadcast _ => "broadcast"
  | CValidator _ => "validator"
  | CInternal _ => "internal"
  end.

(** The status that records a failure. *)
Definition failed_status (e : CortexError) : PipelineStatus :=
  Failed (stage_of e) (CortexError_display e).

(** A failed status names its stage: the labels of two errors agree only when
    they are of the same variant. *)
Lemma stage_of_cases e1 e2 :
  stage_of e1 = stage_of e2 → is_transient e1 = is_transient e2.
Proof. by destruct e1, e2. Qed.
