(* ===== verification/Status.v ===== *)
(** * The status registry

    [src/crate/cortex/src/artifacts/state.rs]: an in-memory book that answers
    every read, and Redis tasks spawned by the writes, which run later and in
    no fixed order. *)

From S2P Require Import Prelude Types Text.

(** ** What the registry calls

    The Redis commands, as documented: [SETEX] makes the key hold the value,
    [DEL] removes it, [GET] and [SCAN] read.  [redis_view] is what a key
    holds. *)
Class RedisOps (R : Type) := {
  redis_set_ex : string → string → Z → R → result unit string * R;
  redis_del : string → R → result unit string * R;
  redis_get : R → string → result (option string) string;
  redis_scan : R → Z → string → Z → result (Z * list string) string;
  redis_view : R → string → option string
}.

Class RedisLaws (R : Type) `{RedisOps R} := {
  redis_set_ex_view k v ttl r k' :
    redis_view (redis_set_ex k v ttl r).2 k' =
      match (redis_set_ex k v ttl r).1 with
      | Ok _ => if decide (k' = k) then Some v else redis_view r k'
      | Err _ => redis_view r k'
      end;
  redis_del_view k r k' :
    redis_view (redis_del k r).2 k' =
      match (redis_del k r).1 with
      | Ok _ => if decide (k' = k) then None else redis_view r k'
      | Err _ => redis_view r k'
      end;
  redis_get_view r k v : redis_get r k = Ok v → redis_view r k = v
}.

(** The [uuid] text and the serde encoding of [PipelineStatus]; both are read
    back by the code that wrote them. *)
Class StatusText := {
  uuid_display : Z → string;
  uuid_parse : string → option Z;
  status_to_json : PipelineStatus → result string string;
  status_from_json : string → option PipelineStatus
}.
Class StatusTextLaws `{StatusText} := {
  uuid_parse_display u : uuid_parse (uuid_display u) = Some u;
  status_json_roundtrip st j : status_to_json st = Ok j → status_from_json j = Some st
}.

Section registry.
Context {R : Type} `{RedisOps R} `{StatusText}.

(** Source: [crate/primitives/src/types.rs] lines 134-138, [Display for ExecutionId]. *)
Definition ExecutionId_display (e : ExecutionId) : string := uuid_display (eid_uuid e).

Definition status_key (e : ExecutionId) : string := "lobby:status:" +:+ ExecutionId_display e.
Definition state_key (e : ExecutionId) : string := "lobby:state:" +:+ ExecutionId_display e.

(** The tasks given to [tokio::spawn]. *)
Inductive RedisTask :=
| PersistStatus (e : ExecutionId) (status : PipelineStatus)
| DeleteStatus (e : ExecutionId).

(** Source: [crate/cortex/src/artifacts/state.rs] lines 13-31, [StatusRegistry].
    [spawned] lists the Redis tasks in the order they were spawned. *)
Record StatusRegistry := mkStatusRegistry {
  status_book : gmap ExecutionId PipelineStatus;
  spawned : list RedisTask
}.

(** Source: [crate/cortex/src/artifacts/state.rs] lines 121-159, [StatusRegistry::set]. *)
Definition registry_set (e : ExecutionId) (status : PipelineStatus) (s : StatusRegistry) : StatusRegistry :=
  mkStatusRegistry (<[e := status]> (status_book s)) (spawned s ++ [PersistStatus e status]).

(** Source: [crate/cortex/src/artifacts/state.rs] lines 161-170, [StatusRegistry::get]. *)
Definition registry_get (e : ExecutionId) (s : StatusRegistry) : option PipelineStatus :=
  status_book s !! e.

(** Source: [crate/cortex/src/artifacts/state.rs] lines 172-193, [StatusRegistry::remove]. *)
Definition registry_remove (e : ExecutionId) (s : StatusRegistry) : StatusRegistry :=
  mkStatusRegistry (delete e (status_book s)) (spawned s ++ [DeleteStatus e]).

(** Source: [crate/cortex/src/artifacts/state.rs] lines 199-210, [StatusRegistry::len and is_empty]. *)
Definition registry_len (s : StatusRegistry) : nat := size (status_book s).
Definition registry_is_empty (s : StatusRegistry) : bool := (registry_len s =? 0)%nat.

(** Source: [crate/cortex/src/artifacts/state.rs] lines 141-158, [set and remove (spawned tasks)].
    The body of a spawned task; its errors are only logged. *)
Definition run_task (t : RedisTask) (r : R) : R :=
  match t with
  | PersistStatus e status =>
      match status_to_json status with
      | Ok value => (redis_set_ex (status_key e) value 3600 r).2
      | Err _ => r
      end
  | DeleteStatus e => (redis_del (state_key e) r).2
  end.

(** The spawned tasks, in the order the runtime happens to run them. *)
Definition run_tasks (order : list RedisTask) (r : R) : R := foldl (λ r t, run_task t r) r order.

(** Source: [crate/cortex/src/artifacts/state.rs] lines 72-98, [StatusRegistry::new (for key in keys)]. *)
Fixpoint load_keys (r : R) (keys : list string) (book : gmap ExecutionId PipelineStatus) :
    result (gmap ExecutionId PipelineStatus) string :=
  match keys with
  | [] => Ok book
  | key :: keys =>
      match strip_prefix "lobby:status:" key with
      | None => load_keys r keys book
      | Some uuid_str =>
          match uuid_parse uuid_str with
          | None => load_keys r keys book
          | Some uuid =>
              match redis_get r key with
              | Err e => Err e
              | Ok None => load_keys r keys book
              | Ok (Some json) =>
                  match status_from_json json with
                  | Some status => load_keys r keys (<[mkExecutionId uuid := status]> book)
                  | None => load_keys r keys book
                  end
              end
          end
      end
  end.

(** Source: [crate/cortex/src/artifacts/state.rs] lines 60-104, [StatusRegistry::new (loop)].
    The [SCAN] loop from a cursor; [None] when [fuel] calls did not bring the
    cursor back to zero. *)
Fixpoint load_loop (fuel : nat) (r : R) (cursor : Z) (book : gmap ExecutionId PipelineStatus) :
    option (result (gmap ExecutionId PipelineStatus) string) :=
  match fuel with
  | O => None
  | S fuel =>
      match redis_scan r cursor "lobby:status:*" 100 with
      | Err e => Some (Err e)
      | Ok (new_cursor, keys) =>
          match load_keys r keys book with
          | Err e => Some (Err e)
          | Ok book => if new_cursor =? 0 then Some (Ok book) else load_loop fuel r new_cursor book
          end
      end
  end.

(** Source: [crate/cortex/src/artifacts/state.rs] lines 47-114, [StatusRegistry::new].
    The connection itself succeeded. *)
Definition StatusRegistry_new (fuel : nat) (r : R) : option (result StatusRegistry string) :=
  match load_loop fuel r 0 ∅ with
  | None => None
  | Some (Err e) => Some (Err e)
  | Some (Ok book) => Some (Ok (mkStatusRegistry book []))
  end.

(** A full iteration of [SCAN] from [cursor]: [n] calls, the keys they
    return. *)
Inductive scan_visits (r : R) : nat → Z → list string → Prop :=
| visit_last cursor keys :
    redis_scan r cursor "lobby:status:*" 100 = Ok (0, keys) → scan_visits r 1 cursor keys
| visit_more n cursor next keys rest :
    redis_scan r cursor "lobby:status:*" 100 = Ok (next, keys) → next ≠ 0 →
    scan_visits r n next rest → scan_visits r (S n) cursor (keys ++ rest).

End registry.

(** ** The book *)

Section book.
Context `{StatusText}.

Lemma registry_get_set e e' st s :
  registry_get e' (registry_set e st s) = if decide (e' = e) then Some st else registry_get e' s.
Proof.
  unfold registry_get, registry_set; simpl. case_decide as Heq; [subst; by simplify_map_eq|].
  by rewrite lookup_insert_ne.
Qed.

Lemma registry_get_remove e e' s :
  registry_get e' (registry_remove e s) = if decide (e' = e) then None else registry_get e' s.
Proof.
  unfold registry_get, registry_remove; simpl. case_decide as Heq; [subst; by simplify_map_eq|].
  by rewrite lookup_delete_ne.
Qed.

Lemma status_key_inj `{!StatusTextLaws} e e' : status_key e = status_key e' → e = e'.
Proof.
  intros Hk. assert (Hs : strip_prefix "lobby:status:" (status_key e) = strip_prefix "lobby:status:" (status_key e'))
    by (by rewrite Hk).
  unfold status_key in Hs. rewrite !strip_prefix_app in Hs. injection Hs as Hs.
  assert (uuid_parse (uuid_display (eid_uuid e)) = uuid_parse (uuid_display (eid_uuid e'))) as Hu
    by (unfold ExecutionId_display in Hs; by rewrite Hs).
  rewrite !uuid_parse_display in Hu. destruct e, e'. simpl in Hu. congruence.
Qed.

Lemma state_key_not_status e e' : state_key e ≠ status_key e'.
Proof. unfold state_key, status_key. simpl. intros [=]. Qed.
End book.

(** ** What Redis holds *)

Section redis.
Context {R : Type} `{RedisLaws R} `{StatusTextLaws}.

(** Every task of the list was serialised and accepted. *)
Fixpoint all_persisted (order : list RedisTask) (r : R) : Prop :=
  match order with
  | [] => True
  | PersistStatus e st :: order =>
      (∃ j, status_to_json st = Ok j ∧ (redis_set_ex (status_key e) j 3600 r).1 = Ok tt) ∧
      all_persisted order (run_task (PersistStatus e st) r)
  | t :: order => all_persisted order (run_task t r)
  end.

Lemma run_delete_view e e' (r : R) :
  redis_view (run_task (DeleteStatus e) r) (status_key e') = redis_view r (status_key e').
Proof.
  cbn [run_task]. rewrite redis_del_view. destruct (redis_del (state_key e) r).1; [|done].
  rewrite decide_False; [done|]. intros Hk. by apply (state_key_not_status e e').
Qed.

Lemma run_persist_view e st j e' (r : R) :
  status_to_json st = Ok j → (redis_set_ex (status_key e) j 3600 r).1 = Ok tt →
  redis_view (run_task (PersistStatus e st) r) (status_key e') =
    if decide (e' = e) then Some j else redis_view r (status_key e').
Proof.
  intros Hj Hr. cbn [run_task]. rewrite Hj, redis_set_ex_view, Hr.
  destruct (decide (e' = e)) as [->|Hne]; [by rewrite decide_True|].
  rewrite decide_False; [done|]. intros Hk. by apply Hne, status_key_inj.
Qed.

(** The book a run of the tasks amounts to: the last persisted status of each
    execution; a delete changes nothing. *)
Definition replay_task (t : RedisTask) (book : gmap ExecutionId PipelineStatus) :=
  match t with PersistStatus e st => <[e := st]> book | DeleteStatus _ => book end.
Definition replay (order : list RedisTask) (book : gmap ExecutionId PipelineStatus) :=
  foldl (λ b t, replay_task t b) book order.

(** Redis holds the encoding of what the book holds. *)
Definition mirrors (r : R) (book : gmap ExecutionId PipelineStatus) : Prop :=
  ∀ e, match book !! e with
       | Some st => ∃ j, status_to_json st = Ok j ∧ redis_view r (status_key e) = Some j
       | None => redis_view r (status_key e) = None
       end.

Lemma run_task_mirrors t order r book :
  all_persisted (t :: order) r → mirrors r book → mirrors (run_task t r) (replay_task t book).
Proof.
  intros Hp Hm e'. destruct t as [e st|e].
  - destruct Hp as [(j & Hj & Hr) _]. rewrite (run_persist_view _ _ _ _ _ Hj Hr). cbn [replay_task].
    case_decide as He; [subst; rewrite lookup_insert_eq; eauto|].
    rewrite lookup_insert_ne by done. apply Hm.
  - rewrite run_delete_view. apply Hm.
Qed.

Lemma run_tasks_mirrors order r book :
  all_persisted order r → mirrors r book → mirrors (run_tasks order r) (replay order book).
Proof.
  revert r book; induction order as [|t order IH]; intros r book Hp Hm; [done|].
  apply IH; [|by apply (run_task_mirrors _ order)]. destruct t; cbn [all_persisted] in Hp; tauto.
Qed.

(** ** Recovery at boot *)

(** The keys are status keys, and reading them works. *)
Definition readable (r : R) (keys : list string) : Prop :=
  ∀ k, k ∈ keys → (∃ e, k = status_key e) ∧ is_ok (redis_get r k) = true.

(** What a boot reads for an execution. *)
Definition entry (r : R) (e : ExecutionId) : option PipelineStatus :=
  redis_view r (status_key e) ≫= status_from_json.

Definition loaded (r : R) (keys : list string) (e : ExecutionId) (st : option PipelineStatus) :
    option PipelineStatus :=
  if decide (status_key e ∈ keys) then match entry r e with Some st' => Some st' | None => st end else st.

Lemma readable_cons k keys r : readable r (k :: keys) → readable r keys.
Proof. intros Hr k' Hk. apply Hr. by right. Qed.

Lemma load_keys_Ok r keys book :
  readable r keys →
  ∃ book', load_keys r keys book = Ok book' ∧ ∀ e, book' !! e = loaded r keys e (book !! e).
Proof.
  revert book; induction keys as [|k keys IH]; intros book Hr.
  { exists book. split; [done|]. intros e. unfold loaded. case_decide as Hin; [|done].
    by apply elem_of_nil in Hin. }
  destruct (Hr k ltac:(left)) as [[e ->] Hok].
  destruct (redis_get r (status_key e)) as [v|] eqn:Hget; [|done].
  apply redis_get_view in Hget as Hv.
  cbn [load_keys]. unfold status_key at 1. rewrite strip_prefix_app.
  unfold ExecutionId_display at 1. rewrite uuid_parse_display, Hget.
  set (book1 := match entry r e with Some st => <[e := st]> book | None => book end).
  destruct (IH book1 (readable_cons _ _ _ Hr)) as (book' & Hload & Hb').
  exists book'. split.
  - unfold book1, entry in Hload. rewrite Hv in Hload. destruct e as [u]. cbn [eid_uuid] in *.
    destruct v as [j|]; [|exact Hload]. simpl in Hload. by destruct (status_from_json j).
  - intros e'. rewrite Hb'. unfold loaded, book1.
    destruct (decide (e' = e)) as [->|Hne].
    + rewrite (decide_True (P := status_key e ∈ status_key e :: keys)) by left.
      destruct (entry r e) as [st|]; [rewrite lookup_insert_eq|]; by case_decide.
    + assert (Hlk : match entry r e with Some st => <[e := st]> book | None => book end !! e' = book !! e')
        by (destruct (entry r e); [by rewrite lookup_insert_ne|done]).
      rewrite Hlk. assert (Hin : status_key e' ∈ status_key e :: keys ↔ status_key e' ∈ keys).
      { rewrite elem_of_cons. split; [|auto]. intros [Hk|Hk]; [|done].
        apply status_key_inj in Hk. done. }
      by rewrite (decide_ext _ _ _ _ Hin).
Qed.

Lemma loaded_app r k1 k2 e st : loaded r k2 e (loaded r k1 e st) = loaded r (k1 ++ k2) e st.
Proof.
  unfold loaded. assert (status_key e ∈ k1 ++ k2 ↔ status_key e ∈ k1 ∨ status_key e ∈ k2) as Happ
    by apply elem_of_app.
  repeat case_decide; destruct (entry r e); tauto || done.
Qed.

Lemma load_loop_Ok r n cursor keys book fuel :
  scan_visits r n cursor keys → readable r keys → (n ≤ fuel)%nat →
  ∃ book', load_loop fuel r cursor book = Some (Ok book') ∧
           ∀ e, book' !! e = loaded r keys e (book !! e).
Proof.
  intros Hv. revert book fuel. induction Hv as [cursor keys Hs|n cursor next keys rest Hs Hn Hv IH];
    intros book fuel Hr Hf; (destruct fuel as [|fuel]; [lia|]); cbn [load_loop]; rewrite Hs.
  - destruct (load_keys_Ok r keys book Hr) as (book' & -> & Hb). by exists book'.
  - destruct (load_keys_Ok r keys book) as (book1 & -> & Hb1).
    { intros k Hk. apply Hr, elem_of_app. by left. }
    rewrite (proj2 (Z.eqb_neq _ _) Hn).
    destruct (IH book1 fuel) as (book2 & -> & Hb2).
    { intros k Hk. apply Hr, elem_of_app. by right. } { lia. }
    exists book2. split; [done|]. intros e. by rewrite Hb2, Hb1, loaded_app.
Qed.

(** A boot rebuilds the book that Redis mirrors. *)
Lemma reboot_mirrors r n keys fuel book :
  scan_visits r n 0 keys → readable r keys → (n ≤ fuel)%nat →
  (∀ e, is_Some (redis_view r (status_key e)) → status_key e ∈ keys) →
  mirrors r book → StatusRegistry_new fuel r = Some (Ok (mkStatusRegistry book [])).
Proof.
  intros Hv Hr Hf Hall Hm. unfold StatusRegistry_new.
  destruct (load_loop_Ok r n 0 keys ∅ fuel Hv Hr Hf) as (book' & -> & Hb).
  assert (book' = book) as ->; [|done].
  apply map_eq. intros e. rewrite Hb, lookup_empty. unfold loaded, entry.
  specialize (Hm e). destruct (book !! e) as [st|].
  - destruct Hm as (j & Hj & Hview).
    rewrite decide_True by (apply Hall; eauto).
    by rewrite Hview; simpl; rewrite (status_json_roundtrip _ _ Hj).
  - rewrite Hm. simpl. by case_decide.
Qed.
End redis.

(** ** A Redis and a text encoding to evaluate *)

#[export] Instance map_redis : RedisOps (gmap string string) := {|
  redis_set_ex k v _ r := (Ok tt, <[k := v]> r);
  redis_del k r := (Ok tt, delete k r);
  redis_get r k := Ok (r !! k);
  redis_scan r _ _ _ := Ok (0, (map_to_list r).*1);
  redis_view r k := r !! k
|}.

#[export] Instance map_redis_laws : RedisLaws (gmap string string).
Proof.
  split; intros; simpl in *; [..|congruence]; case_decide; subst; by simplify_map_eq.
Qed.

Fixpoint pos_text (p : positive) : string :=
  match p with
  | xH => ""
  | xO p => String "0" (pos_text p)
  | xI p => String "1" (pos_text p)
  end.
Fixpoint text_pos (s : string) : positive :=
  match s with
  | EmptyString => xH
  | String c s => if decide (c = "0"%char) then xO (text_pos s) else xI (text_pos s)
  end.
Lemma text_pos_text p : text_pos (pos_text p) = p.
Proof. induction p as [p IH|p IH|]; simpl; by rewrite ?IH. Qed.

Definition status_tuple (st : PipelineStatus) : nat * string * string * Z * Z :=
  match st with
  | PermitAquired => (0%nat, "", "", 0, 0)
  | Accepted => (1%nat, "", "", 0, 0)
  | NonceReserved => (2%nat, "", "", 0, 0)
  | Signed => (3%nat, "", "", 0, 0)
  | Broadcasted h m => (4%nat, h, m, 0, 0)
  | ConfirmedOnChain h => (5%nat, h, "", 0, 0)
  | Failed s r => (6%nat, s, r, 0, 0)
  | NonceMismatchDetected a b => (7%nat, "", "", nonce_u256 a, nonce_u256 b)
  | ValidatorTimedOut m => (8%nat, m, "", 0, 0)
  end.
Definition tuple_status (t : nat * string * string * Z * Z) : PipelineStatus :=
  match t with
  | (0%nat, _, _, _, _) => PermitAquired
  | (1%nat, _, _, _, _) => Accepted
  | (2%nat, _, _, _, _) => NonceReserved
  | (3%nat, _, _, _, _) => Signed
  | (4%nat, h, m, _, _) => Broadcasted h m
  | (5%nat, h, _, _, _) => ConfirmedOnChain h
  | (6%nat, s, r, _, _) => Failed s r
  | (7%nat, _, _, a, b) => NonceMismatchDetected (mkTxNonce a) (mkTxNonce b)
  | (_, m, _, _, _) => ValidatorTimedOut m
  end.

#[export] Instance toy_text : StatusText := {|
  uuid_display u := pos_text (encode u);
  uuid_parse s := decode (text_pos s);
  status_to_json st := Ok (pos_text (encode (status_tuple st)));
  status_from_json j := tuple_status <$> decode (text_pos j)
|}.

#[export] Instance toy_text_laws : StatusTextLaws.
Proof.
  split; simpl.
  - intros u. by rewrite text_pos_text, decode_encode.
  - intros st j [= <-]. rewrite text_pos_text, decode_encode. by destruct st as [| | | | | | |[] []|].
Qed.

(** ** What the registry promises *)

(** A life of the registry that starts with the book [book0]. *)
Definition set_on `{StatusText} (book0 : gmap ExecutionId PipelineStatus) (sets : list (ExecutionId * PipelineStatus)) :
    StatusRegistry :=
  foldl (λ s x, registry_set x.1 x.2 s) (mkStatusRegistry book0 []) sets.

Lemma set_on_spawned `{StatusText} book0 sets :
  spawned (set_on book0 sets) = (λ x, PersistStatus x.1 x.2) <$> sets.
Proof.
  unfold set_on. assert (Hg : ∀ s, spawned (foldl (λ s x, registry_set x.1 x.2 s) s sets)
    = spawned s ++ ((λ x, PersistStatus x.1 x.2) <$> sets)); [|by rewrite Hg].
  induction sets as [|x sets IH]; intros s; [by rewrite app_nil_r|]. cbn [foldl fmap list_fmap].
  rewrite IH. cbn [registry_set spawned]. by rewrite <- app_assoc.
Qed.

Lemma set_on_replay `{StatusText} book0 sets :
  replay (spawned (set_on book0 sets)) book0 = status_book (set_on book0 sets).
Proof.
  induction sets as [|x sets IH] using rev_ind; [done|]. unfold set_on in *. rewrite foldl_app. cbn [foldl].
  cbn [registry_set spawned status_book]. unfold replay in *. rewrite foldl_app, IH. done.
Qed.

(** A first life, without a book. *)
Definition set_all `{StatusText} (sets : list (ExecutionId * PipelineStatus)) : StatusRegistry := set_on ∅ sets.

(** A clean restart: when the spawned Redis writes ran
    in the order they were spawned and were all accepted, a restarted process
    whose SCAN returns every status key - in as many pages as it likes, with
    repetitions - rebuilds exactly the in-memory book the old process had, for
    every execution. *)
Theorem registry_reboot {R} `{RedisLaws R} `{StatusTextLaws} sets (r : R) n keys fuel :
  let r' := run_tasks (spawned (set_all sets)) r in
  (∀ e, redis_view r (status_key e) = None) →
  all_persisted (spawned (set_all sets)) r →
  scan_visits r' n 0 keys → readable r' keys → (n ≤ fuel)%nat →
  (∀ e, is_Some (redis_view r' (status_key e)) → status_key e ∈ keys) →
  StatusRegistry_new fuel r' = Some (Ok (mkStatusRegistry (status_book (set_all sets)) [])).
Proof.
  intros r' Hempty Hp Hv Hr Hf Hall.
  apply (reboot_mirrors r' n keys); [done..|].
  unfold set_all at 1. rewrite <- set_on_replay. apply run_tasks_mirrors; [done|].
  intros e. by rewrite lookup_empty.
Qed.

Definition ex_sets : list (ExecutionId * PipelineStatus) :=
  [(mkExecutionId 1, Accepted); (mkExecutionId 2, Accepted); (mkExecutionId 1, Signed)].
Definition ex_redis : gmap string string := run_tasks (spawned (set_all ex_sets)) ∅.

Lemma registry_reboot_witness :
  StatusRegistry_new 1 ex_redis
  = Some (Ok (mkStatusRegistry (status_book (set_all ex_sets)) [])).
Proof.
  apply (registry_reboot ex_sets (∅ : gmap string string) 1 ((map_to_list ex_redis).*1)).
  - done.
  - repeat split; eexists; split; reflexivity.
  - by constructor.
  - intros k Hk. split; [|done].
    assert (Hkeys : (map_to_list ex_redis).*1 =
      (status_key <$> [mkExecutionId 1; mkExecutionId 2]) ∨ (map_to_list ex_redis).*1 =
      (status_key <$> [mkExecutionId 2; mkExecutionId 1])) by (vm_compute; auto).
    destruct Hkeys as [Hk'|Hk']; rewrite Hk' in Hk; apply list_elem_of_fmap in Hk as (e & -> & _); eauto.
  - lia.
  - intros e [v Hv]. apply list_elem_of_fmap. exists (status_key e, v). split; [done|].
    by apply elem_of_map_to_list.
Defined.

(** *** A crash in between *)

(** What Redis holds under a status key is a status that was set for it. *)
Definition written {R} `{RedisOps R} `{StatusText} (sets : list (ExecutionId * PipelineStatus)) (r : R) : Prop :=
  ∀ e j, redis_view r (status_key e) = Some j → ∃ st, (e, st) ∈ sets ∧ status_to_json st = Ok j.

(** Some of the status keys have outlived their hour. *)
Definition expired {R} `{RedisOps R} `{StatusText} (r r' : R) : Prop :=
  ∀ e, redis_view r' (status_key e) = redis_view r (status_key e) ∨ redis_view r' (status_key e) = None.

Lemma run_task_written {R} `{RedisLaws R} `{StatusTextLaws} sets e st (r : R) :
  (e, st) ∈ sets → written sets r → written sets (run_task (PersistStatus e st) r).
Proof.
  intros Hin Hw. destruct (status_to_json st) as [j|] eqn:Hj; [|by cbn [run_task]; rewrite Hj].
  destruct (redis_set_ex (status_key e) j 3600 r).1 as [[]|m] eqn:Hr.
  - intros e' j'. rewrite (run_persist_view _ _ _ _ _ Hj Hr). case_decide as He; [|apply Hw].
    subst. intros [= <-]. eauto.
  - intros e' j'. cbn [run_task]. rewrite Hj, redis_set_ex_view, Hr. apply Hw.
Qed.

Lemma run_tasks_written {R} `{RedisLaws R} `{StatusTextLaws} before sets ran (r : R) :
  ran ⊆ (λ x, PersistStatus x.1 x.2) <$> sets → written before r → written (before ++ sets) (run_tasks ran r).
Proof.
  intros Hsub Hw. assert (Hw' : written (before ++ sets) r).
  { intros e j Hj. destruct (Hw e j Hj) as (st & Hin & Hst). exists st. split; [|done]. apply elem_of_app. by left. }
  clear Hw. revert r Hw'; induction ran as [|t ran IH]; intros r Hw; [done|].
  destruct (proj1 (list_elem_of_fmap _ _ _) (Hsub t ltac:(left))) as ([e st] & -> & Hin).
  apply IH; [|apply run_task_written; [apply elem_of_app; by right|done]]. intros t' Ht'. apply Hsub. by right.
Qed.

Lemma expired_written {R} `{RedisOps R} `{StatusText} sets (r r' : R) :
  expired r r' → written sets r → written sets r'.
Proof. intros He Hw e j Hj. destruct (He e) as [Hs|Hs]; rewrite Hs in Hj; [by apply Hw|done]. Qed.

(** C37: what a crash leaves of the status registry.  [before] are the sets of
    the earlier lives, [book0] what this one started with, [sets] what it was
    told; [ran] are the spawned Redis writes that ran before the crash - any of
    them, in any order, accepted or not - and then keys may have expired.  The
    next process, whose SCAN returns every status key, gives an execution only
    a status that was once set for it, and so will the one after it.  When the
    writes are those of the first [k] sets, accepted in order, onto a Redis that
    mirrored [book0], and nothing expired, it starts with the book of that
    moment - the last one, if all of them ran. *)
Theorem registry_crash {R} `{RedisLaws R} `{StatusTextLaws} before book0 sets ran (r r' : R) n keys fuel :
  written before r → ran ⊆ spawned (set_on book0 sets) → expired (run_tasks ran r) r' →
  scan_visits r' n 0 keys → readable r' keys → (n ≤ fuel)%nat →
  (∀ e, is_Some (redis_view r' (status_key e)) → status_key e ∈ keys) →
  ∃ book, StatusRegistry_new fuel r' = Some (Ok (mkStatusRegistry book [])) ∧
    written (before ++ sets) r' ∧ (∀ e st, book !! e = Some st → (e, st) ∈ before ++ sets) ∧
    ∀ k, mirrors r book0 → ran = spawned (set_on book0 (take k sets)) → all_persisted ran r → r' = run_tasks ran r →
      book = status_book (set_on book0 (take k sets)).
Proof.
  intros Hbefore Hsub He Hv Hr Hf Hall. rewrite set_on_spawned in Hsub.
  assert (Hw : written (before ++ sets) r')
    by (apply (expired_written _ _ _ He), run_tasks_written; [exact Hsub|exact Hbefore]).
  destruct (load_loop_Ok r' n 0 keys ∅ fuel Hv Hr Hf) as (book & Hl & Hb).
  assert (Hnew : StatusRegistry_new fuel r' = Some (Ok (mkStatusRegistry book [])))
    by (unfold StatusRegistry_new; by rewrite Hl).
  exists book. split_and!; [done|done| |].
  - intros e st. rewrite Hb, lookup_empty. unfold loaded, entry. case_decide; [|done].
    destruct (redis_view r' (status_key e)) as [j|] eqn:Hj; [|done]. cbn [mbind option_bind].
    destruct (Hw e j Hj) as (st' & Hin & Hst'). apply status_json_roundtrip in Hst' as ->. by intros [= <-].
  - intros k Hm0 Hran Hp Hr'. assert (Hm : mirrors r' (status_book (set_on book0 (take k sets)))).
    { rewrite <- set_on_replay, <- Hran, Hr'. by apply run_tasks_mirrors. }
    pose proof (reboot_mirrors r' n keys fuel _ Hv Hr Hf Hall Hm) as Hk. congruence.
Qed.

(** The last write of the three is lost: the restarted process answers
    [Accepted], although [Signed] was the status before the crash. *)
Definition ex_crashed : gmap string string := run_tasks (spawned (set_on ∅ (take 2 ex_sets))) ∅.

Lemma registry_crash_witness :
  ∃ book, StatusRegistry_new 1 ex_crashed = Some (Ok (mkStatusRegistry book [])) ∧
    book !! mkExecutionId 1 = Some Accepted ∧
    registry_get (mkExecutionId 1) (set_on ∅ ex_sets) = Some Signed.
Proof.
  destruct (registry_crash [] ∅ ex_sets (spawned (set_on ∅ (take 2 ex_sets))) (∅ : gmap string string) ex_crashed 1
    ((map_to_list ex_crashed).*1) 1) as (book & Hnew & _ & _ & Hbook).
  - intros e j Hj. discriminate Hj.
  - rewrite !set_on_spawned. intros t (x & -> & Hx)%list_elem_of_fmap. apply list_elem_of_fmap. exists x.
    split; [done|]. by eapply elem_of_take in Hx as (i & Hi & _); apply list_elem_of_lookup_2 in Hi.
  - intros e. by left.
  - by constructor.
  - intros k Hk. split; [|done].
    assert (Hkeys : (map_to_list ex_crashed).*1 =
      (status_key <$> [mkExecutionId 1; mkExecutionId 2]) ∨ (map_to_list ex_crashed).*1 =
      (status_key <$> [mkExecutionId 2; mkExecutionId 1])) by (vm_compute; auto).
    destruct Hkeys as [Hk'|Hk']; rewrite Hk' in Hk; apply list_elem_of_fmap in Hk as (e & -> & _); eauto.
  - lia.
  - intros e [v Hv]. apply list_elem_of_fmap. exists (status_key e, v). split; [done|].
    by apply elem_of_map_to_list.
  - exists book. split; [exact Hnew|]. rewrite (Hbook 2%nat).
    + split; vm_compute; reflexivity.
    + intros e. by rewrite lookup_empty.
    + reflexivity.
    + repeat split; eexists; split; reflexivity.
    + reflexivity.
Defined.

(** [remove] does not remove: it deletes [lobby:state:<id>] while [set]
    writes [lobby:status:<id>], so in whatever order the spawned tasks run the
    status key keeps its value and the next boot brings the execution back,
    although the removing process itself no longer knows it. *)
Theorem registry_remove_resurrects {R} `{RedisLaws R} `{StatusTextLaws} e st j s (r : R) order :
  status_to_json st = Ok j → (redis_set_ex (status_key e) j 3600 r).1 = Ok tt →
  (redis_set_ex (status_key e) j 3600 (run_task (DeleteStatus e) r)).1 = Ok tt →
  order ≡ₚ [PersistStatus e st; DeleteStatus e] →
  registry_get e (registry_remove e (registry_set e st s)) = None ∧
  entry (run_tasks order r) e = Some st.
Proof.
  intros Hj Hok1 Hok2 Hord. split; [by rewrite registry_get_remove, decide_True|].
  unfold entry. assert (Hv : redis_view (run_tasks order r) (status_key e) = Some j).
  { symmetry in Hord. apply Permutation_length_2_inv in Hord as [->| ->]; cbn [run_tasks foldl].
    - by rewrite run_delete_view, (run_persist_view _ _ j), decide_True.
    - by rewrite (run_persist_view _ _ j), decide_True. }
  rewrite Hv. simpl. exact (status_json_roundtrip _ _ Hj).
Qed.

Lemma registry_remove_resurrects_witness :
  let e := mkExecutionId 7 in
  registry_get e (registry_remove e (registry_set e Signed (mkStatusRegistry ∅ []))) = None ∧
  entry (run_tasks [DeleteStatus e; PersistStatus e Signed] (∅ : gmap string string)) e = Some Signed.
Proof.
  apply (registry_remove_resurrects (mkExecutionId 7) Signed
    (pos_text (encode (status_tuple Signed)))); [done..|]. constructor.
Defined.

(** The spawned writes are unordered: two of them run in the other order leave
    Redis with the older status, while the book has the newer one. *)
Lemma registry_writes_reorder {R} `{RedisLaws R} `{StatusTextLaws} e st1 st2 j s (r : R) :
  status_to_json st1 = Ok j →
  (redis_set_ex (status_key e) j 3600 (run_task (PersistStatus e st2) r)).1 = Ok tt →
  registry_get e (registry_set e st2 (registry_set e st1 s)) = Some st2 ∧
  entry (run_tasks [PersistStatus e st2; PersistStatus e st1] r) e = Some st1.
Proof.
  intros Hj Hr. split; [by rewrite registry_get_set, decide_True|].
  unfold entry. cbn [run_tasks foldl]. rewrite (run_persist_view _ _ j) by done.
  rewrite decide_True by done. simpl. exact (status_json_roundtrip _ _ Hj).
Qed.
