(* ===== verification/Scanner.v ===== *)
(** * The scanner bot

    [src/lobby/src/bots/scanner.rs] over the validator's table, the status
    registry and the provider of a chain.  The bot was written for an earlier
    client of the RPC crate, whose [get] and whose pools of (provider, metadata)
    pairs are no longer in the repository: [rpc_get] and [is_healthy] stand for
    them. *)

From S2P Require Import Prelude Types Sql Lease Pool RpcClient RpcApi Rlp Text Status Validator.

(** Source: [lobby/src/bots/scanner.rs] lines 16-22, [TimedOutTransaction]. *)
Record TimedOutTransaction := mkTimedOut {
  to_execution_id : ExecutionId;
  to_txn_hash : TxHash;
  to_chain_id : ChainId
}.

(** ** Queries *)

Definition timed_out (r : ValidationRow) : bool := bool_decide (vr_state r = "timed_out").

(** [None]: one of the conversions of [fetch_timed_out_txn] panics. *)
Definition to_timed_out (r : ValidationRow) : option TimedOutTransaction :=
  if (length (vr_tx_hash r) =? 32)%nat then
    match ChainId_try_from (vr_chain_id r) with
    | Ok c => Some (mkTimedOut (vr_execution_id r) (vr_tx_hash r) c)
    | Err _ => None
    end
  else None.

(** Source: [lobby/src/bots/scanner.rs] lines 103-127, [fetch_timed_out_txn].
    [fetch_optional] yields the first row of the result, if there is one. *)
Definition fetch_timed_out_txn :
    Comp (Db ValidationRow) (option (result (list TimedOutTransaction) SqlxError)) :=
  rows <~ stmt (select (λ _ t, head (take 100 (distinct_latest timed_out t)))) ;;
  match rows with
  | Err e => cret (Some (Err e))
  | Ok row => cret (Ok <$> mapM to_timed_out (option_list row))
  end.

(** [UPDATE ... WHERE execution_id = e AND revision = (SELECT MAX(revision) ...)]. *)
Definition update_max (e : ExecutionId) (f : Z → ValidationRow → ValidationRow)
    (now : Z) (locked : ValidationRow → bool) (t : list ValidationRow) :
    result (unit * list ValidationRow) SqlxError :=
  match max_revision e t with
  | Some m => Ok (tt, update_key (e, m) (f now) t)
  | None => Ok (tt, t)
  end.

(** Source: [lobby/src/bots/scanner.rs] lines 232-263, [update_db]. *)
Definition update_db (txn : TimedOutTransaction) (new_state : string) :
    Comp (Db ValidationRow) (result unit SqlxError) :=
  stmt (update_max (to_execution_id txn) (validation_set new_state)).

(** Source: [lobby/src/bots/scanner.rs] lines 265-285, [update_state]. *)
Definition update_state (txn : TimedOutTransaction) (new_state : string) (s : StatusRegistry) : StatusRegistry :=
  let status :=
    if decide (new_state = "included") then Some (ConfirmedOnChain (fmt_hex (to_txn_hash txn)))
    else if decide (new_state = "not_included") then Some (Failed "validation" "txn reverted on chain")
    else None in
  match status with
  | None => s
  | Some status =>
      match status_book s !! to_execution_id txn with
      | Some _ => registry_set (to_execution_id txn) status s
      | None => s
      end
  end.

(** ** The scan *)

Section scanner.
Context {P N M : Type} `{!ProviderOps P N}.
Context (rpc_get : ChainId → option (list (P * M))) (is_healthy : M → bool).

(** What the bot works on: the table, the registry, the network and its clock. *)
Record ScanWorld := mkScanWorld {
  sw_db : Db ValidationRow;
  sw_state : StatusRegistry;
  sw_net : N * Z
}.

Definition scan_db {A} (c : Comp (Db ValidationRow) A) : Comp ScanWorld A := λ w,
  let '(a, db) := c (sw_db w) in (a, mkScanWorld db (sw_state w) (sw_net w)).
Definition scan_net {A} (c : Comp (N * Z) A) : Comp ScanWorld A := λ w,
  let '(a, n) := c (sw_net w) in (a, mkScanWorld (sw_db w) (sw_state w) n).
Definition scan_state (f : StatusRegistry → StatusRegistry) : Comp ScanWorld unit := λ w,
  (tt, mkScanWorld (sw_db w) (f (sw_state w)) (sw_net w)).

(** Source: [lobby/src/bots/scanner.rs] lines 185-227, [process_txn]. *)
Definition process_txn (txn : TimedOutTransaction) (provider : P) : Comp ScanWorld (result unit SqlxError) :=
  receipt_option <~ scan_net (pr_transaction_receipt provider (to_txn_hash txn)) ;;
  match receipt_option with
  | Err _ => cret (Ok tt)
  | Ok None => cret (Ok tt)
  | Ok (Some receipt) =>
      let new_state := if rc_status receipt then "included" else "not_included" in
      _ <-? scan_db (update_db txn new_state) ;;
      _ <~ scan_state (update_state txn new_state) ;;
      cret (Ok tt)
  end.

(** Source: [lobby/src/bots/scanner.rs] lines 145-168, [process_chain (provider)].
    The first healthy endpoint, or the first one if none is healthy. *)
Definition choose_provider (chain_id : ChainId) : option P :=
  endpoints ← rpc_get chain_id;
  match List.find (λ e, is_healthy e.2) endpoints with
  | Some e => Some e.1
  | None => fst <$> head endpoints
  end.

(** The errors of the transactions are logged. *)
Fixpoint process_all (txns : list TimedOutTransaction) (provider : P) : Comp ScanWorld unit :=
  match txns with
  | [] => cret tt
  | txn :: txns => _ <~ process_txn txn provider ;; process_all txns provider
  end.

(** Source: [lobby/src/bots/scanner.rs] lines 132-180, [process_chain]. *)
Definition process_chain (chain_id : ChainId) (txns : list TimedOutTransaction) : Comp ScanWorld unit :=
  match choose_provider chain_id with
  | None => cret tt
  | Some provider => process_all txns provider
  end.

(** Source: [lobby/src/bots/scanner.rs] lines 66-74, [scanner_handler (grouping)]. *)
Definition by_chain_id (txns : list TimedOutTransaction) : gmap ChainId (list TimedOutTransaction) :=
  foldl (λ m tx, <[to_chain_id tx := default [] (m !! to_chain_id tx) ++ [tx]]> m) ∅ txns.

(** The tasks of the chains, one after the other: a scan has at most one
    ([scan_one_chain]). *)
Fixpoint process_chains (chains : list (ChainId * list TimedOutTransaction)) : Comp ScanWorld unit :=
  match chains with
  | [] => cret tt
  | (c, txns) :: chains => _ <~ process_chain c txns ;; process_chains chains
  end.

(** Source: [lobby/src/bots/scanner.rs] lines 49-99, [scanner_handler].
    [None]: a panic. *)
Definition scanner_handler : Comp ScanWorld (option (result unit SqlxError)) :=
  fetched <~ scan_db fetch_timed_out_txn ;;
  match fetched with
  | None => cret None
  | Some (Err e) => cret (Some (Err e))
  | Some (Ok []) => cret (Some (Ok tt))
  | Some (Ok timed_out_txn) =>
      _ <~ process_chains (map_to_list (by_chain_id timed_out_txn)) ;;
      cret (Some (Ok tt))
  end.

(** The 30 seconds between two ticks. *)
Definition tick : Comp ScanWorld unit :=
  scan_db (λ db, (tt, mkDb (db_rows db) (db_clock db + interval_secs 30) (db_script db))).

(** Source: [lobby/src/bots/scanner.rs] lines 32-44, [spawn_scanner_bot].
    [n] ticks; an error is logged and the loop goes on, a panic ends the task. *)
Fixpoint scanner_bot (n : nat) : Comp ScanWorld (list (option (result unit SqlxError))) :=
  match n with
  | O => cret []
  | S n' =>
      r <~ scanner_handler ;;
      match r with
      | None => cret [None]
      | Some _ => _ <~ tick ;; rs <~ scanner_bot n' ;; cret (r :: rs)
      end
  end.
End scanner.

Arguments mkScanWorld {N} _ _ _.
Arguments sw_db {N} _.
Arguments sw_state {N} _.
Arguments sw_net {N} _.

(** ** One scan *)

(** The row a scan looks at. *)
Definition scan_target (t : list ValidationRow) : option ValidationRow := head (distinct_latest timed_out t).

(** The transaction a scan makes of its row. *)
Definition txn_of (r : ValidationRow) : TimedOutTransaction :=
  mkTimedOut (vr_execution_id r) (vr_tx_hash r) (mkChainId (vr_chain_id r)).

(** The table after the receipt of [e] was found. *)
Definition settled_rows (e : ExecutionId) (st : string) (now : Z) (t : list ValidationRow) : list ValidationRow :=
  match max_revision e t with Some m => update_key (e, m) (validation_set st now) t | None => t end.

Definition receipt_state (receipt : TransactionReceipt) : string :=
  if rc_status receipt then "included" else "not_included".

(** The rows of the validator have chain ids that fit. *)
Definition chains_fit (t : list ValidationRow) : Prop := ∀ r, r ∈ t → 0 ≤ vr_chain_id r ≤ i64_max.

Lemma scan_target_Some t r :
  scan_target t = Some r →
  r ∈ t ∧ vr_state r = "timed_out" ∧
  (∀ r', r' ∈ t → vr_execution_id r' = vr_execution_id r → vr_state r' = "timed_out" →
     vr_revision r' ≤ vr_revision r) ∧
  ∀ r', r' ∈ t → vr_state r' = "timed_out" →
    eid_uuid (vr_execution_id r) ≤ eid_uuid (vr_execution_id r').
Proof.
  intros Hr. pose proof (distinct_latest_head timed_out t r Hr) as Hmin.
  assert (Hl : r ∈ distinct_latest timed_out t) by exact (head_Some_elem_of _ _ Hr).
  apply distinct_latest_elem in Hl. pose proof Hl as [Hin [_ Hto%bool_decide_eq_true]%andb_true_iff]%latest_Some.
  split_and!; [done|done| |].
  - intros r' Hr' He Hst. apply (latest_max _ t r r' Hl Hr'). apply andb_true_iff. by split; apply bool_decide_eq_true.
  - intros r' Hr' Hst. apply Hmin; [done|]. by apply bool_decide_eq_true.
Qed.

Lemma scan_target_None t r : scan_target t = None → r ∈ t → vr_state r ≠ "timed_out".
Proof.
  intros Hn Hr Hst. destruct (distinct_latest_exists timed_out t r Hr) as (r' & _ & Hin & _);
    [by apply bool_decide_eq_true|].
  unfold scan_target in Hn. destruct (distinct_latest timed_out t); [by apply elem_of_nil in Hin|done].
Qed.

Lemma validation_set_ok e st now t :
  st = "included" ∨ st = "not_included" → t_ok t = true → t_ok (settled_rows e st now t) = true.
Proof.
  intros Hst. unfold settled_rows. destruct (max_revision e t) as [m|]; [|done]. apply lt_ok_map.
  - intros r _. by case_bool_decide.
  - intros r _. case_bool_decide; [|done]. simpl. unfold is_pending. simpl. by destruct Hst as [-> | ->].
  - intros r _. case_bool_decide; [|done]. simpl. unfold validation_check.
    rewrite !andb_true_iff, !bool_decide_eq_true. intros [_ Hh]. split; [|done].
    simpl. unfold validation_states. destruct Hst as [-> | ->]; set_solver.
Qed.

Lemma update_db_quiet txn st t now :
  st = "included" ∨ st = "not_included" → t_ok t = true →
  update_db txn st (vd_idle t now) = (Ok tt, vd_idle (settled_rows (to_execution_id txn) st now t) now).
Proof.
  intros Hst Hok. pose proof (validation_set_ok (to_execution_id txn) st now t Hst Hok) as Hok'.
  unfold update_db. rewrite stmt_quiet. unfold commit, update_max.
  unfold settled_rows in *. destruct (max_revision _ t); by rewrite Hok'.
Qed.

Lemma to_timed_out_fits t r :
  t_ok t = true → chains_fit t → r ∈ t →
  to_timed_out r = Some (txn_of r).
Proof.
  intros Hok Hc Hr. apply lt_ok in Hok as (_ & _ & Hch).
  apply (proj1 (list.Forall_forall _ _) Hch) in Hr as Hcheck. simpl in Hcheck. unfold validation_check in Hcheck.
  apply andb_true_iff in Hcheck as [_ Hlen]. unfold to_timed_out.
  by rewrite Hlen, ChainId_try_from_nonneg by (by apply Hc).
Qed.

Lemma fetch_quiet t now :
  t_ok t = true → chains_fit t →
  fetch_timed_out_txn (vd_idle t now) =
    (Some (Ok (txn_of <$> option_list (scan_target t))), vd_idle t now).
Proof.
  intros Hok Hc. unfold fetch_timed_out_txn, cbind, cret. rewrite stmt_quiet. unfold commit, select. rewrite Hok.
  replace (head (take 100 (distinct_latest timed_out t))) with (scan_target t)
    by (unfold scan_target; by destruct (distinct_latest timed_out t)).
  destruct (scan_target t) as [r|] eqn:Hr; [|done].
  apply scan_target_Some in Hr as (Hin & _). simpl.
  by rewrite (to_timed_out_fits t r Hok Hc Hin).
Qed.

(** A scan has the task of one chain at most. *)
Lemma scan_one_chain txn : map_to_list (by_chain_id [txn]) = [(to_chain_id txn, [txn])].
Proof.
  unfold by_chain_id. cbn [foldl]. rewrite lookup_empty. cbn [default app].
  rewrite insert_empty. apply map_to_list_singleton.
Qed.

Lemma update_state_get txn receipt s e :
  registry_get e (update_state txn (receipt_state receipt) s) =
    if decide (e = to_execution_id txn ∧ is_Some (registry_get e s))
    then Some (if rc_status receipt then ConfirmedOnChain (fmt_hex (to_txn_hash txn))
               else Failed "validation" "txn reverted on chain")
    else registry_get e s.
Proof.
  unfold update_state, receipt_state.
  set (status := if rc_status receipt then ConfirmedOnChain (fmt_hex (to_txn_hash txn))
                 else Failed "validation" "txn reverted on chain").
  assert (Hs : (if decide ((if rc_status receipt then "included" else "not_included") = "included")
                then Some (ConfirmedOnChain (fmt_hex (to_txn_hash txn)))
                else if decide ((if rc_status receipt then "included" else "not_included") = "not_included")
                then Some (Failed "validation" "txn reverted on chain") else None) = Some status)
    by (unfold status; by destruct (rc_status receipt)).
  rewrite Hs. destruct (status_book s !! to_execution_id txn) eqn:Hb.
  - rewrite registry_get_set. destruct (decide (e = to_execution_id txn)) as [->|Hne].
    + rewrite decide_True; [done|]. split; [done|]. by exists p.
    + rewrite decide_False; [done|tauto].
  - rewrite decide_False; [done|]. intros [-> [st Hst]]. unfold registry_get in Hst. congruence.
Qed.

Section scan.
Context {P N M : Type} `{!ProviderOps P N}.
Context (rpc_get : ChainId → option (list (P * M))) (is_healthy : M → bool).

Abbreviation scan := (scanner_handler rpc_get is_healthy).
Abbreviation provider_of r := (choose_provider rpc_get is_healthy (mkChainId (vr_chain_id r))).
Abbreviation idle_scan t now reg net := (mkScanWorld (vd_idle t now) reg net).

Lemma scan_run t now reg net :
  t_ok t = true → chains_fit t →
  scan (idle_scan t now reg net) =
    (Some (Ok tt),
     match scan_target t with
     | None => idle_scan t now reg net
     | Some r =>
         match provider_of r with
         | None => idle_scan t now reg net
         | Some provider =>
             match pr_transaction_receipt provider (vr_tx_hash r) net with
             | (Ok (Some receipt), net') =>
                 idle_scan (settled_rows (vr_execution_id r) (receipt_state receipt) now t) now
                   (update_state (txn_of r) (receipt_state receipt) reg) net'
             | (_, net') => idle_scan t now reg net'
             end
         end
     end).
Proof.
  intros Hok Hc. unfold scanner_handler, cbind, scan_db. cbn [sw_db sw_state sw_net].
  rewrite fetch_quiet by done. destruct (scan_target t) as [r|]; [|done].
  change (txn_of <$> option_list (Some r)) with [txn_of r]. rewrite scan_one_chain.
  cbn [process_chains to_chain_id txn_of].
  unfold cbind, process_chain. destruct (provider_of r) as [p|]; [|done].
  cbn [process_all]. unfold cbind, process_txn, cbind, scan_net. cbn [sw_db sw_state sw_net to_txn_hash].
  change (to_txn_hash (txn_of r)) with (vr_tx_hash r).
  destruct (pr_transaction_receipt p (vr_tx_hash r) net) as [[[receipt|]|err] net']; [|reflexivity|reflexivity].
  unfold cbind_ok, cbind, cret, scan_db, scan_state. cbn [sw_db sw_state sw_net].
  rewrite update_db_quiet; [done| |done]. unfold receipt_state. destruct (rc_status receipt); auto.
Qed.

(** One scan of an idle database.  It looks at one timed-out request: of the
    executions with such a request the one with the smallest id, and of its
    timed-out requests the latest.  With a provider for the chain that finds the
    receipt, the execution's newest row becomes [included] or [not_included] as
    the receipt says, every other row stays as it is, and the registry changes
    the status of this execution alone, only if it has one.  Without a timed-out
    request, a provider, an answer or a receipt nothing changes; a scan never
    panics and never reports an error. *)
Theorem scan_functional t now reg net :
  t_ok t = true → chains_fit t →
  ∃ t' reg' net', scan (idle_scan t now reg net) = (Some (Ok tt), idle_scan t' now reg' net') ∧
  match scan_target t with
  | None => (∀ r, r ∈ t → vr_state r ≠ "timed_out") ∧ t' = t ∧ reg' = reg ∧ net' = net
  | Some r =>
      r ∈ t ∧ vr_state r = "timed_out" ∧
      (∀ r', r' ∈ t → vr_state r' = "timed_out" →
         eid_uuid (vr_execution_id r) ≤ eid_uuid (vr_execution_id r') ∧
         (vr_execution_id r' = vr_execution_id r → vr_revision r' ≤ vr_revision r)) ∧
      match (λ p, (pr_transaction_receipt p (vr_tx_hash r) net).1) <$> provider_of r with
      | Some (Ok (Some receipt)) =>
          (∃ newest, newest ∈ t ∧ vr_execution_id newest = vr_execution_id r ∧
             (∀ r', r' ∈ t → vr_execution_id r' = vr_execution_id r → vr_revision r' ≤ vr_revision newest) ∧
             t' = (λ r', if bool_decide (t_pkey r' = t_pkey newest)
                         then validation_set (receipt_state receipt) now r' else r') <$> t) ∧
          (∀ e, registry_get e reg' =
             if decide (e = vr_execution_id r ∧ is_Some (registry_get e reg))
             then Some (if rc_status receipt then ConfirmedOnChain (fmt_hex (vr_tx_hash r))
                        else Failed "validation" "txn reverted on chain")
             else registry_get e reg)
      | _ => t' = t ∧ reg' = reg
      end
  end.
Proof.
  intros Hok Hc. rewrite (scan_run t now reg net Hok Hc). destruct (scan_target t) as [r|] eqn:Hr.
  2:{ exists t, reg, net. split_and!; [done|intros r Hin; by apply (scan_target_None t)|done..]. }
  pose proof (scan_target_Some t r Hr) as (Hin & Hst & Hlast & Hmin).
  assert (Hsel : ∀ r', r' ∈ t → vr_state r' = "timed_out" →
    eid_uuid (vr_execution_id r) ≤ eid_uuid (vr_execution_id r') ∧
    (vr_execution_id r' = vr_execution_id r → vr_revision r' ≤ vr_revision r)) by auto.
  destruct (provider_of r) as [p|]; cbn [fmap option_fmap option_map];
    [|by exists t, reg, net].
  destruct (pr_transaction_receipt p (vr_tx_hash r) net) as [[[receipt|]|err] net']; cbn [fst];
    [|by exists t, reg, net'..].
  eexists _, _, net'. split; [reflexivity|]. split_and!; [done|done|exact Hsel| |].
  - destruct (max_revision_ge (vr_execution_id r) t r Hin ltac:(done)) as (m & Hm & _).
    destruct (max_revision_row _ _ _ Hm) as (newest & Hn & Hk & Hmax).
    exists newest. pose proof Hk as Hk'. unfold t_pkey in Hk'. injection Hk' as Hk1 Hk2. split_and!; [done|done| |].
    + intros r' Hr' He. simpl in Hk2. rewrite Hk2. by apply Hmax.
    + unfold settled_rows. by rewrite Hm, <- Hk.
  - intros e. rewrite update_state_get. done.
Qed.
End scan.

(** ** Many scans *)

(** What a scan may do to a row. *)
Definition row_settles (r r' : ValidationRow) : Prop :=
  r' = r ∨ vr_state r = "timed_out" ∧ (vr_state r' = "included" ∨ vr_state r' = "not_included") ∧
    t_pkey r' = t_pkey r ∧ vr_chain_id r' = vr_chain_id r ∧ vr_tx_hash r' = vr_tx_hash r.

Lemma row_settles_trans r1 r2 r3 : row_settles r1 r2 → row_settles r2 r3 → row_settles r1 r3.
Proof.
  intros [->|(Hs & Hn & Hk & Hc & Hh)]; [done|]. intros [->|(Hs' & _)]; [right; by split_and!|].
  destruct Hn; congruence.
Qed.

Lemma row_settles_same t : Forall2 row_settles t t.
Proof. apply Forall_Forall2_diag, list.Forall_true. intros r. by left. Qed.

Definition timed_out_count (t : list ValidationRow) : nat := length (filter (λ r, timed_out r = true) t).

Lemma timed_out_count_drop r st now t :
  st = "included" ∨ st = "not_included" → r ∈ t → vr_state r = "timed_out" →
  (timed_out_count (update_key (t_pkey r) (validation_set st now) t) < timed_out_count t)%nat.
Proof.
  intros Hst Hr Hto. unfold timed_out_count, update_key.
  set (f := λ r', if bool_decide (t_pkey r' = t_pkey r) then validation_set st now r' else r').
  assert (Hnew : ∀ r', timed_out (validation_set st now r') = false).
  { intros r'. unfold timed_out. simpl. by destruct Hst as [-> | ->]. }
  assert (Hf : ∀ x, timed_out (f x) = true → timed_out x = true).
  { intros x. unfold f. case_bool_decide; [by rewrite Hnew|done]. }
  assert (Hle : ∀ l, (length (filter (λ r, timed_out r = true) (f <$> l)) ≤
                      length (filter (λ r, timed_out r = true) l))%nat).
  { induction l as [|x l IH]; [done|]. cbn [fmap list_fmap]. rewrite !list.filter_cons.
    repeat case_decide; cbn [length]; try lia. by exfalso; auto. }
  apply list_elem_of_split in Hr as (l1 & l2 & ->).
  rewrite fmap_app, !list.filter_app, !length_app. cbn [fmap list_fmap]. rewrite !list.filter_cons.
  rewrite (decide_False (P := timed_out (f r) = true))
    by (unfold f; by rewrite bool_decide_true, Hnew).
  rewrite (decide_True (P := timed_out r = true)) by (by apply bool_decide_eq_true).
  pose proof (Hle l1). pose proof (Hle l2). cbn [length]. lia.
Qed.

Section progress.
Context {P N M : Type} `{!ProviderOps P N}.
Context (rpc_get : ChainId → option (list (P * M))) (is_healthy : M → bool).

Abbreviation provider_of r := (choose_provider rpc_get is_healthy (mkChainId (vr_chain_id r))).
Abbreviation idle_scan t now reg net := (mkScanWorld (vd_idle t now) reg net).

(** Whatever the network does, the receipt of the row is found. *)
Definition found (r : ValidationRow) : Prop :=
  ∀ net : N * Z, ∃ p receipt, provider_of r = Some p ∧
    (pr_transaction_receipt p (vr_tx_hash r) net).1 = Ok (Some receipt).

(** It is never found. *)
Definition missing (r : ValidationRow) : Prop :=
  ∀ (p : P) (net : N * Z) receipt, provider_of r = Some p →
    (pr_transaction_receipt p (vr_tx_hash r) net).1 ≠ Ok (Some receipt).

(** A timed-out request is the only one of its execution. *)
Definition sole (t : list ValidationRow) : Prop :=
  ∀ r r', r ∈ t → r' ∈ t → vr_state r = "timed_out" → vr_execution_id r' = vr_execution_id r → r' = r.

Definition drainable (t : list ValidationRow) : Prop :=
  t_ok t = true ∧ chains_fit t ∧ sole t ∧ ∀ r, r ∈ t → vr_state r = "timed_out" → found r.

Lemma drainable_settles t t' :
  drainable t → t_ok t' = true → Forall2 row_settles t t' → drainable t'.
Proof.
  intros (_ & Hc & Hs & Hf) Hok' Hm.
  assert (Hback : ∀ r', r' ∈ t' → ∃ r, r ∈ t ∧ row_settles r r').
  { intros r' (i & Hi)%list_elem_of_lookup. destruct (Forall2_lookup_r _ _ _ _ _ Hm Hi) as (r & Hr & ?).
    exists r. split; [by eapply list_elem_of_lookup_2|done]. }
  assert (Hstays : ∀ r', r' ∈ t' → vr_state r' = "timed_out" → r' ∈ t).
  { intros r' Hr' Hst. destruct (Hback r' Hr') as (r & Hr & [->|(_ & Hn & _)]); [done|].
    destruct Hn; congruence. }
  split_and!; [done| | |by intros r Hr Hst; apply Hf; [apply Hstays|]].
  - intros r' Hr'. destruct (Hback r' Hr') as (r & Hr & [->|(_ & _ & _ & -> & _)]); by apply Hc.
  - intros r1 r2 H1 H2 Hst He. pose proof (Hstays r1 H1 Hst) as Hin1.
    destruct (Hback r2 H2) as (r & Hr & [->|(Hst' & Hn & Hk & _)]); [by apply Hs|].
    assert (r1 = r) as ->; [|].
    { symmetry. apply Hs; [done..|]. unfold t_pkey in Hk. injection Hk as Hk _. simpl in Hk. congruence. }
    (* the row that became final is not timed out any more *)
    apply (pkey_unique t'); [by apply lt_ok in Hok' as [? _]|done..].
Qed.

Lemma settled_rows_sole t r st now :
  sole t → r ∈ t → vr_state r = "timed_out" →
  settled_rows (vr_execution_id r) st now t = update_key (t_pkey r) (validation_set st now) t.
Proof.
  intros Hs Hr Hst. unfold settled_rows.
  destruct (max_revision_ge (vr_execution_id r) t r Hr ltac:(done)) as (m & Hm & _). rewrite Hm.
  destruct (max_revision_row _ _ _ Hm) as (r0 & Hr0 & Hk & _).
  assert (r0 = r) as ->; [|by rewrite Hk].
  apply Hs; [done..|]. unfold t_pkey in Hk. by injection Hk as Hk _.
Qed.

Lemma update_settles t r st now :
  st = "included" ∨ st = "not_included" → t_ok t = true → r ∈ t → vr_state r = "timed_out" →
  Forall2 row_settles t (update_key (t_pkey r) (validation_set st now) t).
Proof.
  intros Hst Hok Hr Hto. unfold update_key. apply Forall2_fmap_r, Forall_Forall2_diag, list.Forall_forall.
  intros r' Hr'. unfold compose. case_bool_decide as Hk; [right|by left].
  pose proof Hok as (Hnd & _)%lt_ok.
  assert (r' = r) as -> by (by apply (pkey_unique t)). by split_and!.
Qed.

(** A scan of a table in which every receipt can be found settles a request. *)
Lemma scan_settles t now reg net :
  drainable t →
  ∃ t' reg' net', scanner_handler rpc_get is_healthy (idle_scan t now reg net) =
      (Some (Ok tt), idle_scan t' now reg' net') ∧
    drainable t' ∧ Forall2 row_settles t t' ∧
    (timed_out_count t' ≤ timed_out_count t - 1)%nat.
Proof.
  intros Hd. pose proof Hd as (Hok & Hc & Hs & Hf). rewrite (scan_run _ _ t now reg net Hok Hc).
  destruct (scan_target t) as [r|] eqn:Hr.
  2:{ exists t, reg, net. split_and!; [done|done|apply row_settles_same|].
      unfold timed_out_count. replace (filter _ t) with (@nil ValidationRow); [simpl; lia|].
      symmetry. apply elem_of_nil_inv. intros x [Hx%bool_decide_eq_true Hin]%list_elem_of_filter.
      by apply (scan_target_None t x). }
  apply scan_target_Some in Hr as (Hin & Hst & _).
  destruct (Hf r Hin Hst net) as (p & receipt & Hp & Hrec). rewrite Hp.
  destruct (pr_transaction_receipt p (vr_tx_hash r) net) as [res net']. cbn [fst] in Hrec. subst res.
  rewrite settled_rows_sole by done.
  assert (Hst' : receipt_state receipt = "included" ∨ receipt_state receipt = "not_included")
    by (unfold receipt_state; destruct (rc_status receipt); auto).
  pose proof (validation_set_ok (vr_execution_id r) _ now t Hst' Hok) as Hok'.
  rewrite settled_rows_sole in Hok' by done.
  pose proof (update_settles t r _ now Hst' Hok Hin Hst) as Hm.
  eexists _, _, net'. split; [reflexivity|]. split_and!; [by eapply drainable_settles|done|].
  pose proof (timed_out_count_drop r _ now t Hst' Hin Hst). lia.
Qed.

Lemma scanner_bot_drains n t now reg net :
  drainable t → (timed_out_count t ≤ n)%nat →
  ∃ t' now' reg' net', scanner_bot rpc_get is_healthy n (idle_scan t now reg net) =
      (replicate n (Some (Ok tt)), idle_scan t' now' reg' net') ∧
    Forall2 row_settles t t' ∧ timed_out_count t' = 0%nat.
Proof.
  revert t now reg net. induction n as [|n IH]; intros t now reg net Hd Hn.
  { exists t, now, reg, net. split_and!; [done|apply row_settles_same|lia]. }
  destruct (scan_settles t now reg net Hd) as (t1 & reg1 & net1 & Hrun & Hd1 & Hm1 & Hn1).
  destruct (IH t1 (now + interval_secs 30) reg1 net1 Hd1 ltac:(lia)) as (t2 & now2 & reg2 & net2 & Hrun2 & Hm2 & Hz).
  exists t2, now2, reg2, net2. split_and!; [|by eapply Forall2_trans; [exact row_settles_trans| |]|done].
  cbn [scanner_bot]. unfold cbind at 1. rewrite Hrun. unfold cbind, tick, scan_db.
  cbn [sw_db sw_state sw_net db_rows db_clock db_script]. rewrite Hrun2. done.
Qed.

Lemma scanner_bot_stuck n t now reg net r :
  t_ok t = true → chains_fit t → scan_target t = Some r → missing r →
  ∃ now' net', scanner_bot rpc_get is_healthy n (idle_scan t now reg net) =
    (replicate n (Some (Ok tt)), idle_scan t now' reg net').
Proof.
  intros Hok Hc Hr Hmiss. revert now net. induction n as [|n IH]; intros now net; [by exists now, net|].
  assert (Hrun : ∃ net1, scanner_handler rpc_get is_healthy (idle_scan t now reg net) =
    (Some (Ok tt), idle_scan t now reg net1)).
  { rewrite (scan_run _ _ t now reg net Hok Hc), Hr.
    destruct (provider_of r) as [p|] eqn:Hp; [|by exists net].
    pose proof (Hmiss p net) as Hno.
    destruct (pr_transaction_receipt p (vr_tx_hash r) net) as [[[receipt|]|err] net1]; [|by exists net1..].
    by destruct (Hno receipt). }
  destruct Hrun as [net1 Hrun]. destruct (IH (now + interval_secs 30) net1) as (now2 & net2 & Hrun2).
  exists now2, net2. cbn [scanner_bot]. unfold cbind at 1. rewrite Hrun. unfold cbind, tick, scan_db.
  cbn [sw_db sw_state sw_net db_rows db_clock db_script]. by rewrite Hrun2.
Qed.

(** C20: what many scans achieve.  When every timed-out request is the only one
    of its execution and the node finds its receipt, as many ticks as there are
    such requests settle them all: each becomes [included] or [not_included],
    every other row stays as it was, and no tick fails.  But a scan examines one
    request only (the query is fetched with [fetch_optional], although it asks
    for a hundred rows), that of the smallest execution id with a timed-out one:
    if its receipt is never found, no number of ticks changes any row or status,
    however many requests of larger ids wait. *)
Theorem scanner_progress t now reg net :
  (drainable t → ∀ n, (timed_out_count t ≤ n)%nat →
     ∃ t' now' reg' net', scanner_bot rpc_get is_healthy n (idle_scan t now reg net) =
         (replicate n (Some (Ok tt)), idle_scan t' now' reg' net') ∧
       Forall2 row_settles t t' ∧ ∀ r, r ∈ t' → vr_state r ≠ "timed_out") ∧
  (t_ok t = true → chains_fit t → ∀ r, scan_target t = Some r → missing r →
     (∀ r', r' ∈ t → vr_state r' = "timed_out" → eid_uuid (vr_execution_id r) ≤ eid_uuid (vr_execution_id r')) ∧
     ∀ n, ∃ now' net', scanner_bot rpc_get is_healthy n (idle_scan t now reg net) =
       (replicate n (Some (Ok tt)), idle_scan t now' reg net')).
Proof.
  split.
  - intros Hd n Hn. destruct (scanner_bot_drains n t now reg net Hd Hn) as (t' & now' & reg' & net' & Hrun & Hm & Hz).
    exists t', now', reg', net'. split_and!; [done|done|]. intros r Hr Hst.
    apply nil_length_inv in Hz. apply (elem_of_nil r). rewrite <- Hz.
    apply list_elem_of_filter. split; [by apply bool_decide_eq_true|done].
  - intros Hok Hc r Hr Hmiss. split; [|intros n; by apply (scanner_bot_stuck n t now reg net r)].
    intros r' Hr' Hst. apply (distinct_latest_head timed_out t r Hr r' Hr'). by apply bool_decide_eq_true.
Qed.
End progress.

(** ** Two timed-out requests and a node that knows one of them *)

Definition scan_hash (b : Byte.byte) : TxHash := replicate 32 b.

(** The provider of an endpoint is its number; it knows the hash of that byte
    and nothing else. *)
Definition toy_node : ProviderOps Z unit := {|
  pr_send_raw_transaction _ _ s := (Err "not here", s);
  pr_transaction_count_pending _ _ s := (Err "not here", s);
  pr_transaction_receipt p h s :=
    (if decide (h = scan_hash (byte_of_Z p)) then Ok (Some (mkReceipt (p <? 8) (Some 1))) else Ok None, s);
  pr_block_number _ s := (Err "not here", s)
|}.
#[local] Existing Instance toy_node.

(** Chain [c] has an unhealthy endpoint and a healthy one; only the latter
    knows a transaction. *)
Definition toy_get (c : ChainId) : option (list (Z * bool)) := Some [(0, false); (chain_u256 c, true)].

Definition timed_out_row (u rev chain : Z) (b : Z) : ValidationRow :=
  mkValidationRow (mkExecutionId u) rev chain (scan_hash (byte_of_Z b)) "timed_out" 0 0.

Definition scan_table : list ValidationRow := [timed_out_row 2 1 7 7; timed_out_row 1 1 8 8].
Definition scan_book : StatusRegistry :=
  mkStatusRegistry {[mkExecutionId 1 := ValidatorTimedOut "late"]} [].

Local Ltac scan_rows := intros; repeat match goal with
  | H : _ ∈ _ |- _ => unfold scan_table in H; apply elem_of_cons in H as [->|H]
  | H : _ ∈ [] |- _ => by apply elem_of_nil in H
  end.

Lemma scan_table_fits : chains_fit scan_table.
Proof. intros r Hr. scan_rows; vm_compute; split; congruence. Qed.

Lemma scan_table_drainable : drainable toy_get id scan_table.
Proof.
  split_and!; [vm_compute; reflexivity|exact scan_table_fits| |].
  - unfold sole. scan_rows; try done.
  - scan_rows; intros net; eexists _, _; (split; [reflexivity|reflexivity]).
Qed.

(** The request of the smaller id is settled first, as reverted; the registry
    follows for the execution it holds. *)
Example scanner_toy :
  let w := (scanner_bot toy_get id 2 (mkScanWorld (vd_idle scan_table 0) scan_book (tt, 0))).2 in
  vr_state <$> db_rows (sw_db w) = ["included"; "not_included"] ∧
  registry_get (mkExecutionId 1) (sw_state w) = Some (Failed "validation" "txn reverted on chain") ∧
  registry_get (mkExecutionId 2) (sw_state w) = None.
Proof. vm_compute. repeat split. Qed.

(** The update writes the newest row of the execution, not the one that timed
    out: a request that is being validated again is closed under its validator,
    and the next scan finds the same row again. *)
Example scan_closes_newer_request :
  let t := [timed_out_row 1 1 7 7; validation_set "pending" 0 (timed_out_row 1 2 7 7)] in
  let w := (scanner_bot toy_get id 2 (mkScanWorld (vd_idle t 0) scan_book (tt, 0))).2 in
  vr_state <$> db_rows (sw_db w) = ["timed_out"; "included"].
Proof. vm_compute. reflexivity. Qed.

Lemma scan_functional_witness :
  ∃ t' reg' net', scanner_handler toy_get id (mkScanWorld (vd_idle scan_table 0) scan_book (tt, 0)) =
    (Some (Ok tt), mkScanWorld (vd_idle t' 0) reg' net').
Proof.
  destruct (scan_functional toy_get id scan_table 0 scan_book (tt, 0)) as (t' & reg' & net' & Hrun & _);
    [vm_compute; reflexivity|exact scan_table_fits|by exists t', reg', net'].
Defined.

(** The first of two requests is unknown to its node: the second waits for
    ever. *)
Definition blocked_table : list ValidationRow := [timed_out_row 1 1 7 9; timed_out_row 2 1 7 7].

Lemma blocked_missing : missing (N := unit) toy_get id (timed_out_row 1 1 7 9).
Proof. intros p net receipt Hp. change (Some 7 = Some p) in Hp. injection Hp as <-. vm_compute. congruence. Qed.

Lemma blocked_fits : chains_fit blocked_table.
Proof.
  intros r Hr. unfold blocked_table in Hr. apply elem_of_cons in Hr as [->|Hr]; [vm_compute; split; congruence|].
  apply list_elem_of_singleton in Hr as ->. vm_compute; split; congruence.
Qed.

Lemma scanner_progress_witness :
  (∃ t' now' reg' net', scanner_bot toy_get id 2 (mkScanWorld (vd_idle scan_table 0) scan_book (tt, 0)) =
      ([Some (Ok tt); Some (Ok tt)], mkScanWorld (vd_idle t' now') reg' net') ∧
    ∀ r, r ∈ t' → vr_state r ≠ "timed_out") ∧
  ∃ now' net', scanner_bot toy_get id 3 (mkScanWorld (vd_idle blocked_table 0) scan_book (tt, 0)) =
    (replicate 3 (Some (Ok tt)), mkScanWorld (vd_idle blocked_table now') scan_book net').
Proof.
  split.
  - destruct (proj1 (scanner_progress toy_get id scan_table 0 scan_book (tt, 0)) scan_table_drainable 2%nat)
      as (t' & now' & reg' & net' & Hrun & _ & Hz); [vm_compute; lia|].
    exists t', now', reg', net'. split; [exact Hrun|exact Hz].
  - apply (proj2 (proj2 (scanner_progress toy_get id blocked_table 0 scan_book (tt, 0)) eq_refl blocked_fits
      (timed_out_row 1 1 7 9) eq_refl blocked_missing) 3%nat).
Defined.
