(* ===== verification/Pipeline.v ===== *)
(** * The pipeline of one execution

    [src/crate/cortex/src/pipeline.rs]: relay host, nonce, signature,
    endpoint, broadcast with one nonce recovery, validation.  The handles are
    the trait objects of [src/crate/primitives/src/traits.rs], over an
    arbitrary world [W]: a call may change it in any way, which covers what
    the other pipelines and the actors do in the meantime. *)

From S2P Require Import Prelude Types Retry Pool RpcClient CortexError Shard.

(** ** The traits *)

Section traits.
Context (W : Type).

(** Source: [crate/primitives/src/traits.rs] lines 8-29, [NonceManager]. *)
Record NonceManager := mkNonceManager {
  nm_reserve : ChainId → Address → ExecutionId → Comp W (result TxNonce LocalError);
  nm_resolve : ExecutionId → NonceState → Comp W (result unit LocalError);
  nm_sync : ChainId → Address → ExecutionId → TxNonce → Comp W (result TxNonce LocalError)
}.

(** Source: [crate/primitives/src/traits.rs] lines 33-46, [Signer]. *)
Record Signer := mkSigner {
  sg_sign : ChainId → Address → ExecutionId → Eip1559Transaction → Comp W (result SignedTransaction LocalError);
  sg_revert : ExecutionId → Comp W (result unit LocalError)
}.

(** Source: [crate/primitives/src/traits.rs] lines 56-66, [Broadcaster]. *)
Record Broadcaster := mkBroadcaster {
  bc_broadcast : ChainId → Address → ExecutionId → SignedTransaction → nat →
    Comp W (result BroadcastOutcome BroadcastError)
}.

(** Source: [crate/primitives/src/traits.rs] lines 70-79, [Validator]. *)
Record Validator := mkValidator {
  vd_validate : ChainId → ExecutionId → TxHash → nat → Comp W (result ValidatorOutcome ValidatorError)
}.

(** Source: [crate/primitives/src/traits.rs] lines 84-92, [IntentRelay]. *)
Record IntentRelay := mkIntentRelay {
  ir_register : ExecutionId → Eip1559Transaction → ClientConfig → Comp W (result unit RelayHostError)
}.

(** Source: [crate/primitives/src/traits.rs] lines 97-101, [StateStore]. *)
Record StateStore := mkStateStore {
  ss_set : ExecutionId → PipelineStatus → W → W;
  ss_get : ExecutionId → W → option PipelineStatus;
  ss_remove : ExecutionId → W → W
}.

(** [acquire_healthy_endpoint(&rpc_client, ..)]. *)
Record EndpointSource := mkEndpointSource {
  es_acquire : ChainId → Z → Comp W (result (option nat) LobbyRpcError)
}.

(** Source: [crate/cortex/src/pipeline.rs] lines 26-52, [PipelineContext].
    Built without the telemetry feature. *)
Record PipelineContext := mkPipelineContext {
  px_execution_id : ExecutionId;
  px_client_config : ClientConfig;
  px_txn : Eip1559Transaction;
  px_relayhost_pool : ShardPool IntentRelay;
  px_nonce_pool : ShardPool NonceManager;
  px_sign_pool : ShardPool Signer;
  px_broadcast_pool : ShardPool Broadcaster;
  px_validator_pool : ShardPool Validator;
  px_retry_config : RetryConfig;
  px_status : StateStore;
  px_rpc_client : EndpointSource
}.
End traits.
Arguments mkNonceManager {W}. Arguments nm_reserve {W}. Arguments nm_resolve {W}. Arguments nm_sync {W}.
Arguments mkSigner {W}. Arguments sg_sign {W}. Arguments sg_revert {W}.
Arguments mkBroadcaster {W}. Arguments bc_broadcast {W}.
Arguments mkValidator {W}. Arguments vd_validate {W}.
Arguments mkIntentRelay {W}. Arguments ir_register {W}.
Arguments mkStateStore {W}. Arguments ss_set {W}. Arguments ss_get {W}. Arguments ss_remove {W}.
Arguments mkEndpointSource {W}. Arguments es_acquire {W}.
Arguments mkPipelineContext {W}.
Arguments px_execution_id {W}. Arguments px_client_config {W}. Arguments px_txn {W}.
Arguments px_relayhost_pool {W}. Arguments px_nonce_pool {W}. Arguments px_sign_pool {W}.
Arguments px_broadcast_pool {W}. Arguments px_validator_pool {W}. Arguments px_retry_config {W}.
Arguments px_status {W}. Arguments px_rpc_client {W}.

(** ** Control flow: a value, an early [return], a panic of the task, or a
    loop that did not finish in its fuel *)
Inductive flow (A : Type) : Type :=
| Next (a : A)
| Return
| Panic
| OutOfFuel.
Arguments Next {A} a.
Arguments Return {A}.
Arguments Panic {A}.
Arguments OutOfFuel {A}.

Definition fbind {W A B} (c : Comp W (flow A)) (k : A → Comp W (flow B)) : Comp W (flow B) :=
  cbind c (λ r, match r with
                | Next a => k a
                | Return => cret Return
                | Panic => cret Panic
                | OutOfFuel => cret OutOfFuel
                end).

Notation "x <-> c ;; k" := (fbind c (λ x, k))
  (at level 60, c at next level, right associativity) : lobby_scope.

Definition fnext {W A} (a : A) : Comp W (flow A) := cret (Next a).
Definition fdo {W} (f : W → W) : Comp W (flow unit) := λ w, (Next tt, f w).
(** A value that must be there: an index in bounds. *)
Definition funwrap {W A} (o : option A) : Comp W (flow A) :=
  cret match o with Some a => Next a | None => Panic end.

(** [retry_with_backoff(..).await] inside the task: its [unreachable!] panics. *)
Definition attempt {W T E} `{Runtime W} (config : RetryConfig) (op : Comp W (result T (RetryDecision E))) :
    Comp W (flow (result T E)) :=
  cbind (retry_with_backoff config op) (λ r, cret match r with Some r => Next r | None => Panic end).

(** [.map_err(RetryDecision::Retry)]. *)
Definition retried {W T E} (c : Comp W (result T E)) : Comp W (result T (RetryDecision E)) :=
  cmap_err Retry c.

(** [{tx_hash:#x}] and the constant texts. *)
Definition waiting_text : string := "Waiting for validation on-chain".
Definition timeout_text : string := "validator timed out, wait for confirmation".

Section pipeline.
Context {W : Type} `{Runtime W} `{U256Hash}.

(** ** Helpers *)

(** Source: [crate/cortex/src/pipeline.rs] lines 593-621, [release_nonce]. *)
Definition release_nonce (handle : NonceManager W) (e : ExecutionId) (config : RetryConfig) : Comp W (flow unit) :=
  _ <-> attempt config (retried (nm_resolve handle e NReleased)) ;;
  fnext tt.

(** Source: [crate/cortex/src/pipeline.rs] lines 623-651, [revert_sign]. *)
Definition revert_sign (handle : Signer W) (e : ExecutionId) (config : RetryConfig) : Comp W (flow unit) :=
  _ <-> attempt config (retried (sg_revert handle e)) ;;
  fnext tt.

(** Source: [crate/cortex/src/pipeline.rs] lines 653-680, [finalise_nonce]. *)
Definition finalise_nonce (handle : NonceManager W) (e : ExecutionId) (config : RetryConfig) : Comp W (flow unit) :=
  _ <-> attempt config (retried (nm_resolve handle e NFinalized)) ;;
  fnext tt.

(** Source: [crate/cortex/src/pipeline.rs] lines 682-710, [consume_nonce]. *)
Definition consume_nonce (handle : NonceManager W) (e : ExecutionId) (config : RetryConfig) : Comp W (flow unit) :=
  _ <-> attempt config (retried (nm_resolve handle e NConsumed)) ;;
  fnext tt.

(** Source: [crate/cortex/src/pipeline.rs] lines 712-732, [record_faliure]. *)
Definition record_faliure (registry : StateStore W) (e : ExecutionId) (err : CortexError) : Comp W (flow unit) :=
  fdo (ss_set registry e (Failed (stage_of err) (CortexError_display err))).

(** [record_faliure(..); return]. *)
Definition fail_with {A} (registry : StateStore W) (e : ExecutionId) (err : CortexError) : Comp W (flow A) :=
  _ <-> record_faliure registry e err ;;
  cret Return.

Context (ctx : PipelineContext W).
Let execution_id := px_execution_id ctx.
Let from_address := cc_from_address (px_client_config ctx).
Let chain_id := tx_chain_id (px_txn ctx).
Let config := px_retry_config ctx.
Let set_status (st : PipelineStatus) : Comp W (flow unit) := fdo (ss_set (px_status ctx) execution_id st).
Let fail {A} (err : CortexError) : Comp W (flow A) := fail_with (px_status ctx) execution_id err.

(** ** Stages *)

(** Source: [crate/cortex/src/pipeline.rs] lines 108-141, [run_pipeline (relay host)]. *)
Definition relay_stage : Comp W (flow unit) :=
  relayhost_handle <-> funwrap (ShardPool_get (px_relayhost_pool ctx) (mkByExecutionId execution_id)) ;;
  rh_result <-> attempt config
    (retried (ir_register relayhost_handle execution_id (px_txn ctx) (px_client_config ctx))) ;;
  match rh_result with
  | Err e => fail (CRelayHost e)
  | Ok _ => set_status Accepted
  end.

(** Source: [crate/cortex/src/pipeline.rs] lines 143-180, [run_pipeline (nonce reserve)]. *)
Definition nonce_stage (nonce_handle : NonceManager W) : Comp W (flow Eip1559Transaction) :=
  reserved <-> attempt config (retried (nm_reserve nonce_handle chain_id from_address execution_id)) ;;
  match reserved with
  | Err e => fail (CNonceReservation e)
  | Ok nonce =>
      _ <-> set_status NonceReserved ;;
      fnext (set_tx_nonce nonce (px_txn ctx))
  end.

(** Source: [crate/cortex/src/pipeline.rs] lines 182-218, [run_pipeline (signing)]. *)
Definition sign_stage (nonce_handle : NonceManager W) (sign_handle : Signer W) (txn : Eip1559Transaction) :
    Comp W (flow SignedTransaction) :=
  signed <-> attempt config (retried (sg_sign sign_handle chain_id from_address execution_id txn)) ;;
  match signed with
  | Err e =>
      _ <-> release_nonce nonce_handle execution_id config ;;
      fail (CSign e)
  | Ok s =>
      _ <-> set_status Signed ;;
      fnext s
  end.

(** Source: [crate/cortex/src/pipeline.rs] lines 220-255, [run_pipeline (endpoint index)]. *)
Definition endpoint_stage (nonce_handle : NonceManager W) : Comp W (flow nat) :=
  let endpoint_timeout := from_secs 30 in
  index <~ es_acquire (px_rpc_client ctx) chain_id endpoint_timeout ;;
  match index with
  | Ok (Some index) => fnext index
  | Ok None =>
      _ <-> release_nonce nonce_handle execution_id config ;;
      fail (CNoHealthyRpcProvider (NoEndpointsAvailable chain_id))
  | Err e =>
      _ <-> release_nonce nonce_handle execution_id config ;;
      fail (CEndpointPoolFailed e)
  end.

(** Which broadcast errors end the retry loop at once. *)
Definition broadcast_decision (e : BroadcastError) : RetryDecision BroadcastError :=
  match e with
  | BNonceTooLow _ _ => FailImmediately e
  | BMissingProvider _ => FailImmediately e
  | _ => Retry e
  end.

(** Source: [crate/cortex/src/pipeline.rs] lines 264-300, [run_pipeline (broadcast attempt)]. *)
Definition broadcast_attempt (bh : Broadcaster W) (signed : SignedTransaction) (sticky_index : nat) :
    Comp W (flow (result BroadcastOutcome BroadcastError)) :=
  attempt config (cmap_err broadcast_decision
    (bc_broadcast bh chain_id from_address execution_id signed sticky_index)).

(** Source: [crate/cortex/src/pipeline.rs] lines 331-432, [run_pipeline (nonce recovery)]. *)
Definition recover_nonce (nonce_handle : NonceManager W) (sign_handle : Signer W)
    (txn : Eip1559Transaction) (nonce_on_chain attempted_nonce : TxNonce) :
    Comp W (flow (Eip1559Transaction * SignedTransaction)) :=
  _ <-> set_status (NonceMismatchDetected nonce_on_chain attempted_nonce) ;;
  _ <-> consume_nonce nonce_handle execution_id config ;;
  _ <-> revert_sign sign_handle execution_id config ;;
  synced <-> attempt config (retried (nm_sync nonce_handle chain_id from_address execution_id nonce_on_chain)) ;;
  match synced with
  | Err e => fail (CNonceSync e)
  | Ok corrected_nonce =>
      _ <-> set_status NonceReserved ;;
      let txn := set_tx_nonce corrected_nonce txn in
      resigned <-> attempt config (retried (sg_sign sign_handle chain_id from_address execution_id txn)) ;;
      match resigned with
      | Err e =>
          _ <-> release_nonce nonce_handle execution_id config ;;
          fail (CReSign e)
      | Ok signed =>
          _ <-> set_status Signed ;;
          fnext (txn, signed)
      end
  end.

(** Source: [crate/cortex/src/pipeline.rs] lines 435-467, [run_pipeline (broadcast errors)]. *)
Definition broadcast_failed (nonce_handle : NonceManager W) (e : BroadcastError) :
    Comp W (flow BroadcastOutcome) :=
  match e with
  | BInternal _ | BDatabaseError _ | BInvariant _ => fail (CBroadcast e)
  | _ =>
      _ <-> release_nonce nonce_handle execution_id config ;;
      fail (CBroadcast e)
  end.

(** Source: [crate/cortex/src/pipeline.rs] lines 261-468, [run_pipeline (broadcast loop)].
    One unit of fuel per iteration. *)
Fixpoint broadcast_loop (fuel : nat) (nonce_handle : NonceManager W) (sign_handle : Signer W)
    (bh : Broadcaster W) (sticky_index : nat) (nonce_retry_attempted : bool)
    (txn : Eip1559Transaction) (signed : SignedTransaction) : Comp W (flow BroadcastOutcome) :=
  match fuel with
  | O => cret OutOfFuel
  | Datatypes.S fuel =>
      sent <-> broadcast_attempt bh signed sticky_index ;;
      match sent with
      | Ok outcome => fnext outcome
      | Err (BNonceTooLow nonce_on_chain attempted_nonce) =>
          if nonce_retry_attempted then
            _ <-> release_nonce nonce_handle execution_id config ;;
            fail (CBroadcast (BNonceTooLow nonce_on_chain attempted_nonce))
          else
            recovered <-> recover_nonce nonce_handle sign_handle txn nonce_on_chain attempted_nonce ;;
            broadcast_loop fuel nonce_handle sign_handle bh sticky_index true recovered.1 recovered.2
      | Err e => broadcast_failed nonce_handle e
      end
  end.

(** Source: [crate/cortex/src/pipeline.rs] lines 500-527, [run_pipeline (validation)]. *)
Definition validate_at (nonce_handle : NonceManager W) (vh : Validator W) (tx_hash : TxHash) (sticky_index : nat) :
    Comp W (flow ValidatorOutcome) :=
  validation <~ vd_validate vh chain_id execution_id tx_hash sticky_index ;;
  match validation with
  | Ok outcome => fnext outcome
  | Err (VDatabase _ as e) | Err (VInternal _ as e) => fail (CValidator e)
  | Err e =>
      _ <-> release_nonce nonce_handle execution_id config ;;
      fail (CValidator e)
  end.

(** Source: [crate/cortex/src/pipeline.rs] lines 491-527, [run_pipeline (validator)]. *)
Definition validator_stage (nonce_handle : NonceManager W) (tx_hash : TxHash) (sticky_index : nat) :
    Comp W (flow ValidatorOutcome) :=
  vh <-> funwrap (ShardPool_get (px_validator_pool ctx) (mkByChainId chain_id)) ;;
  validate_at nonce_handle vh tx_hash sticky_index.

(** Source: [crate/cortex/src/pipeline.rs] lines 529-579, [run_pipeline (outcome)]. *)
Definition outcome_stage (nonce_handle : NonceManager W) (tx_hash : TxHash) (validation : ValidatorOutcome) :
    Comp W (flow unit) :=
  match validation with
  | Included _ _ =>
      _ <-> finalise_nonce nonce_handle execution_id config ;;
      set_status (ConfirmedOnChain (fmt_hex tx_hash))
  | NotIncluded =>
      _ <-> release_nonce nonce_handle execution_id config ;;
      set_status (Failed "validator" ("tx " +:+ fmt_hex tx_hash +:+ " not included on-chain"))
  | Timeout =>
      _ <-> consume_nonce nonce_handle execution_id config ;;
      set_status (ValidatorTimedOut timeout_text)
  end.

(** Source: [crate/cortex/src/pipeline.rs] lines 85-588, [run_pipeline]. *)
Definition run_pipeline (fuel : nat) : Comp W (flow unit) :=
  _ <-> relay_stage ;;
  nonce_handle <-> funwrap (ShardPool_get (px_nonce_pool ctx) (mkByAddress from_address)) ;;
  txn <-> nonce_stage nonce_handle ;;
  sign_handle <-> funwrap (ShardPool_get (px_sign_pool ctx) (mkByExecutionId execution_id)) ;;
  signed <-> sign_stage nonce_handle sign_handle txn ;;
  sticky_index <-> endpoint_stage nonce_handle ;;
  bh <-> funwrap (ShardPool_get (px_broadcast_pool ctx) (mkByExecutionId execution_id)) ;;
  outcome <-> broadcast_loop fuel nonce_handle sign_handle bh sticky_index false txn signed ;;
  let tx_hash := txn_hash outcome in
  _ <-> set_status (Broadcasted (fmt_hex tx_hash) waiting_text) ;;
  validation <-> validator_stage nonce_handle tx_hash sticky_index ;;
  outcome_stage nonce_handle tx_hash validation.

End pipeline.
