(* ===== verification/PipelineSpec.v ===== *)
(** * What a pipeline does, as the list of its calls

    The handles of an arbitrary context are wrapped so that every call and its
    answer, and every status, is appended to a trace.  [emits c P] is the
    judgement the rest is proved with: the computation appends a trace that,
    with its result, satisfies [P]. *)

From S2P Require Import Prelude Types Retry Pool RpcClient CortexError Shard Pipeline.

(** ** Events *)

Inductive Event :=
| CRegister (txn : Eip1559Transaction) (r : result unit RelayHostError)
| CReserve (r : result TxNonce LocalError)
| CSync (nonce_on_chain : TxNonce) (r : result TxNonce LocalError)
| CResolve (st : NonceState) (r : result unit LocalError)
| CSignTx (txn : Eip1559Transaction) (r : result SignedTransaction LocalError)
| CRevert (r : result unit LocalError)
| CAcquire (r : result (option nat) LobbyRpcError)
| CSend (txn : SignedTransaction) (index : nat) (r : result BroadcastOutcome BroadcastError)
| CValidate (hash : TxHash) (index : nat) (r : result ValidatorOutcome ValidatorError)
| CStatus (e : ExecutionId) (st : PipelineStatus).

Section traced.
Context {W : Type}.
Abbreviation TW := (W * list Event)%type.

(** Run a call on the world and append the event of its answer. *)
Definition log {A} (c : Comp W A) (ev : A → Event) : Comp TW A :=
  λ s, let '(a, w') := c s.1 in (a, (w', s.2 ++ [ev a])).

Definition traced_nonce (h : NonceManager W) : NonceManager TW :=
  mkNonceManager (λ c a e, log (nm_reserve h c a e) CReserve)
    (λ e st, log (nm_resolve h e st) (CResolve st))
    (λ c a e n, log (nm_sync h c a e n) (CSync n)).
Definition traced_signer (h : Signer W) : Signer TW :=
  mkSigner (λ c a e t, log (sg_sign h c a e t) (CSignTx t)) (λ e, log (sg_revert h e) CRevert).
Definition traced_broadcaster (h : Broadcaster W) : Broadcaster TW :=
  mkBroadcaster (λ c a e t i, log (bc_broadcast h c a e t i) (CSend t i)).
Definition traced_validator (h : Validator W) : Validator TW :=
  mkValidator (λ c e x i, log (vd_validate h c e x i) (CValidate x i)).
Definition traced_relay (h : IntentRelay W) : IntentRelay TW :=
  mkIntentRelay (λ e t c, log (ir_register h e t c) (CRegister t)).
Definition traced_store (s : StateStore W) : StateStore TW :=
  mkStateStore (λ e st w, (ss_set s e st w.1, w.2 ++ [CStatus e st]))
    (λ e w, ss_get s e w.1) (λ e w, (ss_remove s e w.1, w.2)).
Definition traced_endpoints (s : EndpointSource W) : EndpointSource TW :=
  mkEndpointSource (λ c t, log (es_acquire s c t) CAcquire).

Definition traced_ctx (x : PipelineContext W) : PipelineContext TW :=
  mkPipelineContext (px_execution_id x) (px_client_config x) (px_txn x)
    (shard_map traced_relay (px_relayhost_pool x)) (shard_map traced_nonce (px_nonce_pool x))
    (shard_map traced_signer (px_sign_pool x)) (shard_map traced_broadcaster (px_broadcast_pool x))
    (shard_map traced_validator (px_validator_pool x)) (px_retry_config x)
    (traced_store (px_status x)) (traced_endpoints (px_rpc_client x)).

#[export] Instance traced_runtime `{Runtime W} : Runtime TW := {|
  rt_gen_range b s := let '(z, w') := rt_gen_range b s.1 in (z, (w', s.2));
  rt_sleep d s := (rt_sleep d s.1, s.2)
|}.

(** ** The judgement *)

Definition emits {A} (c : Comp TW A) (P : A → list Event → Prop) : Prop :=
  ∀ w t, ∃ a w' t', c (w, t) = (a, (w', t ++ t')) ∧ P a t'.

Lemma emits_mono {A} (c : Comp TW A) (P Q : A → list Event → Prop) :
  emits c P → (∀ a t, P a t → Q a t) → emits c Q.
Proof. intros Hc HPQ w t. destruct (Hc w t) as (a & w' & t' & -> & HP). eauto 6. Qed.

Lemma emits_ret {A} (a : A) (P : A → list Event → Prop) : P a [] → emits (cret a) P.
Proof. intros HP w t. exists a, w, []. by rewrite app_nil_r. Qed.

Lemma emits_bind {A B} (c : Comp TW A) (k : A → Comp TW B) P (Q : B → list Event → Prop) :
  emits c P → (∀ a t1, P a t1 → emits (k a) (λ b t2, Q b (t1 ++ t2))) → emits (cbind c k) Q.
Proof.
  intros Hc Hk w t. destruct (Hc w t) as (a & w1 & t1 & Heq & HP).
  destruct (Hk a t1 HP w1 (t ++ t1)) as (b & w2 & t2 & Heq2 & HQ).
  exists b, w2, (t1 ++ t2). unfold cbind. by rewrite Heq, Heq2, (assoc_L app).
Qed.

(** A computation that goes on, or ends the task, with the trace it leaves. *)
Definition Flow {A} (next : A → list Event → Prop) (ended : list Event → Prop) (r : flow A) (t : list Event) :
    Prop :=
  match r with Next a => next a t | Return => ended t | Panic | OutOfFuel => False end.

Lemma emits_fbind {A B} (c : Comp TW (flow A)) (k : A → Comp TW (flow B)) N1 E1 N2 E2 :
  emits c (Flow N1 E1) →
  (∀ t, E1 t → E2 t) →
  (∀ a t1, N1 a t1 → emits (k a) (Flow (λ b t2, N2 b (t1 ++ t2)) (λ t2, E2 (t1 ++ t2)))) →
  emits (fbind c k) (Flow N2 E2).
Proof.
  intros Hc He Hk. apply (emits_bind _ _ _ _ Hc). intros [a| | |] t1 H1; cbn in H1; try done.
  - eapply emits_mono; [by apply Hk|]. intros [] t2; cbn; auto.
  - apply emits_ret. cbn. rewrite app_nil_r. auto.
Qed.

Lemma emits_next {A} (a : A) (N : A → list Event → Prop) E : N a [] → emits (fnext a) (Flow N E).
Proof. intros HN. by apply emits_ret. Qed.

Lemma emits_log {A} (c : Comp W A) ev : emits (log c ev) (λ a t, t = [ev a]).
Proof. intros w t. unfold log. simpl. destruct (c w) as [a w'] eqn:Hc. eauto 6. Qed.

Lemma emits_status (s : StateStore W) e st (N : unit → list Event → Prop) E :
  N tt [CStatus e st] → emits (fdo (ss_set (traced_store s) e st)) (Flow N E).
Proof. intros HN w t. exists (Next tt), (ss_set s e st w), [CStatus e st]. done. Qed.

(** ** Retried calls *)

Context `{Runtime W}.

(** The trace of a retried call: attempts that failed with an error worth
    retrying, then the answer that ended it. *)
Definition runs {T E} (config : RetryConfig) (ev : result T E → Event) (again : E → Prop)
    (r : result T E) (t : list Event) : Prop :=
  ∃ es : list E, t = ((λ e, ev (Err e)) <$> es) ++ [ev r] ∧ Forall again es ∧
    Z.of_nat (length es) ≤ max_attempts config.

Definition retry_value {E} (d : RetryDecision E) : E :=
  match d with Retry e => e | FailImmediately e => e end.

(** One attempt: a logged call whose error is classified. *)
Definition one_call {T E} (op : Comp TW (result T (RetryDecision E))) (ev : result T E → Event)
    (decide : E → RetryDecision E) : Prop :=
  emits op (λ r t, ∃ x, r = map_err decide x ∧ t = [ev x]).

Lemma sleep_emits base max a : emits (jittered_delay (S := TW) base max a) (λ _ t, t = []).
Proof.
  intros w t. unfold jittered_delay, cbind, cret.
  destruct (0 <? _); simpl; [destruct (rt_gen_range _ w) as [z w']|]; eexists _, _, [];
    by rewrite app_nil_r.
Qed.

Lemma retry_from_emits {T E} config (op : Comp TW (result T (RetryDecision E))) ev decide n a :
  (∀ e, retry_value (decide e) = e) → one_call op ev decide →
  a + Z.of_nat n = wrap_u32 (max_attempts config + 1) →
  emits (retry_from config op (wrap_u32 (max_attempts config + 1)) (Datatypes.S n) a)
    (λ o t, ∃ r (es : list E), o = Some r ∧ t = ((λ e, ev (Err e)) <$> es) ++ [ev r] ∧
      Forall (λ e, decide e = Retry e) es ∧ (length es ≤ n)%nat).
Proof.
  intros Hd Hop. revert a. induction n as [|n IH]; intros a Ha; cbn [retry_from];
    apply (emits_bind _ _ _ _ Hop); intros r t (x & -> & ->).
  all: destruct x as [v|e]; cbn [map_err];
    [apply emits_ret; exists (Ok v), []; split_and!; [done|done|constructor|simpl; lia]|].
  all: specialize (Hd e) as He; destruct (decide e) as [e'|e'] eqn:Hde; cbn in He; subst e';
    [|apply emits_ret; exists (Err e), []; split_and!; [done|done|constructor|simpl; lia]].
  - rewrite (proj2 (Z.eqb_eq _ _)) by lia. apply emits_ret. exists (Err e), []. split_and!; [done|done|constructor|simpl; lia].
  - rewrite (proj2 (Z.eqb_neq _ _)) by lia.
    apply (emits_bind _ _ _ _ (sleep_emits _ _ _)). intros d t ->.
    apply emits_bind with (P := λ _ t, t = []); [intros w' t'; eexists _, _, []; by rewrite app_nil_r|].
    intros _ t ->. eapply emits_mono; [apply IH; lia|].
    intros o t (r & es & -> & -> & Hes & Hlen). exists r, (e :: es). split_and!; [done|done| |simpl; lia].
    constructor; done.
Qed.

Lemma attempt_emits {T E} config (op : Comp TW (result T (RetryDecision E))) ev decide :
  0 ≤ max_attempts config < u32_max →
  (∀ e, retry_value (decide e) = e) → one_call op ev decide →
  emits (attempt config op)
    (Flow (λ r t, runs config ev (λ e, decide e = Retry e) r t) (λ _, False)).
Proof.
  intros Hm Hd Hop. unfold attempt, retry_with_backoff.
  assert (Hw : wrap_u32 (max_attempts config + 1) = max_attempts config + 1)
    by (unfold wrap_u32; rewrite Z.mod_small; unfold u32_max in *; lia).
  replace (Z.to_nat (wrap_u32 (max_attempts config + 1)))
    with (Datatypes.S (Z.to_nat (max_attempts config))) by lia.
  eapply emits_bind; [apply (retry_from_emits config op ev decide (Z.to_nat (max_attempts config)) 1 Hd Hop); lia|].
  intros o t (r & es & -> & -> & Hes & Hlen). apply emits_ret. cbn. rewrite app_nil_r.
  exists es. split_and!; [done|done|lia].
Qed.

Lemma one_call_log {T E} (c : Comp W (result T E)) ev decide :
  one_call (cmap_err decide (log c ev)) ev decide.
Proof.
  intros w t. unfold cmap_err, log. simpl. destruct (c w) as [r w'].
  eexists _, _, _. split; [reflexivity|]. eauto.
Qed.

End traced.
