(* ===== verification/Protocol.v ===== *)
(** * The protocol of a pipeline: its abstract state machine

    [trace_from] says which traces a run may leave from each phase, with how
    it ends; [final_status] and [disposition] say for each ending what status is
    recorded last and what becomes of the nonce, as the code has it.  (The table
    in the header of [pipeline.rs] is coarser: it has every failed broadcast and
    validation release the nonce, the code not the internal and database
    failures.)  [run_pipeline_trace] is the refinement: every run, with any
    handles, follows the protocol. *)

From S2P Require Import Prelude Types Retry Pool RpcClient CortexError Shard Pipeline PipelineSpec.

(** How a run ends. *)
Inductive ending :=
| EndRelay (e : RelayHostError)
| EndReserve (e : LocalError)
| EndSign (e : LocalError)
| EndNoEndpoint (c : ChainId)
| EndEndpoint (e : LobbyRpcError)
| EndSync (e : LocalError)
| EndReSign (e : LocalError)
| EndBroadcast (e : BroadcastError)
| EndValidation (hash : TxHash) (e : ValidatorError)
| EndOutcome (hash : TxHash) (v : ValidatorOutcome).

(** The last status. *)
Definition final_status (en : ending) : PipelineStatus :=
  match en with
  | EndRelay e => failed_status (CRelayHost e)
  | EndReserve e => failed_status (CNonceReservation e)
  | EndSign e => failed_status (CSign e)
  | EndNoEndpoint c => failed_status (CNoHealthyRpcProvider (NoEndpointsAvailable c))
  | EndEndpoint e => failed_status (CEndpointPoolFailed e)
  | EndSync e => failed_status (CNonceSync e)
  | EndReSign e => failed_status (CReSign e)
  | EndBroadcast e => failed_status (CBroadcast e)
  | EndValidation _ e => failed_status (CValidator e)
  | EndOutcome h (Included _ _) => ConfirmedOnChain (fmt_hex h)
  | EndOutcome h NotIncluded => Failed "validator" ("tx " +:+ fmt_hex h +:+ " not included on-chain")
  | EndOutcome h Timeout => ValidatorTimedOut timeout_text
  end.

(** What becomes of the nonce the run holds when it ends; [None]: it is not
    resolved, because none is held, or because the broadcast or the validation
    failed internally or in its database, so that the chain may have it. *)
Definition disposition (en : ending) : option NonceState :=
  match en with
  | EndRelay _ | EndReserve _ | EndSync _ => None
  | EndBroadcast (BInternal _ | BDatabaseError _ | BInvariant _) => None
  | EndValidation _ (VDatabase _ | VInternal _) => None
  | EndOutcome _ (Included _ _) => Some NFinalized
  | EndOutcome _ Timeout => Some NConsumed
  | _ => Some NReleased
  end.

Definition too_low (e : BroadcastError) : bool :=
  match e with BNonceTooLow _ _ => true | _ => false end.

(** The states of the protocol. *)
Inductive phase :=
| PStart
| PReserve
| PSign (txn : Eip1559Transaction)
| PAcquire (txn : Eip1559Transaction) (signed : SignedTransaction)
| PSend (recovered : bool) (txn : Eip1559Transaction) (signed : SignedTransaction) (index : nat)
| PSent (hash : TxHash) (index : nat)
| PDecided (hash : TxHash) (v : ValidatorOutcome).

Section protocol.
Context (config : RetryConfig) (eid : ExecutionId) (txn0 : Eip1559Transaction).

Abbreviation runs_any ev := (runs config ev (λ _, True)).
Abbreviation runs_send s i := (runs config (CSend s i) (λ e, broadcast_decision e = Retry e)).
Abbreviation status st := (CStatus eid st).

(** The last acts of a run: resolve the nonce, where it must be, then record
    the final status. *)
Definition closes (en : ending) (t : list Event) : Prop :=
  match disposition en with
  | None => t = [status (final_status en)]
  | Some st => ∃ r t1, runs_any (CResolve st) r t1 ∧ t = t1 ++ [status (final_status en)]
  end.

(** The recovery from a nonce that is too low, up to the synced nonce. *)
Definition mismatch_acts (on_chain attempted : TxNonce) (r : result TxNonce LocalError) (t : list Event) : Prop :=
  ∃ r1 t1 r2 t2 t3,
    runs_any (CResolve NConsumed) r1 t1 ∧ runs_any CRevert r2 t2 ∧ runs_any (CSync on_chain) r t3 ∧
    t = status (NonceMismatchDetected on_chain attempted) :: t1 ++ t2 ++ t3.

Inductive trace_from : phase → list Event → option (TxNonce * TxNonce) → ending → Prop :=
| tf_relay_fail e t c :
    runs_any (CRegister txn0) (Err e) t → closes (EndRelay e) c →
    trace_from PStart (t ++ c) None (EndRelay e)
| tf_relay u t rest mm en :
    runs_any (CRegister txn0) (Ok u) t → trace_from PReserve rest mm en →
    trace_from PStart (t ++ status Accepted :: rest) mm en
| tf_reserve_fail e t c :
    runs_any CReserve (Err e) t → closes (EndReserve e) c →
    trace_from PReserve (t ++ c) None (EndReserve e)
| tf_reserve n t rest mm en :
    runs_any CReserve (Ok n) t → trace_from (PSign (set_tx_nonce n txn0)) rest mm en →
    trace_from PReserve (t ++ status NonceReserved :: rest) mm en
| tf_sign_fail txn e t c :
    runs_any (CSignTx txn) (Err e) t → closes (EndSign e) c →
    trace_from (PSign txn) (t ++ c) None (EndSign e)
| tf_sign txn s t rest mm en :
    runs_any (CSignTx txn) (Ok s) t → trace_from (PAcquire txn s) rest mm en →
    trace_from (PSign txn) (t ++ status Signed :: rest) mm en
| tf_acquire_none txn s c :
    closes (EndNoEndpoint (tx_chain_id txn0)) c →
    trace_from (PAcquire txn s) (CAcquire (Ok None) :: c) None (EndNoEndpoint (tx_chain_id txn0))
| tf_acquire_fail txn s e c :
    closes (EndEndpoint e) c →
    trace_from (PAcquire txn s) (CAcquire (Err e) :: c) None (EndEndpoint e)
| tf_acquire txn s i rest mm en :
    trace_from (PSend false txn s i) rest mm en →
    trace_from (PAcquire txn s) (CAcquire (Ok (Some i)) :: rest) mm en
| tf_send_fail b txn s i e t c :
    runs_send s i (Err e) t → too_low e = false ∨ b = true → closes (EndBroadcast e) c →
    trace_from (PSend b txn s i) (t ++ c) None (EndBroadcast e)
| tf_send b txn s i o t rest mm en :
    runs_send s i (Ok o) t → trace_from (PSent (txn_hash o) i) rest mm en →
    trace_from (PSend b txn s i) (t ++ status (Broadcasted (fmt_hex (txn_hash o)) waiting_text) :: rest) mm en
| tf_sync_fail txn s i on_chain attempted t m e c :
    runs_send s i (Err (BNonceTooLow on_chain attempted)) t →
    mismatch_acts on_chain attempted (Err e) m → closes (EndSync e) c →
    trace_from (PSend false txn s i) (t ++ m ++ c) (Some (on_chain, attempted)) (EndSync e)
| tf_resign_fail txn s i on_chain attempted t m n t' e c :
    runs_send s i (Err (BNonceTooLow on_chain attempted)) t →
    mismatch_acts on_chain attempted (Ok n) m →
    runs_any (CSignTx (set_tx_nonce n txn)) (Err e) t' → closes (EndReSign e) c →
    trace_from (PSend false txn s i) (t ++ m ++ status NonceReserved :: t' ++ c)
      (Some (on_chain, attempted)) (EndReSign e)
| tf_recover txn s i on_chain attempted t m n t' s' rest mm en :
    runs_send s i (Err (BNonceTooLow on_chain attempted)) t →
    mismatch_acts on_chain attempted (Ok n) m →
    runs_any (CSignTx (set_tx_nonce n txn)) (Ok s') t' →
    trace_from (PSend true (set_tx_nonce n txn) s' i) rest mm en →
    trace_from (PSend false txn s i) (t ++ m ++ status NonceReserved :: t' ++ status Signed :: rest)
      (Some (on_chain, attempted)) en
| tf_validate_fail h i e c :
    closes (EndValidation h e) c →
    trace_from (PSent h i) (CValidate h i (Err e) :: c) None (EndValidation h e)
| tf_validate h i v rest mm en :
    trace_from (PDecided h v) rest mm en →
    trace_from (PSent h i) (CValidate h i (Ok v) :: rest) mm en
| tf_outcome h v c :
    closes (EndOutcome h v) c → trace_from (PDecided h v) c None (EndOutcome h v).

Definition Run (ph : phase) (t : list Event) : Prop := ∃ mm en, trace_from ph t mm en.

(** A trace that takes the protocol from one phase to another. *)
Definition leads (ph ph' : phase) (t : list Event) : Prop := ∀ rest, Run ph' rest → Run ph (t ++ rest).

End protocol.
