(* ===== verification/Erasure.v ===== *)
(** * Two pipelines over related worlds

    A relation between computations over two worlds that is a congruence for
    the pipeline's constructions - a [Simulation] - and that holds between the
    handles of two contexts holds between the two pipelines.  The first
    instance is [erases]: the one world knows a part of the other, and the two
    computations do the same there; the traced context of [PipelineSpec.v] and
    the instrumented pipeline of [Telemetry.v] are used through it.  The
    second is the replay of [Interleave.v]. *)

From S2P Require Import Prelude Types Retry Pool RpcClient CortexError Shard Pipeline PipelineSpec.

Section simulation.
Context {W' W : Type} `{Runtime W', Runtime W} (J : ∀ A, Comp W' A → Comp W A → Prop).
Abbreviation sim := (J _).

Class Simulation : Prop := {
  sim_ret A (a : A) : sim (cret a) (cret a);
  sim_bind A B (c' : Comp W' A) (c : Comp W A) (k' : A → Comp W' B) (k : A → Comp W B) :
    sim c' c → (∀ a, sim (k' a) (k a)) → sim (cbind c' k') (cbind c k);
  sim_map_err A E F (f : E → F) (c' : Comp W' (result A E)) c :
    sim c' c → sim (cmap_err f c') (cmap_err f c);
  sim_gen_range b : sim (rt_gen_range b) (rt_gen_range b);
  sim_sleep d : sim (λ s, (tt, rt_sleep d s)) (λ s, (tt, rt_sleep d s))
}.
Context `{!Simulation}.

Lemma sim_fbind {A B} (c' : Comp W' (flow A)) c k' (k : A → Comp W (flow B)) :
  sim c' c → (∀ a, sim (k' a) (k a)) → sim (fbind c' k') (fbind c k).
Proof. intros Hc Hk. apply sim_bind; [done|]. intros []; auto using sim_ret. Qed.

Lemma sim_delay base max a : sim (jittered_delay base max a) (jittered_delay base max a).
Proof.
  apply sim_bind; [|intros z; apply sim_ret].
  destruct (0 <? _); [apply sim_gen_range|apply sim_ret].
Qed.

Lemma sim_retry {T E} config (op' : Comp W' (result T (RetryDecision E))) op m n a :
  sim op' op → sim (retry_from config op' m n a) (retry_from config op m n a).
Proof.
  intros Hop. revert a; induction n as [|n IH]; intros a; [apply sim_ret|].
  apply sim_bind; [done|]. intros [v|[e|e]]; [apply sim_ret| |apply sim_ret].
  destruct (a =? m); [apply sim_ret|].
  apply sim_bind; [apply sim_delay|]. intros d.
  apply sim_bind; [apply sim_sleep|]. intros _. apply IH.
Qed.

Lemma sim_attempt {T E} config (op' : Comp W' (result T (RetryDecision E))) op :
  sim op' op → sim (attempt config op') (attempt config op).
Proof. intros Hop. apply sim_bind; [by apply sim_retry|]. intros []; apply sim_ret. Qed.

(** ** Handles that are related *)

Record relay_sim (h' : IntentRelay W') (h : IntentRelay W) : Prop := {
  le_register e t c : sim (ir_register h' e t c) (ir_register h e t c)
}.
Record nonce_sim (h' : NonceManager W') (h : NonceManager W) : Prop := {
  ne_reserve c a e : sim (nm_reserve h' c a e) (nm_reserve h c a e);
  ne_resolve e st : sim (nm_resolve h' e st) (nm_resolve h e st);
  ne_sync c a e n : sim (nm_sync h' c a e n) (nm_sync h c a e n)
}.
Record signer_sim (h' : Signer W') (h : Signer W) : Prop := {
  se_sign c a e t : sim (sg_sign h' c a e t) (sg_sign h c a e t);
  se_revert e : sim (sg_revert h' e) (sg_revert h e)
}.
Record broadcaster_sim (h' : Broadcaster W') (h : Broadcaster W) : Prop := {
  be_broadcast c a e t i : sim (bc_broadcast h' c a e t i) (bc_broadcast h c a e t i)
}.
Record validator_sim (h' : Validator W') (h : Validator W) : Prop := {
  ve_validate c e x i : sim (vd_validate h' c e x i) (vd_validate h c e x i)
}.

Record ctx_sim (x' : PipelineContext W') (x : PipelineContext W) : Prop := {
  ce_data : px_execution_id x' = px_execution_id x ∧ px_client_config x' = px_client_config x ∧
            px_txn x' = px_txn x ∧ px_retry_config x' = px_retry_config x;
  ce_relay : Forall2 relay_sim (shards (px_relayhost_pool x')) (shards (px_relayhost_pool x));
  ce_nonce : Forall2 nonce_sim (shards (px_nonce_pool x')) (shards (px_nonce_pool x));
  ce_sign : Forall2 signer_sim (shards (px_sign_pool x')) (shards (px_sign_pool x));
  ce_broadcast : Forall2 broadcaster_sim (shards (px_broadcast_pool x')) (shards (px_broadcast_pool x));
  ce_validator : Forall2 validator_sim (shards (px_validator_pool x')) (shards (px_validator_pool x));
  ce_status e st : sim (fdo (ss_set (px_status x') e st)) (fdo (ss_set (px_status x) e st));
  ce_acquire c t : sim (es_acquire (px_rpc_client x') c t) (es_acquire (px_rpc_client x) c t)
}.

Lemma sim_shard {T' T K} `{Hash K} (P : T' → T → Prop) (p' : ShardPool T') (p : ShardPool T) (key : K)
    {B} k' (k : T → Comp W (flow B)) :
  Forall2 P (shards p') (shards p) → (∀ h' h, P h' h → sim (k' h') (k h)) →
  sim (fbind (funwrap (ShardPool_get p' key)) k') (fbind (funwrap (ShardPool_get p key)) k).
Proof.
  intros HP Hk. unfold ShardPool_get, shard_count. rewrite (Forall2_length HP).
  destruct (shards p !! _) as [h|] eqn:Hh.
  - destruct (Forall2_lookup_r _ _ _ _ _ HP Hh) as (h' & -> & Hp). apply (Hk h' h Hp).
  - destruct (shards p' !! _) as [h'|] eqn:Hh'; [|apply sim_ret].
    destruct (Forall2_lookup_l _ _ _ _ _ HP Hh') as (h & Hh2 & _). by rewrite Hh in Hh2.
Qed.

Context `{U256Hash} (x' : PipelineContext W') (x : PipelineContext W) (Hx : ctx_sim x' x).

Lemma sim_status e st : sim (fdo (ss_set (px_status x') e st)) (fdo (ss_set (px_status x) e st)).
Proof. apply (ce_status _ _ Hx). Qed.

(** Follow the code of both runs. *)
Ltac erase :=
  repeat first
    [ apply sim_ret | apply sim_status
    | apply sim_fbind; [|intros ?]
    | apply sim_attempt | apply sim_map_err
    | match goal with |- J _ (match ?y with _ => _ end) _ => destruct y end
    | match goal with
      | Hn : nonce_sim _ _ |- _ => apply Hn
      | Hs : signer_sim _ _ |- _ => apply Hs
      | Hb : broadcaster_sim _ _ |- _ => apply Hb
      | Hr : relay_sim _ _ |- _ => apply Hr
      end ].

(** The two contexts carry the same data. *)
Ltac same_data :=
  cbv zeta; destruct (ce_data _ _ Hx) as (He & Hcc & Ht & Hr); rewrite ?He, ?Hcc, ?Ht, ?Hr;
  clear He Hcc Ht Hr.

Lemma sim_resolved nh' nh e st c :
  nonce_sim nh' nh →
  sim (_ <-> attempt c (retried (nm_resolve nh' e st)) ;; fnext tt)
         (_ <-> attempt c (retried (nm_resolve nh e st)) ;; fnext tt).
Proof. intros Hn. unfold retried, fnext. erase. Qed.

Lemma sim_fail {A} e err :
  sim (fail_with (A := A) (px_status x') e err) (fail_with (px_status x) e err).
Proof. unfold fail_with, record_faliure. erase. Qed.

Lemma sim_relay : sim (relay_stage x') (relay_stage x).
Proof.
  unfold relay_stage; same_data. eapply sim_shard; [apply (ce_relay _ _ Hx)|]. intros h' h Hh.
  unfold retried. erase; apply sim_fail.
Qed.

Lemma sim_nonce nh' nh : nonce_sim nh' nh → sim (nonce_stage x' nh') (nonce_stage x nh).
Proof. intros Hn. unfold nonce_stage, retried, fnext; same_data. erase; apply sim_fail. Qed.

Lemma sim_sign nh' nh sh' sh txn :
  nonce_sim nh' nh → signer_sim sh' sh →
  sim (sign_stage x' nh' sh' txn) (sign_stage x nh sh txn).
Proof.
  intros Hn Hs. unfold sign_stage, fnext; same_data. apply sim_fbind.
  - unfold retried. erase.
  - intros r. erase; first [by apply sim_resolved|apply sim_fail].
Qed.

Lemma sim_endpoint nh' nh :
  nonce_sim nh' nh → sim (endpoint_stage x' nh') (endpoint_stage x nh).
Proof.
  intros Hn. unfold endpoint_stage; same_data. apply sim_bind; [apply (ce_acquire _ _ Hx)|].
  intros [[i|]|e]; [apply sim_ret|..];
    (apply sim_fbind; [by apply sim_resolved|]; intros _; apply sim_fail).
Qed.

Lemma sim_recover nh' nh sh' sh txn a b :
  nonce_sim nh' nh → signer_sim sh' sh →
  sim (recover_nonce x' nh' sh' txn a b) (recover_nonce x nh sh txn a b).
Proof.
  intros Hn Hs. unfold recover_nonce, revert_sign, fnext; same_data. unfold retried.
  erase; first [by apply sim_resolved|apply sim_fail].
Qed.

Lemma sim_loop fuel nh' nh sh' sh bh' bh i b txn s :
  nonce_sim nh' nh → signer_sim sh' sh → broadcaster_sim bh' bh →
  sim (broadcast_loop x' fuel nh' sh' bh' i b txn s) (broadcast_loop x fuel nh sh bh i b txn s).
Proof.
  intros Hn Hs Hb. revert b txn s; induction fuel as [|fuel IH]; intros b txn s; [apply sim_ret|].
  cbn [broadcast_loop]; cbv zeta. apply sim_fbind.
  - unfold broadcast_attempt; same_data. erase.
  - intros [o|e]; [apply sim_ret|]. unfold broadcast_failed.
    destruct e, b; cbv zeta; try (apply sim_fbind; [by apply sim_recover|intros y; apply IH]);
      same_data; try apply sim_fail;
      (apply sim_fbind; [by apply sim_resolved|intros _; apply sim_fail]).
Qed.

(** The validation itself, once its shard is chosen. *)
Lemma sim_validate nh' nh vh' vh h i :
  nonce_sim nh' nh → validator_sim vh' vh → sim (validate_at x' nh' vh' h i) (validate_at x nh vh h i).
Proof.
  intros Hn Hv. unfold validate_at; same_data. apply sim_bind; [apply Hv|].
  intros [v|e]; [apply sim_ret|].
  destruct e; try apply sim_fail;
    (apply sim_fbind; [by apply sim_resolved|intros _; apply sim_fail]).
Qed.

Lemma sim_validator nh' nh h i :
  nonce_sim nh' nh → sim (validator_stage x' nh' h i) (validator_stage x nh h i).
Proof.
  intros Hn. unfold validator_stage. destruct (ce_data _ _ Hx) as (_ & _ & -> & _).
  eapply sim_shard; [apply (ce_validator _ _ Hx)|]. intros vh' vh Hv. by apply sim_validate.
Qed.

Lemma sim_outcome nh' nh h v :
  nonce_sim nh' nh → sim (outcome_stage x' nh' h v) (outcome_stage x nh h v).
Proof.
  intros Hn. unfold outcome_stage; same_data.
  destruct v; (apply sim_fbind; [by apply sim_resolved|intros _; apply sim_status]).
Qed.

(** The whole pipeline. *)
Lemma sim_pipeline fuel : sim (run_pipeline x' fuel) (run_pipeline x fuel).
Proof.
  unfold run_pipeline. destruct (ce_data _ _ Hx) as (He & Hcc & _ & _). cbv zeta. rewrite He, Hcc.
  apply sim_fbind; [apply sim_relay|intros _].
  eapply sim_shard; [apply (ce_nonce _ _ Hx)|]. intros nh' nh Hn.
  apply sim_fbind; [by apply sim_nonce|intros txn].
  eapply sim_shard; [apply (ce_sign _ _ Hx)|]. intros sh' sh Hs.
  apply sim_fbind; [by apply sim_sign|intros signed].
  apply sim_fbind; [by apply sim_endpoint|intros i].
  eapply sim_shard; [apply (ce_broadcast _ _ Hx)|]. intros bh' bh Hb.
  apply sim_fbind; [by apply sim_loop|intros outcome].
  apply sim_fbind; [apply sim_status|intros _].
  apply sim_fbind; [by apply sim_validator|intros v]. by apply sim_outcome.
Qed.
End simulation.

(** ** Erasure *)

Section erasure.
Context {W' W : Type} (forget : W' → W) `{Runtime W', Runtime W}.

(** [c'] does on the known part what [c] does, with the same value. *)
Definition erases {A} (c' : Comp W' A) (c : Comp W A) : Prop :=
  ∀ s, c (forget s) = ((c' s).1, forget (c' s).2).

(** Both worlds draw and sleep alike. *)
Class RuntimeErases : Prop := {
  re_gen_range b : erases (rt_gen_range b) (rt_gen_range b);
  re_sleep d s : forget (rt_sleep d s) = rt_sleep d (forget s)
}.

#[export] Instance erases_simulation `{!RuntimeErases} : Simulation (@erases).
Proof.
  split.
  - by intros A a s.
  - intros A B c' c k' k Hc Hk s. unfold cbind. rewrite (Hc s). destruct (c' s) as [a s']. apply Hk.
  - intros A E F f c' c Hc s. unfold cmap_err. rewrite (Hc s). by destruct (c' s) as [r s'].
  - apply re_gen_range.
  - intros d s. simpl. by rewrite re_sleep.
Qed.

(** A step that only the larger world sees. *)
Lemma erases_silent {A B} (c' : Comp W' (flow A)) a k' (c : Comp W (flow B)) :
  erases c' (fnext a) → erases (k' a) c → erases (fbind c' k') c.
Proof.
  intros Hc Hk s. unfold fbind, cbind. specialize (Hc s). unfold fnext, cret in Hc.
  destruct (c' s) as [r s']. injection Hc as <- Hs. cbn [snd] in Hs. rewrite Hs. apply Hk.
Qed.
End erasure.

(** ** Tracing changes nothing *)

Section traced.
Context {W : Type} `{Runtime W} `{U256Hash}.

#[export] Instance traced_runtime_erases : RuntimeErases (W' := W * list Event) fst.
Proof. split; [|done]. intros b s. simpl. by destruct (rt_gen_range b s.1). Qed.

Lemma erases_log {A} (c : Comp W A) ev : erases fst (log c ev) c.
Proof. intros s. unfold log. by destruct (c s.1). Qed.

Lemma Forall2_shard_map {T U} (P : U → T → Prop) (f : T → U) (p : ShardPool T) :
  (∀ h, P (f h) h) → Forall2 P (shards (shard_map f p)) (shards p).
Proof. intros Hf. unfold shard_map. cbn [shards]. induction (shards p); by constructor. Qed.

Lemma traced_ctx_erases (ctx : PipelineContext W) : ctx_sim (@erases _ _ fst) (traced_ctx ctx) ctx.
Proof. split; try done; try (apply Forall2_shard_map; split); intros; apply erases_log. Qed.

(** the traced pipeline is the pipeline: forgetting the trace, it returns
    the same and leaves the same world, for any handles and any fuel. *)
Theorem run_pipeline_erasure (ctx : PipelineContext W) fuel w t :
  let '(r, (w', _)) := run_pipeline (traced_ctx ctx) fuel (w, t) in
  run_pipeline ctx fuel w = (r, w').
Proof.
  pose proof (sim_pipeline (@erases _ _ fst) _ _ (traced_ctx_erases ctx) fuel (w, t)) as He.
  destruct (run_pipeline (traced_ctx ctx) fuel (w, t)) as [r [w' t']]. exact He.
Qed.
End traced.
