(* ===== verification/Refine.v ===== *)
(** * The pipeline follows its protocol *)

From S2P Require Import Prelude Types Retry Pool RpcClient CortexError Shard Pipeline PipelineSpec Protocol.

Section refine.
Context {W : Type} `{Runtime W} `{U256Hash} (ctx : PipelineContext W).
Context (Hmax : 0 ≤ max_attempts (px_retry_config ctx) < u32_max).

Abbreviation T := (traced_ctx ctx).
Abbreviation cfg := (px_retry_config ctx).
Abbreviation eid := (px_execution_id ctx).
Abbreviation Run := (Run cfg eid (px_txn ctx)).
Abbreviation leads := (leads cfg eid (px_txn ctx)).
Abbreviation closes := (closes cfg eid).

(** Equal up to the bracketing of [++]. *)
Ltac by_assoc H :=
  rewrite <- ?(assoc_L app) in H; rewrite <- ?(assoc_L app); simpl in *; exact H.

(** A stage takes the protocol from [ph] to [N a], or ends the run. *)
Definition Stage {A} (c : Comp (W * list Event) (flow A)) (ph : phase) (N : A → phase) : Prop :=
  emits c (Flow (λ a t, leads ph (N a) t) (Run ph)).

(** The rest of the run, from [ph]. *)
Definition Tail (c : Comp (W * list Event) (flow unit)) (ph : phase) : Prop :=
  emits c (Flow (λ _ t, Run ph t) (Run ph)).

Lemma leads_trans ph1 ph2 ph3 t1 t2 : leads ph1 ph2 t1 → leads ph2 ph3 t2 → leads ph1 ph3 (t1 ++ t2).
Proof. intros H1 H2 rest Hr. rewrite <- (assoc_L app). auto. Qed.

Lemma Stage_Tail {A} (c : Comp (W * list Event) (flow A)) k ph N :
  Stage c ph N → (∀ a, Tail (k a) (N a)) → Tail (fbind c k) ph.
Proof.
  intros Hc Hk. apply (emits_fbind _ _ _ _ _ _ Hc); [done|].
  intros a t1 Hl. eapply emits_mono; [apply Hk|]. intros [] t2; cbn; auto.
Qed.

Lemma funwrap_Tail {A} (o : option A) a k ph :
  o = Some a → Tail (k a) ph → Tail (fbind (funwrap o) k) ph.
Proof. intros -> Hk w t. unfold fbind, funwrap, cbind, cret. apply Hk. Qed.

Lemma funwrap_Stage {A B} (o : option A) a (k : A → Comp (W * list Event) (flow B)) ph N :
  o = Some a → Stage (k a) ph N → Stage (fbind (funwrap o) k) ph N.
Proof. intros -> Hk w t. unfold fbind, funwrap, cbind, cret. apply Hk. Qed.

(** ** Helpers *)

Definition retries {T E} (ev : result T E → Event) (r : result T E) (t : list Event) : Prop :=
  runs cfg ev (λ _, True) r t.

Lemma runs_weaken {T E} (ev : result T E → Event) (P : E → Prop) r t :
  runs cfg ev P r t → retries ev r t.
Proof. intros (es & -> & _ & Hl). exists es. split_and!; [done|by apply list.Forall_true|done]. Qed.

Lemma attempt_retried {T E} (c : Comp W (result T E)) ev :
  emits (attempt cfg (retried (log c ev))) (Flow (retries ev) (λ _, False)).
Proof.
  eapply emits_mono; [apply (attempt_emits _ _ ev Retry Hmax); [done|apply one_call_log]|].
  intros [r| | |] t; cbn; [apply runs_weaken|done..].
Qed.

Lemma helper_emits {E} (c : Comp W (result unit E)) ev :
  emits (_ <-> attempt cfg (retried (log c ev)) ;; fnext tt)
    (Flow (λ _ t, ∃ r, retries ev r t) (λ _, False)).
Proof.
  apply (emits_fbind _ _ _ _ _ _ (attempt_retried c ev)); [done|].
  intros r t Hr. apply emits_next. rewrite app_nil_r. eauto.
Qed.

(** The computation ends the task, leaving a trace in [E]. *)
Definition Fails {A} (c : Comp (W * list Event) (flow A)) (E : list Event → Prop) : Prop :=
  emits c (Flow (λ _ _, False) E).

Lemma Fails_Flow {A} (c : Comp (W * list Event) (flow A)) E (N : A → list Event → Prop) (E' : list Event → Prop) :
  Fails c E → (∀ t, E t → E' t) → emits c (Flow N E').
Proof. intros Hc HE. eapply emits_mono; [apply Hc|]. intros [] t; cbn; auto; done. Qed.

Lemma fail_quiet {A} err en :
  disposition en = None → final_status en = failed_status err →
  Fails (A := A) (fail_with (px_status T) eid err) (closes en).
Proof.
  intros Hd Hf w t. eexists Return, _, _. split; [reflexivity|].
  cbn. unfold Protocol.closes. by rewrite Hd, Hf.
Qed.

(** Resolve, then record the final status. *)
Lemma resolve_then {A} nh st (k : Comp (W * list Event) (flow A)) (N : A → list Event → Prop) (E : list Event → Prop) :
  emits k (Flow (λ a t2, ∀ r t1, retries (CResolve st) r t1 → N a (t1 ++ t2))
                (λ t2, ∀ r t1, retries (CResolve st) r t1 → E (t1 ++ t2))) →
  emits (_ <-> (_ <-> attempt cfg (retried (nm_resolve (traced_nonce nh) eid st)) ;; fnext tt) ;; k)
    (Flow N E).
Proof.
  intros Hk. apply (emits_fbind _ _ _ _ _ _ (helper_emits (nm_resolve nh eid st) (CResolve st))); [done|].
  intros [] t (r & Hr). eapply emits_mono; [apply Hk|]. intros [] t2; cbn; eauto.
Qed.

Lemma release_fail {A} nh err en :
  disposition en = Some NReleased → final_status en = failed_status err →
  Fails (A := A) (_ <-> release_nonce (traced_nonce nh) eid cfg ;; fail_with (px_status T) eid err) (closes en).
Proof.
  intros Hd Hf. apply resolve_then. intros w t. eexists Return, _, _. split; [reflexivity|].
  cbn. intros r t1 Hr. unfold Protocol.closes. rewrite Hd, Hf. eauto.
Qed.

Lemma set_status_emits st : emits (fdo (ss_set (px_status T) eid st)) (Flow (λ _ t, t = [CStatus eid st]) (λ _, False)).
Proof. by apply emits_status. Qed.

(** A status, then a value. *)
Lemma status_next {A} st (a : A) :
  emits (_ <-> fdo (ss_set (px_status T) eid st) ;; fnext a) (Flow (λ b t, b = a ∧ t = [CStatus eid st]) (λ _, False)).
Proof.
  apply (emits_fbind _ _ _ _ _ _ (set_status_emits st)); [done|]. intros [] t ->. by apply emits_next.
Qed.

(** An attempted call whose answer decides the stage. *)
Lemma attempt_Stage {X E B} (c : Comp W (result X E)) ev k ph (N : B → phase) :
  (∀ r t, retries ev r t → emits (k r) (Flow (λ b t2, leads ph (N b) (t ++ t2)) (λ t2, Run ph (t ++ t2)))) →
  Stage (fbind (attempt cfg (retried (log c ev))) k) ph N.
Proof. intros Hk. by apply (emits_fbind _ _ _ _ _ _ (attempt_retried c ev)). Qed.

(** ** Stages *)

Lemma relay_stage_ok :
  (0 < shard_count (px_relayhost_pool ctx))%nat →
  Stage (relay_stage T) PStart (λ _, PReserve).
Proof.
  intros Hp. destruct (ShardPool_get_Some (px_relayhost_pool ctx) (mkByExecutionId eid)) as [h Hh]; [done|].
  apply funwrap_Stage with (traced_relay h); [cbn; by rewrite ShardPool_get_map, Hh|].
  apply (attempt_Stage (ir_register h eid (px_txn ctx) (px_client_config ctx)) (CRegister (px_txn ctx))).
  intros [u|e] t Hr.
  - eapply emits_mono; [apply set_status_emits|]. intros [[]| | |] t2; cbn; try done.
    intros -> rest (mm & en & Hrest). exists mm, en. rewrite <- (assoc_L app). simpl.
    by apply (tf_relay _ _ _ u).
  - eapply Fails_Flow; [by apply (fail_quiet (CRelayHost e) (EndRelay e))|].
    intros c Hc. exists None, (EndRelay e). by apply tf_relay_fail.
Qed.

Lemma nonce_stage_ok nh :
  Stage (nonce_stage T (traced_nonce nh)) PReserve PSign.
Proof.
  apply (attempt_Stage (nm_reserve nh _ _ eid) CReserve). intros [n|e] t Hr.
  - eapply emits_mono; [apply status_next|]. intros [txn| | |] t2; cbn; try done.
    intros [-> ->] rest (mm & en & Hrest). exists mm, en. rewrite <- (assoc_L app). simpl.
    by apply (tf_reserve _ _ _ n).
  - eapply Fails_Flow; [by apply (fail_quiet (CNonceReservation e) (EndReserve e))|].
    intros c Hc. exists None, (EndReserve e). by apply tf_reserve_fail.
Qed.

Lemma sign_stage_ok nh sh txn :
  Stage (sign_stage T (traced_nonce nh) (traced_signer sh) txn) (PSign txn) (PAcquire txn).
Proof.
  apply (attempt_Stage (sg_sign sh _ _ eid txn) (CSignTx txn)). intros [s|e] t Hr.
  - eapply emits_mono; [apply status_next|]. intros [s'| | |] t2; cbn; try done.
    intros [-> ->] rest (mm & en & Hrest). exists mm, en. rewrite <- (assoc_L app). simpl.
    by apply (tf_sign _ _ _ _ s).
  - eapply Fails_Flow; [by apply (release_fail nh (CSign e) (EndSign e))|].
    intros c Hc. exists None, (EndSign e). by apply tf_sign_fail.
Qed.

Lemma endpoint_stage_ok nh txn s :
  Stage (endpoint_stage T (traced_nonce nh)) (PAcquire txn s) (PSend false txn s).
Proof.
  unfold Stage, endpoint_stage.
  eapply emits_bind; [apply (emits_log (es_acquire (px_rpc_client ctx) _ (from_secs 30)))|].
  intros [[i|]|e] t ->.
  - apply emits_next. rewrite app_nil_r. intros rest (mm & en & Hrest). exists mm, en. by apply tf_acquire.
  - eapply Fails_Flow; [by apply (release_fail nh _ (EndNoEndpoint (tx_chain_id (px_txn ctx))))|].
    intros c Hc. exists None, (EndNoEndpoint (tx_chain_id (px_txn ctx))). by apply tf_acquire_none.
  - eapply Fails_Flow; [by apply (release_fail nh _ (EndEndpoint e))|].
    intros c Hc. exists None, (EndEndpoint e). by apply tf_acquire_fail.
Qed.

(** ** The broadcast loop *)

Abbreviation sends s i := (runs cfg (CSend s i) (λ e, broadcast_decision e = Retry e)).

Lemma broadcast_attempt_ok bh s i :
  emits (broadcast_attempt T (traced_broadcaster bh) s i) (Flow (sends s i) (λ _, False)).
Proof.
  apply (attempt_emits _ _ (CSend s i) broadcast_decision Hmax); [by intros []|].
  apply (one_call_log (bc_broadcast bh _ _ eid s i)).
Qed.

Lemma recover_nonce_ok nh sh txn s i on_chain attempted t0 :
  sends s i (Err (BNonceTooLow on_chain attempted)) t0 →
  emits (recover_nonce T (traced_nonce nh) (traced_signer sh) txn on_chain attempted)
    (Flow (λ r t, leads (PSend false txn s i) (PSend true r.1 r.2 i) (t0 ++ t))
          (λ t, Run (PSend false txn s i) (t0 ++ t))).
Proof.
  intros Hs. unfold recover_nonce.
  apply (emits_fbind _ _ _ _ _ _ (set_status_emits _)); [done|]. intros [] t1 ->.
  apply (emits_fbind _ _ _ _ _ _ (helper_emits (nm_resolve nh eid NConsumed) (CResolve NConsumed))); [done|].
  intros [] t2 (r2 & Ht2).
  apply (emits_fbind _ _ _ _ _ _ (helper_emits (sg_revert sh eid) CRevert)); [done|].
  intros [] t3 (r3 & Ht3).
  apply (emits_fbind _ _ _ _ _ _ (attempt_retried (nm_sync nh _ _ eid on_chain) (CSync on_chain))); [done|].
  intros r t4 Ht4.
  assert (Hm : mismatch_acts cfg eid on_chain attempted r
    (CStatus eid (NonceMismatchDetected on_chain attempted) :: t2 ++ t3 ++ t4)).
  { exists r2, t2, r3, t3, t4. done. }
  set (m := _ :: _) in Hm.
  assert (Hsh : ∀ rest, t0 ++ [CStatus eid (NonceMismatchDetected on_chain attempted)] ++
    t2 ++ t3 ++ t4 ++ rest = t0 ++ m ++ rest) by (intros; unfold m; simpl; by rewrite <- !(assoc_L app)).
  destruct r as [n|e].
  - apply (emits_fbind _ _ _ _ _ _ (set_status_emits _)); [done|]. intros [] t5 ->.
    apply (emits_fbind _ _ _ _ _ _ (attempt_retried (sg_sign sh _ _ eid _) (CSignTx _))); [done|].
    intros [s'|e] t6 Ht6.
    + eapply emits_mono; [apply status_next|]. intros [x| | |] t7; cbn [Flow]; try done.
      intros [-> ->] rest (mm & en & Hrest). cbn [fst snd] in *.
      exists (Some (on_chain, attempted)), en.
      rewrite <- !(assoc_L app), Hsh. simpl. by apply (tf_recover _ _ _ txn s i on_chain attempted t0 m n t6 s' rest mm).
    + eapply Fails_Flow; [by apply (release_fail nh (CReSign e) (EndReSign e))|].
      intros c Hc. exists (Some (on_chain, attempted)), (EndReSign e). rewrite Hsh. simpl.
      by apply (tf_resign_fail _ _ _ txn s i on_chain attempted t0 m n).
  - eapply Fails_Flow; [by apply (fail_quiet (CNonceSync e) (EndSync e))|].
    intros c Hc. exists (Some (on_chain, attempted)), (EndSync e). rewrite Hsh.
    by apply tf_sync_fail.
Qed.

Lemma broadcast_failed_ok nh e b txn s i t :
  sends s i (Err e) t → too_low e = false ∨ b = true →
  emits (broadcast_failed T (traced_nonce nh) e)
    (Flow (λ _ _, False) (λ c, Run (PSend b txn s i) (t ++ c))).
Proof.
  intros Ht Hb.
  assert (Hrun : ∀ c, closes (EndBroadcast e) c → Run (PSend b txn s i) (t ++ c)).
  { intros c Hc. exists None, (EndBroadcast e). by apply tf_send_fail. }
  destruct e; (eapply Fails_Flow; [|apply Hrun]);
    try (by apply (release_fail nh _ (EndBroadcast _))); by apply (fail_quiet _ (EndBroadcast _)).
Qed.

(** A successful broadcast, up to the status that reports it. *)
Definition delivered (ph : phase) (i : nat) (o : BroadcastOutcome) (t : list Event) : Prop :=
  leads ph (PSent (txn_hash o) i)
    (t ++ [CStatus eid (Broadcasted (fmt_hex (txn_hash o)) waiting_text)]).

Lemma broadcast_loop_ok fuel nh sh bh i (b : bool) txn s :
  ((if b then 1 else 2) ≤ fuel)%nat →
  emits (broadcast_loop T fuel (traced_nonce nh) (traced_signer sh) (traced_broadcaster bh) i b txn s)
    (Flow (delivered (PSend b txn s i) i) (Run (PSend b txn s i))).
Proof.
  revert b txn s; induction fuel as [|fuel IH]; intros b txn s Hf; [destruct b; lia|].
  cbn [broadcast_loop].
  apply (emits_fbind _ _ _ _ _ _ (broadcast_attempt_ok bh s i)); [done|].
  assert (Hfail : ∀ (e : BroadcastError) (t : list Event), sends s i (Err e) t → too_low e = false ∨ b = true →
    emits (broadcast_failed T (traced_nonce nh) e)
      (Flow (λ (o : BroadcastOutcome) t2, delivered (PSend b txn s i) i o (t ++ t2)) (λ t2, Run (PSend b txn s i) (t ++ t2)))).
  { intros e t Ht Hb2. eapply emits_mono; [by apply (broadcast_failed_ok nh e b txn s i t)|].
    intros [] t2; cbn; done. }
  intros [o|e] t Ht.
  - apply emits_next. intros rest (mm & en & Hrest). exists mm, en.
    rewrite app_nil_r, <- (assoc_L app). simpl. by apply tf_send.
  - destruct e; try (apply Hfail; [done|by left]).
    destruct b; [apply (Hfail (BNonceTooLow nonce_on_chain attempted_nonce)); [done|by right]|].
    apply (emits_fbind _ _ _ _ _ _
      (recover_nonce_ok nh sh txn s i nonce_on_chain attempted_nonce t Ht)); [done|].
    intros [txn' s'] t2 Hl. eapply emits_mono; [apply IH; lia|].
    intros [o| | |] t3; cbn [Flow fst snd] in *; try done.
    + intros Hd rest Hrest. specialize (Hd rest Hrest). specialize (Hl _ Hd).
      by_assoc Hl.
    + intros Hr. specialize (Hl _ Hr). by_assoc Hl.
Qed.

(** ** Validation *)

Lemma validator_stage_ok nh h i :
  (0 < shard_count (px_validator_pool ctx))%nat →
  Stage (validator_stage T (traced_nonce nh) h i) (PSent h i) (PDecided h).
Proof.
  intros Hp. destruct (ShardPool_get_Some (px_validator_pool ctx)
    (mkByChainId (tx_chain_id (px_txn ctx)))) as [vh Hvh]; [done|].
  apply funwrap_Stage with (traced_validator vh); [cbn; by rewrite ShardPool_get_map, Hvh|].
  eapply emits_bind; [apply (emits_log (vd_validate vh _ eid h i))|].
  intros [v|e] t ->.
  - apply emits_next. rewrite app_nil_r. intros rest (mm & en & Hrest). exists mm, en. by apply tf_validate.
  - assert (Hrun : ∀ c, closes (EndValidation h e) c → Run (PSent h i) ([CValidate h i (Err e)] ++ c)).
    { intros c Hc. exists None, (EndValidation h e). by apply tf_validate_fail. }
    destruct e; (eapply Fails_Flow; [|apply Hrun]);
      try (by apply (release_fail nh _ (EndValidation _ _))); by apply (fail_quiet _ (EndValidation _ _)).
Qed.

Lemma outcome_stage_ok nh h v : Tail (outcome_stage T (traced_nonce nh) h v) (PDecided h v).
Proof.
  assert (Hout : ∀ st, disposition (EndOutcome h v) = Some st →
    emits (_ <-> (_ <-> attempt cfg (retried (nm_resolve (traced_nonce nh) eid st)) ;; fnext tt) ;;
           fdo (ss_set (px_status T) eid (final_status (EndOutcome h v))))
      (Flow (λ _ t, Run (PDecided h v) t) (Run (PDecided h v)))).
  { intros st Hd. apply resolve_then. eapply emits_mono; [apply set_status_emits|].
    intros [u| | |] t; cbn [Flow]; try done. intros -> r t1 Hr. exists None, (EndOutcome h v).
    apply tf_outcome. unfold Protocol.closes. rewrite Hd. eauto. }
  destruct v; by apply Hout.
Qed.

(** ** The whole run *)

Definition pools_ready : Prop :=
  (0 < shard_count (px_relayhost_pool ctx))%nat ∧ (0 < shard_count (px_nonce_pool ctx))%nat ∧
  (0 < shard_count (px_sign_pool ctx))%nat ∧ (0 < shard_count (px_broadcast_pool ctx))%nat ∧
  (0 < shard_count (px_validator_pool ctx))%nat.

Lemma run_pipeline_Tail fuel : pools_ready → (2 ≤ fuel)%nat → Tail (run_pipeline T fuel) PStart.
Proof.
  intros (Hr & Hn & Hs & Hb & Hv) Hf. unfold run_pipeline.
  destruct (ShardPool_get_Some (px_nonce_pool ctx)
    (mkByAddress (cc_from_address (px_client_config ctx))) Hn) as [nh Hnh].
  destruct (ShardPool_get_Some (px_sign_pool ctx) (mkByExecutionId eid) Hs) as [sh Hsh].
  destruct (ShardPool_get_Some (px_broadcast_pool ctx) (mkByExecutionId eid) Hb) as [bh Hbh].
  apply (Stage_Tail _ _ _ _ (relay_stage_ok Hr)). intros _.
  apply funwrap_Tail with (traced_nonce nh); [cbn; by rewrite ShardPool_get_map, Hnh|].
  apply (Stage_Tail _ _ _ _ (nonce_stage_ok nh)). intros txn.
  apply funwrap_Tail with (traced_signer sh); [cbn; by rewrite ShardPool_get_map, Hsh|].
  apply (Stage_Tail _ _ _ _ (sign_stage_ok nh sh txn)). intros s.
  apply (Stage_Tail _ _ _ _ (endpoint_stage_ok nh txn s)). intros i.
  apply funwrap_Tail with (traced_broadcaster bh); [cbn; by rewrite ShardPool_get_map, Hbh|].
  apply (emits_fbind _ _ _ _ _ _ (broadcast_loop_ok fuel nh sh bh i false txn s Hf)); [done|].
  intros o t Ho. apply (emits_fbind _ _ _ _ _ _ (set_status_emits _)); [done|]. intros [] t' ->.
  apply (emits_mono _ (Flow (λ _ t2, Run (PSent (txn_hash o) i) t2) (Run (PSent (txn_hash o) i)))).
  - apply (Stage_Tail _ _ _ _ (validator_stage_ok nh (txn_hash o) i Hv)). intros v. apply outcome_stage_ok.
  - intros [u| | |] t2; cbn [Flow]; try done; intros H2; specialize (Ho _ H2);
      by_assoc Ho.
Qed.

(** Every run settles - never a panic, never out of fuel - and its trace is a
    run of the protocol. *)
Lemma run_pipeline_trace fuel w :
  pools_ready → (2 ≤ fuel)%nat →
  ∃ r w' t mm en, run_pipeline T fuel (w, []) = (r, (w', t)) ∧ (r = Next tt ∨ r = Return) ∧
    trace_from cfg eid (px_txn ctx) PStart t mm en.
Proof.
  intros Hp Hf. destruct (run_pipeline_Tail fuel Hp Hf w []) as (r & w' & t & Heq & HF).
  destruct r as [[]| | |]; cbn in HF; try done; destruct HF as (mm & en & HT); eauto 12.
Qed.
End refine.
