(* ===== verification/PipelineProps.v ===== *)
(** * Properties of the pipeline, for any handles *)

From S2P Require Import Prelude Types Retry Pool RpcClient CortexError Shard Pipeline PipelineSpec Protocol Refine.

(** ** Projections of a trace *)

Definition status_of (ev : Event) : option PipelineStatus :=
  match ev with CStatus _ st => Some st | _ => None end.
Definition statuses (t : list Event) : list PipelineStatus := omap status_of t.

(** What happens to the account's nonces. *)
Inductive NonceAct := Got (n : TxNonce) | Gave (st : NonceState).
Definition act_of (ev : Event) : option NonceAct :=
  match ev with
  | CReserve (Ok n) => Some (Got n)
  | CSync _ (Ok n) => Some (Got n)
  | CResolve st _ => Some (Gave st)
  | _ => None
  end.
Definition acts (t : list Event) : list NonceAct := omap act_of t.

Section omap_runs.
Context {T E A : Type} (config : RetryConfig) (f : Event → option A).

(** Calls that the projection does not see. *)
Lemma omap_runs_none (ev : result T E → Event) P r t :
  runs config ev P r t → (∀ x, f (ev x) = None) → omap f t = [].
Proof.
  intros (es & -> & _) Hf. rewrite omap_app. simpl. rewrite Hf, app_nil_r.
  induction es as [|e es IH]; [done|]. simpl. by rewrite Hf.
Qed.


End omap_runs.

Section props.
Context (config : RetryConfig) (eid : ExecutionId) (txn0 : Eip1559Transaction).
Abbreviation closes := (closes config eid).
Abbreviation trace_from := (trace_from config eid txn0).

Ltac unseen H := rewrite (omap_runs_none _ _ _ _ _ _ H) by done.

(** ** Statuses *)

Lemma closes_statuses en c : closes en c → omap status_of c = [final_status en].
Proof.
  unfold Protocol.closes. destruct (disposition en); [|by intros ->].
  intros (r & t1 & Hr & ->). rewrite omap_app. by unseen Hr.
Qed.

Lemma mismatch_statuses a b r m :
  mismatch_acts config eid a b r m → omap status_of m = [NonceMismatchDetected a b].
Proof.
  intros (r1 & t1 & r2 & t2 & t3 & H1 & H2 & H3 & ->).
  cbn [omap list_omap status_of]. rewrite !omap_app. unseen H1. unseen H2. by unseen H3.
Qed.

(** The statuses from the broadcast on. *)
Definition sent_statuses (en : ending) : list PipelineStatus :=
  match en with
  | EndValidation h _ | EndOutcome h _ => [Broadcasted (fmt_hex h) waiting_text; final_status en]
  | _ => [final_status en]
  end.

Definition recovery_statuses (mm : option (TxNonce * TxNonce)) (en : ending) : list PipelineStatus :=
  match mm with
  | None => []
  | Some (a, b) =>
      NonceMismatchDetected a b ::
      match en with
      | EndSync _ => []
      | EndReSign _ => [NonceReserved]
      | _ => [NonceReserved; Signed]
      end
  end.

Definition history_from (ph : phase) (mm : option (TxNonce * TxNonce)) (en : ending) : list PipelineStatus :=
  let from_send := recovery_statuses mm en ++ sent_statuses en in
  match ph with
  | PStart =>
      match en with
      | EndRelay _ => [final_status en]
      | EndReserve _ => [Accepted; final_status en]
      | EndSign _ => [Accepted; NonceReserved; final_status en]
      | _ => [Accepted; NonceReserved; Signed] ++ from_send
      end
  | PReserve =>
      match en with
      | EndReserve _ => [final_status en]
      | EndSign _ => [NonceReserved; final_status en]
      | _ => [NonceReserved; Signed] ++ from_send
      end
  | PSign _ => match en with EndSign _ => [final_status en] | _ => [Signed] ++ from_send end
  | PAcquire _ _ | PSend false _ _ _ => from_send
  | PSend true _ _ _ => sent_statuses en
  | PSent _ _ | PDecided _ _ => [final_status en]
  end.

(** The endings a phase can still reach. *)
Definition can_end (ph : phase) (en : ending) : Prop :=
  match ph, en with
  | PStart, _ => True
  | PReserve, EndRelay _ => False
  | PSign _, (EndRelay _ | EndReserve _) => False
  | PAcquire _ _, (EndRelay _ | EndReserve _ | EndSign _) => False
  | PSend false _ _ _, (EndRelay _ | EndReserve _ | EndSign _ | EndNoEndpoint _ | EndEndpoint _) => False
  | PSend true _ _ _, (EndBroadcast _ | EndValidation _ _ | EndOutcome _ _) => True
  | PSend true _ _ _, _ => False
  | PSent h _, (EndValidation h' _ | EndOutcome h' _) => h' = h
  | PDecided h v, EndOutcome h' v' => h' = h ∧ v' = v
  | PSent _ _, _ | PDecided _ _, _ => False
  | _, _ => True
  end.

(** The recovery happens before the second broadcast. *)
Definition can_recover (ph : phase) (mm : option (TxNonce * TxNonce)) : Prop :=
  match ph with PSend true _ _ _ | PSent _ _ | PDecided _ _ => mm = None | _ => True end.

Lemma trace_can_recover ph t mm en : trace_from ph t mm en → can_recover ph mm.
Proof. induction 1; try match goal with b : bool |- _ => destruct b end; cbn in *; done. Qed.

Lemma trace_can_end ph t mm en : trace_from ph t mm en → can_end ph en.
Proof.
  induction 1; try match goal with en : ending |- _ => destruct en end;
    try match goal with b : bool |- _ => destruct b end; cbn in *; naive_solver.
Qed.

(** Project a trace: calls, closing acts, recovery, the rest. *)
Ltac project closes_lemma mismatch_lemma :=
  repeat (progress (rewrite ?omap_app; cbn [omap list_omap status_of act_of]));
  repeat match goal with
  | H : runs _ _ _ _ ?t |- context [omap _ ?t] => unseen H
  | H : Protocol.closes _ _ _ ?c |- context [omap _ ?c] => rewrite (closes_lemma _ _ H)
  | H : mismatch_acts _ _ _ _ _ ?m |- context [omap _ ?m] => rewrite (mismatch_lemma _ _ _ _ H)
  | H : omap _ ?t = _ |- context [omap _ ?t] => rewrite H
  end.

(** The statuses of a run are the history of its ending. *)
Lemma trace_statuses ph t mm en : trace_from ph t mm en → statuses t = history_from ph mm en.
Proof.
  induction 1 as [e t c Ht Hc|u t rest mm en Ht HT IH|e t c Ht Hc|n t rest mm en Ht HT IH
    |txn e t c Ht Hc|txn s t rest mm en Ht HT IH|txn s c Hc|txn s e c Hc|txn s i rest mm en HT IH
    |b txn s i e t c Ht Hb Hc|b txn s i o t rest mm en Ht HT IH
    |txn s i oc at_ t m e c Ht Hm Hc|txn s i oc at_ t m n t' e c Ht Hm Ht' Hc
    |txn s i oc at_ t m n t' s' rest mm en Ht Hm Ht' HT IH
    |h i e c Hc|h i v rest mm en HT IH|h v c Hc];
  try (apply trace_can_end in HT as Hcan; apply trace_can_recover in HT as Hrec); unfold statuses in *;
  project closes_statuses mismatch_statuses.
  all: try done.
  all: try match goal with b : bool |- _ => destruct b end; try done.
  all: destruct en; cbn in *; subst; done.
Qed.

(** ** Nonces *)








(** ** How often *)

Inductive call_kind := KRegister | KReserve | KSync | KResolve | KSign | KRevert | KAcquire | KSend | KValidate.
#[local] Instance call_kind_eq_dec : EqDecision call_kind.
Proof. solve_decision. Defined.

Definition kind_of (ev : Event) : option call_kind :=
  match ev with
  | CRegister _ _ => Some KRegister
  | CReserve _ => Some KReserve
  | CSync _ _ => Some KSync
  | CResolve _ _ => Some KResolve
  | CSignTx _ _ => Some KSign
  | CRevert _ => Some KRevert
  | CAcquire _ => Some KAcquire
  | CSend _ _ _ => Some KSend
  | CValidate _ _ _ => Some KValidate
  | CStatus _ _ => None
  end.

Fixpoint count (k : call_kind) (t : list Event) : Z :=
  match t with
  | [] => 0
  | ev :: t => (if decide (kind_of ev = Some k) then 1 else 0) + count k t
  end.

Lemma count_app k t1 t2 : count k (t1 ++ t2) = count k t1 + count k t2.
Proof. induction t1 as [|ev t1 IH]; simpl; lia. Qed.

Lemma runs_count {T E} (ev : result T E → Event) P r t k k0 :
  runs config ev P r t → (∀ x, kind_of (ev x) = Some k0) →
  count k t ≤ if decide (k0 = k) then max_attempts config + 1 else 0.
Proof.
  intros (es & -> & _ & Hl) Hk. rewrite count_app. cbn [count]. rewrite Hk.
  assert (count k ((λ e, ev (Err e)) <$> es) ≤ if decide (k0 = k) then Z.of_nat (length es) else 0) as Hes.
  { clear Hl. induction es as [|e es IH]; [simpl; by case_decide|]. cbn [fmap list_fmap count length].
    rewrite Hk. repeat case_decide; simplify_eq; lia. }
  repeat case_decide; simplify_eq; lia.
Qed.

(** The stages of kind [k] still ahead. *)
Definition stages_left (ph : phase) (k : call_kind) : Z :=
  match k, ph with
  | KRegister, PStart => 1
  | KReserve, (PStart | PReserve) => 1
  | KSign, (PStart | PReserve | PSign _) => 2
  | KSign, (PAcquire _ _ | PSend false _ _ _) => 1
  | KAcquire, (PStart | PReserve | PSign _ | PAcquire _ _) => 1
  | KSend, (PStart | PReserve | PSign _ | PAcquire _ _ | PSend false _ _ _) => 2
  | KSend, PSend true _ _ _ => 1
  | (KSync | KRevert), (PStart | PReserve | PSign _ | PAcquire _ _ | PSend false _ _ _) => 1
  | KResolve, (PStart | PReserve | PSign _ | PAcquire _ _ | PSend false _ _ _) => 2
  | KResolve, _ => 1
  | KValidate, PDecided _ _ => 0
  | KValidate, _ => 1
  | _, _ => 0
  end.

(** The calls of kind [k] still allowed: the endpoint and the validator are
    asked once per stage, the rest up to [max_attempts + 1] times. *)
Definition calls_left (ph : phase) (k : call_kind) : Z :=
  match k with
  | KAcquire | KValidate => stages_left ph k
  | _ => stages_left ph k * (max_attempts config + 1)
  end.

Lemma closes_count k en c :
  0 ≤ max_attempts config → closes en c →
  count k c ≤ if decide (k = KResolve) then max_attempts config + 1 else 0.
Proof.
  intros Hm. unfold Protocol.closes. destruct (disposition en) as [st|].
  - intros (r & t1 & Hr & ->). rewrite count_app. simpl.
    pose proof (runs_count _ _ _ _ k KResolve Hr ltac:(done)). repeat case_decide; simplify_eq; lia.
  - intros ->. simpl. case_decide; lia.
Qed.

Lemma mismatch_count k a b r m :
  0 ≤ max_attempts config → mismatch_acts config eid a b r m →
  count k m ≤ match k with KResolve | KRevert | KSync => max_attempts config + 1 | _ => 0 end.
Proof.
  intros Hmax (r1 & t1 & r2 & t2 & t3 & H1 & H2 & H3 & ->). cbn [count kind_of]. rewrite !count_app.
  pose proof (runs_count _ _ _ _ k KResolve H1 ltac:(done)).
  pose proof (runs_count _ _ _ _ k KRevert H2 ltac:(done)).
  pose proof (runs_count _ _ _ _ k KSync H3 ltac:(done)).
  destruct k; repeat case_decide; simplify_eq; lia.
Qed.

Ltac counts k :=
  repeat match goal with
  | H : runs config (CSend _ _) _ _ _ |- _ => apply (runs_count _ _ _ _ k KSend) in H; [|done]
  | H : runs config (CSignTx _) _ _ _ |- _ => apply (runs_count _ _ _ _ k KSign) in H; [|done]
  | H : runs config (CRegister _) _ _ _ |- _ => apply (runs_count _ _ _ _ k KRegister) in H; [|done]
  | H : runs config CReserve _ _ _ |- _ => apply (runs_count _ _ _ _ k KReserve) in H; [|done]
  | H : Protocol.closes _ _ _ _ |- _ => apply (closes_count k) in H; [|done]
  | H : mismatch_acts _ _ _ _ _ _ |- _ => apply (mismatch_count k) in H; [|done]
  end;
  repeat (progress (rewrite ?count_app; cbn [count kind_of])).

Lemma trace_calls ph t mm en k :
  0 ≤ max_attempts config → trace_from ph t mm en → count k t ≤ calls_left ph k.
Proof.
  intros Hmax. induction 1; counts k; try (match goal with b : bool |- _ => destruct b end);
    destruct k; repeat case_decide; simplify_eq; cbn in *; lia.
Qed.

(** ** With which data *)

#[local] Instance Eip1559Transaction_eq_dec : EqDecision Eip1559Transaction.
Proof. solve_decision. Defined.

(** A monitor of the calls: the nonce the run holds, the signature made for
    it, the endpoint and the hash that was broadcast. *)
Record Monitor := mkMonitor {
  m_nonce : option TxNonce;
  m_signed : option SignedTransaction;
  m_index : option nat;
  m_hash : option TxHash
}.

Definition clear (m : Monitor) : Monitor := mkMonitor None None (m_index m) (m_hash m).

(** [None] is a call the protocol forbids: signing anything but the request
    with the nonce held, broadcasting anything but the signature of it, at
    another endpoint, or validating another hash. *)
Definition observe (m : Monitor) (ev : Event) : option Monitor :=
  match ev with
  | CReserve (Ok n) | CSync _ (Ok n) => Some (mkMonitor (Some n) None (m_index m) (m_hash m))
  | CResolve _ _ => Some (clear m)
  | CRevert _ => Some (mkMonitor (m_nonce m) None (m_index m) (m_hash m))
  | CSignTx txn r =>
      n ← m_nonce m;
      guard (txn = set_tx_nonce n txn0);;
      match r with
      | Ok s => Some (mkMonitor (m_nonce m) (Some s) (m_index m) (m_hash m))
      | Err _ => Some m
      end
  | CAcquire (Ok (Some i)) => Some (mkMonitor (m_nonce m) (m_signed m) (Some i) (m_hash m))
  | CSend s i r =>
      guard (m_signed m = Some s ∧ m_index m = Some i);;
      match r with
      | Ok o => Some (mkMonitor (m_nonce m) (m_signed m) (m_index m) (Some (txn_hash o)))
      | Err _ => Some m
      end
  | CValidate h i _ => guard (m_hash m = Some h ∧ m_index m = Some i);; Some m
  | CRegister txn _ => guard (txn = txn0);; Some m
  | CStatus e _ => guard (e = eid);; Some m
  | _ => Some m
  end.

Fixpoint observe_all (m : Monitor) (t : list Event) : option Monitor :=
  match t with [] => Some m | ev :: t => m' ← observe m ev; observe_all m' t end.

Lemma observe_app m t1 t2 : observe_all m (t1 ++ t2) = m' ← observe_all m t1; observe_all m' t2.
Proof.
  revert m; induction t1 as [|ev t1 IH]; intros m; [done|]. simpl.
  destruct (observe m ev) as [m'|]; [apply IH|done].
Qed.

Lemma observe_runs {T E} (ev : result T E → Event) P r t m :
  runs config ev P r t → (∀ e, observe m (ev (Err e)) = Some m) →
  observe_all m t = observe m (ev r).
Proof.
  intros (es & -> & _) Hm. rewrite observe_app.
  assert (observe_all m ((λ e, ev (Err e)) <$> es) = Some m) as ->.
  { induction es as [|e es IH]; [done|]. simpl. by rewrite Hm. }
  simpl. by destruct (observe m (ev r)).
Qed.

Lemma observe_constant {T E} (ev : result T E → Event) P r t m m' :
  runs config ev P r t → (∀ x, observe m (ev x) = Some m') → (∀ x, observe m' (ev x) = Some m') →
  observe_all m t = Some m'.
Proof.
  intros Hr Hm Hm'. destruct Hr as (es & -> & _ & Hl). rewrite observe_app.
  destruct es as [|e es]; [simpl; by rewrite Hm|]. simpl. rewrite Hm. simpl.
  assert (∀ es, observe_all m' ((λ e, ev (Err e)) <$> es) = Some m') as ->.
  { clear -Hm'. intros es. induction es as [|e es IH]; [done|]. simpl. by rewrite Hm'. }
  simpl. by rewrite Hm'.
Qed.

(** The monitor's state in a phase. *)
Definition tracks (ph : phase) (m : Monitor) : Prop :=
  match ph with
  | PStart | PReserve => True
  | PSign txn => ∃ n, m_nonce m = Some n ∧ txn = set_tx_nonce n txn0
  | PAcquire txn s => (∃ n, m_nonce m = Some n ∧ txn = set_tx_nonce n txn0) ∧ m_signed m = Some s
  | PSend _ txn s i =>
      (∃ n, m_nonce m = Some n ∧ txn = set_tx_nonce n txn0) ∧ m_signed m = Some s ∧ m_index m = Some i
  | PSent h i => m_hash m = Some h ∧ m_index m = Some i
  | PDecided _ _ => True
  end.

Lemma observe_closes en c m : closes en c → is_Some (observe_all m c).
Proof.
  unfold Protocol.closes. destruct (disposition en) as [st|].
  - intros (r & t1 & Hr & ->). rewrite observe_app.
    rewrite (observe_constant _ _ _ _ m (clear m) Hr) by done. simpl.
    by rewrite option_guard_True.
  - intros ->. simpl. by rewrite option_guard_True.
Qed.

Lemma observe_mismatch a b r m x :
  mismatch_acts config eid a b r x →
  observe_all m x = Some match r with
                         | Ok n => mkMonitor (Some n) None (m_index m) (m_hash m)
                         | Err _ => clear m
                         end.
Proof.
  intros (r1 & t1 & r2 & t2 & t3 & H1 & H2 & H3 & ->). cbn [observe_all observe].
  rewrite option_guard_True by done. cbn [mbind option_bind]. rewrite !observe_app.
  rewrite (observe_constant _ _ _ _ m (clear m) H1) by done. cbn [mbind option_bind].
  rewrite observe_app, (observe_constant _ _ _ _ (clear m) (clear m) H2) by done. cbn [mbind option_bind].
  rewrite (observe_runs _ _ _ _ (clear m) H3) by done. by destruct r.
Qed.

Lemma set_tx_nonce_twice n n' t : set_tx_nonce n (set_tx_nonce n' t) = set_tx_nonce n t.
Proof. done. Qed.

(** Signing what is held. *)
Lemma observe_sign txn n r t m :
  runs config (CSignTx txn) (λ _, True) r t → m_nonce m = Some n → txn = set_tx_nonce n txn0 →
  observe_all m t = Some match r with
                         | Ok s => mkMonitor (m_nonce m) (Some s) (m_index m) (m_hash m)
                         | Err _ => m
                         end.
Proof.
  intros Hr Hn Ht. rewrite (observe_runs _ _ _ _ m Hr); simpl.
  - rewrite Hn. simpl. rewrite option_guard_True by done. by destruct r.
  - intros e. rewrite Hn. simpl. by rewrite option_guard_True.
Qed.

Lemma observe_send s i r t m :
  runs config (CSend s i) (λ e, broadcast_decision e = Retry e) r t →
  m_signed m = Some s → m_index m = Some i →
  observe_all m t = Some match r with
                         | Ok o => mkMonitor (m_nonce m) (m_signed m) (m_index m) (Some (txn_hash o))
                         | Err _ => m
                         end.
Proof.
  intros Hr Hs Hi. rewrite (observe_runs _ _ _ _ m Hr); simpl.
  - rewrite option_guard_True by done. by destruct r.
  - intros e. by rewrite option_guard_True.
Qed.

Lemma observe_status st m t : observe_all m (CStatus eid st :: t) = observe_all m t.
Proof. cbn [observe_all observe]. by rewrite option_guard_True. Qed.

Lemma observe_register r t m : runs config (CRegister txn0) (λ _, True) r t → observe_all m t = Some m.
Proof.
  intros Hr. rewrite (observe_runs _ _ _ _ m Hr); simpl; [|intros e]; by rewrite option_guard_True.
Qed.

Lemma observe_reserve r t m :
  runs config CReserve (λ _, True) r t →
  observe_all m t = Some match r with
                         | Ok n => mkMonitor (Some n) None (m_index m) (m_hash m)
                         | Err _ => m
                         end.
Proof. intros Hr. rewrite (observe_runs _ _ _ _ m Hr) by done. by destruct r. Qed.

Ltac watch :=
  repeat first
    [ rewrite observe_app
    | rewrite observe_status
    | progress cbn [mbind option_bind]
    | erewrite observe_register by eassumption
    | erewrite observe_reserve by eassumption
    | erewrite observe_mismatch by eassumption
    | erewrite observe_send by eassumption
    | erewrite observe_sign by (eassumption || done) ].

Lemma trace_observed ph t mm en :
  trace_from ph t mm en → ∀ m, tracks ph m → is_Some (observe_all m t).
Proof.
  induction 1 as [e t c Ht Hc|u t rest mm en Ht HT IH|e t c Ht Hc|n t rest mm en Ht HT IH
    |txn e t c Ht Hc|txn s t rest mm en Ht HT IH|txn s c Hc|txn s e c Hc|txn s i rest mm en HT IH
    |b txn s i e t c Ht Hb Hc|b txn s i o t rest mm en Ht HT IH
    |txn s i oc at_ t m e c Ht Hm Hc|txn s i oc at_ t m n t' e c Ht Hm Ht' Hc
    |txn s i oc at_ t m n t' s' rest mm en Ht Hm Ht' HT IH
    |h i e c Hc|h i v rest mm en HT IH|h v c Hc]; intros mo Hmo; cbn [tracks] in Hmo;
    try destruct Hmo as ((n0 & Hn0 & Hn) & Hs & Hi);
    try destruct Hmo as ((n0 & Hn0 & Hn) & Hs);
    try destruct Hmo as (n0 & Hn0 & Hn); watch; try (by eapply observe_closes).
  - by apply IH.
  - apply IH. cbn. eauto.
  - apply IH. cbn. eauto.
  - cbn. by eapply observe_closes.
  - cbn. by eapply observe_closes.
  - cbn. apply IH. cbn. eauto.
  - apply IH. by cbn.
  - rewrite (observe_sign _ n _ _ _ Ht') by (done || by rewrite Hn). watch. by eapply observe_closes.
  - rewrite (observe_sign _ n _ _ _ Ht') by (done || by rewrite Hn). watch.
    apply IH. cbn. rewrite Hn. eauto.
  - cbn. rewrite option_guard_True by done. by eapply observe_closes.
  - cbn. rewrite option_guard_True by done. by apply IH.
Qed.
End props.

(** ** The properties *)

Definition is_final (st : PipelineStatus) : bool :=
  match st with Failed _ _ | ConfirmedOnChain _ | ValidatorTimedOut _ => true | _ => false end.

Lemma history_final mm en :
  ∃ front, history_from PStart mm en = front ++ [final_status en] ∧
    is_final (final_status en) = true ∧ Forall (λ st, is_final st = false) front.
Proof.
  assert (Hf : is_final (final_status en) = true) by (by destruct en as [| | | | | | | | |? []]).
  assert (Hs : ∃ f, sent_statuses en = f ++ [final_status en] ∧ Forall (λ st, is_final st = false) f)
    by (destruct en; first [by exists []|by exists [Broadcasted (fmt_hex hash) waiting_text]; repeat constructor]).
  destruct Hs as (f & Hs & Hfs).
  assert (Hr : Forall (λ st, is_final st = false) (recovery_statuses mm en))
    by (destruct mm as [[]|], en; repeat constructor).
  unfold history_from. rewrite Hs.
  assert (Hlong : ∀ l, Forall (λ st, is_final st = false) l →
    ∃ front, l ++ recovery_statuses mm en ++ f ++ [final_status en] = front ++ [final_status en] ∧
      is_final (final_status en) = true ∧ Forall (λ st, is_final st = false) front).
  { intros l Hl. exists (l ++ recovery_statuses mm en ++ f). split_and!; [by rewrite <- !(assoc_L app)|done|].
    apply list.Forall_app; split; [done|by apply list.Forall_app]. }
  destruct en; try (apply Hlong; by repeat constructor).
  - by exists [].
  - exists [Accepted]. by repeat constructor.
  - exists [Accepted; NonceReserved]. by repeat constructor.
Qed.

Section final.
Context {W : Type} `{Runtime W} `{U256Hash} (ctx : PipelineContext W).

(** C7: whatever the actors answer, every pipeline settles: with two rounds of
    the broadcast loop it neither panics nor runs on, the statuses it records
    are exactly the history its ending prescribes, and exactly one of them, the
    last, is final - [Failed] with the stage and text of the error,
    [ConfirmedOnChain] or [ValidatorTimedOut]. *)
Theorem pipeline_settles fuel w :
  0 ≤ max_attempts (px_retry_config ctx) < u32_max → pools_ready ctx → (2 ≤ fuel)%nat →
  ∃ r w' t mm en front,
    run_pipeline (traced_ctx ctx) fuel (w, []) = (r, (w', t)) ∧ (r = Next tt ∨ r = Return) ∧
    statuses t = history_from PStart mm en ∧
    statuses t = front ++ [final_status en] ∧ is_final (final_status en) = true ∧
    Forall (λ st, is_final st = false) front.
Proof.
  intros Hm Hp Hf. destruct (run_pipeline_trace ctx Hm fuel w Hp Hf) as (r & w' & t & mm & en & Heq & Hr & HT).
  destruct (history_final mm en) as (front & Hh & Hfin & Hfront).
  apply trace_statuses in HT. exists r, w', t, mm, en, front. rewrite HT. auto 7.
Qed.


(** C8: data integrity of a run: the relay host is given the request itself;
    only the request with the nonce currently held is signed; only the
    signature made for that nonce is broadcast, at the acquired endpoint;
    only the hash the broadcast returned is validated, at the same endpoint;
    nothing is signed or sent for a nonce already resolved; every status is
    recorded under the run's own execution id. *)
Theorem pipeline_data_integrity fuel w :
  0 ≤ max_attempts (px_retry_config ctx) < u32_max → pools_ready ctx → (2 ≤ fuel)%nat →
  ∃ r w' t, run_pipeline (traced_ctx ctx) fuel (w, []) = (r, (w', t)) ∧
    is_Some (observe_all (px_execution_id ctx) (px_txn ctx) (mkMonitor None None None None) t).
Proof.
  intros Hm Hp Hf. destruct (run_pipeline_trace ctx Hm fuel w Hp Hf) as (r & w' & t & mm & en & Heq & Hr & HT).
  exists r, w', t. split; [done|]. by apply (trace_observed _ _ _ _ _ _ _ HT).
Qed.

(** C36: a run makes at most [2 * (max_attempts + 1)] broadcast calls and as many
    signing and resolving ones, at most [max_attempts + 1] syncs - the recovery
    happens once - and at most one validation: validation is not retried. *)
Theorem pipeline_call_bounds fuel w k :
  0 ≤ max_attempts (px_retry_config ctx) < u32_max → pools_ready ctx → (2 ≤ fuel)%nat →
  ∃ r w' t, run_pipeline (traced_ctx ctx) fuel (w, []) = (r, (w', t)) ∧
    count k t ≤ match k with
                | KAcquire | KValidate => 1
                | KSend | KSign | KResolve => 2 * (max_attempts (px_retry_config ctx) + 1)
                | _ => max_attempts (px_retry_config ctx) + 1
                end.
Proof.
  intros Hm Hp Hf. destruct (run_pipeline_trace ctx Hm fuel w Hp Hf) as (r & w' & t & mm & en & Heq & Hr & HT).
  exists r, w', t. split; [done|].
  apply (trace_calls _ _ _ _ _ _ _ k) in HT; [|lia]. destruct k; cbn in HT; lia.
Qed.
End final.

(** ** A run to look at: the first broadcast finds the nonce too low *)

Record ToyWorld := mkToyWorld {
  toy_sends : list (result BroadcastOutcome BroadcastError);
  toy_book : list (ExecutionId * PipelineStatus)
}.

#[export] Instance toy_runtime : Runtime ToyWorld := {|
  rt_gen_range _ w := (0, w);
  rt_sleep _ w := w
|}.
#[export] Instance toy_u256_hash : U256Hash := be_bytes 32.

Definition toy_nonce : NonceManager ToyWorld :=
  mkNonceManager (λ _ _ _, cret (Ok (mkTxNonce 5))) (λ _ _, cret (Ok tt)) (λ _ _ _ n, cret (Ok n)).
Definition toy_signer : Signer ToyWorld :=
  mkSigner (λ _ _ _ t, cret (Ok (mkSigned [] (tx_nonce t)))) (λ _, cret (Ok tt)).
Definition toy_broadcaster : Broadcaster ToyWorld :=
  mkBroadcaster (λ _ _ _ _ _ w,
    match toy_sends w with
    | r :: rs => (r, mkToyWorld rs (toy_book w))
    | [] => (Err (BInternal "no script"), w)
    end).
Definition toy_validator (v : ValidatorOutcome) : Validator ToyWorld := mkValidator (λ _ _ _ _, cret (Ok v)).
Definition toy_relay : IntentRelay ToyWorld := mkIntentRelay (λ _ _ _, cret (Ok tt)).
Definition toy_store : StateStore ToyWorld :=
  mkStateStore (λ e st w, mkToyWorld (toy_sends w) ((e, st) :: toy_book w))
    (λ e w, (λ x, x.2.2) <$> list_find (λ x, x.1 = e) (toy_book w)) (λ _ w, w).

Definition toy_ctx (v : ValidatorOutcome) : PipelineContext ToyWorld :=
  mkPipelineContext (mkExecutionId 9) (mkClientConfig 1 (repeat Byte.x11 20))
    (mkEip1559 (mkChainId 1) (mkTxNonce 0) 1 2 21000 None 0 [] [])
    (mkShardPool [toy_relay]) (mkShardPool [toy_nonce]) (mkShardPool [toy_signer; toy_signer])
    (mkShardPool [toy_broadcaster]) (mkShardPool [toy_validator v]) RetryConfig_default
    toy_store (mkEndpointSource (λ _ _, cret (Ok (Some 0%nat)))).
Definition toy_world : ToyWorld :=
  mkToyWorld [Err (BNonceTooLow (mkTxNonce 7) (mkTxNonce 5)); Err (BRpcError "busy");
              Ok (mkBroadcastOutcome [Byte.xab])] [].

Example toy_run :
  let '(r, (_, t)) := run_pipeline (traced_ctx (toy_ctx Timeout)) 2 (toy_world, []) in
  r = Next tt ∧
  statuses t = [Accepted; NonceReserved; Signed; NonceMismatchDetected (mkTxNonce 7) (mkTxNonce 5);
                NonceReserved; Signed; Broadcasted "0xab" waiting_text; ValidatorTimedOut timeout_text] ∧
  acts t = [Got (mkTxNonce 5); Gave NConsumed; Got (mkTxNonce 7); Gave NConsumed] ∧
  count KSend t = 3.
Proof. vm_compute. repeat split. Qed.

Ltac toy := first [split; [apply Z.leb_le|apply Z.ltb_lt]; reflexivity
                  | repeat split; apply Nat.ltb_lt; reflexivity | apply le_n].

Lemma pipeline_settles_witness :
  ∃ r w' t mm en front,
    run_pipeline (traced_ctx (toy_ctx Timeout)) 2 (toy_world, []) = (r, (w', t)) ∧ (r = Next tt ∨ r = Return) ∧
    statuses t = history_from PStart mm en ∧
    statuses t = front ++ [final_status en] ∧ is_final (final_status en) = true ∧
    Forall (λ st, is_final st = false) front.
Proof. apply (pipeline_settles (toy_ctx Timeout) 2 toy_world); toy. Defined.


Lemma pipeline_data_integrity_witness :
  ∃ r w' t, run_pipeline (traced_ctx (toy_ctx NotIncluded)) 2 (toy_world, []) = (r, (w', t)) ∧
    is_Some (observe_all (mkExecutionId 9) (px_txn (toy_ctx NotIncluded)) (mkMonitor None None None None) t).
Proof. apply (pipeline_data_integrity (toy_ctx NotIncluded) 2 toy_world); toy. Defined.

Lemma pipeline_call_bounds_witness :
  ∃ r w' t, run_pipeline (traced_ctx (toy_ctx (Included 3 0))) 2 (toy_world, []) = (r, (w', t)) ∧
    count KSend t ≤ 2 * (2 + 1).
Proof. apply (pipeline_call_bounds (toy_ctx (Included 3 0)) 2 toy_world KSend); toy. Defined.
