(* ===== verification/Config.v ===== *)
(** * The orchestrator's configuration

    [src/crate/cortex/src/artifacts/config.rs]: every field from an
    environment variable, a default when it is absent, an error that names the
    variable when it does not parse. *)

From S2P Require Import Prelude Types Retry.

(** [<u64 as FromStr>::from_str] (and [usize], 64 bits wide): an optional
    plus sign, digits, no overflow; with the error's text. *)
Inductive ParseIntError := PIEmpty | PIInvalidDigit | PIPosOverflow.
#[export] Instance ParseIntError_eq_dec : EqDecision ParseIntError.
Proof. solve_decision. Defined.

Definition ParseIntError_display (e : ParseIntError) : string :=
  match e with
  | PIEmpty => "cannot parse integer from empty string"
  | PIInvalidDigit => "invalid digit found in string"
  | PIPosOverflow => "number too large to fit in target type"
  end.

(** Digits are read from the left; the first one that is invalid or makes the
    value overflow decides the error. *)
Fixpoint u64_digits (acc : Z) (s : string) : result Z ParseIntError :=
  match s with
  | EmptyString => Ok acc
  | String c s =>
      match digit_val c with
      | None => Err PIInvalidDigit
      | Some d =>
          if acc * 10 + d <=? u64_max then u64_digits (acc * 10 + d) s else Err PIPosOverflow
      end
  end.

Definition parse_u64 (s : string) : result Z ParseIntError :=
  match s with
  | EmptyString => Err PIEmpty
  | String "+"%char EmptyString => Err PIInvalidDigit
  | String "+"%char s => u64_digits 0 s
  | _ => u64_digits 0 s
  end.

(** Source: [crate/cortex/src/artifacts/config.rs] lines 40-53, [CortexConfig]. *)
Record CortexConfig := mkCortexConfig {
  relay_host_shards : Z;
  nonce_shards : Z;
  sign_shards : Z;
  broadcast_shards : Z;
  validator_shards : Z;
  actor_buffer : Z;
  pipeline_concurrency : Z;
  pipeline_semaphore_timeout : Z;
  retry : RetryConfig
}.

(** Source: [crate/cortex/src/artifacts/config.rs] lines 76-87, [ConfigError]. *)
Inductive ConfigError := Parse (key : string) (source : ParseIntError).
#[export] Instance ConfigError_eq_dec : EqDecision ConfigError.
Proof. solve_decision. Defined.

Definition ConfigError_display (e : ConfigError) : string :=
  match e with
  | Parse key source =>
      "environment variable '" +:+ key +:+ "' is set but cannot be parsed: " +:+ ParseIntError_display source
  end.

(** Source: [crate/cortex/src/artifacts/config.rs] lines 91-104, [parse_env]. *)
Definition parse_env (env : Env) (key : string) (dflt : Z) : result Z ConfigError :=
  match env key with
  | Some raw => map_err (Parse key) (parse_u64 raw)
  | None => Ok dflt
  end.

(** [let x = r?; k]. *)
Definition ok_then {A B E} (r : result A E) (k : A → result B E) : result B E :=
  match r with Ok a => k a | Err e => Err e end.

(** Source: [crate/cortex/src/artifacts/config.rs] lines 55-74, [CortexConfig::from_env]. *)
Definition from_env (env : Env) : result CortexConfig ConfigError :=
  ok_then (parse_env env "RELAYHOST_SHARDS" 17) (λ rh,
  ok_then (parse_env env "NONCE_SHARDS" 17) (λ ns,
  ok_then (parse_env env "SIGN_SHARDS" 17) (λ ss,
  ok_then (parse_env env "BROADCAST_SHARDS" 17) (λ bs,
  ok_then (parse_env env "VALIDATOR_SHARDS" 17) (λ vs,
  ok_then (parse_env env "ACTOR_BUFFER_SIZE" 256) (λ ab,
  ok_then (parse_env env "PIPELINE_CONCURRENCY" 200) (λ pc,
  ok_then (parse_env env "PIPELINE_SEMAPHORE_TIMEOUT_MS" 5000) (λ ms,
  Ok (mkCortexConfig rh ns ss bs vs ab pc (from_millis ms) RetryConfig_default))))))))).

(** ** Parsing *)

Lemma u64_digits_bound acc s v : u64_digits acc s = Ok v → 0 ≤ acc ≤ u64_max → 0 ≤ v ≤ u64_max.
Proof.
  revert acc; induction s as [|c s IH]; intros acc; cbn [u64_digits]; [intros [= <-]; lia|].
  destruct (digit_val c) as [d|] eqn:Hd; [|done].
  assert (0 ≤ d).
  { unfold digit_val in Hd. destruct ((48 <=? _) && _) eqn:Hr; [|done].
    apply andb_prop in Hr as [Hr _]. apply Z.leb_le in Hr. injection Hd as <-. lia. }
  destruct (Z.leb_spec (acc * 10 + d) u64_max); [|done]. intros Hs ?. eapply IH; [done|]. lia.
Qed.

Lemma u64_digits_parse acc s v :
  u64_digits acc s = Ok v → parse_digits acc s = Some v.
Proof.
  revert acc; induction s as [|c s IH]; intros acc; cbn [u64_digits parse_digits]; [by intros [= <-]|].
  destruct (digit_val c); [|done]. destruct (_ <=? _); [apply IH|done].
Qed.

Lemma parse_u64_bound s v : parse_u64 s = Ok v → 0 ≤ v ≤ u64_max.
Proof.
  assert (H0 : 0 ≤ 0 ≤ u64_max) by (unfold u64_max; lia).
  assert (Hg : ∀ s, u64_digits 0 s = Ok v → 0 ≤ v ≤ u64_max) by (intros; by eapply u64_digits_bound).
  unfold parse_u64. destruct s as [|c s]; [done|].
  repeat match goal with |- context [match ?x with _ => _ end] => is_var x; destruct x end;
    try done; apply Hg.
Qed.

(** Printing a number and parsing it back. *)
Lemma u64_digits_pretty_go n s :
  Z.of_N n ≤ u64_max → u64_digits 0 (pretty_N_go n s) = u64_digits (Z.of_N n) s.
Proof.
  revert s. induction (N.lt_wf_0 n) as [n _ IH]; intros s Hn.
  destruct (decide (n = 0)%N) as [->|Hn0]; [by rewrite pretty_N_go_0|].
  pose proof (N.div_lt n 10 ltac:(lia) ltac:(lia)).
  rewrite pretty_N_go_step by lia. rewrite IH by lia.
  cbn [u64_digits]. rewrite digit_val_pretty by (by apply N.mod_lt).
  assert (Z.of_N (n `div` 10) * 10 + Z.of_N (n `mod` 10) = Z.of_N n) as ->.
  { pose proof (N.div_mod n 10). lia. }
  by rewrite (proj2 (Z.leb_le _ _)).
Qed.

Lemma parse_u64_digits s v : s ≠ "" → u64_digits 0 s = Ok v → parse_u64 s = Ok v.
Proof.
  intros Hs Hv. destruct s as [|c s]; [done|].
  destruct c as [[] [] [] [] [] [] [] []]; try exact Hv. discriminate Hv.
Qed.

Lemma parse_u64_pretty z : 0 ≤ z ≤ u64_max → parse_u64 (pretty z) = Ok z.
Proof.
  intros Hz. destruct z as [|p|p]; [done| |lia].
  assert (u64_digits 0 (pretty (Z.pos p)) = Ok (Z.pos p)) as Hd by (apply (u64_digits_pretty_go (N.pos p) ""); lia).
  apply parse_u64_digits; [|done]. by intros He; rewrite He in Hd.
Qed.

(** The value of a variable. *)
Lemma parse_env_spec env key dflt v :
  parse_env env key dflt = Ok v ↔
  (env key = None ∧ v = dflt) ∨ ∃ raw, env key = Some raw ∧ parse_u64 raw = Ok v.
Proof.
  unfold parse_env. destruct (env key) as [raw|].
  - destruct (parse_u64 raw) as [w|e] eqn:Hp; simpl; split.
    + intros [= <-]. right. eauto.
    + intros [[? _]|(raw' & [= <-] & Hv)]; [done|congruence].
    + done.
    + intros [[? _]|(raw' & [= <-] & Hv)]; [done|congruence].
  - split; [intros [= <-]; by left|]. by intros [[_ ->]|(? & ? & _)].
Qed.

Lemma parse_env_bound env key dflt v :
  0 ≤ dflt ≤ u64_max → parse_env env key dflt = Ok v → 0 ≤ v ≤ u64_max.
Proof.
  intros Hd [[_ ->]|(raw & _ & Hp)]%parse_env_spec; [done|]. by eapply parse_u64_bound.
Qed.

Definition env_vars : list (string * Z) :=
  [("RELAYHOST_SHARDS", 17); ("NONCE_SHARDS", 17); ("SIGN_SHARDS", 17); ("BROADCAST_SHARDS", 17);
   ("VALIDATOR_SHARDS", 17); ("ACTOR_BUFFER_SIZE", 256); ("PIPELINE_CONCURRENCY", 200);
   ("PIPELINE_SEMAPHORE_TIMEOUT_MS", 5000)].

(** The values, in the order of [env_vars]. *)
Definition config_values (c : CortexConfig) : list Z :=
  [relay_host_shards c; nonce_shards c; sign_shards c; broadcast_shards c; validator_shards c;
   actor_buffer c; pipeline_concurrency c; as_millis (pipeline_semaphore_timeout c)].

(** The variables one after the other, stopping at the first error. *)
Fixpoint parse_vars (env : Env) (vars : list (string * Z)) : result (list Z) ConfigError :=
  match vars with
  | [] => Ok []
  | (key, dflt) :: vars =>
      ok_then (parse_env env key dflt) (λ v, ok_then (parse_vars env vars) (λ vs, Ok (v :: vs)))
  end.

Lemma parse_vars_Ok env vars vs :
  parse_vars env vars = Ok vs → Forall2 (λ x v, parse_env env x.1 x.2 = Ok v) vars vs.
Proof.
  revert vs; induction vars as [|[key dflt] vars IH]; intros vs; cbn; [by intros [= <-]|].
  destruct (parse_env env key dflt) as [v|] eqn:Hp; [|done]. cbn.
  destruct (parse_vars env vars) as [vs'|]; [|done]. intros [= <-]. constructor; auto.
Qed.

Lemma parse_vars_Err env vars key source :
  parse_vars env vars = Err (Parse key source) →
  ∃ before dflt after raw, vars = before ++ (key, dflt) :: after ∧
    Forall (λ x, is_ok (parse_env env x.1 x.2) = true) before ∧
    env key = Some raw ∧ parse_u64 raw = Err source.
Proof.
  induction vars as [|[k d] vars IH]; cbn; [done|].
  destruct (parse_env env k d) as [v|e] eqn:Hp; cbn.
  - destruct (parse_vars env vars) as [vs'|e']; [done|]. cbn. intros [= ->].
    destruct (IH eq_refl) as (before & dflt & after & raw & -> & Hb & Hraw).
    exists ((k, d) :: before), dflt, after, raw. split_and!; [done| |apply Hraw..].
    constructor; [by cbn; rewrite Hp|done].
  - intros [= ->]. unfold parse_env in Hp. destruct (env k) as [raw|] eqn:He; [|done].
    destruct (parse_u64 raw) as [|x] eqn:Hraw; [done|]. injection Hp as <- <-.
    exists [], d, vars, raw. done.
Qed.

Lemma from_env_vars env :
  match parse_vars env env_vars with
  | Ok vs => ∃ c, from_env env = Ok c ∧ config_values c = vs ∧ retry c = RetryConfig_default
  | Err e => from_env env = Err e
  end.
Proof.
  unfold from_env, env_vars. cbn [parse_vars].
  repeat (match goal with |- context [ok_then (parse_env env ?k ?d) _] =>
    destruct (parse_env env k d); cbn [ok_then]; [|done] end).
  eexists. split_and!; [done| |done]. unfold config_values; cbn. by rewrite as_millis_from_millis.
Qed.

Lemma parse_vars_bound env vars vs :
  Forall (λ x : string * Z, 0 ≤ x.2 ≤ u64_max) vars → parse_vars env vars = Ok vs →
  Forall (λ v, 0 ≤ v ≤ u64_max) vs.
Proof.
  intros Hd Hp%parse_vars_Ok. induction Hp as [|[k d] v vars vs Hv Hp IH]; [constructor|].
  apply list.Forall_cons in Hd as [Hd Hds]. constructor; [|by apply IH].
  exact (parse_env_bound env k d v Hd Hv).
Qed.

Lemma from_env_values env c :
  from_env env = Ok c → retry c = RetryConfig_default ∧ Forall (λ v, 0 ≤ v ≤ u64_max) (config_values c).
Proof.
  intros Hc. pose proof (from_env_vars env) as Hv.
  destruct (parse_vars env env_vars) as [vs|e] eqn:Hp; [|congruence].
  destruct Hv as (c' & Hc' & <- & Hr). rewrite Hc in Hc'. injection Hc' as <-. split; [done|].
  apply (parse_vars_bound env env_vars); [|done]. repeat constructor; vm_compute; congruence.
Qed.

(** the configuration holds, variable by variable, the parsed value or the
    default, with the retry policy always the default one; and the error of a
    failed load names the first variable, in order, that is set to something
    that is not a [u64]. *)
Theorem from_env_functional env :
  match from_env env with
  | Ok c => Forall2 (λ x v, parse_env env x.1 x.2 = Ok v) env_vars (config_values c) ∧
            retry c = RetryConfig_default ∧ Forall (λ v, 0 ≤ v ≤ u64_max) (config_values c)
  | Err (Parse key source) =>
      ∃ before dflt after raw, env_vars = before ++ (key, dflt) :: after ∧
        Forall (λ x, is_ok (parse_env env x.1 x.2) = true) before ∧
        env key = Some raw ∧ parse_u64 raw = Err source
  end.
Proof.
  pose proof (from_env_vars env) as Hv.
  destruct (parse_vars env env_vars) as [vs|[key source]] eqn:Hp.
  - destruct Hv as (c & Hc & Hvs & _). destruct (from_env_values env c Hc) as [Hr Hb].
    rewrite Hc, Hvs in *. split_and!; [by apply parse_vars_Ok|done|done].
  - rewrite Hv. by apply parse_vars_Err.
Qed.

Example from_env_empty :
  from_env (λ _, None) =
  Ok (mkCortexConfig 17 17 17 17 17 256 200 (from_millis 5000) RetryConfig_default).
Proof. reflexivity. Qed.

Example from_env_bad :
  from_env (λ k, if decide (k = "SIGN_SHARDS") then Some "-3" else Some "+8")
  = Err (Parse "SIGN_SHARDS" PIInvalidDigit).
Proof. reflexivity. Qed.
