(* ===== verification/Keeps.v ===== *)
(** * Invariants of a world that a pipeline keeps

    A property of the world that every handle keeps is kept by the whole
    pipeline, whatever its course.  [keeps I Q c] is the judgement: from a
    world in [I] the computation [c] ends in one, with a value in [Q].  The
    classes state what a handle has to promise; [Compose.v] discharges them
    for the actors. *)

From S2P Require Import Prelude Types Retry Pool RpcClient CortexError Shard Pipeline.

Section keeps.
Context {W : Type} (I : W → Prop).

Definition keeps {A} (Q : A → Prop) (c : Comp W A) : Prop := ∀ w, I w → I (c w).2 ∧ Q (c w).1.
Abbreviation any := (λ _, True).

Lemma keeps_ret {A} (Q : A → Prop) a : Q a → keeps Q (cret a).
Proof. by intros Ha w Hw. Qed.

Lemma keeps_mono {A} (P Q : A → Prop) c : keeps P c → (∀ a, P a → Q a) → keeps Q c.
Proof. intros Hc HPQ w Hw. destruct (Hc w Hw). auto. Qed.

Lemma keeps_any {A} (Q : A → Prop) c : keeps Q c → keeps any c.
Proof. intros Hc. by apply (keeps_mono _ _ _ Hc). Qed.

Lemma keeps_bind {A B} (P : A → Prop) (Q : B → Prop) (c : Comp W A) (k : A → Comp W B) :
  keeps P c → (∀ a, P a → keeps Q (k a)) → keeps Q (cbind c k).
Proof.
  intros Hc Hk w Hw. unfold cbind. destruct (Hc w Hw) as [Hw' Ha].
  destruct (c w) as [a w']. by apply Hk.
Qed.

Lemma keeps_bind_ok {A B E} (P : A → Prop) (Q : result B E → Prop)
    (c : Comp W (result A E)) (k : A → Comp W (result B E)) :
  keeps (λ r, match r with Ok a => P a | Err e => Q (Err e) end) c → (∀ a, P a → keeps Q (k a)) →
  keeps Q (cbind_ok c k).
Proof.
  intros Hc Hk w Hw. unfold cbind_ok. destruct (Hc w Hw) as [Hw' Ha].
  destruct (c w) as [[a|e] w']; [by apply Hk|done].
Qed.

Lemma keeps_map_err {A E F} (f : E → F) (Q : result A F → Prop) (c : Comp W (result A E)) :
  keeps (λ r, Q (map_err f r)) c → keeps Q (cmap_err f c).
Proof.
  intros Hc w Hw. unfold cmap_err. destruct (Hc w Hw) as [Hw' Ha]. by destruct (c w) as [r w'].
Qed.

(** A value that the flow carries on. *)
Definition going {A} (Q : A → Prop) (r : flow A) : Prop := match r with Next a => Q a | _ => True end.

Lemma keeps_fbind {A B} (P : A → Prop) (Q : B → Prop) (c : Comp W (flow A)) (k : A → Comp W (flow B)) :
  keeps (going P) c → (∀ a, P a → keeps (going Q) (k a)) → keeps (going Q) (fbind c k).
Proof.
  intros Hc Hk. apply (keeps_bind (going P)); [done|]. intros [] Ha; [by apply Hk|by apply keeps_ret..].
Qed.

Lemma keeps_then {A B} (Q : B → Prop) (c : Comp W (flow A)) (k : A → Comp W (flow B)) :
  keeps any c → (∀ a, keeps (going Q) (k a)) → keeps (going Q) (fbind c k).
Proof.
  intros Hc Hk. apply keeps_fbind with (P := any); [|auto].
  apply (keeps_mono _ _ _ Hc). by intros [].
Qed.

Lemma keeps_next {A} (Q : A → Prop) a : Q a → keeps (going Q) (fnext a).
Proof. by intros Ha w Hw. Qed.

Lemma keeps_fdo (f : W → W) : (∀ w, I w → I (f w)) → keeps any (fdo f).
Proof. intros Hf w Hw. split; [by apply Hf|done]. Qed.

(** ** Retried calls *)

Class RuntimeKeeps `{Runtime W} : Prop := {
  rk_gen_range b : keeps any (rt_gen_range b);
  rk_sleep d w : I w → I (rt_sleep d w)
}.

Context `{RuntimeKeeps}.

Lemma keeps_jitter base max n : keeps any (jittered_delay (S := W) base max n).
Proof.
  apply keeps_bind with (P := any); [|by intros; apply keeps_ret].
  destruct (0 <? jitter_window base max n); [apply rk_gen_range|by apply keeps_ret].
Qed.

(** What every attempt ensures of its answer, the retried call ensures. *)
Lemma keeps_attempt {T E} config (Q : result T E → Prop) (op : Comp W (result T (RetryDecision E))) :
  keeps (λ r, Q (map_err (λ d, match d with Retry e => e | FailImmediately e => e end) r)) op →
  keeps (going Q) (attempt config op).
Proof.
  intros Hop. unfold attempt. apply keeps_bind with (P := λ o, match o with Some r => Q r | None => True end).
  2:{ intros [r|] Hr; by apply keeps_ret. }
  unfold retry_with_backoff. generalize (wrap_u32 (max_attempts config + 1)) at 1; intros total.
  generalize (Z.to_nat (wrap_u32 (max_attempts config + 1))); intros fuel. generalize 1.
  induction fuel as [|fuel IH]; intros k; [by apply keeps_ret|]. cbn [retry_from].
  apply (keeps_bind _ _ _ _ Hop). intros [v|[e|e]] HQ; [by apply keeps_ret| |by apply keeps_ret].
  destruct (k =? total); [by apply keeps_ret|].
  apply (keeps_bind any); [apply keeps_jitter|]. intros d _.
  apply (keeps_bind any); [|intros; apply IH]. intros w Hw. split; [by apply rk_sleep|done].
Qed.

Lemma keeps_retried {T E} config (Q : result T E → Prop) (op : Comp W (result T E)) :
  keeps Q op → keeps (going Q) (attempt config (retried op)).
Proof.
  intros Hop. apply keeps_attempt, keeps_map_err, (keeps_mono _ _ _ Hop). by intros [].
Qed.

(** ** What a handle promises *)

(** The on-chain nonces that a broadcast may report. *)
Context (good_nonce : TxNonce → Prop).

Definition reports (r : result BroadcastOutcome BroadcastError) : Prop :=
  match r with Err (BNonceTooLow n _) => good_nonce n | _ => True end.

Class NonceKeeps (h : NonceManager W) : Prop := {
  nk_reserve c a e : keeps any (nm_reserve h c a e);
  nk_resolve e st : keeps any (nm_resolve h e st);
  nk_sync c a e n : good_nonce n → keeps any (nm_sync h c a e n)
}.
Class SignKeeps (h : Signer W) : Prop := {
  sk_sign c a e t : keeps any (sg_sign h c a e t);
  sk_revert e : keeps any (sg_revert h e)
}.
Class BroadcastKeeps (h : Broadcaster W) : Prop :=
  bk_broadcast c a e t i : keeps reports (bc_broadcast h c a e t i).
Class ValidateKeeps (h : Validator W) : Prop := vk_validate c e x i : keeps any (vd_validate h c e x i).
Class RelayKeeps (h : IntentRelay W) : Prop := lk_register e t c : keeps any (ir_register h e t c).
Class StoreKeeps (s : StateStore W) : Prop := ok_set e st w : I w → I (ss_set s e st w).
Class EndpointsKeep (s : EndpointSource W) : Prop := ek_acquire c t : keeps any (es_acquire s c t).

Record ctx_keeps (ctx : PipelineContext W) : Prop := {
  ck_relay : Forall RelayKeeps (shards (px_relayhost_pool ctx));
  ck_nonce : Forall NonceKeeps (shards (px_nonce_pool ctx));
  ck_sign : Forall SignKeeps (shards (px_sign_pool ctx));
  ck_broadcast : Forall BroadcastKeeps (shards (px_broadcast_pool ctx));
  ck_validator : Forall ValidateKeeps (shards (px_validator_pool ctx));
  ck_status : StoreKeeps (px_status ctx);
  ck_endpoints : EndpointsKeep (px_rpc_client ctx)
}.

Lemma keeps_shard {T K} `{Hash K} (P : T → Prop) (pool : ShardPool T) (key : K) :
  Forall P (shards pool) → keeps (going P) (funwrap (ShardPool_get pool key)).
Proof.
  intros HP. apply keeps_ret. unfold ShardPool_get. destruct (shards pool !! _) as [h|] eqn:Hh; [|done].
  by apply (list.Forall_lookup_1 _ _ _ _ HP Hh).
Qed.

(** ** The stages *)

Context `{U256Hash} (ctx : PipelineContext W) (Hctx : ctx_keeps ctx).

Lemma keeps_status e st : keeps any (fdo (ss_set (px_status ctx) e st)).
Proof. apply keeps_fdo. intros w. apply (ck_status _ Hctx). Qed.

Lemma keeps_fail {A} (Q : A → Prop) e err : keeps (going Q) (fail_with (px_status ctx) e err).
Proof. apply keeps_then; [apply keeps_status|]. intros. by apply keeps_ret. Qed.

Lemma keeps_resolved h `{!NonceKeeps h} config e st :
  keeps any (_ <-> attempt config (retried (nm_resolve h e st)) ;; fnext tt).
Proof.
  apply keeps_any with (Q := going any), keeps_then; [|by intros; apply keeps_next].
  eapply keeps_any, keeps_retried, nk_resolve.
Qed.

Lemma keeps_release h `{!NonceKeeps h} config e : keeps any (release_nonce h e config).
Proof. by apply keeps_resolved. Qed.
Lemma keeps_finalise h `{!NonceKeeps h} config e : keeps any (finalise_nonce h e config).
Proof. by apply keeps_resolved. Qed.
Lemma keeps_consume h `{!NonceKeeps h} config e : keeps any (consume_nonce h e config).
Proof. by apply keeps_resolved. Qed.
Lemma keeps_revert h `{!SignKeeps h} config e : keeps any (revert_sign h e config).
Proof.
  apply keeps_any with (Q := going any), keeps_then; [|by intros; apply keeps_next].
  eapply keeps_any, keeps_retried, sk_revert.
Qed.
End keeps.

(** Through a stage, call by call. *)
Ltac keep_flow :=
  repeat first
    [ progress intros
    | apply keeps_next; done
    | by eapply keeps_fail
    | apply keeps_ret; done
    | match goal with
      | |- keeps _ (going _) (fdo _) => eapply keeps_mono; [by eapply keeps_status|by intros []]
      | |- keeps _ (going _) (match ?x with _ => _ end) => destruct x
      | |- keeps _ _ (if ?x then _ else _) => destruct x
      | |- keeps _ (going _) (fbind _ _) =>
          eapply keeps_then;
            [first [by eapply keeps_release|by eapply keeps_consume|by eapply keeps_finalise
                   |by eapply keeps_revert|by eapply keeps_status
                   |eapply keeps_any, keeps_retried; try typeclasses eauto;
                      first [by eapply nk_reserve|by eapply sk_sign|by eapply nk_sync]]|]
      end ].

Section stages.
Context {W : Type} (I : W → Prop) `{RuntimeKeeps W I} (good_nonce : TxNonce → Prop) `{U256Hash}.
Context (ctx : PipelineContext W) (Hctx : ctx_keeps I good_nonce ctx).
Abbreviation any := (λ _, True).

Lemma keeps_relay_stage : keeps I (going any) (relay_stage ctx).
Proof.
  unfold relay_stage; cbv zeta. eapply keeps_fbind; [apply keeps_shard, (ck_relay _ _ _ Hctx)|]. intros h Hh.
  eapply keeps_then; [eapply keeps_any, keeps_retried, Hh; typeclasses eauto|]. keep_flow.
Qed.

Lemma keeps_nonce_stage h : NonceKeeps I good_nonce h → keeps I (going any) (nonce_stage ctx h).
Proof. intros Hh. unfold nonce_stage; cbv zeta. keep_flow. Qed.

Lemma keeps_sign_stage h s txn :
  NonceKeeps I good_nonce h → SignKeeps I s → keeps I (going any) (sign_stage ctx h s txn).
Proof. intros Hh Hs. unfold sign_stage; cbv zeta. keep_flow. Qed.

Lemma keeps_endpoint_stage h : NonceKeeps I good_nonce h → keeps I (going any) (endpoint_stage ctx h).
Proof.
  intros Hh. unfold endpoint_stage; cbv zeta. eapply keeps_bind; [apply (ck_endpoints _ _ _ Hctx)|]. keep_flow.
Qed.

Lemma keeps_recover h s txn n at_ :
  NonceKeeps I good_nonce h → SignKeeps I s → good_nonce n →
  keeps I (going any) (recover_nonce ctx h s txn n at_).
Proof. intros Hh Hs Hn. unfold recover_nonce; cbv zeta. keep_flow. Qed.

Lemma keeps_broadcast_attempt b signed i :
  BroadcastKeeps I good_nonce b → keeps I (going (reports good_nonce)) (broadcast_attempt ctx b signed i).
Proof.
  intros Hb. apply keeps_attempt; [done|]. apply keeps_map_err.
  eapply keeps_mono; [apply Hb|]. intros [o|[]]; done.
Qed.

Lemma keeps_broadcast_loop h s b i fuel tried txn signed :
  NonceKeeps I good_nonce h → SignKeeps I s → BroadcastKeeps I good_nonce b →
  keeps I (going any) (broadcast_loop ctx fuel h s b i tried txn signed).
Proof.
  intros Hh Hs Hb. revert tried txn signed; induction fuel as [|fuel IH]; intros tried txn signed;
    [by apply keeps_ret|]. cbn [broadcast_loop].
  eapply keeps_fbind; [by apply keeps_broadcast_attempt|]. intros [o|e] Hr; [by apply keeps_next|].
  destruct e; try (unfold broadcast_failed; keep_flow; fail).
  destruct tried; [keep_flow|].
  eapply keeps_fbind; [by apply keeps_recover|]. intros. apply IH.
Qed.

Lemma keeps_validate_at h v x i :
  NonceKeeps I good_nonce h → ValidateKeeps I v → keeps I (going any) (validate_at ctx h v x i).
Proof. intros Hh Hv. unfold validate_at; cbv zeta. eapply keeps_bind; [apply Hv|]. keep_flow. Qed.

Lemma keeps_validator_stage h x i :
  NonceKeeps I good_nonce h → keeps I (going any) (validator_stage ctx h x i).
Proof.
  intros Hh. unfold validator_stage; cbv zeta. eapply keeps_fbind; [apply keeps_shard, (ck_validator _ _ _ Hctx)|].
  intros v Hv. by apply keeps_validate_at.
Qed.

Lemma keeps_outcome_stage h x v :
  NonceKeeps I good_nonce h → keeps I (going any) (outcome_stage ctx h x v).
Proof. intros Hh. unfold outcome_stage; cbv zeta. keep_flow. Qed.

(** Whatever its handles keep, a pipeline keeps. *)
Lemma run_pipeline_keeps fuel w : I w → I (run_pipeline ctx fuel w).2.
Proof.
  enough (keeps I (going any) (run_pipeline ctx fuel)) as Hk by (intros Hw; by apply Hk).
  unfold run_pipeline; cbv zeta.
  eapply keeps_fbind; [apply keeps_relay_stage|]. intros _ _.
  eapply keeps_fbind; [apply keeps_shard, (ck_nonce _ _ _ Hctx)|]. intros h Hh.
  eapply keeps_fbind; [by apply keeps_nonce_stage|]. intros txn _.
  eapply keeps_fbind; [apply keeps_shard, (ck_sign _ _ _ Hctx)|]. intros s Hs.
  eapply keeps_fbind; [by apply keeps_sign_stage|]. intros signed _.
  eapply keeps_fbind; [by apply keeps_endpoint_stage|]. intros i _.
  eapply keeps_fbind; [apply keeps_shard, (ck_broadcast _ _ _ Hctx)|]. intros b Hb.
  eapply keeps_fbind; [by apply keeps_broadcast_loop|]. intros outcome _.
  eapply keeps_then; [by eapply keeps_status|]. intros _.
  eapply keeps_fbind; [by apply keeps_validator_stage|]. intros v _.
  by apply keeps_outcome_stage.
Qed.
End stages.
