(* ===== verification/Interleave.v ===== *)
(** * Pipelines that run at the same time

    tokio runs the pipelines of [lib.rs] as tasks: between two calls of one
    task any number of calls of the others may happen.  Here a task is the
    code of [Pipeline.v] itself, run over the answers its calls have got so
    far: with all of them consumed it stops at its next call ([waits_for]),
    which a turn makes on the shared world.  A task that takes all its turns in
    a row does what [run_pipeline] does ([pipeline_follows]); what is proved of
    one pipeline over an arbitrary world holds of a task under any schedule. *)

From S2P Require Import Prelude Types Retry Pool RpcClient CortexError Shard Pipeline PipelineSpec Protocol Erasure Refine PipelineProps Keeps.

(** ** Calls and their answers *)

(** What a pipeline asks of its surroundings; the calls of an actor name the
    shard. *)
Inductive Action :=
| ActRegister (shard : nat) (e : ExecutionId) (t : Eip1559Transaction) (c : ClientConfig)
| ActReserve (shard : nat) (c : ChainId) (a : Address) (e : ExecutionId)
| ActResolve (shard : nat) (e : ExecutionId) (st : NonceState)
| ActSync (shard : nat) (c : ChainId) (a : Address) (e : ExecutionId) (n : TxNonce)
| ActSign (shard : nat) (c : ChainId) (a : Address) (e : ExecutionId) (t : Eip1559Transaction)
| ActRevert (shard : nat) (e : ExecutionId)
| ActBroadcast (shard : nat) (c : ChainId) (a : Address) (e : ExecutionId) (t : SignedTransaction) (i : nat)
| ActValidate (shard : nat) (c : ChainId) (e : ExecutionId) (x : TxHash) (i : nat)
| ActAcquire (c : ChainId) (timeout : Z)
| ActStatus (e : ExecutionId) (st : PipelineStatus)
| ActDraw (bound : Z)
| ActSleep (d : Z).

Inductive Answer :=
| AnsRelay (r : result unit RelayHostError)
| AnsNonce (r : result TxNonce LocalError)
| AnsLocal (r : result unit LocalError)
| AnsSigned (r : result SignedTransaction LocalError)
| AnsSent (r : result BroadcastOutcome BroadcastError)
| AnsValidated (r : result ValidatorOutcome ValidatorError)
| AnsEndpoint (r : result (option nat) LobbyRpcError)
| AnsDrawn (z : Z)
| AnsDone.

(** ** The code of a pipeline over recorded answers *)

(** The answers still to be given, the calls made with their answers, the
    call that found no answer. *)
Record Replay := mkReplay {
  rp_todo : list Answer;
  rp_done : list (Action * Answer);
  rp_pending : option Action
}.

Definition ask {A} (act : Action) (take : Answer → option A) (dflt : A) : Comp Replay A := λ s,
  match rp_pending s with
  | Some _ => (dflt, s)
  | None =>
      match rp_todo s with
      | [] => (dflt, mkReplay [] (rp_done s) (Some act))
      | ans :: rest => (default dflt (take ans), mkReplay rest (rp_done s ++ [(act, ans)]) None)
      end
  end.

(** What the code goes on with after a call without an answer; it is discarded. *)
Definition no_local {A} : result A LocalError := Err (LInternal "").

Definition ask_relay act : Comp Replay _ := ask act (λ x, match x with AnsRelay r => Some r | _ => None end) (Ok tt).
Definition ask_nonce act : Comp Replay _ := ask act (λ x, match x with AnsNonce r => Some r | _ => None end) no_local.
Definition ask_local act : Comp Replay _ := ask act (λ x, match x with AnsLocal r => Some r | _ => None end) no_local.
Definition ask_signed act : Comp Replay _ := ask act (λ x, match x with AnsSigned r => Some r | _ => None end) no_local.
Definition ask_sent act : Comp Replay _ :=
  ask act (λ x, match x with AnsSent r => Some r | _ => None end) (Err (BInternal "")).
Definition ask_validated act : Comp Replay _ :=
  ask act (λ x, match x with AnsValidated r => Some r | _ => None end) (Ok Timeout).
Definition ask_endpoint act : Comp Replay _ :=
  ask act (λ x, match x with AnsEndpoint r => Some r | _ => None end) (Ok None).
Definition ask_drawn act : Comp Replay Z := ask act (λ x, match x with AnsDrawn z => Some z | _ => None end) 0.
Definition ask_done act : Comp Replay unit := ask act (λ x, match x with AnsDone => Some tt | _ => None end) tt.

#[export] Instance replay_runtime : Runtime Replay := {|
  rt_gen_range b := ask_drawn (ActDraw b);
  rt_sleep d s := (ask_done (ActSleep d) s).2
|}.

Definition replay_relay (i : nat) : IntentRelay Replay := mkIntentRelay (λ e t c, ask_relay (ActRegister i e t c)).
Definition replay_nonce (i : nat) : NonceManager Replay :=
  mkNonceManager (λ c a e, ask_nonce (ActReserve i c a e)) (λ e st, ask_local (ActResolve i e st))
    (λ c a e n, ask_nonce (ActSync i c a e n)).
Definition replay_signer (i : nat) : Signer Replay :=
  mkSigner (λ c a e t, ask_signed (ActSign i c a e t)) (λ e, ask_local (ActRevert i e)).
Definition replay_broadcaster (i : nat) : Broadcaster Replay :=
  mkBroadcaster (λ c a e t k, ask_sent (ActBroadcast i c a e t k)).
Definition replay_validator (i : nat) : Validator Replay :=
  mkValidator (λ c e x k, ask_validated (ActValidate i c e x k)).
Definition replay_store : StateStore Replay :=
  mkStateStore (λ e st s, (ask_done (ActStatus e st) s).2) (λ _ _, None) (λ _ s, s).
Definition replay_endpoints : EndpointSource Replay := mkEndpointSource (λ c t, ask_endpoint (ActAcquire c t)).

(** A pool of the same size whose handles ask under their shard's index. *)
Definition replay_pool {T U} (f : nat → U) (pool : ShardPool T) : ShardPool U :=
  mkShardPool (f <$> seq 0 (shard_count pool)).

Definition replay_ctx {W} (x : PipelineContext W) : PipelineContext Replay :=
  mkPipelineContext (px_execution_id x) (px_client_config x) (px_txn x)
    (replay_pool replay_relay (px_relayhost_pool x)) (replay_pool replay_nonce (px_nonce_pool x))
    (replay_pool replay_signer (px_sign_pool x)) (replay_pool replay_broadcaster (px_broadcast_pool x))
    (replay_pool replay_validator (px_validator_pool x)) (px_retry_config x) replay_store replay_endpoints.

Section tasks.
Context {W : Type} `{Runtime W} `{U256Hash}.

(** ** Making a call *)

Definition answer {A} (f : A → Answer) (c : Comp W A) : Comp W Answer := λ w, let '(a, w') := c w in (f a, w').
Definition on_shard {T} (pool : ShardPool T) (i : nat) (k : T → Comp W Answer) : Comp W Answer :=
  match shards pool !! i with Some h => k h | None => cret AnsDone end.

Definition perform (x : PipelineContext W) (act : Action) : Comp W Answer :=
  match act with
  | ActRegister i e t c => on_shard (px_relayhost_pool x) i (λ h, answer AnsRelay (ir_register h e t c))
  | ActReserve i c a e => on_shard (px_nonce_pool x) i (λ h, answer AnsNonce (nm_reserve h c a e))
  | ActResolve i e st => on_shard (px_nonce_pool x) i (λ h, answer AnsLocal (nm_resolve h e st))
  | ActSync i c a e n => on_shard (px_nonce_pool x) i (λ h, answer AnsNonce (nm_sync h c a e n))
  | ActSign i c a e t => on_shard (px_sign_pool x) i (λ h, answer AnsSigned (sg_sign h c a e t))
  | ActRevert i e => on_shard (px_sign_pool x) i (λ h, answer AnsLocal (sg_revert h e))
  | ActBroadcast i c a e t k => on_shard (px_broadcast_pool x) i (λ h, answer AnsSent (bc_broadcast h c a e t k))
  | ActValidate i c e y k => on_shard (px_validator_pool x) i (λ h, answer AnsValidated (vd_validate h c e y k))
  | ActAcquire c t => answer AnsEndpoint (es_acquire (px_rpc_client x) c t)
  | ActStatus e st => λ w, (AnsDone, ss_set (px_status x) e st w)
  | ActDraw b => answer AnsDrawn (rt_gen_range b)
  | ActSleep d => λ w, (AnsDone, rt_sleep d w)
  end.

(** ** Tasks and turns *)

(** A spawned pipeline and the calls it has made. *)
Record Task := mkTask { tk_ctx : PipelineContext W; tk_done : list (Action * Answer) }.

(** The code with the answers so far.  The fuel cuts nothing off: the loop's own
    flag [nonce_retry_attempted] ends it in its second round, so any other fuel
    from two on gives the same code ([run_pipeline_fuel]). *)
Definition replay_task (t : Task) : flow unit * Replay :=
  run_pipeline (replay_ctx (tk_ctx t)) 2 (mkReplay (tk_done t).*2 [] None).

(** The next call of a task, [None] once it has ended. *)
Definition waits_for (t : Task) : option Action := rp_pending (replay_task t).2.

Definition turn (i : nat) (s : W * list Task) : option (W * list Task) :=
  t ← s.2 !! i;
  act ← waits_for t;
  let '(ans, w') := perform (tk_ctx t) act s.1 in
  Some (w', <[i := mkTask (tk_ctx t) (tk_done t ++ [(act, ans)])]> s.2).

(** Turns in the order of a schedule. *)
Fixpoint turns (schedule : list nat) (s : W * list Task) : option (W * list Task) :=
  match schedule with
  | [] => Some s
  | i :: schedule => s' ← turn i s; turns schedule s'
  end.
End tasks.
Arguments Task W : clear implicits.

(** The loop's second round never goes on to a third. *)
Lemma run_pipeline_fuel {W} `{Runtime W} `{U256Hash} (x : PipelineContext W) fuel :
  (2 ≤ fuel)%nat → run_pipeline x fuel = run_pipeline x 2.
Proof. intros Hf. destruct fuel as [|[|fuel]]; [lia|lia|reflexivity]. Qed.

(** ** One more answer *)

Section one_more.
Context `{U256Hash} (x : Answer).

(** Two runs of one code, the second with the answer [x] more: in step until
    the first finds no answer; [x] answers that call, and is the last. *)
Definition one_more (A : Type) (c' c : Comp Replay A) : Prop :=
  (∀ s, is_Some (rp_pending s) → (c' s).2 = s) ∧
  (∀ s, rp_todo s = [] → rp_todo (c s).2 = [] ∧ rp_done (c s).2 = rp_done s) ∧
  ∀ l d, let s := c' (mkReplay l d None) in let s' := c (mkReplay (l ++ [x]) d None) in
    (∃ l1 d1, s.2 = mkReplay l1 d1 None ∧ s' = (s.1, mkReplay (l1 ++ [x]) d1 None)) ∨
    ∃ act d1, s.2 = mkReplay [] d1 (Some act) ∧ rp_todo s'.2 = [] ∧ rp_done s'.2 = d1 ++ [(act, x)].

Lemma one_more_ask {A} act (take : Answer → option A) dflt : one_more A (ask act take dflt) (ask act take dflt).
Proof.
  split; [|split].
  - intros s [a Ha]. unfold ask. by rewrite Ha.
  - intros [l d p]. cbn. intros ->. unfold ask. by destruct p.
  - intros [|y l] d; cbn; [right|left]; eauto 6.
Qed.

Lemma one_more_effect {A B} (v : B) (c : Comp Replay A) :
  one_more A c c → one_more B (λ s, (v, (c s).2)) (λ s, (v, (c s).2)).
Proof.
  intros (Hb & Hm & Hc). split; [exact Hb|split; [exact Hm|]]. intros l d. cbn.
  destruct (Hc l d) as [(l1 & d1 & E1 & E2)|Hr]; [left|by right]. exists l1, d1. split; [exact E1|]. by rewrite E2.
Qed.

#[local] Instance one_more_simulation : Simulation one_more.
Proof.
  split.
  - intros A a. split; [done|split; [done|]]. intros l d. left. by exists l, d.
  - intros A B c' c k' k (Hb & Hm & Hc) Hk. split; [|split].
    + intros s Hs. unfold cbind. pose proof (Hb s Hs) as Hcs. destruct (c' s) as [a s1]. cbn in Hcs. subst s1. by apply Hk.
    + intros s Hs. unfold cbind. destruct (Hm s Hs) as [Ht Hd]. destruct (c s) as [a s1]. cbn in Ht, Hd.
      rewrite <- Hd. by apply Hk.
    + intros l d. unfold cbind. specialize (Hc l d). cbn in Hc. cbn.
      destruct (c' (mkReplay l d None)) as [a s1]. cbn in Hc.
      destruct Hc as [(l1 & d1 & -> & ->)|(act & d1 & -> & Ht & Hd)]; [apply Hk|].
      right. exists act, d1. split; [by apply Hk|].
      destruct (c (mkReplay (l ++ [x]) d None)) as [b s2]. cbn in Ht, Hd. rewrite <- Hd. by apply Hk.
  - intros A E F f c' c (Hb & Hm & Hc). unfold cmap_err. split; [|split].
    + intros s Hs. specialize (Hb s Hs). by destruct (c' s).
    + intros s Hs. specialize (Hm s Hs). by destruct (c s).
    + intros l d. specialize (Hc l d). cbn in Hc. cbn.
      destruct (c' (mkReplay l d None)) as [r s1]. cbn in *.
      destruct Hc as [(l1 & d1 & -> & ->)|(act & d1 & -> & Hc)]; [left; eauto|right].
      exists act, d1. by destruct (c (mkReplay (l ++ [x]) d None)).
  - intros b. apply one_more_ask.
  - intros d. exact (one_more_effect tt _ (one_more_ask _ _ _)).
Qed.

Lemma replay_pool_Forall2 {T U V} (P : U → V → Prop) (f : nat → U) (g : nat → V) (pool : ShardPool T) :
  (∀ i, P (f i) (g i)) → Forall2 P (shards (replay_pool f pool)) (shards (replay_pool g pool)).
Proof. intros Hp. cbn. induction (seq 0 (shard_count pool)); by constructor. Qed.

Lemma one_more_ctx {W} (ctx : PipelineContext W) : ctx_sim one_more (replay_ctx ctx) (replay_ctx ctx).
Proof.
  split; try done; try (apply replay_pool_Forall2; intros i; split); intros; try apply one_more_ask.
  exact (one_more_effect (Next tt) _ (one_more_ask _ _ _)).
Qed.

(** The code of a pipeline with one answer more. *)
Lemma pipeline_one_more {W} (ctx : PipelineContext W) fuel :
  one_more (flow unit) (run_pipeline (replay_ctx ctx) fuel) (run_pipeline (replay_ctx ctx) fuel).
Proof. apply (sim_pipeline one_more _ _ (one_more_ctx ctx)). Qed.
End one_more.

(** ** What a task has done *)

Section played.
Context {W : Type} `{Runtime W} `{U256Hash}.

(** The code has made exactly the calls the task records. *)
Definition well_played (t : Task W) : Prop :=
  rp_todo (replay_task t).2 = [] ∧ rp_done (replay_task t).2 = tk_done t.

Lemma well_played_start ctx : well_played (mkTask ctx []).
Proof. destruct (pipeline_one_more AnsDone ctx 2) as (_ & Hm & _). by apply (Hm (mkReplay [] [] None)). Qed.

Lemma well_played_call t act ans :
  well_played t → waits_for t = Some act → well_played (mkTask (tk_ctx t) (tk_done t ++ [(act, ans)])).
Proof.
  intros [Ht Hd] Hw. unfold waits_for, replay_task in *. unfold well_played, replay_task. cbn [tk_ctx tk_done].
  destruct (pipeline_one_more ans (tk_ctx t) 2) as (_ & _ & Hc). specialize (Hc (tk_done t).*2 []). cbn in Hc.
  rewrite fmap_app. cbn [fmap list_fmap snd].
  destruct Hc as [(l1 & d1 & E1 & _)|(act' & d1 & E1 & Htodo & Hdone)]; rewrite E1 in Hw, Hd; cbn in Hw, Hd.
  - done.
  - injection Hw as ->. subst d1. by split.
Qed.

Definition all_played (s : W * list (Task W)) : Prop := Forall well_played s.2.

Lemma turn_played i s s' : turn i s = Some s' → all_played s → all_played s'.
Proof.
  unfold turn, all_played. intros Ht Hs. apply bind_Some in Ht as (t & Hi & Ht).
  apply bind_Some in Ht as (act & Hw & Ht). destruct (perform (tk_ctx t) act s.1) as [ans w'].
  injection Ht as <-. cbn [snd]. apply Forall_insert; [done|].
  apply well_played_call; [|done]. by eapply (list.Forall_lookup_1 _ _ _ _ Hs).
Qed.

Lemma turns_played schedule s s' : turns schedule s = Some s' → all_played s → all_played s'.
Proof.
  revert s; induction schedule as [|i schedule IH]; intros s; cbn [turns]; [by intros [= ->]|].
  intros Ht Hs. apply bind_Some in Ht as (s1 & Ht & Hts). eapply IH; [done|]. by eapply turn_played.
Qed.

Lemma fresh_played s : Forall (λ t, tk_done t = []) s.2 → all_played s.
Proof.
  intros Hs. eapply list.Forall_impl; [exact Hs|]. intros [ctx d]; cbn. intros ->. apply well_played_start.
Qed.
End played.

(** ** A task on its own *)

Section alone.
Context {W : Type} `{Runtime W} `{U256Hash} (x : PipelineContext W).

(** From the answers [l] in the world [w], the code's next calls, made one
    after the other, lead to the answers [l'] in [w']. *)
Inductive plays {A} (c : Comp Replay A) : list Answer → W → list Answer → W → Prop :=
| plays_done l w : plays c l w l w
| plays_call l w act ans w1 l' w' :
    (∀ d, rp_pending (c (mkReplay l d None)).2 = Some act) → perform x act w = (ans, w1) →
    plays c (l ++ [ans]) w1 l' w' → plays c l w l' w'.

(** The code over answers does, call by call, what the code on the world does
    at once. *)
Definition follows (A : Type) (c' : Comp Replay A) (c : Comp W A) : Prop :=
  (∀ s, is_Some (rp_pending s) → (c' s).2 = s) ∧
  ∀ w, ∃ l, plays c' [] w l (c w).2 ∧
    ∀ rest d, ∃ d', c' (mkReplay (l ++ rest) d None) = ((c w).1, mkReplay rest d' None).

Lemma plays_trans {A} (c : Comp Replay A) l w l1 w1 l2 w2 :
  plays c l w l1 w1 → plays c l1 w1 l2 w2 → plays c l w l2 w2.
Proof. induction 1; [done|]. intros. eapply plays_call; eauto. Qed.

(** Through a first and a second part. *)
Lemma plays_first {A B} (c : Comp Replay A) (k : A → Comp Replay B) l w l' w' :
  (∀ a s, is_Some (rp_pending s) → (k a s).2 = s) → plays c l w l' w' → plays (cbind c k) l w l' w'.
Proof.
  intros Hk. induction 1 as [|l w act ans w1 l' w' Hp He _ IH]; [constructor|].
  eapply plays_call; [|done|done]. intros d. specialize (Hp d). unfold cbind.
  destruct (c (mkReplay l d None)) as [a s]. cbn in Hp. rewrite Hk by (rewrite Hp; eauto). done.
Qed.

Lemma plays_second {A B} (c : Comp Replay A) (k : A → Comp Replay B) a l0 l w l' w' :
  (∀ rest d, ∃ d', c (mkReplay (l0 ++ rest) d None) = (a, mkReplay rest d' None)) →
  plays (k a) l w l' w' → plays (cbind c k) (l0 ++ l) w (l0 ++ l') w'.
Proof.
  intros Hc. induction 1 as [|l w act ans w1 l' w' Hp He _ IH]; [constructor|].
  eapply plays_call; [|done|by rewrite <- (assoc_L app)]. intros d. unfold cbind.
  destruct (Hc l d) as [d' ->]. apply Hp.
Qed.

Lemma plays_map {A B} (c : Comp Replay A) (c' : Comp Replay B) l w l' w' :
  (∀ s, (c' s).2 = (c s).2) → plays c l w l' w' → plays c' l w l' w'.
Proof.
  intros Hc. induction 1; [constructor|]. eapply plays_call; [|done|done]. intros d. by rewrite Hc.
Qed.

Lemma follows_ask {A} act (take : Answer → option A) dflt (c : Comp W A) :
  (∀ w, ∃ ans, perform x act w = (ans, (c w).2) ∧ default dflt (take ans) = (c w).1) →
  follows A (ask act take dflt) c.
Proof.
  intros Hp. split.
  - intros s [a Ha]. unfold ask. by rewrite Ha.
  - intros w. destruct (Hp w) as (ans & He & Ht). exists [ans]. split.
    + eapply plays_call; [done|exact He|constructor].
    + intros rest d. exists (d ++ [(act, ans)]). cbn. by rewrite Ht.
Qed.

(** A call whose value is not used. *)
Lemma follows_effect {A B} (v : B) (c' : Comp Replay A) (c : Comp W A) :
  follows A c' c → follows B (λ s, (v, (c' s).2)) (λ w, (v, (c w).2)).
Proof.
  intros (Hb & Hc). split; [exact Hb|]. intros w. destruct (Hc w) as (l & Hl & Hr). exists l. split.
  - by apply (plays_map c').
  - intros rest d. destruct (Hr rest d) as [d' E]. exists d'. by rewrite E.
Qed.

Lemma perform_answer {A} (f : A → Answer) (take : Answer → option A) dflt (c : Comp W A) w :
  (∀ a, take (f a) = Some a) → ∃ ans, answer f c w = (ans, (c w).2) ∧ default dflt (take ans) = (c w).1.
Proof. intros Hf. unfold answer. destruct (c w) as [a w']. exists (f a). by rewrite Hf. Qed.

#[local] Instance follows_simulation : Simulation follows.
Proof.
  split.
  - intros A a. split; [done|]. intros w. exists []. split; [constructor|]. intros rest d. by exists d.
  - intros A B c' c k' k (Hb & Hc) Hk. split.
    + intros s Hs. unfold cbind. pose proof (Hb s Hs) as Hcs. destruct (c' s) as [a s1]. cbn in Hcs. subst s1. by apply Hk.
    + intros w. destruct (Hc w) as (l1 & Hl1 & Hr1). destruct (c w) as [a w1] eqn:Ecw. cbn in Hl1, Hr1.
      assert (Ek : cbind c k w = k a w1) by (unfold cbind; by rewrite Ecw). rewrite Ek.
      destruct (Hk a) as [_ Hka]. destruct (Hka w1) as (l2 & Hl2 & Hr2). exists (l1 ++ l2). split.
      * eapply plays_trans; [apply plays_first; [|exact Hl1]|].
        -- intros b s Hs. by apply Hk.
        -- pose proof (plays_second c' k' a l1 [] w1 l2 _ Hr1 Hl2) as Hp. by rewrite app_nil_r in Hp.
      * intros rest d. unfold cbind. rewrite <- (assoc_L app). destruct (Hr1 (l2 ++ rest) d) as [d1 ->].
        destruct (Hr2 rest d1) as [d2 ->]. by exists d2.
  - intros A E F f c' c (Hb & Hc). split.
    + intros s Hs. specialize (Hb s Hs). unfold cmap_err. by destruct (c' s).
    + intros w. destruct (Hc w) as (l & Hl & Hr). destruct (c w) as [r w1] eqn:Ecw.
      assert (Ek : cmap_err f c w = (map_err f r, w1)) by (unfold cmap_err; by rewrite Ecw). rewrite Ek. exists l. split.
      * apply (plays_map c'); [|exact Hl]. intros s. unfold cmap_err. by destruct (c' s).
      * intros rest d. destruct (Hr rest d) as [d' E']. exists d'. unfold cmap_err. by rewrite E'.
  - intros b. apply follows_ask. intros w. by apply perform_answer.
  - intros d. apply (follows_effect tt (ask_done (ActSleep d)) (λ w, (tt, rt_sleep d w))).
    apply follows_ask. intros w. by exists AnsDone.
Qed.

Lemma replay_pool_follows {T U} (P : U → T → Prop) (f : nat → U) (pool : ShardPool T) :
  (∀ i h, shards pool !! i = Some h → P (f i) h) → Forall2 P (shards (replay_pool f pool)) (shards pool).
Proof.
  intros Hp. apply Forall2_same_length_lookup_2; [cbn; by rewrite length_fmap, length_seq|].
  intros i u h Hu Hh. cbn in Hu. apply list_lookup_fmap_Some in Hu as (j & -> & Hj).
  apply lookup_seq in Hj as [-> _]. by apply Hp.
Qed.

Lemma follows_ctx : ctx_sim follows (replay_ctx x) x.
Proof.
  split; try done;
    try (apply replay_pool_follows; intros i h Hh; split; intros; apply follows_ask; intros w;
         unfold perform, on_shard; rewrite Hh; by apply perform_answer).
  - intros e st. apply (follows_effect (Next tt) (ask_done (ActStatus e st)) (λ w, (tt, ss_set (px_status x) e st w))).
    apply follows_ask. intros w. by exists AnsDone.
  - intros. apply follows_ask. intros w. by apply perform_answer.
Qed.

Lemma pipeline_follows fuel : follows (flow unit) (run_pipeline (replay_ctx x) fuel) (run_pipeline x fuel).
Proof. apply (sim_pipeline follows _ _ follows_ctx). Qed.

(** The turns of one task in a row. *)
Lemma plays_turns i tasks l w l' w' t :
  plays (run_pipeline (replay_ctx x) 2) l w l' w' →
  tasks !! i = Some t → tk_ctx t = x → (tk_done t).*2 = l →
  ∃ n t', turns (replicate n i) (w, tasks) = Some (w', <[i := t']> tasks) ∧ tk_ctx t' = x ∧ (tk_done t').*2 = l'.
Proof.
  intros Hp. revert tasks t. induction Hp as [l w|l w act ans w1 l' w' Hact He _ IH]; intros tasks t Hi Hx Hl.
  - exists 0%nat, t. by rewrite list_insert_id.
  - set (t1 := mkTask x (tk_done t ++ [(act, ans)])).
    assert (Ht : turn i (w, tasks) = Some (w1, <[i := t1]> tasks)).
    { unfold turn. cbn [fst snd]. rewrite Hi. cbn [mbind option_bind]. unfold waits_for, replay_task.
      rewrite Hx, Hl, Hact. cbn [mbind option_bind]. rewrite He. done. }
    destruct (IH (<[i := t1]> tasks) t1) as (n & t' & Hn & Hx' & Hl').
    + rewrite list_lookup_insert_eq; [done|by eapply lookup_lt_Some].
    + done.
    + cbn. by rewrite fmap_app, Hl.
    + exists (S n), t'. cbn [replicate turns]. rewrite Ht. cbn [mbind option_bind]. rewrite Hn.
      by rewrite list_insert_insert_eq.
Qed.
End alone.

(** a task that takes its turns in a row, in any system of tasks, does
    what [run_pipeline] does at once: after finitely many turns it has ended
    with the pipeline's result, the world is the one the pipeline leaves, and
    no other task has moved.  So an execution on its own is one of the
    schedules, and the results on [run_pipeline] are results on the
    concurrent program. *)
Theorem turns_alone {W} `{Runtime W, U256Hash} (x : PipelineContext W) i tasks w :
  tasks !! i = Some (mkTask x []) →
  ∃ n t, turns (replicate n i) (w, tasks) = Some ((run_pipeline x 2 w).2, <[i := t]> tasks) ∧
    waits_for t = None ∧ (replay_task t).1 = (run_pipeline x 2 w).1.
Proof.
  intros Hi. destruct (pipeline_follows x 2) as [_ Hf]. destruct (Hf w) as (l & Hl & Hr).
  destruct (plays_turns x i tasks [] w l _ (mkTask x []) Hl Hi eq_refl eq_refl) as (n & t & Hn & Hx & Ht).
  exists n, t. split; [done|]. unfold waits_for, replay_task. rewrite Hx, Ht.
  destruct (Hr [] []) as [d E]. rewrite app_nil_r in E. by rewrite E.
Qed.

Lemma turns_alone_witness :
  ∃ n t, turns (replicate n 1%nat) (toy_world, [mkTask (toy_ctx NotIncluded) []; mkTask (toy_ctx Timeout) []]) =
      Some ((run_pipeline (toy_ctx Timeout) 2 toy_world).2, [mkTask (toy_ctx NotIncluded) []; t]) ∧
    waits_for t = None ∧ (replay_task t).1 = Next tt.
Proof.
  destruct (turns_alone (toy_ctx Timeout) 1 [mkTask (toy_ctx NotIncluded) []; mkTask (toy_ctx Timeout) []] toy_world eq_refl)
    as (n & t & Hn & Hw & Hr). exists n, t. split; [exact Hn|]. split; [exact Hw|]. rewrite Hr. vm_compute. reflexivity.
Defined.
