(* ===== verification/Schedule.v ===== *)
(** * Tasks under any schedule

    What holds of the tasks of [Interleave.v] however their turns are ordered:
    each follows the protocol of one pipeline, takes a bounded number of turns,
    and together they keep what every call keeps. *)

From S2P Require Import Prelude Types Retry Pool RpcClient CortexError Shard Pipeline PipelineSpec Protocol Erasure Refine PipelineProps Keeps Interleave.

(** ** Any schedule: the protocol *)

(** The events of the calls a task has made. *)
Definition event_of (p : Action * Answer) : option Event :=
  match p with
  | (ActRegister _ _ t _, AnsRelay r) => Some (CRegister t r)
  | (ActRegister _ _ t _, _) => Some (CRegister t (Ok tt))
  | (ActReserve _ _ _ _, AnsNonce r) => Some (CReserve r)
  | (ActReserve _ _ _ _, _) => Some (CReserve no_local)
  | (ActResolve _ _ st, AnsLocal r) => Some (CResolve st r)
  | (ActResolve _ _ st, _) => Some (CResolve st no_local)
  | (ActSync _ _ _ _ n, AnsNonce r) => Some (CSync n r)
  | (ActSync _ _ _ _ n, _) => Some (CSync n no_local)
  | (ActSign _ _ _ _ t, AnsSigned r) => Some (CSignTx t r)
  | (ActSign _ _ _ _ t, _) => Some (CSignTx t no_local)
  | (ActRevert _ _, AnsLocal r) => Some (CRevert r)
  | (ActRevert _ _, _) => Some (CRevert no_local)
  | (ActBroadcast _ _ _ _ t i, AnsSent r) => Some (CSend t i r)
  | (ActBroadcast _ _ _ _ t i, _) => Some (CSend t i (Err (BInternal "")))
  | (ActValidate _ _ _ x i, AnsValidated r) => Some (CValidate x i r)
  | (ActValidate _ _ _ x i, _) => Some (CValidate x i (Ok Timeout))
  | (ActAcquire _ _, AnsEndpoint r) => Some (CAcquire r)
  | (ActAcquire _ _, _) => Some (CAcquire (Ok None))
  | (ActStatus e st, _) => Some (CStatus e st)
  | (ActDraw _, _) | (ActSleep _, _) => None
  end.

Definition events (done : list (Action * Answer)) : list Event := omap event_of done.

Lemma events_snoc d p : events (d ++ [p]) = events d ++ match event_of p with Some e => [e] | None => [] end.
Proof. unfold events. rewrite omap_app. cbn. by destruct (event_of p). Qed.

#[local] Arguments event_of : simpl never.
#[local] Arguments events : simpl never.

(** The trace of the code over answers is that of the calls made, and of what
    it would go on with after its next call. *)
Definition recorded (s : Replay * list Event) : Prop :=
  match rp_pending s.1 with
  | None => s.2 = events (rp_done s.1)
  | Some _ => events (rp_done s.1) `prefix_of` s.2
  end.

Lemma recorded_call {A} act (take : Answer → option A) dflt ev (s : Replay * list Event) :
  (∀ ans, event_of (act, ans) = Some (ev (default dflt (take ans)))) → recorded s →
  recorded (log (ask act take dflt) ev s).2.
Proof.
  intros He Hs. destruct s as [[l d p] t]. unfold recorded in Hs. cbn in Hs.
  assert (Happ : ∀ u a, events d `prefix_of` u → events d `prefix_of` u ++ [ev a]) by (intros; by apply prefix_app_r).
  destruct p as [a|]; [cbn; by apply Happ|]. subst t.
  destruct l as [|ans l]; cbn; [by apply Happ|].
  unfold recorded. cbn [rp_pending rp_done fst snd]. by rewrite events_snoc, He.
Qed.

Lemma recorded_silent {A} act (take : Answer → option A) dflt (s : Replay * list Event) :
  (∀ ans, event_of (act, ans) = None) → recorded s → recorded ((ask act take dflt s.1).2, s.2).
Proof.
  intros He Hs. destruct s as [[l d p] t]. unfold recorded in *. cbn in *.
  destruct p as [a|]; [done|]. subst t. destruct l as [|ans l]; cbn; [done|].
  by rewrite events_snoc, He, app_nil_r.
Qed.

Lemma keeps_recorded {A} act (take : Answer → option A) dflt ev :
  (∀ ans, event_of (act, ans) = Some (ev (default dflt (take ans)))) →
  keeps recorded (λ _, True) (log (ask act take dflt) ev).
Proof. intros He s Hs. split; [by apply recorded_call|done]. Qed.

#[local] Instance recorded_runtime : RuntimeKeeps (W := Replay * list Event) recorded.
Proof.
  split.
  - intros b s Hs. split; [|done]. simpl.
    pose proof (recorded_silent (ActDraw b) (λ x, match x with AnsDrawn z => Some z | _ => None end) 0 s ltac:(done) Hs) as Hr.
    unfold ask_drawn. destruct (ask _ _ _ s.1). exact Hr.
  - intros d s Hs. exact (recorded_silent (ActSleep d) _ tt s ltac:(done) Hs).
Qed.

Lemma replay_pool_Forall {T U V} (P : V → Prop) (g : U → V) (f : nat → U) (pool : ShardPool T) :
  (∀ i, P (g (f i))) → Forall P (shards (shard_map g (replay_pool f pool))).
Proof. intros Hp. cbn. induction (seq 0 (shard_count pool)); by constructor. Qed.

Lemma recorded_ctx {W} (ctx : PipelineContext W) :
  ctx_keeps recorded (λ _, True) (traced_ctx (replay_ctx ctx)).
Proof.
  split; try (apply replay_pool_Forall; intros i).
  - intros e t c. apply keeps_recorded; by intros [].
  - split; intros; apply keeps_recorded; by intros [].
  - split; intros; apply keeps_recorded; by intros [].
  - intros c a e t k. eapply keeps_mono; [apply keeps_recorded; by intros []|]. by intros [?|[]].
  - intros c e y k. apply keeps_recorded; by intros [].
  - intros e st s Hs.
    pose proof (recorded_call (ActStatus e st) (λ x, match x with AnsDone => Some tt | _ => None end) tt
      (λ _, CStatus e st) s ltac:(done) Hs) as Hr.
    unfold log in Hr. simpl. unfold ask_done. by destruct (ask _ _ _ s.1).
  - intros c t. apply keeps_recorded; by intros [].
Qed.

Section protocol.
Context {W : Type} `{Runtime W} `{U256Hash}.

Abbreviation follows_protocol ctx t mm en :=
  (trace_from (px_retry_config ctx) (px_execution_id ctx) (px_txn ctx) PStart t mm en).

Lemma replay_pools_ready (ctx : PipelineContext W) : pools_ready ctx → pools_ready (replay_ctx ctx).
Proof.
  unfold pools_ready, shard_count. cbn. unfold shard_count. rewrite !length_fmap, !length_seq. done.
Qed.

(** The code of a task, with the trace of the code over its answers. *)
Lemma well_played_protocol (t : Task W) :
  well_played t → pools_ready (tk_ctx t) → 0 ≤ max_attempts (px_retry_config (tk_ctx t)) < u32_max →
  match waits_for t with
  | Some _ => ∃ rest mm en, follows_protocol (tk_ctx t) (events (tk_done t) ++ rest) mm en
  | None => ((replay_task t).1 = Next tt ∨ (replay_task t).1 = Return) ∧
      ∃ mm en front, follows_protocol (tk_ctx t) (events (tk_done t)) mm en ∧
        statuses (events (tk_done t)) = front ++ [final_status en] ∧ is_final (final_status en) = true ∧
        Forall (λ st, is_final st = false) front
  end.
Proof.
  intros [_ Hd] Hp Hm. set (s0 := mkReplay (tk_done t).*2 [] None).
  destruct (run_pipeline_trace (replay_ctx (tk_ctx t)) Hm 2 s0 (replay_pools_ready _ Hp) ltac:(lia))
    as (r & w' & tr & mm & en & Hrun & Hr & HT).
  pose proof (run_pipeline_keeps recorded (λ _, True) _ (recorded_ctx (tk_ctx t)) 2 (s0, []) eq_refl) as Hrec.
  pose proof (sim_pipeline (@erases _ _ fst) _ _ (traced_ctx_erases (replay_ctx (tk_ctx t))) 2 (s0, [])) as He.
  unfold waits_for, replay_task in *. fold s0 in Hd |- *. cbn [fst] in He.
  rewrite Hrun in Hrec, He. cbn [fst snd] in He. rewrite He in Hd |- *. cbn [fst snd] in *.
  unfold recorded in Hrec. cbn [fst snd] in Hrec. rewrite Hd in Hrec.
  destruct (rp_pending w').
  - destruct Hrec as [rest ->]. by exists rest, mm, en.
  - split; [done|]. rewrite <- Hrec. destruct (history_final mm en) as (front & Hh & Hfin & Hfront).
    exists mm, en, front. split; [done|]. apply trace_statuses in HT as Hst. by rewrite Hst.
Qed.

(** C4: under any schedule of any number of tasks, every task follows the
    protocol of one pipeline: what it has done so far is the beginning of a run
    of the protocol, and once it has ended - with neither a panic nor a loop -
    its calls, their answers and its statuses are one whole run, with exactly
    one final status, its last.  So the disposition of its nonce, the coherence
    of its calls and their bounds hold however the tasks interleave. *)
Theorem task_follows_protocol schedule (s s' : W * list (Task W)) i t :
  Forall (λ t : Task W, tk_done t = []) s.2 →
  turns schedule s = Some s' → s'.2 !! i = Some t →
  pools_ready (tk_ctx t) → 0 ≤ max_attempts (px_retry_config (tk_ctx t)) < u32_max →
  match waits_for t with
  | Some _ => ∃ rest mm en, follows_protocol (tk_ctx t) (events (tk_done t) ++ rest) mm en
  | None => ((replay_task t).1 = Next tt ∨ (replay_task t).1 = Return) ∧
      ∃ mm en front, follows_protocol (tk_ctx t) (events (tk_done t)) mm en ∧
        statuses (events (tk_done t)) = front ++ [final_status en] ∧ is_final (final_status en) = true ∧
        Forall (λ st, is_final st = false) front
  end.
Proof.
  intros Hnew Hts Hi Hpools Hmax.
  assert (Hplayed : all_played s') by (by apply (turns_played _ _ _ Hts), fresh_played).
  by apply well_played_protocol; [eapply (list.Forall_lookup_1 _ _ _ _ Hplayed)|..].
Qed.
End protocol.

(** ** Any schedule: the number of turns *)

Section costs.
Context `{U256Hash}.

(** The code makes at most [n] calls. *)
Definition costs {A} (n : nat) (c : Comp Replay A) : Prop :=
  ∀ s, (length (rp_done (c s).2) ≤ length (rp_done s) + n)%nat.

Lemma costs_ret {A} n (a : A) : costs n (cret a).
Proof. intros s. cbn. lia. Qed.

Lemma costs_mono {A} m n (c : Comp Replay A) : costs m c → (m ≤ n)%nat → costs n c.
Proof. intros Hc Hn s. specialize (Hc s). lia. Qed.

Lemma costs_bind {A B} m n (c : Comp Replay A) (k : A → Comp Replay B) :
  costs m c → (∀ a, costs n (k a)) → costs (m + n) (cbind c k).
Proof.
  intros Hc Hk s. unfold cbind. specialize (Hc s). destruct (c s) as [a s1]. specialize (Hk a s1). cbn in Hc. lia.
Qed.

Lemma costs_fbind {A B} m n N (c : Comp Replay (flow A)) (k : A → Comp Replay (flow B)) :
  (m + n ≤ N)%nat → costs m c → (∀ a, costs n (k a)) → costs N (fbind c k).
Proof.
  intros HN Hc Hk. eapply costs_mono; [|exact HN]. apply costs_bind; [done|].
  intros []; [apply Hk|apply costs_ret..].
Qed.

Lemma costs_ask {A} act (take : Answer → option A) dflt : costs 1 (ask act take dflt).
Proof.
  intros [l d p]. unfold ask. cbn. destruct p; cbn; [lia|]. destruct l; cbn; [lia|]. rewrite length_app. cbn. lia.
Qed.

Lemma costs_map_err {A E F} n (f : E → F) (c : Comp Replay (result A E)) : costs n c → costs n (cmap_err f c).
Proof. intros Hc s. specialize (Hc s). unfold cmap_err. by destruct (c s). Qed.

(** Every round of a retried call is the call, a draw and a sleep. *)
Definition rounds (config : RetryConfig) : nat := 3 * Z.to_nat (wrap_u32 (max_attempts config + 1)).

Lemma costs_attempt {T E} config (op : Comp Replay (result T (RetryDecision E))) :
  costs 1 op → costs (rounds config) (attempt config op).
Proof.
  intros Hop. unfold attempt. apply (costs_mono (rounds config + 0)); [|lia].
  apply costs_bind; [|intros []; apply costs_ret]. unfold retry_with_backoff, rounds.
  generalize (wrap_u32 (max_attempts config + 1)) at 2; intros m.
  generalize (Z.to_nat (wrap_u32 (max_attempts config + 1))); intros n. generalize 1.
  induction n as [|n IH]; intros a; [apply costs_ret|]. cbn [retry_from].
  eapply costs_mono; [apply (costs_bind 1 (2 + 3 * n)); [exact Hop|]|lia].
  intros [v|[e|e]]; [apply costs_ret| |apply costs_ret]. destruct (a =? m); [apply costs_ret|].
  eapply costs_mono; [apply (costs_bind 1 (1 + 3 * n))|lia].
  - eapply costs_mono; [apply (costs_bind 1 0); [|intros; apply costs_ret]|lia].
    destruct (0 <? _); [apply costs_ask|apply costs_ret].
  - intros d. apply costs_bind; [|intros _; apply IH]. intros s. exact (costs_ask (ActSleep d) _ tt s).
Qed.

Lemma costs_status e st : costs 1 (fdo (ss_set replay_store e st)).
Proof. intros s. exact (costs_ask (ActStatus e st) _ tt s). Qed.

Lemma costs_shard {T U K A} `{Hash K} n (f : nat → U) (pool : ShardPool T) (key : K) (k : U → Comp Replay (flow A)) :
  (∀ i, costs n (k (f i))) → costs n (fbind (funwrap (ShardPool_get (replay_pool f pool) key)) k).
Proof.
  intros Hk. unfold ShardPool_get, funwrap. destruct (shards _ !! _) as [u|] eqn:Hu; [|apply costs_ret].
  cbn in Hu. apply list_lookup_fmap_Some in Hu as (j & -> & _). apply Hk.
Qed.

Context {W : Type} (ctx : PipelineContext W).
Let x := replay_ctx ctx.
Let R := rounds (px_retry_config ctx).

Lemma costs_fail {A} n e err : costs (S n) (fail_with (A := A) replay_store e err).
Proof. apply (costs_fbind 1 0); [lia|apply costs_status|]. intros _. apply costs_ret. Qed.

Lemma costs_resolved i e st :
  costs R (_ <-> attempt (px_retry_config ctx) (retried (nm_resolve (replay_nonce i) e st)) ;; fnext tt).
Proof.
  apply (costs_fbind R 0); [lia|apply costs_attempt, costs_map_err, costs_ask|]. intros _. apply costs_ret.
Qed.

Lemma costs_resolve_fail {A} n i e st err : (R + 1 ≤ n)%nat →
  costs n (_ <-> (_ <-> attempt (px_retry_config ctx) (retried (nm_resolve (replay_nonce i) e st)) ;; fnext tt) ;;
           fail_with (A := A) replay_store (px_execution_id ctx) err).
Proof. intros Hn. apply (costs_fbind R 1); [done|apply costs_resolved|]. intros _. apply costs_fail. Qed.

(** A retried call, then the rest. *)
Lemma costs_call {T E A} n N (op : Comp Replay (result T (RetryDecision E))) (k : result T E → Comp Replay (flow A)) :
  (R + n ≤ N)%nat → costs 1 op → (∀ r, costs n (k r)) → costs N (fbind (attempt (px_retry_config ctx) op) k).
Proof. intros HN Hop Hk. apply (costs_fbind R n); [done|by apply costs_attempt|done]. Qed.

(** A status, then the rest. *)
Lemma costs_set {A} n N e st (k : unit → Comp Replay (flow A)) :
  (1 + n ≤ N)%nat → (∀ u, costs n (k u)) → costs N (fbind (fdo (ss_set replay_store e st)) k).
Proof. intros HN Hk. apply (costs_fbind 1 n); [done|apply costs_status|done]. Qed.

Lemma costs_relay : costs (R + 1) (relay_stage x).
Proof.
  apply costs_shard. intros i. apply (costs_call 1); [lia|apply costs_map_err, costs_ask|].
  intros [u|e]; [apply costs_status|apply costs_fail].
Qed.

Lemma costs_nonce i : costs (R + 1) (nonce_stage x (replay_nonce i)).
Proof.
  apply (costs_call 1); [lia|apply costs_map_err, costs_ask|].
  intros [n|e]; [|apply costs_fail]. apply (costs_set 0); [lia|]. intros _. apply costs_ret.
Qed.

Lemma costs_sign i j txn : costs (2 * R + 1) (sign_stage x (replay_nonce i) (replay_signer j) txn).
Proof.
  apply (costs_call (R + 1)); [lia|apply costs_map_err, costs_ask|].
  intros [s|e]; [|apply costs_resolve_fail; lia]. apply (costs_set 0); [lia|]. intros _. apply costs_ret.
Qed.

Lemma costs_endpoint i : costs (R + 2) (endpoint_stage x (replay_nonce i)).
Proof.
  eapply costs_mono; [apply (costs_bind 1 (R + 1)); [apply costs_ask|]|lia].
  intros [[k|]|e]; [apply costs_ret|apply costs_resolve_fail; lia..].
Qed.

Lemma costs_recover i j txn a b : costs (5 * R + 3) (recover_nonce x (replay_nonce i) (replay_signer j) txn a b).
Proof.
  apply (costs_set (5 * R + 2)); [lia|]. intros _.
  apply (costs_fbind R (4 * R + 2)); [lia|apply costs_resolved|]. intros _.
  apply (costs_fbind R (3 * R + 2)); [lia| |]; [|intros _].
  { apply (costs_call 0); [lia|apply costs_map_err, costs_ask|]. intros _. apply costs_ret. }
  apply (costs_call (2 * R + 2)); [lia|apply costs_map_err, costs_ask|]. intros [n|e]; [|by eapply costs_mono; [apply (costs_fail 0)|lia]].
  apply (costs_set (2 * R + 1)); [lia|]. intros _.
  apply (costs_call (R + 1)); [lia|apply costs_map_err, costs_ask|].
  intros [s|e]; [|apply costs_resolve_fail; lia]. apply (costs_set 0); [lia|]. intros _. apply costs_ret.
Qed.

Lemma costs_failed i e : costs (R + 1) (broadcast_failed x (replay_nonce i) e).
Proof.
  unfold broadcast_failed. destruct e; try (apply costs_resolve_fail; lia);
    (eapply costs_mono; [apply (costs_fail 0)|lia]).
Qed.

(** The loop by its flag: after a recovery one round is left, whatever the fuel. *)
Definition loop_calls (tried : bool) : nat := if tried then 2 * R + 1 else 8 * R + 4.

Lemma costs_loop fuel i j b k tried txn s :
  costs (loop_calls tried) (broadcast_loop x fuel (replay_nonce i) (replay_signer j) (replay_broadcaster b) k tried txn s).
Proof.
  revert tried txn s. induction fuel as [|fuel IH]; intros tried txn s; [apply costs_ret|]. cbn [broadcast_loop].
  apply (costs_call (if tried then R + 1 else 7 * R + 4)); [destruct tried; cbn; lia|apply costs_map_err, costs_ask|].
  intros [o|e]; [apply costs_ret|].
  destruct e; try (eapply costs_mono; [apply costs_failed|destruct tried; lia]).
  destruct tried; [apply costs_resolve_fail; lia|].
  apply (costs_fbind (5 * R + 3) (2 * R + 1)); [lia|apply costs_recover|]. intros r. apply (IH true).
Qed.

Lemma costs_validator i h k : costs (R + 2) (validator_stage x (replay_nonce i) h k).
Proof.
  apply costs_shard. intros v. eapply costs_mono; [apply (costs_bind 1 (R + 1)); [apply costs_ask|]|lia].
  intros [o|e]; [apply costs_ret|].
  destruct e; try (apply costs_resolve_fail; lia); (eapply costs_mono; [apply (costs_fail 0)|lia]).
Qed.

Lemma costs_outcome i h v : costs (R + 1) (outcome_stage x (replay_nonce i) h v).
Proof.
  destruct v; (apply (costs_fbind R 1); [lia|apply costs_resolved|intros _; apply costs_status]).
Qed.

(** Calls, draws, sleeps and statuses of a whole pipeline. *)
Definition max_turns (config : RetryConfig) : nat := 15 * rounds config + 13.

Lemma costs_pipeline fuel : costs (max_turns (px_retry_config ctx)) (run_pipeline x fuel).
Proof.
  unfold max_turns. fold R. unfold run_pipeline; cbv zeta.
  apply (costs_fbind (R + 1) (14 * R + 12)); [lia|apply costs_relay|]. intros _.
  apply costs_shard; intros i.
  apply (costs_fbind (R + 1) (13 * R + 11)); [lia|apply costs_nonce|]. intros txn.
  apply costs_shard; intros j.
  apply (costs_fbind (2 * R + 1) (11 * R + 10)); [lia|apply costs_sign|]. intros s.
  apply (costs_fbind (R + 2) (10 * R + 8)); [lia|apply costs_endpoint|]. intros k.
  apply costs_shard; intros b.
  apply (costs_fbind (8 * R + 4) (2 * R + 4)); [lia|apply (costs_loop fuel i j b k false)|]. intros o.
  apply (costs_set (2 * R + 3)); [lia|]. intros _.
  apply (costs_fbind (R + 2) (R + 1)); [lia|apply costs_validator|]. intros v. apply costs_outcome.
Qed.
End costs.

(** A task has never taken more turns. *)
Lemma well_played_bound {W} `{U256Hash} (t : Task W) :
  well_played t → (length (tk_done t) ≤ max_turns (px_retry_config (tk_ctx t)))%nat.
Proof.
  intros [_ Hd]. rewrite <- Hd. exact (costs_pipeline (tk_ctx t) 2 (mkReplay (tk_done t).*2 [] None)).
Qed.

(** ** Any schedule: what the tasks keep *)

Section kept.
Context {W : Type} `{Runtime W} `{U256Hash} (I : W → Prop) (good_nonce : TxNonce → Prop).
Context `{!RuntimeKeeps I}.

Definition good_action (act : Action) : Prop := match act with ActSync _ _ _ _ n => good_nonce n | _ => True end.
Definition good_answer (ans : Answer) : Prop := match ans with AnsSent r => reports good_nonce r | _ => True end.

(** A replay over good answers. *)
Definition good_replay (s : Replay) : Prop :=
  Forall good_answer (rp_todo s) ∧ match rp_pending s with Some act => good_action act | None => True end.

Lemma keeps_ask {A} act (take : Answer → option A) dflt (Q : A → Prop) :
  good_action act → Q dflt → (∀ ans a, good_answer ans → take ans = Some a → Q a) →
  keeps good_replay Q (ask act take dflt).
Proof.
  intros Ha Hd Hq [l d p] [Hl Hp]. unfold ask. cbn in *. destruct p as [a|]; [done|].
  destruct l as [|ans l]; [done|]. apply list.Forall_cons in Hl as [Hans Hl]. split; [done|].
  cbn. destruct (take ans) as [b|] eqn:Ht; [by eapply Hq|done].
Qed.

#[local] Instance good_runtime : RuntimeKeeps good_replay.
Proof.
  split; [intros b; by apply keeps_ask|]. intros d s Hs.
  by apply (keeps_ask (ActSleep d) (λ x, match x with AnsDone => Some tt | _ => None end) tt (λ _, True)).
Qed.

Lemma good_pool {T U} (P : U → Prop) (f : nat → U) (pool : ShardPool T) :
  (∀ i, P (f i)) → Forall P (shards (replay_pool f pool)).
Proof. intros Hp. cbn. induction (seq 0 (shard_count pool)); by constructor. Qed.

Lemma good_ctx (ctx : PipelineContext W) : ctx_keeps good_replay good_nonce (replay_ctx ctx).
Proof.
  split; try (apply good_pool; intros i).
  - intros e t c. by apply keeps_ask.
  - split; intros; by apply keeps_ask.
  - split; intros; by apply keeps_ask.
  - intros c a e t k. apply keeps_ask; [done|done|]. by intros [] ? Hg [= <-].
  - intros c e y k. by apply keeps_ask.
  - intros e st s Hs.
    by apply (keeps_ask (ActStatus e st) (λ x, match x with AnsDone => Some tt | _ => None end) tt (λ _, True)).
  - intros c t. by apply keeps_ask.
Qed.

Lemma keeps_answer {A} (Q : A → Prop) (f : A → Answer) (c : Comp W A) :
  keeps I Q c → (∀ a, Q a → good_answer (f a)) → keeps I good_answer (answer f c).
Proof.
  intros Hc Hf w Hw. unfold answer. destruct (Hc w Hw) as [Hw' Hq]. destruct (c w) as [a w']. split; [done|by apply Hf].
Qed.

Lemma keeps_on_shard {T} (P : T → Prop) (pool : ShardPool T) i (k : T → Comp W Answer) :
  Forall P (shards pool) → (∀ h, P h → keeps I good_answer (k h)) → keeps I good_answer (on_shard pool i k).
Proof.
  intros HP Hk. unfold on_shard. destruct (shards pool !! i) as [h|] eqn:Hh; [|by apply keeps_ret].
  apply Hk. by apply (list.Forall_lookup_1 _ _ _ _ HP Hh).
Qed.

(** A call with good arguments keeps the world and has a good answer. *)
Lemma perform_keeps ctx act :
  ctx_keeps I good_nonce ctx → good_action act → keeps I good_answer (perform ctx act).
Proof.
  intros Hx Ha. destruct act; cbn [perform].
  - eapply keeps_on_shard; [apply (ck_relay _ _ _ Hx)|]. intros h Hh. by eapply keeps_answer; [apply Hh|].
  - eapply keeps_on_shard; [apply (ck_nonce _ _ _ Hx)|]. intros h Hh. by eapply keeps_answer; [by apply Hh|].
  - eapply keeps_on_shard; [apply (ck_nonce _ _ _ Hx)|]. intros h Hh. by eapply keeps_answer; [by apply Hh|].
  - eapply keeps_on_shard; [apply (ck_nonce _ _ _ Hx)|]. intros h Hh. by eapply keeps_answer; [by apply Hh|].
  - eapply keeps_on_shard; [apply (ck_sign _ _ _ Hx)|]. intros h Hh. by eapply keeps_answer; [by apply Hh|].
  - eapply keeps_on_shard; [apply (ck_sign _ _ _ Hx)|]. intros h Hh. by eapply keeps_answer; [by apply Hh|].
  - eapply keeps_on_shard; [apply (ck_broadcast _ _ _ Hx)|]. intros h Hh. by eapply keeps_answer; [by apply Hh|].
  - eapply keeps_on_shard; [apply (ck_validator _ _ _ Hx)|]. intros h Hh. by eapply keeps_answer; [by apply Hh|].
  - by eapply keeps_answer; [apply (ck_endpoints _ _ _ Hx)|].
  - intros w Hw. split; [by apply (ck_status _ _ _ Hx)|done].
  - by eapply keeps_answer; [apply rk_gen_range|].
  - intros w Hw. split; [by apply rk_sleep|done].
Qed.

(** The world is in [I] and the tasks may go on keeping it there. *)
Definition task_kept (t : Task W) : Prop :=
  ctx_keeps I good_nonce (tk_ctx t) ∧ Forall good_answer (tk_done t).*2.
Definition all_kept (s : W * list (Task W)) : Prop := I s.1 ∧ Forall task_kept s.2.

Lemma turn_keeps i s s' : turn i s = Some s' → all_kept s → all_kept s'.
Proof.
  unfold turn. intros Ht [HI Hs]. apply bind_Some in Ht as (t & Hi & Ht). apply bind_Some in Ht as (act & Hw & Ht).
  destruct (list.Forall_lookup_1 _ _ _ _ Hs Hi) as [Hx Hd].
  assert (Ha : good_action act).
  { pose proof (run_pipeline_keeps good_replay good_nonce _ (good_ctx (tk_ctx t)) 2 (mkReplay (tk_done t).*2 [] None)) as Hg.
    destruct Hg as [_ Hp]; [by split|]. unfold waits_for, replay_task in Hw. by rewrite Hw in Hp. }
  destruct (perform_keeps _ _ Hx Ha s.1 HI) as [HI' Hans]. destruct (perform (tk_ctx t) act s.1) as [ans w'].
  injection Ht as <-. split; [done|]. cbn [snd]. apply Forall_insert; [done|]. split; [done|].
  cbn [tk_done]. rewrite fmap_app. apply Forall_app. split; [done|]. by constructor.
Qed.

Lemma turns_keep schedule s s' : turns schedule s = Some s' → all_kept s → all_kept s'.
Proof.
  revert s; induction schedule as [|i schedule IH]; intros s; cbn [turns]; [by intros [= ->]|].
  intros Ht Hs. apply bind_Some in Ht as (s1 & Ht & Hts). eapply IH; [done|]. by eapply turn_keeps.
Qed.
End kept.

(** ** Every schedule ends *)

Section ends.
Context {W : Type} `{Runtime W} `{U256Hash}.

Definition calls (tasks : list (Task W)) : nat := sum_list_with (λ t, length (tk_done t)) tasks.

Lemma calls_insert tasks i t t' :
  tasks !! i = Some t → (calls (<[i := t']> tasks) + length (tk_done t) = calls tasks + length (tk_done t'))%nat.
Proof.
  intros Hi. rewrite (insert_take_drop tasks i t') by (by eapply lookup_lt_Some).
  rewrite <- (take_drop_middle tasks i t Hi) at 3. unfold calls. rewrite !sum_list_with_app. cbn. lia.
Qed.

Lemma turn_calls i s s' : turn i s = Some s' → calls s'.2 = S (calls s.2) ∧ tk_ctx <$> s'.2 = tk_ctx <$> s.2.
Proof.
  unfold turn. intros Ht. apply bind_Some in Ht as (t & Hi & Ht). apply bind_Some in Ht as (act & Hw & Ht).
  destruct (perform (tk_ctx t) act s.1) as [ans w']. injection Ht as <-. cbn [snd].
  set (t' := mkTask (tk_ctx t) (tk_done t ++ [(act, ans)])). split.
  - pose proof (calls_insert s.2 i t t' Hi) as Hc. cbn in Hc. rewrite length_app in Hc. cbn in Hc. lia.
  - rewrite list_fmap_insert. apply list_insert_id. by rewrite list_lookup_fmap, Hi.
Qed.

Lemma turns_calls schedule s s' :
  turns schedule s = Some s' → calls s'.2 = (calls s.2 + length schedule)%nat ∧ tk_ctx <$> s'.2 = tk_ctx <$> s.2.
Proof.
  revert s; induction schedule as [|i schedule IH]; intros s; cbn [turns]; [intros [= ->]; cbn; split; [lia|done]|].
  intros Ht. apply bind_Some in Ht as (s1 & Ht & Hts). destruct (IH _ Hts) as [Hc Hx].
  apply turn_calls in Ht as [Hc1 Hx1]. cbn [length]. split; [lia|congruence].
Qed.

(** What the tasks of these contexts can take together. *)
Definition budget (xs : list (PipelineContext W)) : nat := sum_list_with (λ x, max_turns (px_retry_config x)) xs.

(** C5: every schedule ends: of any tasks started together, whatever the
    actors answer, a task makes at most [max_turns] calls - so no schedule is
    longer than the sum over the tasks - and a task that has not ended can
    always take its next turn: none of them ever waits for another.  The bound
    is the code's own: with any more fuel for its broadcast loop a task does
    exactly the same, and one that has ended (its pools not being empty and its
    attempts fitting an [u32]) did so by returning, not by a panic and not
    because the fuel was used up. *)
Theorem schedule_terminates schedule (s s' : W * list (Task W)) :
  Forall (λ t : Task W, tk_done t = []) s.2 →
  turns schedule s = Some s' →
  (length schedule ≤ budget (tk_ctx <$> s.2))%nat ∧
  ∀ i t, s'.2 !! i = Some t →
    (length (tk_done t) ≤ max_turns (px_retry_config (tk_ctx t)))%nat ∧
    (waits_for t = None ∨ is_Some (turn i s')) ∧
    (∀ fuel, (2 ≤ fuel)%nat →
       run_pipeline (replay_ctx (tk_ctx t)) fuel (mkReplay (tk_done t).*2 [] None) = replay_task t) ∧
    (waits_for t = None → pools_ready (tk_ctx t) → 0 ≤ max_attempts (px_retry_config (tk_ctx t)) < u32_max →
       (replay_task t).1 = Next tt ∨ (replay_task t).1 = Return).
Proof.
  intros Hnew Hts. pose proof (turns_played _ _ _ Hts (fresh_played _ Hnew)) as Hp.
  destruct (turns_calls _ _ _ Hts) as [Hc Hx]. split.
  - assert (calls s.2 = 0%nat) as H0'.
    { clear -Hnew. unfold calls. induction Hnew as [|t l Ht _ IH]; [done|]. cbn. by rewrite Ht, IH. }
    enough (calls s'.2 ≤ budget (tk_ctx <$> s'.2))%nat by (rewrite <- Hx; lia).
    clear -Hp. unfold all_played, calls, budget in *. induction Hp as [|t l Ht _ IH]; [done|]. cbn.
    apply Nat.add_le_mono; [by apply well_played_bound|exact IH].
  - intros i t Hi. pose proof (list.Forall_lookup_1 _ _ _ _ Hp Hi) as Ht.
    split; [by apply well_played_bound|]. split_and!.
    2: { intros fuel Hf. by rewrite run_pipeline_fuel. }
    2: { intros Hw Hpools Hm. pose proof (well_played_protocol t Ht Hpools Hm) as Hprot.
         rewrite Hw in Hprot. by destruct Hprot. }
    destruct (waits_for t) as [act|] eqn:Hw; [right|by left].
    unfold turn. rewrite Hi. cbn [mbind option_bind]. rewrite Hw. cbn [mbind option_bind].
    by destruct (perform (tk_ctx t) act s'.1).
Qed.
End ends.

(** ** Two pipelines, turn by turn *)

(** A pipeline whose relay host refuses, and that does not try again. *)
Definition refused_ctx : PipelineContext ToyWorld :=
  mkPipelineContext (mkExecutionId 10) (px_client_config (toy_ctx Timeout)) (px_txn (toy_ctx Timeout))
    (mkShardPool [mkIntentRelay (λ _ _ _, cret (Err (RHInternal "gone")))]) (px_nonce_pool (toy_ctx Timeout))
    (px_sign_pool (toy_ctx Timeout)) (px_broadcast_pool (toy_ctx Timeout)) (px_validator_pool (toy_ctx Timeout))
    (mkRetryConfig 0 0 0) toy_store (px_rpc_client (toy_ctx Timeout)).

Definition toy_tasks : list (Task ToyWorld) := [mkTask (toy_ctx Timeout) []; mkTask refused_ctx []].
Definition toy_schedule : list nat := [0; 1; 0; 1; 0]%nat.
Definition toy_after : ToyWorld * list (Task ToyWorld) :=
  default (toy_world, []) (turns toy_schedule (toy_world, toy_tasks)).
Definition toy_second : Task ToyWorld := default (mkTask refused_ctx []) (toy_after.2 !! 1%nat).

Lemma toy_turns : turns toy_schedule (toy_world, toy_tasks) = Some toy_after.
Proof. vm_compute. reflexivity. Qed.
Lemma toy_second_at : toy_after.2 !! 1%nat = Some toy_second.
Proof. vm_compute. reflexivity. Qed.
Lemma toy_ended : waits_for toy_second = None.
Proof. vm_compute. reflexivity. Qed.
Lemma toy_second_ctx : tk_ctx toy_second = refused_ctx.
Proof. vm_compute. reflexivity. Qed.

Lemma task_follows_protocol_witness :
  ∃ mm en front,
    trace_from (mkRetryConfig 0 0 0) (mkExecutionId 10) (px_txn (toy_ctx Timeout)) PStart
      (events (tk_done toy_second)) mm en ∧
    statuses (events (tk_done toy_second)) = front ++ [final_status en] ∧ is_final (final_status en) = true ∧
    Forall (λ st, is_final st = false) front.
Proof.
  pose proof (task_follows_protocol toy_schedule (toy_world, toy_tasks) toy_after 1 toy_second) as Ht.
  rewrite toy_ended, toy_second_ctx in Ht.
  apply Ht; [repeat constructor|exact toy_turns|exact toy_second_at|toy|toy].
Defined.

Lemma schedule_terminates_witness :
  (length toy_schedule ≤ budget (tk_ctx <$> toy_tasks))%nat ∧
  (length (tk_done toy_second) ≤ max_turns (mkRetryConfig 0 0 0))%nat ∧
  (run_pipeline (replay_ctx refused_ctx) 7 (mkReplay (tk_done toy_second).*2 [] None)).1 = (replay_task toy_second).1 ∧
  ((replay_task toy_second).1 = Next tt ∨ (replay_task toy_second).1 = Return).
Proof.
  destruct (schedule_terminates toy_schedule (toy_world, toy_tasks) toy_after) as [Hl Ht];
    [repeat constructor|exact toy_turns|]. split; [exact Hl|].
  destruct (Ht 1%nat toy_second toy_second_at) as (Hd & _ & Hf & He). rewrite toy_second_ctx in Hd, Hf, He.
  split; [exact Hd|]. split; [rewrite Hf; [reflexivity|lia]|].
  apply He; [exact toy_ended|toy|toy].
Defined.
