(* ===== verification/Telemetry.v ===== *)
(** * Benchmark telemetry

    [src/crate/cortex/src/telemetry]: the instants a pipeline records, the
    registry they are kept in, the exporter; and [run_pipeline] as it is
    compiled with the [benchmark-telemetry] feature. *)

From S2P Require Import Prelude Types Text Retry Pool RpcClient CortexError Shard Pipeline PipelineSpec Erasure PipelineProps Keeps Status.

(** ** What the module calls

    [quanta]'s [duration_since], in nanoseconds: the time between an instant
    and a later one.  [serde_json] of a record. *)
Class QuantaClock := { duration_since : Z → Z → Z }.
Class QuantaLaws `{QuantaClock} := {
  duration_since_later a b : a ≤ b → duration_since b a = b - a
}.

(** Source: [crate/cortex/src/telemetry/serialize.rs] lines 11-18, [TelemetryStage]. *)
Inductive TelemetryStage := SRelayHost | SNonce | SSign | SBroadcast.

(** Source: [crate/cortex/src/telemetry/serialize.rs] lines 21-28, [PipelineTelemetry]. *)
Record PipelineTelemetry := mkTelemetry {
  pt_start : option Z;
  pt_relayhost : option Z;
  pt_nonce : option Z;
  pt_sign : option Z;
  pt_broadcast : option Z
}.
Definition PipelineTelemetry_default : PipelineTelemetry := mkTelemetry None None None None None.

(** Source: [crate/cortex/src/telemetry/serialize.rs] lines 34-37, [TelemetryExport]. *)
Record TelemetryExport := mkExport { ex_execution_id : ExecutionId }.

(** Source: [crate/cortex/src/telemetry/serialize.rs] lines 56-64, [LatencyRecord]. *)
Record LatencyRecord := mkLatency {
  lr_execution_id : string;
  lr_relayhost_duration_us : Z;
  lr_nonce_duration_us : Z;
  lr_sign_duration_us : Z;
  lr_broadcast_duration_us : Z;
  lr_total_pipeline_us : Z
}.

(** Source: [crate/cortex/src/telemetry/serialize.rs] lines 55-64, [Serialize for LatencyRecord]. *)
Definition latency_to_json (r : LatencyRecord) : Json :=
  JObj [("execution_id", JStr (lr_execution_id r));
        ("relayhost_duration_us", JNum (lr_relayhost_duration_us r));
        ("nonce_duration_us", JNum (lr_nonce_duration_us r));
        ("sign_duration_us", JNum (lr_sign_duration_us r));
        ("broadcast_duration_us", JNum (lr_broadcast_duration_us r));
        ("total_pipeline_us", JNum (lr_total_pipeline_us r))].

(** [serde_json::to_string] of a record. *)
Definition latency_to_string `{JsonText} (r : LatencyRecord) : result string string :=
  Ok (json_text (latency_to_json r)).

(** Source: [crate/cortex/src/telemetry/serialize.rs] lines 30-53, [TelemetryContext (TelemetryRegistry, Clone)].
    The registry and the channel of its clones, with the monotonic clock: it
    stands at [tl_clock], and each reading finds it a little further. *)
Record TelemetryWorld := mkTelemetryWorld {
  tl_registry : gmap ExecutionId PipelineTelemetry;
  tl_exports : list TelemetryExport;   (* sent, not yet received *)
  tl_open : bool;                      (* the exporter still receives *)
  tl_clock : Z;
  tl_lags : list Z
}.

(** Source: [crate/cortex/src/telemetry/serialize.rs] lines 70-75, [TelemetryContext::new]. *)
Definition TelemetryContext_new (clock : Z) (lags : list Z) : TelemetryWorld :=
  mkTelemetryWorld ∅ [] true clock lags.

(** [Instant::now()]. *)
Definition instant_now (t : TelemetryWorld) : Z := tl_clock t + Z.max 0 (default 0 (head (tl_lags t))).

(** [registry.entry(id).or_insert_with(default)], updated at the present
    instant. *)
Definition update_entry (e : ExecutionId) (f : Z → PipelineTelemetry → PipelineTelemetry)
    (t : TelemetryWorld) : TelemetryWorld :=
  let now := instant_now t in
  mkTelemetryWorld (<[e := f now (default PipelineTelemetry_default (tl_registry t !! e))]> (tl_registry t))
    (tl_exports t) (tl_open t) now (tail (tl_lags t)).

(** Source: [crate/cortex/src/telemetry/serialize.rs] lines 77-86, [TelemetryContext::record_start]. *)
Definition record_start (e : ExecutionId) : TelemetryWorld → TelemetryWorld :=
  update_entry e (λ now p, mkTelemetry (Some now) (pt_relayhost p) (pt_nonce p) (pt_sign p) (pt_broadcast p)).

(** Source: [crate/cortex/src/telemetry/serialize.rs] lines 97-102, [TelemetryContext::record_stage (match stage)]. *)
Definition stamp (stage : TelemetryStage) (now : Z) (p : PipelineTelemetry) : PipelineTelemetry :=
  match stage with
  | SRelayHost => mkTelemetry (pt_start p) (Some now) (pt_nonce p) (pt_sign p) (pt_broadcast p)
  | SNonce => mkTelemetry (pt_start p) (pt_relayhost p) (Some now) (pt_sign p) (pt_broadcast p)
  | SSign => mkTelemetry (pt_start p) (pt_relayhost p) (pt_nonce p) (Some now) (pt_broadcast p)
  | SBroadcast => mkTelemetry (pt_start p) (pt_relayhost p) (pt_nonce p) (pt_sign p) (Some now)
  end.

(** Source: [crate/cortex/src/telemetry/serialize.rs] lines 88-103, [TelemetryContext::record_stage]. *)
Definition record_stage (stage : TelemetryStage) (e : ExecutionId) : TelemetryWorld → TelemetryWorld :=
  update_entry e (stamp stage).

(** Source: [crate/cortex/src/telemetry/serialize.rs] lines 105-110, [TelemetryContext::finalize].
    A send to a dropped receiver is ignored. *)
Definition finalize (e : ExecutionId) (t : TelemetryWorld) : TelemetryWorld :=
  if tl_open t
  then mkTelemetryWorld (tl_registry t) (tl_exports t ++ [mkExport e]) (tl_open t) (tl_clock t) (tl_lags t)
  else t.

(** ** The exporter *)

Section exporter.
Context `{QuantaClock, StatusText} (to_json : LatencyRecord → result string string).

(** Source: [crate/cortex/src/telemetry/mod.rs] lines 70-77, [get_duration_us]. *)
Definition get_duration_us (stage_a stage_b : option Z) : Z :=
  match stage_a, stage_b with
  | Some a, Some b => wrap_u64 (duration_since b a / 1000)
  | _, _ => 0
  end.

(** Source: [crate/cortex/src/telemetry/mod.rs] lines 42-49, [run_telemetry_exporter (LatencyRecord)]. *)
Definition latency_record (e : ExecutionId) (t : PipelineTelemetry) : LatencyRecord :=
  mkLatency (ExecutionId_display e)
    (get_duration_us (pt_start t) (pt_relayhost t))
    (get_duration_us (pt_relayhost t) (pt_nonce t))
    (get_duration_us (pt_nonce t) (pt_sign t))
    (get_duration_us (pt_sign t) (pt_broadcast t))
    (get_duration_us (pt_start t) (pt_broadcast t)).

(** Source: [crate/cortex/src/telemetry/mod.rs] lines 40-65, [run_telemetry_exporter (while let)].
    The events received, in order; [sink] says whether the next sends succeed
    (a used-up script: they do).  A failed send ends the loop and with it the
    receiver; a record that does not serialize is skipped. *)
Fixpoint export_loop (events : list TelemetryExport) (sink : list bool) (t : TelemetryWorld) :
    list string * TelemetryWorld :=
  match events with
  | [] => ([], mkTelemetryWorld (tl_registry t) [] (tl_open t) (tl_clock t) (tl_lags t))
  | ev :: rest =>
      let e := ex_execution_id ev in
      match tl_registry t !! e with
      | None => export_loop rest sink t
      | Some telemetry =>
          let t' := mkTelemetryWorld (delete e (tl_registry t)) rest (tl_open t) (tl_clock t) (tl_lags t) in
          match to_json (latency_record e telemetry) with
          | Ok json_payload =>
              if default true (head sink) then
                let '(lines, t'') := export_loop rest (tail sink) t' in (json_payload :: lines, t'')
              else ([], mkTelemetryWorld (tl_registry t') [] false (tl_clock t') (tl_lags t'))
          | Err _ => export_loop rest sink t'
          end
      end
  end.

(** Source: [crate/cortex/src/telemetry/mod.rs] lines 17-66, [run_telemetry_exporter].
    Binding the socket and accepting the harness succeed or the task returns. *)
Definition run_telemetry_exporter (bound accepted : bool) (sink : list bool) (t : TelemetryWorld) :
    list string * TelemetryWorld :=
  if bound && accepted then export_loop (tl_exports t) sink t
  else ([], mkTelemetryWorld (tl_registry t) [] false (tl_clock t) (tl_lags t)).
End exporter.

(** ** The instrumented pipeline *)

Section bench.
Context {W : Type} `{Runtime W} `{U256Hash}.
Abbreviation BW := (W * TelemetryWorld)%type.

(** The actors do not know of the telemetry. *)
Definition lift_ctx (x : PipelineContext W) : PipelineContext BW :=
  mkPipelineContext (px_execution_id x) (px_client_config x) (px_txn x)
    (shard_map (λ h, mkIntentRelay (λ e t c, on_fst (ir_register h e t c))) (px_relayhost_pool x))
    (shard_map (λ h, mkNonceManager (λ c a e, on_fst (nm_reserve h c a e)) (λ e st, on_fst (nm_resolve h e st))
       (λ c a e n, on_fst (nm_sync h c a e n))) (px_nonce_pool x))
    (shard_map (λ h, mkSigner (λ c a e t, on_fst (sg_sign h c a e t)) (λ e, on_fst (sg_revert h e))) (px_sign_pool x))
    (shard_map (λ h, mkBroadcaster (λ c a e t i, on_fst (bc_broadcast h c a e t i))) (px_broadcast_pool x))
    (shard_map (λ h, mkValidator (λ c e y i, on_fst (vd_validate h c e y i))) (px_validator_pool x))
    (px_retry_config x)
    (mkStateStore (λ e st w, (ss_set (px_status x) e st w.1, w.2)) (λ e w, ss_get (px_status x) e w.1)
       (λ e w, (ss_remove (px_status x) e w.1, w.2)))
    (mkEndpointSource (λ c t, on_fst (es_acquire (px_rpc_client x) c t))).

#[export] Instance bench_runtime : Runtime BW := {|
  rt_gen_range b := on_fst (rt_gen_range b);
  rt_sleep d w := (rt_sleep d w.1, w.2)
|}.

(** A call of the telemetry context. *)
Definition telemetry (f : TelemetryWorld → TelemetryWorld) : Comp BW (flow unit) := fdo (λ w, (w.1, f w.2)).

Context (x : PipelineContext W).
Let ctx := lift_ctx x.
Let e := px_execution_id x.

(** Source: [crate/cortex/src/pipeline.rs] lines 85-588, [run_pipeline (benchmark-telemetry)].
    The feature adds the [telemetry] calls and shards the validators by
    execution id. *)
Definition run_pipeline_bench (fuel : nat) : Comp BW (flow unit) :=
  _ <-> telemetry (record_start e) ;;
  _ <-> relay_stage ctx ;;
  _ <-> telemetry (record_stage SRelayHost e) ;;
  nonce_handle <-> funwrap (ShardPool_get (px_nonce_pool ctx) (mkByAddress (cc_from_address (px_client_config ctx)))) ;;
  txn <-> nonce_stage ctx nonce_handle ;;
  _ <-> telemetry (record_stage SNonce e) ;;
  sign_handle <-> funwrap (ShardPool_get (px_sign_pool ctx) (mkByExecutionId e)) ;;
  signed <-> sign_stage ctx nonce_handle sign_handle txn ;;
  _ <-> telemetry (record_stage SSign e) ;;
  sticky_index <-> endpoint_stage ctx nonce_handle ;;
  bh <-> funwrap (ShardPool_get (px_broadcast_pool ctx) (mkByExecutionId e)) ;;
  outcome <-> broadcast_loop ctx fuel nonce_handle sign_handle bh sticky_index false txn signed ;;
  let tx_hash := txn_hash outcome in
  _ <-> fdo (ss_set (px_status ctx) e (Broadcasted (fmt_hex tx_hash) waiting_text)) ;;
  _ <-> telemetry (record_stage SBroadcast e) ;;
  _ <-> telemetry (finalize e) ;;
  validation <-> (vh <-> funwrap (ShardPool_get (px_validator_pool ctx) (mkByExecutionId e)) ;;
                  validate_at ctx nonce_handle vh tx_hash sticky_index) ;;
  outcome_stage ctx nonce_handle tx_hash validation.
End bench.

(** ** The instrumented pipeline is the pipeline *)

Section erasing.
Context {W : Type} `{Runtime W} `{U256Hash}.

Lemma erases_on_fst {A} (c : Comp W A) : erases (W' := W * TelemetryWorld) fst (on_fst c) c.
Proof. intros s. unfold on_fst. by destruct (c s.1). Qed.

#[export] Instance bench_runtime_erases : RuntimeErases (W' := W * TelemetryWorld) fst.
Proof. split; [|done]. intros b. apply erases_on_fst. Qed.

Lemma lift_ctx_erases (x : PipelineContext W) : ctx_sim (@erases _ _ fst) (lift_ctx x) x.
Proof. split; try done; try (apply Forall2_shard_map; split); intros; apply erases_on_fst. Qed.

Lemma erases_telemetry {B} f k' (c : Comp W (flow B)) :
  (∀ a, erases (W' := W * TelemetryWorld) fst (k' a) c) → erases fst (fbind (telemetry f) k') c.
Proof. intros Hk. by apply (erases_silent _ _ tt). Qed.

(** C34: the pipeline as compiled for benchmarks is the pipeline: forgetting
    the telemetry it returns the same and leaves the same world, where the
    shard of the execution and the shard of the chain are the same validator. *)
Theorem run_pipeline_bench_erasure (x : PipelineContext W) fuel w t :
  ShardPool_get (px_validator_pool x) (mkByExecutionId (px_execution_id x)) =
    ShardPool_get (px_validator_pool x) (mkByChainId (tx_chain_id (px_txn x))) →
  let '(r, (w', _)) := run_pipeline_bench x fuel (w, t) in run_pipeline x fuel w = (r, w').
Proof.
  intros Hshard.
  enough (erases (W' := W * TelemetryWorld) fst (run_pipeline_bench x fuel) (run_pipeline x fuel)) as He.
  { specialize (He (w, t)). destruct (run_pipeline_bench x fuel (w, t)) as [r [w' t']]. exact He. }
  pose proof (lift_ctx_erases x) as Hx. unfold run_pipeline, run_pipeline_bench; cbv zeta.
  apply erases_telemetry; intros _.
  apply (sim_fbind (@erases _ _ fst)); [by eapply (sim_relay (@erases _ _ fst) _ _ Hx)|intros _]. apply erases_telemetry; intros _.
  eapply (sim_shard (@erases _ _ fst)); [apply (ce_nonce _ _ _ Hx)|]. intros nh' nh Hn.
  apply (sim_fbind (@erases _ _ fst)); [by eapply (sim_nonce (@erases _ _ fst) _ _ Hx)|intros txn]. apply erases_telemetry; intros _.
  eapply (sim_shard (@erases _ _ fst)); [apply (ce_sign _ _ _ Hx)|]. intros sh' sh Hs.
  apply (sim_fbind (@erases _ _ fst)); [by eapply (sim_sign (@erases _ _ fst) _ _ Hx)|intros signed]. apply erases_telemetry; intros _.
  apply (sim_fbind (@erases _ _ fst)); [by eapply (sim_endpoint (@erases _ _ fst) _ _ Hx)|intros i].
  eapply (sim_shard (@erases _ _ fst)); [apply (ce_broadcast _ _ _ Hx)|]. intros bh' bh Hb.
  apply (sim_fbind (@erases _ _ fst)); [by eapply (sim_loop (@erases _ _ fst) _ _ Hx)|intros outcome].
  apply (sim_fbind (@erases _ _ fst)); [by eapply (sim_status (@erases _ _ fst) _ _ Hx)|intros _].
  do 2 (apply erases_telemetry; intros _).
  apply (sim_fbind (@erases _ _ fst)); [|intros v; by eapply (sim_outcome (@erases _ _ fst) _ _ Hx)].
  unfold validator_stage; cbv zeta. rewrite <- Hshard.
  eapply (sim_shard (@erases _ _ fst)); [apply (ce_validator _ _ _ Hx)|]. intros vh' vh Hv. by eapply (sim_validate (@erases _ _ fst) _ _ Hx).
Qed.
End erasing.

(** ** What a run leaves in the registry

    [tele P Q E c]: from telemetry in [P], [c] leaves it in [Q] when it goes
    on and in [E] when it ends the task. *)

Section accounting.
Context {W : Type} `{Runtime W} `{U256Hash}.
Abbreviation T := TelemetryWorld.
Implicit Types P Q E : T → Prop.

Definition tele {A} P Q E (c : Comp (W * T) (flow A)) : Prop :=
  ∀ s, P s.2 → match (c s).1 with Next _ => Q (c s).2.2 | _ => E (c s).2.2 end.

Lemma tele_bind {A B} P Q R E (c : Comp (W * T) (flow A)) (k : A → Comp (W * T) (flow B)) :
  tele P Q E c → (∀ a, tele Q R E (k a)) → tele P R E (fbind c k).
Proof.
  intros Hc Hk s Hs. unfold fbind, cbind, cret. specialize (Hc s Hs).
  destruct (c s) as [[a| | |] s']; [by apply Hk|done..].
Qed.

Lemma tele_telemetry f P Q E : (∀ t, P t → Q (f t)) → tele P Q E (telemetry f).
Proof. intros Hf s Hs. by apply Hf. Qed.

(** The stages do not touch the telemetry. *)
Lemma tele_stage {A} P E (c : Comp (W * T) (flow A)) :
  (∀ t, P t → E t) → keeps (λ s, P s.2) (going (λ _, True)) c → tele P P E c.
Proof. intros HPE Hc s Hs. destruct (Hc s Hs) as [Hp _]. destruct (c s) as [[] s']; cbn in *; auto. Qed.

#[export] Instance lift_runtime_keeps P : RuntimeKeeps (W := W * T) (λ s, P s.2).
Proof.
  split; [|done]. intros b s Hs. split; [|done]. simpl. unfold on_fst. by destruct (rt_gen_range b s.1).
Qed.

Lemma on_fst_snd {A} (c : Comp W A) (s : W * T) : (on_fst c s).2.2 = s.2.
Proof. unfold on_fst. by destruct (c s.1). Qed.

Lemma lift_ctx_keeps P (x : PipelineContext W) : ctx_keeps (λ s, P s.2) (λ _, True) (lift_ctx x).
Proof.
  assert (∀ A U (f : A → U) (p : ShardPool A) (R : U → Prop),
    (∀ h, R (f h)) → Forall R (shards (shard_map f p))) as Hmap.
  { intros A U f p R Hf. unfold shard_map. cbn [shards]. by apply Forall_fmap, list.Forall_true. }
  split; try (apply Hmap; intros h); try split; repeat intro; try done; cbn; rewrite ?on_fst_snd; try done.
  by destruct (on_fst _ w).1 as [|[]].
Qed.

(** *** The instants of a run *)

Definition instants (e : ExecutionId) : list (T → T) :=
  [record_start e; record_stage SRelayHost e; record_stage SNonce e; record_stage SSign e; record_stage SBroadcast e].
(** The telemetry after the first [n] of them. *)
Definition marks (e : ExecutionId) (n : nat) (t : T) : T := foldl (λ t f, f t) t (take n (instants e)).
(** A run that ended before its broadcast, or ended after. *)
Definition ended (e : ExecutionId) (t0 t : T) : Prop :=
  (∃ n, (1 ≤ n ≤ 4)%nat ∧ t = marks e n t0) ∨ t = finalize e (marks e 5 t0).

(** *** The run *)

Section run.
Context (x : PipelineContext W) (t0 : T).
Let e := px_execution_id x.
Abbreviation phase n := (λ t, t = marks e n t0).
Abbreviation exported := (λ t, t = finalize e (marks e 5 t0)).

Lemma tele_record {B} n f (k : unit → Comp (W * T) (flow B)) :
  instants e !! n = Some f →
  (∀ a, tele (phase (Datatypes.S n)) exported (ended e t0) (k a)) →
  tele (phase n) exported (ended e t0) (fbind (telemetry f) k).
Proof.
  intros Hf. apply tele_bind, tele_telemetry. intros t ->. unfold marks.
  by rewrite (take_S_r _ _ _ Hf), foldl_app.
Qed.

(** A stage between two instants. *)
Lemma tele_between {A B} n (c : Comp (W * T) (flow A)) (k : A → Comp (W * T) (flow B)) :
  (1 ≤ n ≤ 4)%nat → (∀ P, keeps (λ s, P s.2) (going (λ _, True)) c) →
  (∀ a, tele (phase n) exported (ended e t0) (k a)) →
  tele (phase n) exported (ended e t0) (fbind c k).
Proof.
  intros Hn Hc Hk. eapply tele_bind; [|exact Hk].
  apply tele_stage; [intros t ->; left; eauto|apply (Hc (phase n))].
Qed.

Lemma tele_shard {A K B} `{Hash K} n (P : A → Prop) (p : ShardPool A) (key : K) (k : A → Comp (W * T) (flow B)) :
  (1 ≤ n ≤ 4)%nat → Forall P (shards p) →
  (∀ h, P h → tele (phase n) exported (ended e t0) (k h)) →
  tele (phase n) exported (ended e t0) (fbind (funwrap (ShardPool_get p key)) k).
Proof.
  intros Hn HP Hk s Hs. unfold ShardPool_get, fbind, cbind, funwrap, cret.
  destruct (shards p !! _) as [h|] eqn:Hh; [|left; eauto]. apply (Hk h); [|done].
  by apply (list.Forall_lookup_1 _ _ _ _ HP Hh).
Qed.

(** After its export a run leaves the telemetry alone. *)
Lemma tele_after {A} (c : Comp (W * T) (flow A)) :
  (∀ P, keeps (λ s, P s.2) (going (λ _, True)) c) → tele exported exported (ended e t0) c.
Proof. intros Hc. apply tele_stage; [intros t ->; by right|apply (Hc exported)]. Qed.

Lemma run_pipeline_bench_tele fuel :
  tele (phase 0) exported (ended e t0) (run_pipeline_bench x fuel).
Proof.
  unfold run_pipeline_bench; cbv zeta.
  pose proof (λ P, lift_ctx_keeps P x) as Hx.
  apply tele_record; [done|intros _].
  assert (∀ A (R : (T → Prop) → A → Prop) l, (∀ P, Forall (R P) l) → Forall (λ h, ∀ P, R P h) l) as Hall.
  { intros A R l Hl. apply list.Forall_lookup. intros i h Hi P. exact (list.Forall_lookup_1 _ _ _ _ (Hl P) Hi). }
  apply tele_between; [lia|intros P; exact (keeps_relay_stage _ _ _ (Hx P))|intros _].
  apply tele_record; [done|intros _].
  eapply tele_shard; [lia|exact (Hall _ _ _ (λ P, ck_nonce _ _ _ (Hx P)))|]. cbn beta. intros nh Hn.
  apply tele_between; [lia|intros P; exact (keeps_nonce_stage _ _ _ (Hx P) _ (Hn P))|intros txn].
  apply tele_record; [done|intros _].
  eapply tele_shard; [lia|exact (Hall _ _ _ (λ P, ck_sign _ _ _ (Hx P)))|]. cbn beta. intros sh Hs.
  apply tele_between; [lia|intros P; exact (keeps_sign_stage _ _ _ (Hx P) _ _ _ (Hn P) (Hs P))|intros signed].
  apply tele_record; [done|intros _].
  apply tele_between; [lia|intros P; exact (keeps_endpoint_stage _ _ _ (Hx P) _ (Hn P))|intros i].
  eapply tele_shard; [lia|exact (Hall _ _ _ (λ P, ck_broadcast _ _ _ (Hx P)))|]. cbn beta. intros bh Hb.
  apply tele_between; [lia|intros P; exact (keeps_broadcast_loop _ _ _ (Hx P) _ _ _ _ _ _ _ _ (Hn P) (Hs P) (Hb P))|intros outcome].
  apply tele_between; [lia|intros P; eapply keeps_mono; [eapply keeps_status, Hx|by intros []]|intros _].
  apply tele_record; [done|intros _].
  eapply tele_bind; [apply (tele_telemetry _ (phase 5) exported); by intros t ->|intros _].
  apply tele_after. intros P. eapply keeps_fbind; [|intros v _; exact (keeps_outcome_stage _ _ _ (Hx P) _ _ _ (Hn P))].
  eapply keeps_fbind; [apply keeps_shard, (ck_validator _ _ _ (Hx P))|]. intros vh Hv.
  exact (keeps_validate_at _ _ _ (Hx P) _ _ _ _ (Hn P) Hv).
Qed.

Lemma run_pipeline_bench_ended fuel w :
  (run_pipeline_bench x fuel (w, t0)).1 ≠ Next tt ∧
    (∃ n, (1 ≤ n ≤ 4)%nat ∧ (run_pipeline_bench x fuel (w, t0)).2.2 = marks e n t0) ∨
  (run_pipeline_bench x fuel (w, t0)).2.2 = finalize e (marks e 5 t0).
Proof.
  pose proof (run_pipeline_bench_tele fuel (w, t0) eq_refl) as Ht.
  destruct (run_pipeline_bench x fuel (w, t0)) as [[[]| | |] s]; cbn [fst snd] in *; [by right|..];
    (destruct Ht as [Hp|He]; [left; by split|by right]).
Qed.
End run.
End accounting.

(** *** The record of a run *)

Section record.
Context `{QuantaLaws}.

Lemma get_duration_us_later a b :
  0 ≤ a → a ≤ b → b < 2 ^ 64 → get_duration_us (Some a) (Some b) = (b - a) / 1000.
Proof.
  intros Ha Hab Hb. cbn. rewrite duration_since_later by done. unfold wrap_u64. apply Z.mod_small.
  split; [apply Z.div_pos; lia|]. apply Z.div_lt_upper_bound; lia.
Qed.

(** The stages of a record add up to its total, but for what each loses to
    whole microseconds. *)
Definition adds_up (r : LatencyRecord) : Prop :=
  let stages := lr_relayhost_duration_us r + lr_nonce_duration_us r + lr_sign_duration_us r +
                lr_broadcast_duration_us r in
  stages ≤ lr_total_pipeline_us r ≤ stages + 3.

(** The entry of [e] after its five instants. *)
Definition full_entry (e : ExecutionId) (t : TelemetryWorld) : PipelineTelemetry :=
  default PipelineTelemetry_default (tl_registry (marks e 5 t) !! e).

Lemma durations_add_up a b c d f :
  0 ≤ a → a ≤ b → b ≤ c → c ≤ d → d ≤ f → f < 2 ^ 64 →
  let stages := get_duration_us (Some a) (Some b) + get_duration_us (Some b) (Some c) +
                get_duration_us (Some c) (Some d) + get_duration_us (Some d) (Some f) in
  stages ≤ get_duration_us (Some a) (Some f) ≤ stages + 3.
Proof.
  cbv zeta. intros. rewrite !get_duration_us_later by lia.
  repeat match goal with |- context [?n / 1000] =>
    let q := fresh "q" in
    pose proof (Z.div_mod n 1000 ltac:(lia)); pose proof (Z.mod_pos_bound n 1000 ltac:(lia));
    set (q := n / 1000) in *; clearbody q
  end.
  lia.
Qed.

Lemma update_entry_entry e f t o :
  tl_registry t !! e = o →
  tl_registry (update_entry e f t) !! e =
    Some (f (tl_clock (update_entry e f t)) (default PipelineTelemetry_default o)) ∧
  tl_clock t ≤ tl_clock (update_entry e f t).
Proof. intros <-. cbn. rewrite lookup_insert_eq. split; [done|]. unfold instant_now. lia. Qed.

Lemma latency_record_adds_up `{StatusText} e t :
  tl_registry t !! e = None → 0 ≤ tl_clock t → tl_clock (marks e 5 t) < 2 ^ 64 →
  adds_up (latency_record e (full_entry e t)).
Proof.
  intros Hnew Hc Hc'. unfold full_entry. change (marks e 5 t) with
    (record_stage SBroadcast e (record_stage SSign e (record_stage SNonce e (record_stage SRelayHost e (record_start e t)))))
    in *.
  destruct (update_entry_entry e (λ now p, mkTelemetry (Some now) (pt_relayhost p) (pt_nonce p) (pt_sign p)
    (pt_broadcast p)) t _ Hnew) as [E1 L1]. fold (record_start e t) in E1, L1.
  destruct (update_entry_entry e (stamp SRelayHost) (record_start e t) _ E1) as [E2 L2].
  fold (record_stage SRelayHost e (record_start e t)) in E2, L2.
  generalize dependent (record_stage SRelayHost e (record_start e t)). intros t2 Hc' E2 L2.
  destruct (update_entry_entry e (stamp SNonce) t2 _ E2) as [E3 L3]. fold (record_stage SNonce e t2) in E3, L3.
  generalize dependent (record_stage SNonce e t2). intros t3 Hc' E3 L3.
  destruct (update_entry_entry e (stamp SSign) t3 _ E3) as [E4 L4]. fold (record_stage SSign e t3) in E4, L4.
  generalize dependent (record_stage SSign e t3). intros t4 Hc' E4 L4.
  destruct (update_entry_entry e (stamp SBroadcast) t4 _ E4) as [E5 L5]. fold (record_stage SBroadcast e t4) in E5, L5.
  rewrite E5. apply durations_add_up; lia.
Qed.

Context {W : Type} `{Runtime W} `{U256Hash} `{StatusText} (to_json : LatencyRecord → result string string).

(** The instants touch the entry of [e] alone. *)
Lemma marks_same e n t :
  tl_exports (marks e n t) = tl_exports t ∧ tl_open (marks e n t) = tl_open t ∧
  delete e (tl_registry (marks e n t)) = delete e (tl_registry t).
Proof.
  assert (Forall (λ f, ∃ g, f = update_entry e g) (take n (instants e))) as Hf.
  { apply Forall_take. repeat constructor; by eexists. }
  unfold marks. revert t. induction Hf as [|f fs [g ->] _ IH]; intros t; [done|]. cbn [foldl].
  destruct (IH (update_entry e g t)) as (-> & -> & ->). split_and!; [done..|]. apply delete_insert_eq.
Qed.

Lemma marks_entry e n t : (1 ≤ n)%nat → is_Some (tl_registry (marks e n t) !! e).
Proof.
  intros Hn. unfold marks.
  destruct n as [|[|[|[|[|n]]]]]; [lia|..]; cbn [take instants foldl]; rewrite ?take_nil;
    eexists; apply lookup_insert_eq.
Qed.

Lemma finalize_clock e t : tl_clock (finalize e t) = tl_clock t.
Proof. unfold finalize. by destruct (tl_open t). Qed.

(** The exporter with one finalized run to export. *)
Lemma exporter_one e t p :
  tl_exports t = [] → tl_open t = true → tl_registry t !! e = Some p →
  run_telemetry_exporter to_json true true [] (finalize e t) =
    (match to_json (latency_record e p) with Ok j => [j] | Err _ => [] end,
     mkTelemetryWorld (delete e (tl_registry t)) [] true (tl_clock t) (tl_lags t)).
Proof.
  intros Hx Ho Hp. unfold finalize. rewrite Hx, Ho. cbn. rewrite Hp. by destruct (to_json _).
Qed.

(** C35: a run on an idle, listening exporter either leaves its five instants,
    and then exactly one line is sent, whose stage durations add up to the
    total but for three microseconds, and the registry is as before; or it did
    not complete, no line is sent and its entry is never removed. *)
Theorem telemetry_accounting (x : PipelineContext W) fuel w t :
  let e := px_execution_id x in
  tl_registry t !! e = None → tl_exports t = [] → tl_open t = true → 0 ≤ tl_clock t →
  let '(r, (_, t')) := run_pipeline_bench x fuel (w, t) in
  tl_clock t' < 2 ^ 64 →
  let '(lines, t'') := run_telemetry_exporter to_json true true [] t' in
  let record := latency_record e (full_entry e t) in
  (t' = finalize e (marks e 5 t) ∧ adds_up record ∧
     lines = (match to_json record with Ok j => [j] | Err _ => [] end) ∧ tl_registry t'' = tl_registry t) ∨
  (r ≠ Next tt ∧ lines = [] ∧ ∃ n, (1 ≤ n ≤ 4)%nat ∧ t' = marks e n t ∧ is_Some (tl_registry t'' !! e)).
Proof.
  intros e Hnew Hempty Hopen Hclock. pose proof (run_pipeline_bench_ended x t fuel w) as He.
  destruct (run_pipeline_bench x fuel (w, t)) as [r [w' t']]. cbn [fst snd] in He. fold e in He. intros Hc'.
  destruct He as [(Hr & n & Hn & ->)| ->].
  - destruct (marks_same e n t) as (Hx & _). unfold run_telemetry_exporter; cbn [andb]. rewrite Hx, Hempty. right. split_and!; [done..|]. exists n.
    split_and!; [lia..|done|]. apply marks_entry; lia.
  - pose proof (marks_entry e 5 t ltac:(lia)) as [p Hp]. destruct (marks_same e 5 t) as (Hx & Ho & Hd).
    rewrite (delete_id (tl_registry t)) in Hd by done.
    rewrite (exporter_one e _ p) by congruence. left. rewrite finalize_clock in Hc'.
    assert (p = full_entry e t) as -> by (unfold full_entry; by rewrite Hp).
    split_and!; [done| |done|exact Hd]. by apply latency_record_adds_up.
Qed.
End record.

(** ** A run to look at *)

#[local] Instance toy_clock : QuantaClock := {| duration_since b a := b - a |}.
#[local] Instance toy_clock_laws : QuantaLaws.
Proof. by split. Qed.
Lemma run_pipeline_bench_erasure_witness :
  let '(r, (w', _)) := run_pipeline_bench (toy_ctx (Included 3 0)) 2 (toy_world, TelemetryContext_new 100 []) in
  run_pipeline (toy_ctx (Included 3 0)) 2 toy_world = (r, w').
Proof. apply run_pipeline_bench_erasure; vm_compute; reflexivity. Defined.

Definition toy_telemetry : TelemetryWorld := TelemetryContext_new 100 [1; 2000; 3500; 4999; 70000].
Definition toy_json (r : LatencyRecord) : result string string := Ok (lr_execution_id r).

Example toy_latencies :
  latency_record (mkExecutionId 9) (full_entry (mkExecutionId 9) toy_telemetry) =
  mkLatency (ExecutionId_display (mkExecutionId 9)) 2 3 4 70 80.
Proof. by vm_compute. Qed.

Lemma telemetry_accounting_witness :
  let '(r, (_, t')) := run_pipeline_bench (toy_ctx Timeout) 2 (toy_world, toy_telemetry) in
  tl_clock t' < 2 ^ 64 ∧
  let '(lines, t'') := run_telemetry_exporter toy_json true true [] t' in
  (t' = finalize (mkExecutionId 9) (marks (mkExecutionId 9) 5 toy_telemetry) ∧
   lines = [ExecutionId_display (mkExecutionId 9)] ∧ tl_registry t'' = ∅).
Proof.
  pose proof (telemetry_accounting toy_json (toy_ctx Timeout) 2 toy_world toy_telemetry
    eq_refl eq_refl eq_refl ltac:(done)) as Ht.
  destruct (run_pipeline_bench (toy_ctx Timeout) 2 (toy_world, toy_telemetry)) as [r [w' t']] eqn:Hr.
  assert (r = Next tt) as -> by (apply (f_equal fst) in Hr; by vm_compute in Hr).
  assert (tl_clock t' < 2 ^ 64) as Hc.
  { apply (f_equal (λ p, tl_clock p.2.2 <? 2 ^ 64)) in Hr. by apply Z.ltb_lt. }
  split; [done|]. specialize (Ht Hc). destruct (run_telemetry_exporter _ _ _ _ _) as [lines t''].
  destruct Ht as [(H1 & _ & H2 & H3)|[Hne _]]; [|by destruct Hne]. exact (conj H1 (conj H2 H3)).
Defined.
