(* ===== verification/Cortex.v ===== *)
(** * The orchestrator: boot and submission

    [src/crate/cortex/src/lib.rs]: the actor pools and the semaphore are built
    once; [submit] takes a permit, records the first status and spawns the
    pipeline task, which gives the permit back when it ends. *)

From S2P Require Import Prelude Types Retry Pool RpcClient CortexError Shard Pipeline PipelineSpec Protocol Refine PipelineProps Config.

Section cortex.
Context {W : Type} `{Runtime W} `{U256Hash}.

(** Source: [crate/cortex/src/lib.rs] lines 46-68, [Cortex]. The semaphore's
    free permits are part of [System] below. *)
Record Cortex := mkCortex {
  cx_config : CortexConfig;
  cx_status_registry : StateStore W;
  cx_rpc_client : EndpointSource W;
  cx_relayhost : ShardPool (IntentRelay W);
  cx_nonce : ShardPool (NonceManager W);
  cx_sign : ShardPool (Signer W);
  cx_broadcast : ShardPool (Broadcaster W);
  cx_validator : ShardPool (Validator W)
}.

(** ** Boot *)

(** The handles the [spawn_*_actor] functions return for each shard; spawning a
    signer panics when its keys cannot be loaded. *)
Record Spawners := mkSpawners {
  sp_relayhost : nat → IntentRelay W;
  sp_nonce : nat → NonceManager W;
  sp_sign : nat → option (Signer W);
  sp_broadcast : nat → Broadcaster W;
  sp_validator : nat → Validator W
}.

(** [(0..shards).map(spawn).collect()] into a pool: [mpsc::channel] panics on
    an empty buffer, [ShardPool::new] on an empty list. *)
Definition spawn_pool {T} (shards buffer : Z) (spawn : nat → option T) : option (ShardPool T) :=
  if (0 <? shards) && (buffer =? 0) then None
  else handles ← mapM spawn (seq 0 (Z.to_nat shards)); ShardPool_new handles.

(** [redis_connect] is [StatusRegistry::new]: [None] where it fails;
    [max_permits] is tokio's [Semaphore::MAX_PERMITS]. *)
Definition redis_url (env : Env) : string :=
  match env "REDIS_URL" with Some url => url | None => "redis://localhost:6379" end.

(** Source: [crate/cortex/src/lib.rs] lines 164-297, [spawn_cortex]. [None] is a
    panic; the result comes with the free permits of the semaphore. *)
Definition spawn_cortex (env : Env) (spawners : Spawners) (provider_client : EndpointSource W)
    (redis_connect : string → option (StateStore W)) (max_permits : Z) (config : CortexConfig) :
    option (Cortex * Z) :=
  relayhost_pool ← spawn_pool (relay_host_shards config) (actor_buffer config) (Some ∘ sp_relayhost spawners);
  nonce_pool ← spawn_pool (nonce_shards config) (actor_buffer config) (Some ∘ sp_nonce spawners);
  sign_pool ← spawn_pool (sign_shards config) (actor_buffer config) (sp_sign spawners);
  broadcast_pool ← spawn_pool (broadcast_shards config) (actor_buffer config) (Some ∘ sp_broadcast spawners);
  validator_pool ← spawn_pool (validator_shards config) (actor_buffer config) (Some ∘ sp_validator spawners);
  permits ← (if pipeline_concurrency config <=? max_permits then Some (pipeline_concurrency config) else None);
  status_registry ← redis_connect (redis_url env);
  Some (mkCortex config status_registry provider_client relayhost_pool nonce_pool sign_pool
          broadcast_pool validator_pool, permits).

(** ** Submission *)

(** The running system: free permits, the spawned pipelines that still hold
    one, the world. *)
Record System := mkSystem {
  sys_permits : Z;
  sys_running : list (PipelineContext W);
  sys_world : W
}.

(** The context a submission builds. *)
Definition submit_ctx (orch : Cortex) (e : ExecutionId) (txn : Eip1559Transaction) (client : ClientConfig) :
    PipelineContext W :=
  mkPipelineContext e client txn (cx_relayhost orch) (cx_nonce orch) (cx_sign orch) (cx_broadcast orch)
    (cx_validator orch) (retry (cx_config orch)) (cx_status_registry orch) (cx_rpc_client orch).

(** Source: [crate/cortex/src/lib.rs] lines 92-149, [CortextHandle::submit].
    [elapsed] says whether the deadline of the timeout has passed; [None] is a
    submission that still waits. *)
Definition submit (orch : Cortex) (elapsed : bool) (e : ExecutionId) (txn : Eip1559Transaction)
    (client : ClientConfig) (s : System) : option (result unit CortexError * System) :=
  if 0 <? sys_permits s then
    Some (Ok tt,
      mkSystem (sys_permits s - 1) (sys_running s ++ [submit_ctx orch e txn client])
        (ss_set (cx_status_registry orch) e PermitAquired (sys_world s)))
  else if elapsed then
    Some (Err (CBackpressureTimeout
            (wrap_u64 (as_millis (pipeline_semaphore_timeout (cx_config orch))))), s)
  else None.

(** The events of the system: a submission is answered, a pipeline task ends -
    returning or panicking, its permit is dropped - or the running tasks and
    the actors change the world. *)
Inductive step (orch : Cortex) : System → System → Prop :=
| step_submit elapsed e txn client r s s' :
    submit orch elapsed e txn client s = Some (r, s') → step orch s s'
| step_finish before ctx after p w :
    step orch (mkSystem p (before ++ ctx :: after) w) (mkSystem (p + 1) (before ++ after) w)
| step_world p running w w' :
    step orch (mkSystem p running w) (mkSystem p running w').

Inductive reachable (orch : Cortex) (s0 : System) : System → Prop :=
| reachable_start : reachable orch s0 s0
| reachable_step s s' : reachable orch s0 s → step orch s s' → reachable orch s0 s'.

(** ** Lemmas *)

Lemma spawn_pool_None {T} shards buffer (spawn : nat → option T) :
  spawn_pool shards buffer spawn = None ↔
    shards ≤ 0 ∨ buffer = 0 ∨ ∃ i, (i < Z.to_nat shards)%nat ∧ spawn i = None.
Proof.
  unfold spawn_pool. destruct (Z.ltb_spec 0 shards) as [Hs|Hs].
  2:{ cbn [andb]. replace (Z.to_nat shards) with 0%nat by lia. split; [by left|done]. }
  destruct (Z.eqb_spec buffer 0) as [Hb|Hb]; cbn [andb]; [split; [auto|done]|].
  destruct (mapM spawn (seq 0 (Z.to_nat shards))) as [l|] eqn:Hm; cbn [mbind option_bind].
  - apply mapM_Some in Hm. destruct l as [|h l]; cbn [ShardPool_new].
    { apply Forall2_length in Hm. rewrite length_seq in Hm. cbn in Hm. lia. }
    split; [done|]. intros [?|[?|(i & Hi & Hn)]]; [lia|done|].
    assert (Hl : seq 0 (Z.to_nat shards) !! i = Some i) by (by apply lookup_seq).
    destruct (Forall2_lookup_l _ _ _ _ _ Hm Hl) as (y & _ & Hy). congruence.
  - split; [intros _|done]. right; right. apply mapM_None, list.Exists_exists in Hm as (i & Hi & Hn).
    apply elem_of_seq in Hi. exists i. split; [lia|done].
Qed.

Lemma spawn_pool_Some {T} shards buffer (spawn : nat → option T) pool :
  spawn_pool shards buffer spawn = Some pool →
  (0 < shard_count pool)%nat ∧ Z.of_nat (shard_count pool) = shards ∧ buffer ≠ 0 ∧
  (∀ i, (i < Z.to_nat shards)%nat → spawn i ≠ None) ∧
  ∀ h, h ∈ Shard.shards pool → ∃ i, spawn i = Some h.
Proof.
  intros Hp. assert (Hn : ¬ (shards ≤ 0 ∨ buffer = 0 ∨ ∃ i, (i < Z.to_nat shards)%nat ∧ spawn i = None))
    by (rewrite <- (spawn_pool_None _ _ spawn), Hp; done).
  revert Hp. unfold spawn_pool. destruct ((0 <? shards) && _); [done|].
  destruct (mapM spawn (seq 0 (Z.to_nat shards))) as [l|] eqn:Hm; cbn [mbind option_bind]; [|done].
  apply mapM_Some in Hm. pose proof (list.Forall2_length _ _ _ Hm) as Hlen. rewrite length_seq in Hlen.
  destruct l as [|h l]; [done|]. intros [= <-]. unfold shard_count. cbn [Shard.shards] in *.
  split_and!; [cbn; lia|lia|tauto|naive_solver|].
  intros h' (i & Hi)%list_elem_of_lookup. destruct (Forall2_lookup_r _ _ _ _ _ Hm Hi) as (x & _ & Hx). eauto.
Qed.

(** Actors whose spawning cannot fail. *)
Lemma spawn_pool_None_total {T} shards buffer (spawn : nat → T) :
  spawn_pool shards buffer (Some ∘ spawn) = None ↔ shards ≤ 0 ∨ buffer = 0.
Proof. rewrite spawn_pool_None. naive_solver. Qed.

Definition shard_settings (c : CortexConfig) : list Z :=
  [relay_host_shards c; nonce_shards c; sign_shards c; broadcast_shards c; validator_shards c].

(** A signer of the configuration cannot be spawned. *)
Definition signer_fails (sp : Spawners) (c : CortexConfig) : Prop :=
  ∃ i, (i < Z.to_nat (sign_shards c))%nat ∧ sp_sign sp i = None.

Lemma spawn_cortex_None env sp pc redis maxp c :
  Forall (λ n, 0 ≤ n) (shard_settings c) →
  spawn_cortex env sp pc redis maxp c = None ↔
    0 ∈ shard_settings c ∨ actor_buffer c = 0 ∨ signer_fails sp c ∨
    maxp < pipeline_concurrency c ∨ redis (redis_url env) = None.
Proof.
  intros Hn. unfold shard_settings, signer_fails in *. rewrite !list.Forall_cons in Hn.
  destruct Hn as (H1 & H2 & H3 & H4 & H5 & _). rewrite !elem_of_cons, elem_of_nil. unfold spawn_cortex.
  repeat match goal with |- context [spawn_pool ?n ?b ?f] =>
    let Hp := fresh "Hp" in destruct (spawn_pool n b f) eqn:Hp; cbn [mbind option_bind];
    [apply spawn_pool_Some in Hp as (? & Hp & ? & ? & _)|
     first [apply spawn_pool_None_total in Hp|apply spawn_pool_None in Hp]; split; [intros _|done];
     repeat destruct Hp as [Hp|Hp]; [left|by right; left|..]; naive_solver lia] end.
  destruct (Z.leb_spec (pipeline_concurrency c) maxp); cbn [mbind option_bind].
  - destruct (redis (redis_url env)); cbn; (split; [try done|]); try done.
    + intros [Hz|[Hz|[(i & Hi & Hz)|[Hz|Hz]]]]; [|done|naive_solver|lia|done].
      exfalso. repeat destruct Hz as [Hz|Hz]; try done; lia.
    + intros _. by do 4 right.
  - split; [intros _; by do 3 right; left|done].
Qed.

Lemma spawn_cortex_client env sp pc redis maxp c orch permits :
  spawn_cortex env sp pc redis maxp c = Some (orch, permits) → cx_rpc_client orch = pc.
Proof.
  unfold spawn_cortex. intros Hs. repeat (apply bind_Some in Hs as (? & _ & Hs)). by injection Hs as <- _.
Qed.

Lemma spawn_cortex_signer env sp pc redis maxp c orch permits :
  spawn_cortex env sp pc redis maxp c = Some (orch, permits) → is_Some (sp_sign sp 0).
Proof.
  unfold spawn_cortex. intros (? & _ & Hs)%bind_Some. apply bind_Some in Hs as (? & _ & Hs).
  apply bind_Some in Hs as (pool & Hp & _). apply spawn_pool_Some in Hp as (Hn & Hc & _ & Hf & _).
  specialize (Hf 0%nat ltac:(lia)). by destruct (sp_sign sp 0).
Qed.

Lemma from_env_settings env c :
  from_env env = Ok c → Forall (λ n, 0 ≤ n) (shard_settings c) ∧ retry c = RetryConfig_default.
Proof.
  intros Hc. pose proof (from_env_values env c Hc) as (Hr & Hv). split; [|done].
  unfold config_values, shard_settings in *. rewrite !list.Forall_cons in Hv.
  destruct Hv as (? & ? & ? & ? & ? & _). repeat (constructor; [lia|]). constructor.
Qed.

(** What a boot builds. *)
Lemma spawn_cortex_Some env sp pc redis maxp c orch permits :
  spawn_cortex env sp pc redis maxp c = Some (orch, permits) →
  cx_config orch = c ∧ permits = pipeline_concurrency c ∧
  ∀ e txn client, pools_ready (submit_ctx orch e txn client).
Proof.
  unfold spawn_cortex. intros Hs.
  repeat match type of Hs with context [spawn_pool ?n ?b ?f] =>
    let Hp := fresh "Hp" in destruct (spawn_pool n b f) eqn:Hp; cbn [mbind option_bind] in Hs;
    [apply spawn_pool_Some in Hp as [Hp _]|done] end.
  destruct (_ <=? maxp); [|done]. cbn [mbind option_bind] in Hs.
  destruct (redis _); [|done]. cbn in Hs. injection Hs as <- <-.
  split_and!; [done|done|]. intros e txn client. by repeat split.
Qed.

(** A run that ends, neither panicking nor looping, with exactly one final
    status, its last. *)
Definition settles (ctx : PipelineContext W) (w : W) : Prop :=
  ∃ r w' t front st,
    run_pipeline (traced_ctx ctx) 2 (w, []) = (r, (w', t)) ∧
    (r = Next tt ∨ r = Return) ∧ statuses t = front ++ [st] ∧ is_final st = true ∧
    Forall (λ st, is_final st = false) front.

(** Every submission to what a boot builds settles. *)
Lemma submission_settles env sp pc redis maxp c orch permits e txn client w :
  spawn_cortex env sp pc redis maxp c = Some (orch, permits) → retry c = RetryConfig_default →
  settles (submit_ctx orch e txn client) w.
Proof.
  intros Hs Hretry. destruct (spawn_cortex_Some _ _ _ _ _ _ _ _ Hs) as (Hcfg & _ & Hready).
  destruct (run_pipeline_trace (submit_ctx orch e txn client)) with (fuel := 2%nat) (w := w)
    as (r & w' & t & mm & en & Hrun & Hr & HT); [|by apply Hready|done|].
  { cbn. rewrite Hcfg, Hretry. split; [apply Z.leb_le|apply Z.ltb_lt]; reflexivity. }
  destruct (history_final mm en) as (front & Hh & Hfin & Hfront). apply trace_statuses in HT.
  exists r, w', t, front, (final_status en). rewrite HT. auto.
Qed.

(** Permits are neither lost nor made. *)
Definition balanced (total : Z) (s : System) : Prop :=
  0 ≤ sys_permits s ∧ sys_permits s + Z.of_nat (length (sys_running s)) = total.

Lemma submit_balanced orch elapsed e txn client r s s' total :
  submit orch elapsed e txn client s = Some (r, s') → balanced total s → balanced total s'.
Proof.
  unfold submit, balanced. destruct (Z.ltb_spec 0 (sys_permits s)).
  - intros [= <- <-]. cbn. rewrite length_app. cbn. lia.
  - destruct elapsed; [|done]. by intros [= <- <-].
Qed.

Lemma reachable_balanced orch s0 s total : balanced total s0 → reachable orch s0 s → balanced total s.
Proof.
  intros H0'. induction 1 as [|s s' Hr IH Hs]; [done|]. destruct Hs.
  - by eapply submit_balanced.
  - unfold balanced in *. cbn in *. rewrite length_app in *. cbn in *. lia.
  - done.
Qed.

(** C11: bounded concurrency and back-pressure: in every state reachable from a
    boot, at most [pipeline_concurrency] pipelines run; a submission is
    accepted exactly when a permit is free, and then [PermitAquired] is recorded
    before its pipeline starts; it is refused only once its deadline passed
    while all [pipeline_concurrency] pipelines were running, with the transient
    error, and the refusal changes nothing. *)
Theorem cortex_bounded_concurrency env sp pc redis maxp c orch permits w s elapsed e txn client :
  0 ≤ pipeline_concurrency c →
  spawn_cortex env sp pc redis maxp c = Some (orch, permits) →
  reachable orch (mkSystem permits [] w) s →
  Z.of_nat (length (sys_running s)) ≤ pipeline_concurrency c ∧
  match submit orch elapsed e txn client s with
  | Some (Ok _, s') =>
      0 < sys_permits s ∧ sys_running s' = sys_running s ++ [submit_ctx orch e txn client] ∧
      sys_world s' = ss_set (cx_status_registry orch) e PermitAquired (sys_world s)
  | Some (Err err, s') =>
      s' = s ∧ elapsed = true ∧ is_transient err = true ∧
      Z.of_nat (length (sys_running s)) = pipeline_concurrency c
  | None => elapsed = false ∧ Z.of_nat (length (sys_running s)) = pipeline_concurrency c
  end.
Proof.
  intros Hc Hs Hr. apply spawn_cortex_Some in Hs as (Hcfg & -> & _).
  assert (Hb : balanced (pipeline_concurrency c) s).
  { refine (reachable_balanced orch _ _ _ _ Hr). split; cbn; lia. }
  destruct Hb as [Hp Hsum]. split; [lia|]. unfold submit.
  destruct (Z.ltb_spec 0 (sys_permits s)); [by split_and!|].
  destruct elapsed; [split_and!; [done|done|done|lia]|split; [done|lia]].
Qed.

(** from boot to final status: with a configuration loaded from any
    environment, a boot either panics - exactly when a shard count or the
    channel buffer is zero, a signer cannot load its keys, the concurrency
    exceeds what a semaphore can hold, or Redis cannot be reached - or builds an orchestrator all of whose
    submissions, whatever the actors answer, run a pipeline that settles with
    exactly one final status. *)
Theorem cortex_submissions_settle env sp pc redis maxp c :
  from_env env = Ok c →
  match spawn_cortex env sp pc redis maxp c with
  | None => 0 ∈ shard_settings c ∨ actor_buffer c = 0 ∨ signer_fails sp c ∨
            maxp < pipeline_concurrency c ∨ redis (redis_url env) = None
  | Some (orch, permits) =>
      Forall (λ n, 0 < n) (shard_settings c) ∧ permits = pipeline_concurrency c ∧
      ∀ e txn client w, settles (submit_ctx orch e txn client) w
  end.
Proof.
  intros Hc.
  destruct (from_env_settings env c Hc) as [Hpos Hretry]. pose proof (spawn_cortex_None env sp pc redis maxp c Hpos) as Hnone.
  destruct (spawn_cortex env sp pc redis maxp c) as [[orch permits]|] eqn:Hs; [|by apply Hnone].
  destruct (spawn_cortex_Some _ _ _ _ _ _ _ _ Hs) as (_ & Hp & _).
  split_and!; [|done|].
  - apply list.Forall_forall. intros n Hn. rewrite list.Forall_forall in Hpos. specialize (Hpos n Hn).
    assert (n ≠ 0); [|lia]. intros ->. destruct Hnone as [_ Hnone]. discriminate Hnone. by left.
  - intros e txn client w. by eapply submission_settles.
Qed.
End cortex.

Definition toy_spawners : Spawners :=
  mkSpawners (λ _, toy_relay) (λ _, toy_nonce) (λ _, Some toy_signer) (λ _, toy_broadcaster)
    (λ _, toy_validator NotIncluded).
Definition toy_endpoints : EndpointSource ToyWorld := mkEndpointSource (λ _ _, cret (Ok (Some 0%nat))).
Definition toy_redis (url : string) : option (StateStore ToyWorld) :=
  if decide (url = "redis://localhost:6379") then Some toy_store else None.
Definition no_env : Env := λ _, None.
Definition toy_config : CortexConfig :=
  mkCortexConfig 2 3 1 1 1 8 1 (from_millis 10) RetryConfig_default.
Definition toy_tx : Eip1559Transaction := px_txn (toy_ctx NotIncluded).
Definition toy_client : ClientConfig := px_client_config (toy_ctx NotIncluded).

(** With one permit, the second submission waits and then times out. *)
Lemma cortex_bounded_concurrency_witness :
  ∃ orch permits s1,
    spawn_cortex no_env toy_spawners toy_endpoints toy_redis 100 toy_config = Some (orch, permits) ∧
    submit orch false (mkExecutionId 1) toy_tx toy_client (mkSystem permits [] toy_world) = Some (Ok tt, s1) ∧
    Z.of_nat (length (sys_running s1)) ≤ 1 ∧
    match submit orch true (mkExecutionId 2) toy_tx toy_client s1 with
    | Some (Ok _, s') =>
        0 < sys_permits s1 ∧ sys_running s' = sys_running s1 ++ [submit_ctx orch (mkExecutionId 2) toy_tx toy_client] ∧
        sys_world s' = ss_set (cx_status_registry orch) (mkExecutionId 2) PermitAquired (sys_world s1)
    | Some (Err err, s') =>
        s' = s1 ∧ true = true ∧ is_transient err = true ∧ Z.of_nat (length (sys_running s1)) = 1
    | None => true = false ∧ Z.of_nat (length (sys_running s1)) = 1
    end.
Proof.
  eexists _, _, _. split; [reflexivity|]. split; [reflexivity|].
  eapply (cortex_bounded_concurrency no_env toy_spawners toy_endpoints toy_redis 100 toy_config);
    [done|reflexivity|].
  eapply reachable_step; [apply reachable_start|].
  apply (step_submit _ false (mkExecutionId 1) toy_tx toy_client (Ok tt)). reflexivity.
Defined.

Lemma cortex_submissions_settle_witness :
  ∃ orch,
    spawn_cortex no_env toy_spawners toy_endpoints toy_redis 1000
      (mkCortexConfig 17 17 17 17 17 256 200 (from_millis 5000) RetryConfig_default) = Some (orch, 200) ∧
    ∀ e txn client w, settles (submit_ctx orch e txn client) w.
Proof.
  eexists. split; [reflexivity|].
  exact (proj2 (proj2 (cortex_submissions_settle no_env toy_spawners toy_endpoints toy_redis 1000 _ eq_refl))).
Defined.
