(* ===== verification/Compose.v ===== *)
(** * The program as one system

    The actors of [Nonce.v] .. [RelayHost.v], the RPC interface and the status
    registry in one world, their handles as the traits of the pipeline, and
    the orchestrator booted over them.  Each actor's mailbox has a script of
    what its channel does with the next calls: which commands of other
    pipelines are served first, whether the actor is gone or drops the
    reply; each table has its own script of interference ([Sql.v]). *)

From S2P Require Import Prelude Types Retry Sql Actor Nonce NonceSpec NonceProps Rlp Eip1559 Custody Lease Sign Pool RpcClient RpcApi Broadcast Validator RelayHost Shard CortexError Status Pipeline PipelineProps Keeps Config Cortex.

(** ** The RPC side *)

Class EndpointApi (R : Type) :=
  api_acquire_endpoint : ChainId → Z → Comp R (result (option nat) LobbyRpcError).

#[export] Instance client_endpoints {P N} (lag delay : Z) : EndpointApi (RpcWorld P N) :=
  acquire_healthy_endpoint lag delay.
#[export] Instance fake_endpoints : EndpointApi FakeRpc := λ _ _, cret (Ok (Some 0%nat)).

(** A network that counts transactions with unsigned numbers. *)
Class RpcSane (R : Type) `{RpcApi R, EndpointApi R} := {
  rpc_sane : R → Prop;
  rs_send c st b t : keeps rpc_sane (λ _, True) (api_send_raw_transaction c st b t);
  rs_count c st a t :
    keeps rpc_sane (λ r, match r with Ok n => 0 ≤ nonce_u256 n | Err _ => True end)
      (api_get_transaction_count c st a t);
  rs_receipt c st h t : keeps rpc_sane (λ _, True) (api_get_transaction_receipt c st h t);
  rs_block c st t : keeps rpc_sane (λ _, True) (api_get_block_number c st t);
  rs_sleep d r : rpc_sane r → rpc_sane (api_sleep d r);
  rs_acquire c t : keeps rpc_sane (λ _, True) (api_acquire_endpoint c t)
}.

Definition counts_ok (l : list (result TxNonce LobbyRpcError)) : Prop :=
  Forall (λ r, match r with Ok n => 0 ≤ nonce_u256 n | Err _ => True end) l.

#[export] Instance fake_sane : RpcSane FakeRpc.
Proof.
  refine {| rpc_sane w := counts_ok (fk_counts w) |}; try done.
  intros c st a t w Hw. simpl. destruct Hw as [|r l Hr Hl]; simpl; [by split; [constructor|]|by split].
Defined.

(** The client of [RpcClient.v] over providers whose transaction counts are
    unsigned. *)
Class ProviderCounts {P N} `{ProviderOps P N} : Prop :=
  pt_count p a s : match (pr_transaction_count_pending p a s).1 with Ok n => 0 ≤ n | Err _ => True end.

Lemma execute_unary_result {P N A} lag delay actor c sticky timeout
    (op : P → Comp (N * Z) (result A string)) (w : RpcWorld P N) (Q : A → Prop) :
  (∀ p s, match (op p s).1 with Ok a => Q a | Err _ => True end) →
  match (execute_unary lag delay actor c sticky timeout op w).1 with Ok a => Q a | Err _ => True end.
Proof.
  intros Hop. unfold execute_unary. destruct (acquire_unary_context _ _ _ _ _ _ w) as [[ctx|e] w1]; [|done].
  unfold run_operation. specialize (Hop (uc_provider ctx) (rw_net w1, rw_clock w1)).
  destruct (op _ _) as [res [net clock]]. by destruct res.
Qed.

#[export] Instance client_sane {P N} `{ProviderCounts P N} lag delay :
  RpcSane (RpcWorld P N) (H := client_api lag delay) (H0 := client_endpoints lag delay).
Proof.
  refine {| rpc_sane _ := True |}; try done. intros c st a t w _. split; [done|].
  simpl. unfold get_transaction_count, cbind_ok, cmap_err.
  pose proof (execute_unary_result lag delay Broadcast c (sticky_of st) t
    (λ p, pr_transaction_count_pending p a) w (λ n, 0 ≤ n)) as Hq.
  destruct (execute_unary _ _ _ _ _ _ _ w) as [[n|e] w1]; simpl in *; [|done].
  apply Hq. intros p s. apply pt_count.
Defined.

(** ** The world *)

Section compose.
Context {R : Type} `{RpcApi R, EndpointApi R}.

(** What the channels of the actors do with the calls to come. *)
Record Mail := mkMail {
  ml_relay : list (delivery (S := RelayDb) (Cmd := RelayHostCommand));
  ml_nonce : list (delivery (S := NonceDb) (Cmd := NonceCommand));
  ml_sign : list (delivery (S := SignDb) (Cmd := SignCommand));
  ml_broadcast : list (delivery (S := (Db BroadcastRow * R)%type) (Cmd := BroadcastCommand));
  ml_validator : list (delivery (S := (Db ValidationRow * R)%type) (Cmd := ValidatorCommand))
}.

Record World := mkWorld {
  w_relay : RelayDb;
  w_nonce : NonceDb;
  w_sign : SignDb;
  w_broadcast : Db BroadcastRow;
  w_validation : Db ValidationRow;
  w_rpc : R;
  w_registry : StatusRegistry;
  w_mail : Mail;
  w_draws : list Z
}.

(** A part of the world, and a computation on it. *)
Record Part (S : Type) := mkPart { part_get : World → S; part_put : S → World → World }.
Arguments mkPart {S}. Arguments part_get {S}. Arguments part_put {S}.

Definition at_part {S A} (p : Part S) (c : Comp S A) : Comp World A :=
  λ w, let '(a, s) := c (part_get p w) in (a, part_put p s w).

Definition set_mail (m : Mail) (w : World) : World :=
  mkWorld (w_relay w) (w_nonce w) (w_sign w) (w_broadcast w) (w_validation w) (w_rpc w) (w_registry w) m (w_draws w).

Definition relay_part : Part RelayDb := mkPart w_relay (λ s w,
  mkWorld s (w_nonce w) (w_sign w) (w_broadcast w) (w_validation w) (w_rpc w) (w_registry w) (w_mail w) (w_draws w)).
Definition nonce_part : Part NonceDb := mkPart w_nonce (λ s w,
  mkWorld (w_relay w) s (w_sign w) (w_broadcast w) (w_validation w) (w_rpc w) (w_registry w) (w_mail w) (w_draws w)).
Definition sign_part : Part SignDb := mkPart w_sign (λ s w,
  mkWorld (w_relay w) (w_nonce w) s (w_broadcast w) (w_validation w) (w_rpc w) (w_registry w) (w_mail w) (w_draws w)).
Definition broadcast_part : Part (Db BroadcastRow * R) := mkPart (λ w, (w_broadcast w, w_rpc w)) (λ s w,
  mkWorld (w_relay w) (w_nonce w) (w_sign w) s.1 (w_validation w) s.2 (w_registry w) (w_mail w) (w_draws w)).
Definition validation_part : Part (Db ValidationRow * R) := mkPart (λ w, (w_validation w, w_rpc w)) (λ s w,
  mkWorld (w_relay w) (w_nonce w) (w_sign w) (w_broadcast w) s.1 s.2 (w_registry w) (w_mail w) (w_draws w)).
Definition rpc_part : Part R := mkPart w_rpc (λ s w,
  mkWorld (w_relay w) (w_nonce w) (w_sign w) (w_broadcast w) (w_validation w) s (w_registry w) (w_mail w) (w_draws w)).
Definition registry_part : Part StatusRegistry := mkPart w_registry (λ s w,
  mkWorld (w_relay w) (w_nonce w) (w_sign w) (w_broadcast w) (w_validation w) (w_rpc w) s (w_mail w) (w_draws w)).
Definition draws_part : Part (list Z) := mkPart w_draws (λ s w,
  mkWorld (w_relay w) (w_nonce w) (w_sign w) (w_broadcast w) (w_validation w) (w_rpc w) (w_registry w) (w_mail w) s).

(** The next delivery of a mailbox; a used-up script serves every call at
    once. *)
Definition receive {S Cmd} (get : Mail → list (delivery (S := S) (Cmd := Cmd)))
    (put : list (delivery (S := S) (Cmd := Cmd)) → Mail → Mail) : Comp World (delivery (S := S) (Cmd := Cmd)) :=
  λ w, (default (Queued []) (head (get (w_mail w))), set_mail (put (tail (get (w_mail w))) (w_mail w)) w).

Definition receive_relay := receive ml_relay (λ l m,
  mkMail l (ml_nonce m) (ml_sign m) (ml_broadcast m) (ml_validator m)).
Definition receive_nonce := receive ml_nonce (λ l m,
  mkMail (ml_relay m) l (ml_sign m) (ml_broadcast m) (ml_validator m)).
Definition receive_sign := receive ml_sign (λ l m,
  mkMail (ml_relay m) (ml_nonce m) l (ml_broadcast m) (ml_validator m)).
Definition receive_broadcast := receive ml_broadcast (λ l m,
  mkMail (ml_relay m) (ml_nonce m) (ml_sign m) l (ml_validator m)).
Definition receive_validator := receive ml_validator (λ l m,
  mkMail (ml_relay m) (ml_nonce m) (ml_sign m) (ml_broadcast m) l).

(** Time passes for everyone: a sleep in nanoseconds. *)
Definition pass {Row} (d : Z) (db : Db Row) : Db Row :=
  mkDb (db_rows db) (db_clock db + Z.max 0 d / 1000) (db_script db).
Definition pass_all (d : Z) (w : World) : World :=
  mkWorld (pass d (w_relay w)) (pass d (w_nonce w)) (pass d (w_sign w)) (pass d (w_broadcast w))
    (pass d (w_validation w)) (api_sleep d (w_rpc w)) (w_registry w) (w_mail w) (w_draws w).

#[export] Instance world_runtime : Runtime World := {|
  rt_gen_range b w :=
    (Z.max 0 (Z.min b (default 0 (head (w_draws w)))), part_put draws_part (tail (w_draws w)) w);
  rt_sleep := pass_all
|}.

#[export] Instance world_runtime_laws : RuntimeLaws World.
Proof. split. intros b w Hb. simpl. lia. Qed.

(** ** The handles *)

Context {St : Type} `{RlpStream St} `{Crypto} `{HexOps} `{AddressOps}.
Context (custody_keys : JsonPolicyEngine) (validator_config : ValidatorConfig).

(** Source: [crate/actors/src/relayhost/mod.rs] lines 12-21, [spawn_relayhost_actor]. *)
Definition relay_handle : IntentRelay World := mkIntentRelay (λ e txn client,
  d <~ receive_relay ;; at_part relay_part (relayhost_register d e txn client)).

(** Source: [crate/actors/src/nonce/mod.rs] lines 12-21, [spawn_nonce_actor]. *)
Definition nonce_handle : NonceManager World := mkNonceManager
  (λ c from e, d <~ receive_nonce ;; at_part nonce_part (nonce_handle_reserve d c from e))
  (λ e st, d <~ receive_nonce ;; at_part nonce_part (nonce_handle_resolve d e st))
  (λ c from e n, d <~ receive_nonce ;; at_part nonce_part (nonce_handle_sync d c from e n)).

(** Source: [crate/actors/src/sign/mod.rs] lines 13-22, [spawn_sign_actor]. *)
Definition sign_handle : Signer World := mkSigner
  (λ c from e txn, d <~ receive_sign ;;
     at_part sign_part (sign_handle_sign (St := St) custody_keys d c from e txn))
  (λ e, d <~ receive_sign ;; at_part sign_part (sign_handle_revert (St := St) custody_keys d e)).

(** Source: [crate/actors/src/broadcast/mod.rs] lines 14-27, [spawn_broadcast_actor]. *)
Definition broadcaster_handle : Broadcaster World := mkBroadcaster (λ c from e txn i,
  d <~ receive_broadcast ;; at_part broadcast_part (broadcast_handle d c from e txn i)).

(** Source: [crate/actors/src/validator/mod.rs] lines 78-92, [spawn_validator_actor]. *)
Definition validation_handle : Validator World := mkValidator (λ c e hash i,
  d <~ receive_validator ;; at_part validation_part (validator_handle validator_config d c e hash i)).

(** Source: [crate/cortex/src/artifacts/state.rs] lines 120-194, [StateStore for StatusRegistry]. *)
Definition registry_store : StateStore World := mkStateStore
  (λ e st w, part_put registry_part (registry_set e st (w_registry w)) w)
  (λ e w, registry_get e (w_registry w))
  (λ e w, part_put registry_part (registry_remove e (w_registry w)) w).

Definition rpc_endpoints : EndpointSource World :=
  mkEndpointSource (λ c t, at_part rpc_part (api_acquire_endpoint c t)).

(** Source: [crate/cortex/src/lib.rs] lines 184-263, [spawn_cortex (actor shards)].
    Every shard of an actor works on the same tables; [custody_keys] is what
    [SignEngine::new] loaded. *)
Definition actor_spawners : Spawners := mkSpawners (λ _, relay_handle) (λ _, nonce_handle)
  (λ _, Some sign_handle) (λ _, broadcaster_handle) (λ _, validation_handle).

(** Source: [lobby/src/main.rs] lines 118-127, [main (spawn_cortex)].
    The orchestrator over the actors. *)
Definition boot `{U256Hash} (env : Env) (redis_up : bool) (max_permits : Z) (config : CortexConfig) :
    option (Cortex (W := World) * Z) :=
  spawn_cortex env actor_spawners rpc_endpoints (λ _, if redis_up then Some registry_store else None)
    max_permits config.

End compose.
Arguments mkPart {R S}. Arguments part_get {R S}. Arguments part_put {R S}.

(** ** What every actor keeps *)

Section keep_parts.
Abbreviation any := (λ _, True).

(** A table that satisfies the constraints of its migration. *)
Definition table_ok {Row} `{SqlTable Row} (db : Db Row) : Prop := t_ok (db_rows db) = true.

Lemma keeps_stmt {Row A} `{SqlTable Row} (b : Z → (Row → bool) → list Row → result (A * list Row) SqlxError) :
  keeps table_ok any (stmt b).
Proof. intros db Hdb. split; [by apply stmt_ok|done]. Qed.

Lemma keeps_on_fst {S T A} (I : S → Prop) (J : T → Prop) (Q : A → Prop) (c : Comp S A) :
  keeps I Q c → keeps (λ w, I w.1 ∧ J w.2) Q (on_fst c).
Proof.
  intros Hc w [Hi Hj]. unfold on_fst. destruct (Hc w.1 Hi) as [Hi' Hq]. by destruct (c w.1).
Qed.

Lemma keeps_on_snd {S T A} (I : S → Prop) (J : T → Prop) (Q : A → Prop) (c : Comp T A) :
  keeps J Q c → keeps (λ w, I w.1 ∧ J w.2) Q (on_snd c).
Proof.
  intros Hc w [Hi Hj]. unfold on_snd. destruct (Hc w.2 Hj) as [Hj' Hq]. by destruct (c w.2).
Qed.

(** A delivery whose commands are fine, and whose crash leaves a fine state. *)
Definition delivery_ok {S Cmd} (I : S → Prop) (ok : Cmd → Prop) (d : delivery (S := S) (Cmd := Cmd)) : Prop :=
  match d with
  | Shutdown => True
  | Queued ahead => Forall ok ahead
  | ReplyDropped after => ∀ s, I s → I (after s)
  end.

Lemma keeps_handle_call {S Cmd Reply A E} (I : S → Prop) (ok : Cmd → Prop) (QR : Reply → Prop)
    (Q : result A E → Prop) (dispatch : Cmd → Comp S Reply) closed dropped take d cmd :
  (∀ cmd, ok cmd → keeps I QR (dispatch cmd)) → delivery_ok I ok d → ok cmd →
  Q (Err closed) → Q (Err dropped) → (∀ r a, QR r → take r = Some a → Q a) →
  keeps I Q (handle_call dispatch closed dropped take d cmd).
Proof.
  intros Hd Hok Hcmd Hc Hdr Ht. destruct d as [|ahead|after]; simpl.
  - by apply keeps_ret.
  - apply keeps_bind with (P := any).
    + intros s Hs. split; [|done]. apply run_loop_invariant; [|done]. intros cmd' s' Hin Hs'.
      apply Hd; [|done]. by apply (proj1 (list.Forall_forall _ _) Hok).
    + intros _ _. apply (keeps_bind _ _ _ _ _ (Hd cmd Hcmd)). intros r Hr. apply keeps_ret.
      destruct (take r) eqn:Htr; [by eapply Ht|done].
  - intros s Hs. split; [by apply Hok|done].
Qed.

(** Through a handler, statement by statement. *)
Ltac keep_handler :=
  repeat first
    [ progress intros
    | apply keeps_ret; done
    | eapply keeps_mono; [apply keeps_stmt|by intros []]
    | match goal with
      | |- keeps _ _ (match ?x with _ => _ end) => destruct x
      | |- keeps _ _ (let '(_, _) := ?x in _) => destruct x
      | |- keeps _ _ (clift _) => apply keeps_ret
      | |- keeps _ _ (cret _) => apply keeps_ret
      | |- keeps _ _ (cmap_err _ _) => apply keeps_map_err
      | |- keeps _ _ (cbind_ok _ _) => apply keeps_bind_ok with (P := any)
      | |- keeps _ _ (cbind _ _) => apply keeps_bind with (P := any)
      | |- keeps _ _ (on_fst _) => apply keeps_on_fst
      end
    | solve [unfold result_of_option; repeat case_match; simplify_eq/=; done] ].

Lemma relayhost_dispatch_keeps cmd : keeps table_ok any (relayhost_dispatch cmd).
Proof. destruct cmd as [e txn client]. cbn [relayhost_dispatch]. unfold handle_submit_transaction. keep_handler. Qed.

Lemma sign_dispatch_keeps {St} `{RlpStream St, Crypto, HexOps, AddressOps} keys cmd :
  keeps table_ok any (sign_dispatch (St := St) keys cmd).
Proof.
  destruct cmd as [from c e txn|e]; cbn [sign_dispatch].
  - unfold handle_sign, sign_and_record. keep_handler.
  - unfold handle_revert. keep_handler.
Qed.

Section rpc_actors.
Context {R : Type} `{RpcSane R}.

(** A table and the network. *)
Definition side_ok {Row} `{SqlTable Row} (w : Db Row * R) : Prop := table_ok w.1 ∧ rpc_sane w.2.

Lemma keeps_rpc {Row A} `{SqlTable Row} (Q : A → Prop) (c : Comp R A) :
  keeps rpc_sane Q c → keeps (side_ok (Row := Row)) Q (on_snd c).
Proof. apply keeps_on_snd. Qed.

Lemma keeps_db {Row A} `{SqlTable Row} (Q : A → Prop) (c : Comp (Db Row) A) :
  keeps table_ok Q c → keeps side_ok Q (on_fst c).
Proof. apply keeps_on_fst. Qed.

Ltac keep_rpc :=
  repeat first
    [ progress intros
    | apply keeps_ret; done
    | eapply keeps_mono; [apply keeps_stmt|by intros []]
    | match goal with
      | |- keeps _ _ (match ?x with _ => _ end) => destruct x
      | |- keeps _ _ (clift _) => apply keeps_ret
      | |- keeps _ _ (cmap_err _ _) => apply keeps_map_err
      | |- keeps _ _ (cbind_ok _ _) => apply keeps_bind_ok with (P := any)
      | |- keeps _ _ (cbind _ _) => apply keeps_bind with (P := any)
      | |- keeps _ _ (on_fst _) => apply keeps_db
      | |- keeps _ _ (on_snd _) => apply keeps_rpc
      end
    | eapply keeps_mono; [first [apply rs_send|apply rs_receipt|apply rs_block]|by intros []]
    | solve [unfold result_of_option; repeat case_match; simplify_eq/=; done] ].

Lemma keeps_fetch_nonce c from i :
  keeps side_ok (λ r, match r with Ok n => 0 ≤ nonce_u256 n | Err e => reports (λ n, 0 ≤ nonce_u256 n) (Err e) end)
    (fetch_current_nonce c from i).
Proof.
  apply keeps_rpc, keeps_map_err. eapply keeps_mono; [apply rs_count|]. by intros [].
Qed.

(** A [NonceTooLow] names an unsigned nonce. *)
Lemma broadcast_dispatch_keeps cmd :
  keeps side_ok (reports (λ n, 0 ≤ nonce_u256 n)) (broadcast_dispatch cmd).
Proof.
  destruct cmd as [c from e txn i]. cbn [broadcast_dispatch]. unfold handle_broadcast.
  apply keeps_bind_ok with (P := any); [keep_rpc|]. intros chain _.
  apply keeps_bind_ok with (P := any); [keep_rpc|]. intros [rev|] _; unfold broadcast_send.
  - apply keeps_bind with (P := any); [keep_rpc|]. intros [hash|err] _; [keep_rpc|]. cbv zeta.
    destruct (is_nonce_error _); [|keep_rpc].
    apply (keeps_bind_ok _ _ _ _ _ (keeps_fetch_nonce c from i)). intros n Hn.
    apply keeps_bind_ok with (P := any); [keep_rpc|]. intros _ _. by apply keeps_ret.
  - apply keeps_bind_ok with (P := any); [keep_rpc|]. intros row _. apply keeps_ret.
    unfold broadcast_existing. repeat case_match; done.
Qed.

Lemma poll_loop_keeps config fuel start c e h i :
  keeps (side_ok (Row := ValidationRow)) any (poll_loop config fuel start c e h i).
Proof.
  induction fuel as [|fuel IH]; [by apply keeps_ret|]. cbn [poll_loop].
  apply keeps_bind with (P := any); [by intros w Hw|]. intros now _.
  destruct (_ <? _); [unfold record_outcome; keep_rpc|].
  apply keeps_bind with (P := any); [unfold poll_once, record_outcome; keep_rpc|].
  intros [r|] _; [by apply keeps_ret|].
  apply keeps_bind with (P := any); [|intros _ _; apply IH].
  intros w [Ht Hr]. split; [split; [done|by apply rs_sleep]|done].
Qed.

Lemma validator_dispatch_keeps config cmd : keeps side_ok any (validator_dispatch config cmd).
Proof.
  destruct cmd as [c e h i]. cbn [validator_dispatch]. unfold handle_validation.
  apply keeps_bind with (P := any); [unfold check_cached_result; keep_rpc|].
  intros [[o|]|err] _; [by apply keeps_ret| |by apply keeps_ret].
  apply keeps_bind with (P := any); [unfold record_validation_request; keep_rpc|].
  intros [u|err] _; [|by apply keeps_ret].
  apply keeps_bind with (P := any); [by intros w Hw|]. intros start _. apply poll_loop_keeps.
Qed.
End rpc_actors.
End keep_parts.

(** ** The invariant of the world *)

Section safety.
Context {R : Type} `{RpcSane R}.
Context {St : Type} `{RlpStream St} `{Crypto} `{HexOps} `{AddressOps} `{U256Hash}.
Context (custody_keys : JsonPolicyEngine) (validator_config : ValidatorConfig).
Abbreviation any := (λ _, True).
Abbreviation World := (World (R := R)).
Abbreviation unsigned := (λ n : TxNonce, 0 ≤ nonce_u256 n).
Abbreviation boot := (boot (St := St) custody_keys validator_config).

Record mail_ok (m : Mail (R := R)) : Prop := {
  mo_relay : Forall (delivery_ok table_ok any) (ml_relay m);
  mo_nonce : Forall (delivery_ok db_reachable nonce_command_ok) (ml_nonce m);
  mo_sign : Forall (delivery_ok table_ok any) (ml_sign m);
  mo_broadcast : Forall (delivery_ok side_ok any) (ml_broadcast m);
  mo_validator : Forall (delivery_ok side_ok any) (ml_validator m)
}.

Record world_ok (w : World) : Prop := {
  wo_relay : table_ok (w_relay w);
  wo_nonce : db_reachable (w_nonce w);
  wo_sign : table_ok (w_sign w);
  wo_broadcast : table_ok (w_broadcast w);
  wo_validation : table_ok (w_validation w);
  wo_rpc : rpc_sane (w_rpc w);
  wo_mail : mail_ok (w_mail w)
}.

(** A call on a part, behind the next delivery of its mailbox. *)
Lemma keeps_part {S A D} (p : Part S) (J : S → Prop) (ok : D → Prop) (recv : Comp World D)
    (Q : A → Prop) (c : D → Comp S A) :
  (∀ w, world_ok w → J (part_get p w)) →
  (∀ w s, world_ok w → J s → world_ok (part_put p s w)) →
  keeps world_ok ok recv → (∀ d, ok d → keeps J Q (c d)) →
  keeps world_ok Q (d <~ recv ;; at_part p (c d)).
Proof.
  intros Hget Hput Hrecv Hc. apply (keeps_bind _ _ _ _ _ Hrecv). intros d Hd w Hw.
  unfold at_part. destruct (Hc d Hd _ (Hget w Hw)) as [Hs Hq]. destruct (c d (part_get p w)) as [a s].
  split; [by apply Hput|done].
Qed.

Lemma world_ok_mail w m : world_ok w → mail_ok m → world_ok (set_mail m w).
Proof. by intros [] Hm. Qed.

(** A script whose deliveries are all fine hands out a fine one. *)
Lemma script_head {S Cmd} (I : S → Prop) (ok : Cmd → Prop) (l : list delivery) :
  Forall (delivery_ok I ok) l →
  delivery_ok I ok (default (Queued []) (head l)) ∧ Forall (delivery_ok I ok) (tail l).
Proof. destruct 1; simpl; [by split; constructor|done]. Qed.

Ltac receive_ok mo :=
  intros w Hw; destruct (script_head _ _ _ (mo _ (wo_mail _ Hw))) as [Hd Ht]; split; [|exact Hd];
  apply world_ok_mail; [done|]; destruct (wo_mail _ Hw); by split.

Lemma receive_relay_ok : keeps world_ok (delivery_ok table_ok any) receive_relay.
Proof. receive_ok mo_relay. Qed.
Lemma receive_nonce_ok : keeps world_ok (delivery_ok db_reachable nonce_command_ok) receive_nonce.
Proof. receive_ok mo_nonce. Qed.
Lemma receive_sign_ok : keeps world_ok (delivery_ok table_ok any) receive_sign.
Proof. receive_ok mo_sign. Qed.
Lemma receive_broadcast_ok : keeps world_ok (delivery_ok side_ok any) receive_broadcast.
Proof. receive_ok mo_broadcast. Qed.
Lemma receive_validator_ok : keeps world_ok (delivery_ok side_ok any) receive_validator.
Proof. receive_ok mo_validator. Qed.

Lemma nonce_call_keeps {A E} closed dropped (take : NonceReply → option (result A E)) cmd :
  nonce_command_ok cmd →
  keeps world_ok any (d <~ receive_nonce ;;
    at_part nonce_part (handle_call nonce_dispatch closed dropped take d cmd)).
Proof.
  intros Hcmd. apply (keeps_part _ db_reachable (delivery_ok db_reachable nonce_command_ok)).
  - by intros w [].
  - intros w s [] Hs. by split.
  - apply receive_nonce_ok.
  - intros d Hd. apply keeps_handle_call with (ok := nonce_command_ok) (QR := any); try done.
    intros cmd' Hok s Hs. split; [|done]. apply refines_reachable; [by apply nonce_dispatch_refines|done].
Qed.

#[export] Instance nonce_handle_keeps : NonceKeeps world_ok unsigned nonce_handle.
Proof. split; intros; by apply nonce_call_keeps. Qed.

Lemma sign_call_keeps {A E} closed dropped (take : SignReply → option (result A E)) cmd :
  keeps world_ok any (d <~ receive_sign ;;
    at_part sign_part (handle_call (sign_dispatch (St := St) custody_keys) closed dropped take d cmd)).
Proof.
  apply (keeps_part _ table_ok (delivery_ok table_ok any)).
  - by intros w [].
  - intros w s [] Hs. by split.
  - apply receive_sign_ok.
  - intros d Hd. apply keeps_handle_call with (ok := any) (QR := any); try done.
    intros cmd' _. apply sign_dispatch_keeps.
Qed.

#[export] Instance sign_handle_keeps : SignKeeps world_ok (sign_handle (St := St) custody_keys).
Proof. split; intros; apply sign_call_keeps. Qed.

#[export] Instance relay_handle_keeps : RelayKeeps world_ok relay_handle.
Proof.
  intros e txn client. apply (keeps_part _ table_ok (delivery_ok table_ok any)).
  - by intros w [].
  - intros w s [] Hs. by split.
  - apply receive_relay_ok.
  - intros d Hd. apply keeps_handle_call with (ok := any) (QR := any); try done.
    intros cmd' _. apply relayhost_dispatch_keeps.
Qed.

#[export] Instance broadcaster_handle_keeps : BroadcastKeeps world_ok unsigned broadcaster_handle.
Proof.
  intros c from e txn i. apply (keeps_part _ side_ok (delivery_ok side_ok any)).
  - by intros w [].
  - intros w s [] [Hs Hr]. by split.
  - apply receive_broadcast_ok.
  - intros d Hd. apply keeps_handle_call with (ok := any) (QR := reports unsigned); try done.
    + intros cmd' _. apply broadcast_dispatch_keeps.
    + by intros r a Hr [= <-].
Qed.

#[export] Instance validation_handle_keeps : ValidateKeeps world_ok (validation_handle validator_config).
Proof.
  intros c e hash i. apply (keeps_part _ side_ok (delivery_ok side_ok any)).
  - by intros w [].
  - intros w s [] [Hs Hr]. by split.
  - apply receive_validator_ok.
  - intros d Hd. apply keeps_handle_call with (ok := any) (QR := any); try done.
    intros cmd' _. apply validator_dispatch_keeps.
Qed.

#[export] Instance registry_store_keeps : StoreKeeps world_ok registry_store.
Proof. intros e st w []. by split. Qed.

#[export] Instance rpc_endpoints_keep : EndpointsKeep world_ok rpc_endpoints.
Proof.
  intros c t w Hw. simpl. unfold at_part. destruct (rs_acquire c t _ (wo_rpc _ Hw)) as [Hr _].
  simpl. destruct (api_acquire_endpoint c t (w_rpc w)). split; [|done]. destruct Hw. by split.
Qed.

Lemma pass_reachable d (db : NonceDb) : db_reachable db → db_reachable (pass d db).
Proof.
  intros [[Hs Ht] Hr]. split; [done|]. eapply rtc_r; [exact Hr|].
  apply nstep_tick. simpl. pose proof (Z.div_pos (Z.max 0 d) 1000 ltac:(lia) ltac:(lia)). lia.
Qed.

#[export] Instance world_runtime_keeps : RuntimeKeeps world_ok.
Proof.
  split.
  - intros b w []. by split.
  - intros d w []. split; try done; [by apply pass_reachable|by apply rs_sleep].
Qed.

(** ** A booted orchestrator *)

Lemma spawn_pool_all {T} shards buffer (spawn : nat → option T) pool (P : T → Prop) :
  spawn_pool shards buffer spawn = Some pool → (∀ i h, spawn i = Some h → P h) → Forall P (Shard.shards pool).
Proof.
  intros (_ & _ & _ & _ & Hh)%spawn_pool_Some HP. apply list.Forall_forall. intros h Hin.
  destruct (Hh h Hin) as [i Hi]. by apply (HP i).
Qed.

Lemma boot_keeps env redis_up maxp config orch permits e txn client :
  boot env redis_up maxp config = Some (orch, permits) →
  ctx_keeps world_ok unsigned (submit_ctx orch e txn client).
Proof.
  unfold Compose.boot, spawn_cortex. cbn [sp_relayhost sp_nonce sp_sign sp_broadcast sp_validator actor_spawners].
  intros Hb.
  repeat match type of Hb with (mbind _ ?o) = _ =>
    let Hp := fresh "Hp" in destruct o eqn:Hp; cbn [mbind option_bind] in Hb; [|done] end.
  injection Hb as <- <-. destruct redis_up; [|done]. simplify_eq.
  split; cbn [submit_ctx px_relayhost_pool px_nonce_pool px_sign_pool px_broadcast_pool px_validator_pool
    px_status px_rpc_client cx_relayhost cx_nonce cx_sign cx_broadcast cx_validator cx_status_registry
    cx_rpc_client]; try (by eapply spawn_pool_all; [eassumption|intros ? ? [= <-]; apply _]); apply _.
Qed.

(** What happens in the running program: a submission is recorded, a pipeline
    runs, new traffic reaches the mailboxes, the sweeper runs, time passes. *)
Inductive world_step (orch : Cortex (W := World)) : World → World → Prop :=
| ws_submitted e st w : world_step orch w (ss_set (cx_status_registry orch) e st w)
| ws_pipeline fuel e txn client w :
    world_step orch w (run_pipeline (submit_ctx orch e txn client) fuel w).2
| ws_traffic m w : mail_ok m → world_step orch w (set_mail m w)
| ws_sweeper n w : world_step orch w (at_part nonce_part (sweeper_bot n) w).2
| ws_time d w : world_step orch w (pass_all d w).

(** An empty database, with whatever will interfere. *)
Record booted (w : World) : Prop := {
  bt_rows : db_rows (w_relay w) = [] ∧ db_rows (w_sign w) = [] ∧ db_rows (w_broadcast w) = [] ∧
            db_rows (w_validation w) = [];
  bt_nonce : db_state (w_nonce w) = (0, []) ∧ Forall respectful (db_script (w_nonce w));
  bt_rpc : rpc_sane (w_rpc w);
  bt_mail : mail_ok (w_mail w)
}.

Lemma booted_ok w : booted w → world_ok w.
Proof.
  intros [(Hr1 & Hr2 & Hr3 & Hr4) [Hn Hs] Hr Hm]. unfold db_state in Hn. injection Hn as Hc Ht.
  split; try done; unfold table_ok.
  - by rewrite Hr1.
  - split; [split; [done|by rewrite Ht]|]. unfold db_state. rewrite Hc, Ht. apply rtc_refl.
  - by rewrite Hr2.
  - by rewrite Hr3.
  - by rewrite Hr4.
Qed.

Lemma sweeper_refines n : refines_steps (sweeper_bot n).
Proof.
  induction n as [|n IH]; [apply refines_cret|]. cbn [sweeper_bot].
  apply refines_cbind; [apply refines_sweep|].
  intros r. apply refines_cbind; [|intros _; apply refines_cbind; [done|intros; apply refines_cret]].
  intros db [Hs Ht]. split; [done|]. apply rtc_once, nstep_tick. simpl. unfold interval_secs. lia.
Qed.

Lemma world_step_ok orch w w' :
  (∀ e txn client, ctx_keeps world_ok unsigned (submit_ctx orch e txn client)) →
  world_step orch w w' → world_ok w → world_ok w'.
Proof.
  intros Hk Hs Hw. destruct Hs as [e st w|fuel e txn client w|m w Hm|n w|d w].
  - pose proof (Hk (mkExecutionId 0) (mkEip1559 (mkChainId 0) (mkTxNonce 0) 0 0 0 None 0 [] [])
      (mkClientConfig 0 [])) as Hc. by apply (ck_status _ _ _ Hc).
  - by apply (run_pipeline_keeps world_ok unsigned _ (Hk e txn client)).
  - by apply world_ok_mail.
  - unfold at_part. pose proof (refines_reachable _ _ (sweeper_refines n) (wo_nonce _ Hw)) as Hr.
    simpl. destruct (sweeper_bot n (w_nonce w)) as [a s]. simpl in *. destruct Hw. by split.
  - exact (rk_sleep world_ok d w Hw).
Qed.

(** Two rows of one execution that a lease table counts as active are one. *)
Definition one_active {Row} `{LeaseTable Row} (t : list Row) : Prop :=
  ∀ r1 r2, r1 ∈ t → r2 ∈ t → t_eid r1 = t_eid r2 → lt_active r1 = true → lt_active r2 = true → r1 = r2.

(** What the tables exclude: two active rows of an account with one nonce, two
    active requests of an execution in one table, two intents of one. *)
Definition exclusive (w : World) : Prop :=
  (∀ r1 r2, r1 ∈ db_rows (w_nonce w) → r2 ∈ db_rows (w_nonce w) →
     nonce_active (nr_state r1) = true → nonce_active (nr_state r2) = true →
     nr_account r1 = nr_account r2 → nr_nonce r1 = nr_nonce r2 → r1 = r2) ∧
  one_active (db_rows (w_sign w)) ∧ one_active (db_rows (w_broadcast w)) ∧
  one_active (db_rows (w_validation w)) ∧ NoDup (ti_execution_id <$> db_rows (w_relay w)).

Lemma world_ok_exclusive w : world_ok w → exclusive w.
Proof.
  intros [Hrel Hn Hs Hbr Hv _ _]. apply db_reachable_inv in Hn as [Hn _]. split_and!.
  - intros. by eapply active_rows_unique.
  - intros r1 r2 ?????. by apply (lt_active_unique (db_rows (w_sign w))).
  - intros r1 r2 ?????. by apply (lt_active_unique (db_rows (w_broadcast w))).
  - intros r1 r2 ?????. by apply (lt_active_unique (db_rows (w_validation w))).
  - by apply t_ok_intent in Hrel as [? _].
Qed.

(** the whole program, from an empty database: whatever the actors'
    channels do, however the statements of other connections, the sweeper and
    the other pipelines fall between those of a pipeline, whatever the network
    answers: after any number of pipelines no two rows of an account hold the
    same nonce actively, and every execution has at most one active signing
    request, one active broadcast request, one pending validation and one
    intent. *)
Theorem system_exclusive env redis_up maxp config orch permits w0 w :
  boot env redis_up maxp config = Some (orch, permits) →
  booted w0 → rtc (world_step orch) w0 w → exclusive w.
Proof.
  intros Hb Hw0 Hsteps. apply world_ok_exclusive. apply booted_ok in Hw0.
  induction Hsteps as [|w0 w1 w2 Hs _ IH]; [done|].
  apply IH. apply (world_step_ok orch w0); [|done|done]. intros. by eapply boot_keeps.
Qed.
End safety.

(** ** A small system *)

Definition demo_config : CortexConfig :=
  mkCortexConfig 2 3 2 1 2 8 4 (from_millis 10) RetryConfig_default.
Definition demo_boot : option (Cortex (W := World (R := FakeRpc)) * Z) :=
  boot (St := BStream) ex_policy ValidatorConfig_default (λ _, None) true 100 demo_config.
Definition demo_rpc : FakeRpc :=
  mkFakeRpc [Ok (replicate 32 (byte_of_Z 171))] [] [Ok None; Ok (Some (mkReceipt true (Some 7)))] [Ok 9] 0.
Definition demo_client : ClientConfig := mkClientConfig 1 [byte_of_Z 10].

(** Another pipeline's reservation is served before this one's. *)
Definition demo_mail : Mail (R := FakeRpc) :=
  mkMail [] [Queued [CmdReserve (mkChainId 1) [byte_of_Z 10] (mkExecutionId 8)]] [] [] [].
Definition demo_world : World (R := FakeRpc) :=
  mkWorld (mkDb [] 0 []) (mkDb [] 0 []) (mkDb [] 0 []) (mkDb [] 0 []) (mkDb [] 0 []) demo_rpc
    (mkStatusRegistry ∅ []) demo_mail [].

Lemma demo_booted : booted demo_world.
Proof.
  split; [by split_and!|by split|by constructor|]. split; try by constructor.
  repeat constructor.
Qed.

Definition demo_after (orch : Cortex (W := World (R := FakeRpc))) : World (R := FakeRpc) :=
  (run_pipeline (submit_ctx orch (mkExecutionId 9) ex_tx demo_client) 2 demo_world).2.

(** The second reservation gets the second nonce, and its transaction is
    confirmed. *)
Example demo_run :
  (λ o, let w := demo_after o.1 in
     (nr_nonce <$> db_rows (w_nonce w), nr_state <$> db_rows (w_nonce w),
      registry_get (mkExecutionId 9) (w_registry w))) <$> demo_boot =
  Some ([0; 1], [NReserved; NFinalized],
        Some (ConfirmedOnChain (fmt_hex (replicate 32 (byte_of_Z 171))))).
Proof. vm_compute. exact eq_refl. Qed.

Definition booted_up : bool := match demo_boot with Some _ => true | None => false end.

Lemma system_exclusive_witness :
  match demo_boot with
  | Some (orch, _) =>
      one_active (db_rows (w_sign (demo_after orch))) ∧
      NoDup (ti_execution_id <$> db_rows (w_relay (demo_after orch)))
  | None => False
  end.
Proof.
  destruct demo_boot as [[orch permits]|] eqn:Hb.
  - destruct (system_exclusive (St := BStream) ex_policy ValidatorConfig_default (λ _, None) true 100
      demo_config orch permits demo_world (demo_after orch) Hb demo_booted) as (_ & Hs & _ & _ & Hr);
      [apply rtc_once; constructor|by split].
  - assert (Hup : booted_up = true) by (vm_compute; exact eq_refl). unfold booted_up in Hup.
    rewrite Hb in Hup. discriminate.
Defined.
