(* ===== verification/Concurrent.v ===== *)
(** * The program with its pipelines running at the same time

    The system of [Compose.v] with the tasks of [Interleave.v]: submissions
    take permits and spawn tasks, the tasks take turns in any order, one call
    each, an ended task gives its permit back; traffic, the sweeper and time
    come in between. *)

From S2P Require Import Prelude Types Retry Sql Actor Nonce NonceSpec NonceProps Rlp Eip1559 Custody Lease Sign Pool RpcClient RpcApi Broadcast Validator RelayHost Shard CortexError Status Pipeline PipelineSpec Protocol Erasure Refine PipelineProps Keeps Interleave Schedule Config Cortex Compose.

Section concurrent.
Context {R : Type} `{RpcSane R}.
Context {St : Type} `{RlpStream St} `{Crypto} `{HexOps} `{AddressOps} `{U256Hash}.
Context (custody_keys : JsonPolicyEngine) (validator_config : ValidatorConfig).
Abbreviation World := (World (R := R)).
Abbreviation unsigned := (λ n : TxNonce, 0 ≤ nonce_u256 n).
Abbreviation boot := (boot (St := St) custody_keys validator_config).

(** Free permits, running tasks, the world. *)
Record Program := mkProgram { pg_permits : Z; pg_tasks : list (Task World); pg_world : World }.

Inductive program_step (orch : Cortex (W := World)) : Program → Program → Prop :=
| ps_submit elapsed e txn client p ts w p' ctx w' :
    submit orch elapsed e txn client (mkSystem p [] w) = Some (Ok tt, mkSystem p' [ctx] w') →
    program_step orch (mkProgram p ts w) (mkProgram p' (ts ++ [mkTask ctx []]) w')
| ps_turn i p ts w ts' w' :
    turn i (w, ts) = Some (w', ts') → program_step orch (mkProgram p ts w) (mkProgram p ts' w')
| ps_end before t after p w :
    waits_for t = None →
    program_step orch (mkProgram p (before ++ t :: after) w) (mkProgram (p + 1) (before ++ after) w)
| ps_traffic m p ts w : mail_ok m → program_step orch (mkProgram p ts w) (mkProgram p ts (set_mail m w))
| ps_sweeper n p ts w :
    program_step orch (mkProgram p ts w) (mkProgram p ts (at_part nonce_part (sweeper_bot n) w).2)
| ps_time d p ts w : program_step orch (mkProgram p ts w) (mkProgram p ts (pass_all d w)).

(** A task of this orchestrator that has done what its code did. *)
Record task_ok (orch : Cortex (W := World)) (t : Task World) : Prop := {
  to_ctx : ∃ e txn client, tk_ctx t = submit_ctx orch e txn client;
  to_played : well_played t;
  to_kept : task_kept world_ok unsigned t
}.

Record program_ok (orch : Cortex (W := World)) (total : Z) (s : Program) : Prop := {
  po_permits : 0 ≤ pg_permits s;
  po_total : pg_permits s + Z.of_nat (length (pg_tasks s)) = total;
  po_world : world_ok (pg_world s);
  po_tasks : Forall (task_ok orch) (pg_tasks s)
}.

Context (orch : Cortex (W := World)).
Hypothesis Hkeeps : ∀ e txn client, ctx_keeps world_ok unsigned (submit_ctx orch e txn client).

Lemma task_ok_start e txn client : task_ok orch (mkTask (submit_ctx orch e txn client) []).
Proof. split; [eauto|apply well_played_start|]. split; [apply Hkeeps|constructor]. Qed.

Lemma outside_ok w w' : world_step orch w w' → world_ok w → world_ok w'.
Proof. by apply world_step_ok. Qed.

Lemma turn_ok i w ts w' ts' :
  turn i (w, ts) = Some (w', ts') → world_ok w → Forall (task_ok orch) ts →
  world_ok w' ∧ Forall (task_ok orch) ts' ∧ length ts' = length ts.
Proof.
  intros Ht Hw Hts.
  assert (Hp : all_played (w', ts')).
  { apply (turn_played _ _ _ Ht). eapply list.Forall_impl; [exact Hts|]. by intros t []. }
  destruct (turn_keeps world_ok unsigned i _ _ Ht) as [Hw' Hk].
  { split; [done|]. eapply list.Forall_impl; [exact Hts|]. by intros t []. }
  apply turn_calls in Ht as [_ Hx]. split; [exact Hw'|]. split.
  - apply list.Forall_lookup. intros j t Hj. split.
    + assert (Hc : (tk_ctx <$> ts') !! j = Some (tk_ctx t)) by (by rewrite list_lookup_fmap, Hj).
      cbn [snd] in Hx. rewrite Hx in Hc. apply list_lookup_fmap_Some in Hc as (t0 & -> & Ht0).
      by destruct (list.Forall_lookup_1 _ _ _ _ Hts Ht0).
    + exact (list.Forall_lookup_1 _ _ _ _ Hp Hj).
    + exact (list.Forall_lookup_1 _ _ _ _ Hk Hj).
  - apply (f_equal length) in Hx. by rewrite !length_fmap in Hx.
Qed.

Lemma program_step_ok total s s' : program_step orch s s' → program_ok orch total s → program_ok orch total s'.
Proof.
  intros Hs [Hp Ht Hw Hts].
  destruct Hs as [elapsed e txn client p ts w p' ctx w' Hsub|i p ts w ts' w' Hturn|before t after p w Hend|m p ts w Hm
    |n p ts w|d p ts w]; cbn in *.
  - unfold submit in Hsub. cbn in Hsub. destruct (Z.ltb_spec 0 p); [|by destruct elapsed].
    injection Hsub as <- <- <-. split; cbn; [lia| | |].
    + rewrite length_app. cbn. lia.
    + apply (outside_ok w); [apply ws_submitted|done].
    + apply Forall_app. split; [done|]. constructor; [apply task_ok_start|constructor].
  - destruct (turn_ok _ _ _ _ _ Hturn Hw Hts) as (Hw' & Hts' & Hl). split; cbn; [done|lia|done|done].
  - rewrite length_app in Ht. cbn in Ht. apply Forall_app in Hts as [Hb Ha]. apply list.Forall_cons in Ha as [_ Ha].
    split; cbn; [lia|rewrite length_app; lia|done|by apply Forall_app].
  - split; cbn; [done|done|by apply (outside_ok w); [apply ws_traffic|]|done].
  - split; cbn; [done|done|by apply (outside_ok w); [apply ws_sweeper|]|done].
  - split; cbn; [done|done|by apply (outside_ok w); [apply ws_time|]|done].
Qed.
End concurrent.

Section reachable.
Context {R : Type} `{RpcSane R}.
Context {St : Type} `{RlpStream St} `{Crypto} `{HexOps} `{AddressOps} `{U256Hash}.
Context (custody_keys : JsonPolicyEngine) (validator_config : ValidatorConfig).
Abbreviation boot := (boot (R := R) (St := St) custody_keys validator_config).

Lemma reachable_ok env redis_up maxp config orch permits w0 s :
  0 ≤ pipeline_concurrency config → boot env redis_up maxp config = Some (orch, permits) → booted w0 →
  rtc (program_step orch) (mkProgram permits [] w0) s → program_ok orch (pipeline_concurrency config) s.
Proof.
  intros Hc Hb Hw0 Hs.
  assert (Hk : ∀ e txn client, ctx_keeps world_ok (λ n, 0 ≤ nonce_u256 n) (submit_ctx orch e txn client))
    by (intros; by eapply boot_keeps).
  assert (H0' : program_ok orch (pipeline_concurrency config) (mkProgram permits [] w0)).
  { apply booted_ok in Hw0. unfold Compose.boot in Hb. apply spawn_cortex_Some in Hb as (_ & -> & _).
    split; cbn; [done|lia|done|constructor]. }
  induction Hs as [|s1 s2 s3 H12 _ IH]; [done|]. apply IH. by eapply program_step_ok.
Qed.

(** What holds in a state of a booted program that satisfies the invariant. *)
Lemma program_ok_safe env redis_up maxp config orch permits s :
  0 ≤ max_attempts (retry config) < u32_max → boot env redis_up maxp config = Some (orch, permits) →
  program_ok orch (pipeline_concurrency config) s →
  exclusive (pg_world s) ∧ Z.of_nat (length (pg_tasks s)) ≤ pipeline_concurrency config ∧
  ∀ i t, pg_tasks s !! i = Some t →
    let follows := trace_from (retry config) (px_execution_id (tk_ctx t)) (px_txn (tk_ctx t)) PStart in
    (length (tk_done t) ≤ max_turns (retry config))%nat ∧
    match waits_for t with
    | Some _ => is_Some (turn i (pg_world s, pg_tasks s)) ∧
        ∃ rest mm en, follows (events (tk_done t) ++ rest) mm en
    | None => ∃ mm en front, follows (events (tk_done t)) mm en ∧
        statuses (events (tk_done t)) = front ++ [final_status en] ∧ is_final (final_status en) = true ∧
        Forall (λ st, is_final st = false) front
    end.
Proof.
  intros Hm Hb [Hp Htot Hw Hts].
  split; [by apply world_ok_exclusive|]. split; [lia|]. intros i t Hi; cbv zeta.
  destruct (list.Forall_lookup_1 _ _ _ _ Hts Hi) as [(e & txn & client & Hx) Hplayed _].
  unfold Compose.boot in Hb. apply spawn_cortex_Some in Hb as (Hcfg & _ & Hready).
  assert (Hr : px_retry_config (tk_ctx t) = retry config) by (rewrite Hx; cbn; by rewrite Hcfg).
  pose proof (well_played_bound t Hplayed) as Hb. rewrite Hr in Hb. split; [done|].
  pose proof (well_played_protocol t Hplayed) as Hprot. rewrite Hr in Hprot.
  specialize (Hprot ltac:(rewrite Hx; apply Hready) Hm).
  destruct (waits_for t) as [act|] eqn:Hwait; [|exact (proj2 Hprot)]. split; [|exact Hprot].
  unfold turn. cbn [fst snd]. rewrite Hi. cbn [mbind option_bind]. rewrite Hwait. cbn [mbind option_bind].
  by destruct (perform (tk_ctx t) act (pg_world s)).
Qed.

(** One life of the process, its pipelines running concurrently, from an
    empty database: after any interleaving of the calls of any number of
    pipelines with each other, with traffic, the sweeper and time, whatever
    the channels, the database and the network do: no two rows of an account
    actively hold one nonce, and an execution has at most one active request in
    every table; at most [pipeline_concurrency] pipelines run; each of them has
    done the beginning of a run of the protocol and can go on - it never waits
    for another - or has ended, and then what it did is a whole run with one
    final status, its last; and none has made more than [max_turns] calls. *)
Theorem concurrent_program env redis_up maxp config orch permits w0 s :
  0 ≤ pipeline_concurrency config → 0 ≤ max_attempts (retry config) < u32_max →
  boot env redis_up maxp config = Some (orch, permits) → booted w0 →
  rtc (program_step orch) (mkProgram permits [] w0) s →
  exclusive (pg_world s) ∧ Z.of_nat (length (pg_tasks s)) ≤ pipeline_concurrency config ∧
  ∀ i t, pg_tasks s !! i = Some t →
    let follows := trace_from (retry config) (px_execution_id (tk_ctx t)) (px_txn (tk_ctx t)) PStart in
    (length (tk_done t) ≤ max_turns (retry config))%nat ∧
    match waits_for t with
    | Some _ => is_Some (turn i (pg_world s, pg_tasks s)) ∧
        ∃ rest mm en, follows (events (tk_done t) ++ rest) mm en
    | None => ∃ mm en front, follows (events (tk_done t)) mm en ∧
        statuses (events (tk_done t)) = front ++ [final_status en] ∧ is_final (final_status en) = true ∧
        Forall (λ st, is_final st = false) front
    end.
Proof.
  intros Hc Hm Hb Hw0 Hs. apply (program_ok_safe env redis_up maxp config orch permits); [done..|].
  by eapply reachable_ok.
Qed.
End reachable.

(** ** Two submissions and a turn of the second *)

Definition demo_submitted (orch : Cortex (W := Compose.World (R := FakeRpc))) : Program (R := FakeRpc) :=
  let enter e w := ss_set (cx_status_registry orch) e PermitAquired w in
  mkProgram 2 ([mkTask (submit_ctx orch (mkExecutionId 9) ex_tx demo_client) []] ++
               [mkTask (submit_ctx orch (mkExecutionId 10) ex_tx demo_client) []])
    (enter (mkExecutionId 10) (enter (mkExecutionId 9) demo_world)).

Lemma concurrent_program_witness :
  match demo_boot with
  | Some (orch, _) => ∃ s, turn 1 (pg_world (demo_submitted orch), pg_tasks (demo_submitted orch)) =
        Some (pg_world s, pg_tasks s) ∧ exclusive (pg_world s) ∧ Z.of_nat (length (pg_tasks s)) ≤ 4
  | None => False
  end.
Proof.
  destruct demo_boot as [[orch permits]|] eqn:Hb.
  - assert (Hp : permits = 4).
    { pose proof Hb as Hb'. unfold demo_boot, boot in Hb'. by apply spawn_cortex_Some in Hb' as (_ & -> & _). }
    subst permits.
    pose proof (λ s, concurrent_program (St := BStream) ex_policy ValidatorConfig_default (λ _, None) true 100
      demo_config orch 4 demo_world s ltac:(done) ltac:(done) Hb demo_booted) as Hall.
    assert (Hsub : rtc (program_step orch) (mkProgram 4 [] demo_world) (demo_submitted orch)).
    { eapply rtc_l; [by eapply (ps_submit _ false (mkExecutionId 9) ex_tx demo_client)|].
      eapply rtc_once. by eapply (ps_submit _ false (mkExecutionId 10) ex_tx demo_client). }
    destruct (Hall _ Hsub) as (_ & _ & Ht). specialize (Ht 1%nat _ eq_refl) as [_ Ht].
    assert (Hw : is_Some (waits_for (mkTask (submit_ctx orch (mkExecutionId 10) ex_tx demo_client) []))).
    { destruct (waits_for _); [eauto|]. destruct Ht as (mm & en & front & _ & Hst & _).
      cbn in Hst. by destruct front. }
    destruct Hw as [act Hw]. rewrite Hw in Ht. destruct Ht as [[[w' ts'] Hturn] _].
    exists (mkProgram 2 ts' w'). split; [exact Hturn|].
    destruct (Hall (mkProgram 2 ts' w')) as (He & Hl & _); [|split; [exact He|exact Hl]].
    eapply rtc_r; [exact Hsub|]. by apply (ps_turn _ 1).
  - assert (Hup : booted_up = true) by (vm_compute; exact eq_refl). unfold booted_up in Hup.
    rewrite Hb in Hup. discriminate.
Defined.
