(* ===== verification/Restart.v ===== *)
(** * The program across crashes

    A crash ends the process: its tasks, its channels and its memory are gone,
    the tables stay.  What [Concurrent.v] proves of one life of the process
    holds through any number of them, and the sweeper of the next life empties
    the nonce table of the reservations that the last one left
    ([Recovery.v]). *)

From S2P Require Import Prelude Types Retry Sql Actor Nonce NonceSpec NonceProps Recovery Rlp Eip1559 Custody Lease Sign Pool RpcClient RpcApi Broadcast Validator RelayHost Shard CortexError Status Pipeline PipelineSpec Protocol Erasure Refine PipelineProps Keeps Interleave Schedule Config Cortex Compose Concurrent.

Section restart.
Context {R : Type} `{RpcSane R}.
Context {St : Type} `{RlpStream St} `{Crypto} `{HexOps} `{AddressOps} `{U256Hash}.
Abbreviation World := (World (R := R)).
Abbreviation Program := (Program (R := R)).
Abbreviation unsigned := (λ n : TxNonce, 0 ≤ nonce_u256 n).

(** ** A crash *)

(** What the next life of the process finds: how long nothing ran, the
    network, the statuses it loads from Redis, and what will befall its
    statements and its channels. *)
Record Outage := mkOutage {
  og_downtime : Z;
  og_relay : list (qenv IntentRow);
  og_nonce : list (qenv NonceRow);
  og_sign : list (qenv SignRow);
  og_broadcast : list (qenv BroadcastRow);
  og_validation : list (qenv ValidationRow);
  og_rpc : R;
  og_book : gmap ExecutionId PipelineStatus;
  og_mail : Mail (R := R);
  og_draws : list Z
}.

Record outage_ok (o : Outage) : Prop := {
  oo_nonce : Forall respectful (og_nonce o);
  oo_rpc : rpc_sane (og_rpc o);
  oo_mail : mail_ok (og_mail o)
}.

(** A table after the time [d] without the process. *)
Definition left_alone {Row} (d : Z) (script : list (qenv Row)) (db : Db Row) : Db Row :=
  mkDb (db_rows db) (db_clock db + Z.max 0 d) script.

(** The rows of every table stay; everything in memory is new. *)
Definition power_cycle (o : Outage) (w : World) : World :=
  let down {Row} := left_alone (Row := Row) (og_downtime o) in
  mkWorld (down (og_relay o) (w_relay w)) (down (og_nonce o) (w_nonce w)) (down (og_sign o) (w_sign w))
    (down (og_broadcast o) (w_broadcast w)) (down (og_validation o) (w_validation w)) (og_rpc o)
    (mkStatusRegistry (og_book o) []) (og_mail o) (og_draws o).

(** ** The lives of the process *)

(** A boot of the binary, with whatever keys, environment and configuration. *)
Definition boots (orch : Cortex (W := World)) (permits : Z) (config : CortexConfig) : Prop :=
  ∃ keys vc env redis_up maxp, boot (St := St) keys vc env redis_up maxp config = Some (orch, permits).

(** The states of the program, with the orchestrator and the configuration of
    its current life.  A call of an actor that the crash cuts short is one
    whose reply is dropped, the last of its task. *)
Inductive lived : Cortex (W := World) → CortexConfig → Program → Prop :=
| lived_first orch config permits w0 :
    0 ≤ pipeline_concurrency config → boots orch permits config → booted w0 →
    lived orch config (mkProgram permits [] w0)
| lived_step orch config s s' : lived orch config s → program_step orch s s' → lived orch config s'
| lived_crash orch config s o orch' config' permits' :
    lived orch config s → outage_ok o →
    0 ≤ pipeline_concurrency config' → boots orch' permits' config' →
    lived orch' config' (mkProgram permits' [] (power_cycle o (pg_world s))).

Lemma left_alone_reachable d script (db : NonceDb) :
  db_reachable db → Forall respectful script → db_reachable (left_alone d script db).
Proof.
  intros [[Hs Ht] Hr] Hsc. split; [done|]. eapply rtc_r; [exact Hr|]. apply nstep_tick. cbn. lia.
Qed.

Lemma power_cycle_ok o w : outage_ok o → world_ok w → world_ok (power_cycle o w).
Proof. intros [Hn Hr Hm] []. split; try done. by apply left_alone_reachable. Qed.

Lemma boots_start orch config permits w :
  0 ≤ pipeline_concurrency config → boots orch permits config → world_ok w →
  program_ok orch (pipeline_concurrency config) (mkProgram permits [] w).
Proof.
  intros Hc (keys & vc & env & up & maxp & Hb) Hw. unfold boot in Hb. apply spawn_cortex_Some in Hb as (_ & -> & _).
  split; cbn; [done|lia|done|constructor].
Qed.

Lemma lived_ok orch config s :
  lived orch config s →
  (∃ permits, boots orch permits config) ∧ program_ok orch (pipeline_concurrency config) s.
Proof.
  induction 1 as [orch config permits w0 Hc Hb Hw0|orch config s s' _ [Hb IH] Hs
    |orch config s o orch' config' permits' _ [_ IH] Ho Hc Hb].
  - split; [by exists permits|]. by apply boots_start; [..|apply booted_ok].
  - split; [done|]. destruct Hb as (permits & keys & vc & env & up & maxp & Hb).
    eapply program_step_ok; [|exact Hs|done]. intros; by eapply boot_keeps.
  - split; [by exists permits'|]. apply boots_start; [done..|]. by apply power_cycle_ok, (po_world _ _ _ IH).
Qed.

(** C2: the program over all its lives: after any interleaving of the calls
    of any number of pipelines with each other, with traffic, the sweeper and
    time, and with crashes and reboots anywhere in between, whatever the
    channels, the database and the network do: no two rows of an account
    actively hold one nonce, and an execution has at most one active request in
    every table; at most [pipeline_concurrency] pipelines run; each of them has
    done the beginning of a run of the protocol and can go on - it never waits
    for another - or has ended, and then what it did is a whole run with one
    final status, its last; and none has made more than [max_turns] calls. *)
Theorem program_survives_crashes orch config s :
  lived orch config s → 0 ≤ max_attempts (retry config) < u32_max →
  exclusive (pg_world s) ∧ Z.of_nat (length (pg_tasks s)) ≤ pipeline_concurrency config ∧
  ∀ i t, pg_tasks s !! i = Some t →
    let follows := trace_from (retry config) (px_execution_id (tk_ctx t)) (px_txn (tk_ctx t)) PStart in
    (length (tk_done t) ≤ max_turns (retry config))%nat ∧
    match waits_for t with
    | Some _ => is_Some (turn i (pg_world s, pg_tasks s)) ∧
        ∃ rest mm en, follows (events (tk_done t) ++ rest) mm en
    | None => ∃ mm en front, follows (events (tk_done t)) mm en ∧
        statuses (events (tk_done t)) = front ++ [final_status en] ∧ is_final (final_status en) = true ∧
        Forall (λ st, is_final st = false) front
    end.
Proof.
  intros [(permits & keys & vc & env & up & maxp & Hb) Hok]%lived_ok Hm. by eapply program_ok_safe.
Qed.

(** C3: recovery: wherever the process crashes and however long it stays down,
    a reboot on a nonce table that nobody else uses reaches a table without
    reservations: after five ticks (the reservations of the last life are then
    older than the sweeper's limit), and one tick for every hundred of them -
    one for each when an execution has several.  Every tick succeeds, and apart
    from the reservations, which are released, no row changes. *)
Theorem crash_recovery orch config s o n :
  lived orch config s → og_nonce o = [] →
  let left := db_rows (w_nonce (pg_world s)) in
  (5 + ticks_needed left ≤ n)%nat →
  let '(outcomes, db) := sweeper_bot n (w_nonce (power_cycle o (pg_world s))) in
  length outcomes = n ∧ Forall (λ r, is_ok r = true) outcomes ∧
  Forall2 released_later left (db_rows db) ∧ reserved_rows (db_rows db) = [].
Proof.
  intros [_ Hok]%lived_ok Hq; cbv zeta. intros Hn.
  destruct (db_reachable_inv _ (wo_nonce _ (po_world _ _ _ Hok))) as [Ht Hb].
  cbn [power_cycle w_nonce]. unfold left_alone. rewrite Hq.
  set (t := db_rows _) in *. set (now := db_clock _ + _).
  destruct (sweeper_bot_idle n now t Ht) as (rs & Hrs & Hl & Hf). rewrite Hrs.
  split_and!; [done|done|by apply ticks_settle|].
  cbn [db_rows]. apply (ticks_recover 5 n (db_clock (w_nonce (pg_world s)))); [done| |unfold now, interval_secs; lia|done].
  intros r Hr _. by destruct (Hb r Hr) as (_ & _ & ?).
Qed.
End restart.

(** ** A crash after the broadcast *)

Definition crash_world : World (R := FakeRpc) := set_mail (mkMail [] [] [] [] []) demo_world.

Lemma crash_world_booted : booted crash_world.
Proof. destruct demo_booted as [Hr Hn Hs _]. split; [done..|]. split; constructor. Qed.

(** One submission and its pipeline up to the call after the broadcast. *)
Definition crash_demo : option (Cortex (W := World (R := FakeRpc)) * Program (R := FakeRpc)) :=
  '(orch, permits) ← demo_boot;
  '(w, ts) ← turns (replicate 9 0%nat) (ss_set (cx_status_registry orch) (mkExecutionId 9) PermitAquired crash_world,
    [mkTask (submit_ctx orch (mkExecutionId 9) ex_tx demo_client) []]);
  Some (orch, mkProgram 3 ts w).

Definition demo_outage : Outage (R := FakeRpc) :=
  mkOutage (interval_secs 126) [] [] [] [] [] demo_rpc ∅ (mkMail [] [] [] [] []) [].

(** The nonce a new execution gets from a table. *)
Definition next_nonce (db : NonceDb) : result TxNonce LocalError :=
  (handle_reserve (tx_chain_id ex_tx) (cc_from_address demo_client) (mkExecutionId 10) db).1.

(** The crash falls between the broadcast and its validation: the transaction
    is on the network with nonce 0, the sweeper of the next life releases the
    nonce, and the next execution gets it for another transaction. *)
Example crash_reuses_broadcast_nonce :
  (λ x, let w := pg_world x.2 in let db := w_nonce (power_cycle demo_outage w) in
     ((λ r, (br_state r, br_tx_hash r)) <$> db_rows (w_broadcast w), (λ r, (nr_nonce r, nr_state r)) <$> db_rows (w_nonce w),
      (λ r, (nr_nonce r, nr_state r)) <$> db_rows (sweeper_bot 1 db).2,
      next_nonce db, next_nonce (sweeper_bot 1 db).2)) <$> crash_demo =
  Some ([(BSubmitted, Some (replicate 32 (byte_of_Z 171)))], [(0, NReserved)], [(0, NReleased)],
        Ok (mkTxNonce 1), Ok (mkTxNonce 0)).
Proof. vm_compute. exact eq_refl. Qed.

(** ** Both theorems on that crash *)

Lemma turns_program (orch : Cortex (W := World (R := FakeRpc))) schedule p s s' :
  turns schedule s = Some s' → rtc (program_step orch) (mkProgram p s.2 s.1) (mkProgram p s'.2 s'.1).
Proof.
  revert s; induction schedule as [|i schedule IH]; intros [w ts]; cbn [turns]; [by intros [= <-]|].
  intros ([w1 ts1] & Ht & Hs)%bind_Some. eapply rtc_l; [by apply (ps_turn _ i)|]. exact (IH _ Hs).
Qed.

Lemma rtc_lived (orch : Cortex (W := World (R := FakeRpc))) config s s' :
  rtc (program_step orch) s s' → lived (St := BStream) orch config s → lived (St := BStream) orch config s'.
Proof. induction 1 as [|s1 s2 s3 H12 _ IH]; [done|]. intros Hs. apply IH. by eapply lived_step. Qed.

Lemma crash_demo_lived orch s : crash_demo = Some (orch, s) → lived (St := BStream) orch demo_config s.
Proof.
  unfold crash_demo. intros ([orch' permits] & Hb & Hs)%bind_Some. cbn beta iota in Hs.
  apply bind_Some in Hs as ([w ts] & Ht & [= <- <-]).
  assert (Hp : permits = 4).
  { pose proof Hb as Hb'. unfold demo_boot, boot in Hb'. by apply spawn_cortex_Some in Hb' as (_ & -> & _). }
  subst permits. apply (turns_program orch' _ 3) in Ht. cbn [fst snd] in Ht. apply (rtc_lived _ _ _ _ Ht).
  apply (lived_step orch' _ (mkProgram 4 [] crash_world)).
  - apply lived_first; [done|by do 5 eexists|apply crash_world_booted].
  - change ([mkTask (submit_ctx orch' (mkExecutionId 9) ex_tx demo_client) []])
      with ([] ++ [mkTask (submit_ctx orch' (mkExecutionId 9) ex_tx demo_client) []]).
    by eapply (ps_submit _ false (mkExecutionId 9) ex_tx demo_client).
Qed.

Definition demo_reserved : option nat :=
  (λ x, ticks_needed (db_rows (w_nonce (pg_world x.2)))) <$> crash_demo.
Lemma demo_one_reserved : demo_reserved = Some 1%nat.
Proof. vm_compute. exact eq_refl. Qed.

Lemma demo_outage_ok : outage_ok demo_outage.
Proof. by split; [constructor|constructor|split; constructor]. Qed.

Lemma program_survives_crashes_witness :
  match crash_demo with
  | Some (orch, s) => exclusive (pg_world (mkProgram 4 [] (power_cycle demo_outage (pg_world s))))
  | None => False
  end.
Proof.
  assert (Hm : 0 ≤ max_attempts (retry demo_config) < u32_max) by done.
  destruct crash_demo as [[orch s]|] eqn:Hd.
  - pose proof (crash_demo_lived _ _ Hd) as Hl.
    assert (Hb : boots (St := BStream) orch 4 demo_config).
    { destruct (lived_ok _ _ _ Hl) as [(permits & Hb) _]. pose proof Hb as (keys & vc & env & up & maxp & Hb').
      unfold boot in Hb'. apply spawn_cortex_Some in Hb' as (_ & -> & _). exact Hb. }
    assert (Hnext : lived (St := BStream) orch demo_config (mkProgram 4 [] (power_cycle demo_outage (pg_world s)))).
    { apply (lived_crash _ _ _ _ _ _ _ Hl); [apply demo_outage_ok|apply Z.leb_le; reflexivity|exact Hb]. }
    pose proof (program_survives_crashes (St := BStream) orch demo_config _ Hnext) as Hall. destruct (Hall Hm) as [He _].
    exact He.
  - pose proof demo_one_reserved as Hn. unfold demo_reserved in Hn. by rewrite Hd in Hn.
Defined.

Lemma crash_recovery_witness :
  match crash_demo with
  | Some (_, s) => reserved_rows (db_rows (sweeper_bot 6 (w_nonce (power_cycle demo_outage (pg_world s)))).2) = []
  | None => False
  end.
Proof.
  pose proof demo_one_reserved as Hn. unfold demo_reserved in Hn.
  destruct crash_demo as [[orch s]|] eqn:Hd; [|done]. cbn [fmap option_fmap option_map snd] in Hn.
  pose proof (crash_recovery (St := BStream) _ _ _ demo_outage 6 (crash_demo_lived _ _ Hd) eq_refl) as Hr. cbv zeta in Hr.
  injection Hn as Hn. rewrite Hn in Hr. specialize (Hr ltac:(lia)).
  destruct (sweeper_bot 6 _) as [rs db]. exact (proj2 (proj2 (proj2 Hr))).
Defined.
