(* ===== verification/EndToEnd.v ===== *)
(** * A submission from the relay host to the chain

    The pipeline over the real actors, on databases that nobody else uses and
    with idle mailboxes: what a new execution leaves in every table, in the
    registry, and with which nonce. *)

From S2P Require Import Prelude Types Retry Sql Actor Nonce NonceSpec NonceProps Rlp Eip1559 Custody Lease Sign Pool RpcClient RpcApi Broadcast Validator RelayHost Shard CortexError Status Pipeline PipelineProps Keeps Config Cortex Compose.

(** The first attempt of a retried call succeeds. *)
Lemma attempt_first {W T E} `{Runtime W} config (op : Comp W (result T E)) v w w' :
  0 ≤ max_attempts config < u32_max → op w = (Ok v, w') →
  attempt config (retried op) w = (Next (Ok v), w').
Proof.
  intros Hm Hop. unfold attempt, retry_with_backoff, wrap_u32, u32_max in *.
  rewrite Z.mod_small by lia.
  replace (Z.to_nat (max_attempts config + 1)) with (Datatypes.S (Z.to_nat (max_attempts config))) by lia.
  cbn [retry_from]. unfold cbind, retried, cmap_err, cret. rewrite Hop. done.
Qed.

Lemma attempt_first_decided {W T E} `{Runtime W} config (decide : E → RetryDecision E)
    (op : Comp W (result T E)) v w w' :
  0 ≤ max_attempts config < u32_max → op w = (Ok v, w') →
  attempt config (cmap_err decide op) w = (Next (Ok v), w').
Proof.
  intros Hm Hop. unfold attempt, retry_with_backoff, wrap_u32, u32_max in *.
  rewrite Z.mod_small by lia.
  replace (Z.to_nat (max_attempts config + 1)) with (Datatypes.S (Z.to_nat (max_attempts config))) by lia.
  cbn [retry_from]. unfold cbind, cmap_err, cret. rewrite Hop. done.
Qed.

Section end_to_end.
Context {R : Type} `{RpcApi R, EndpointApi R, !RpcApiLaws R}.
Context {St : Type} `{RlpStream St} `{Crypto} `{HexOps} `{AddressOps} `{U256Hash}.
Context (custody_keys : JsonPolicyEngine) (validator_config : ValidatorConfig).
Abbreviation World := (World (R := R)).
Abbreviation boot := (boot (St := St) custody_keys validator_config).
Abbreviation sign_handle := (sign_handle (St := St) custody_keys).
Abbreviation validation_handle := (validation_handle validator_config).

(** The tables. *)
Record Tables := mkTables {
  tb_intents : list IntentRow;
  tb_nonces : list NonceRow;
  tb_signs : list SignRow;
  tb_broadcasts : list BroadcastRow;
  tb_validations : list ValidationRow
}.

Context (now : Z) (draws : list Z).

(** A world in which only this pipeline runs. *)
Definition quiet_world (t : Tables) (rpc : R) (reg : StatusRegistry) : World :=
  mkWorld (rh_idle (tb_intents t) now) (idle (tb_nonces t) now) (sign_idle (tb_signs t) now)
    (bc_idle (tb_broadcasts t) now) (vd_idle (tb_validations t) now) rpc reg (mkMail [] [] [] [] []) draws.

Context (e : ExecutionId) (txn : Eip1559Transaction) (client : ClientConfig).
Let chain_id := tx_chain_id txn.
Let chain := chain_u256 chain_id.
Let from := cc_from_address client.

(** The execution is new, the tables are as the actors leave them. *)
Record new_execution (t : Tables) : Prop := {
  ne_range : tx_in_range txn;
  ne_lint : transaction_lint txn = Ok tt;
  ne_ok : t_ok (tb_intents t) = true ∧ t_ok (tb_nonces t) = true ∧ t_ok (tb_signs t) = true ∧
          t_ok (tb_broadcasts t) = true ∧ t_ok (tb_validations t) = true;
  ne_bounded : table_bounded now (tb_nonces t);
  ne_unseen : (∀ r, r ∈ tb_intents t → ti_execution_id r ≠ e) ∧ unseen e (tb_nonces t) ∧
              (∀ r, r ∈ tb_signs t → sr_execution_id r ≠ e) ∧
              (∀ r, r ∈ tb_broadcasts t → br_execution_id r ≠ e) ∧
              (∀ r, r ∈ tb_validations t → vr_execution_id r ≠ e);
  ne_no_gap : no_released chain from (tb_nonces t);
  ne_room : max_nonce chain from (tb_nonces t) < i64_max
}.

Lemma fresh_revision {Row} `{SqlTable Row} (t : list Row) :
  (∀ r, r ∈ t → t_eid r ≠ e) → next_revision e t = 1.
Proof.
  intros Hu. unfold next_revision, max_revision.
  replace (filter (λ r : Row, t_eid r = e) t) with (@nil Row); [done|].
  symmetry. apply elem_of_nil_inv. intros r [He Hr]%list_elem_of_filter. by apply (Hu r).
Qed.

Lemma fresh_none_active {Row} `{LeaseTable Row} (t : list Row) :
  (∀ r, r ∈ t → t_eid r ≠ e) → none_active e t.
Proof. intros Hu r Hr He. by apply Hu in Hr. Qed.

(** ** Each actor's call *)

Abbreviation nonce := (λ t, max_nonce chain from (tb_nonces t) + 1).

Definition nonce_row (n : Z) (st : NonceState) : NonceRow := mkNonceRow e 1 chain from n st now now.

Lemma nonce_row_ok t st :
  t_ok (tb_nonces t) = true → unseen e (tb_nonces t) → t_ok (tb_nonces t ++ [nonce_row (nonce t) st]) = true.
Proof.
  intros Hok Hu. apply t_ok_nonce. rewrite fmap_app, omap_app.
  apply t_ok_nonce in Hok as [Hk Ha]. split.
  - apply list.NoDup_app. split_and!; [done| |apply NoDup_singleton].
    intros k' Hin ->%list_elem_of_singleton. apply list_elem_of_fmap in Hin as (r & [= He _] & Hr).
    by apply (Hu r).
  - apply list.NoDup_app. split_and!; [done| |].
    + intros k' Hin Hk'. apply list_elem_of_omap in Hin as (r & Hr & Hkey).
      apply list_elem_of_omap in Hk' as (r' & ->%list_elem_of_singleton & Hkey').
      unfold active_key in *. destruct (nonce_active (nr_state r)) eqn:Hact; [|done].
      cbn [nonce_row nr_state] in Hkey'. destruct (nonce_active st); [|done].
      simplify_eq. unfold nr_account in *. cbn [nonce_row nr_chain_id nr_from_address nr_nonce] in *.
      pose proof (max_nonce_ge chain from (tb_nonces t) r Hr) as Hm. unfold nr_account in Hm.
      simplify_eq. specialize (Hm ltac:(congruence) Hact). lia.
    + simpl. destruct (active_key _); [apply NoDup_singleton|apply NoDup_nil_2].
Qed.

Definition add_intent (t : Tables) : Tables :=
  mkTables (tb_intents t ++ [intent_row e txn client chain now]) (tb_nonces t) (tb_signs t)
    (tb_broadcasts t) (tb_validations t).
Definition add_nonce (n : Z) (st : NonceState) (t : Tables) : Tables :=
  mkTables (tb_intents t) (tb_nonces t ++ [nonce_row n st]) (tb_signs t) (tb_broadcasts t) (tb_validations t).
Definition add_sign (signed : Bytes) (t : Tables) : Tables :=
  mkTables (tb_intents t) (tb_nonces t)
    (tb_signs t ++ [sign_row SSigned e chain from 1 (Some signed) now]) (tb_broadcasts t) (tb_validations t).
Definition add_broadcast (hash : TxHash) (t : Tables) : Tables :=
  mkTables (tb_intents t) (tb_nonces t) (tb_signs t)
    (tb_broadcasts t ++ [bc_row BSubmitted e chain from 1 (Some hash) None now]) (tb_validations t).
Definition add_validation (hash : TxHash) (st : string) (t : Tables) : Tables :=
  mkTables (tb_intents t) (tb_nonces t) (tb_signs t) (tb_broadcasts t)
    (tb_validations t ++ [mkValidationRow e 1 chain hash st now now]).

Lemma relay_call t rpc reg :
  tx_in_range txn → transaction_lint txn = Ok tt → t_ok (tb_intents t) = true →
  (∀ r, r ∈ tb_intents t → ti_execution_id r ≠ e) →
  ir_register relay_handle e txn client (quiet_world t rpc reg) =
  (Ok tt, quiet_world (add_intent t) rpc reg).
Proof.
  intros Hr Hl Hok Hu.
  cbn [ir_register relay_handle]. unfold cbind, receive_relay, receive, at_part.
  cbn [quiet_world w_mail ml_relay head tail default part_get relay_part w_relay set_mail from_option id].
  unfold relayhost_register, handle_call, cbind, cret. cbn [run_loop].
  unfold cret. cbn [relayhost_dispatch].
  rewrite register_accepted; [done|done|done| |done].
  destruct (intent_exists e (tb_intents t)) eqn:Hex; [|done].
  apply intent_exists_spec, list_elem_of_fmap in Hex as (r & He & Hin). by apply Hu in Hin.
Qed.

Lemma nonce_call t rpc reg :
  chain ≤ i64_max → t_ok (tb_nonces t) = true → table_bounded now (tb_nonces t) →
  unseen e (tb_nonces t) → no_released chain from (tb_nonces t) →
  max_nonce chain from (tb_nonces t) < i64_max →
  nm_reserve nonce_handle chain_id from e (quiet_world t rpc reg) =
  (Ok (mkTxNonce (nonce t)), quiet_world (add_nonce (nonce t) NReserved t) rpc reg).
Proof.
  intros Hc Hok Hb Hu Hnr Hm.
  destruct (reserve_first chain_id from e (tb_nonces t) now Hc Hok Hb Hu Hnr Hm) as [Hres _].
  cbn [nm_reserve nonce_handle]. unfold cbind, receive_nonce, receive, at_part.
  cbn [quiet_world w_mail ml_nonce head tail default part_get nonce_part w_nonce set_mail from_option id].
  unfold nonce_handle_reserve, handle_call, cbind, cret. cbn [run_loop].
  unfold cret. cbn [nonce_dispatch]. unfold cbind, cret. by rewrite Hres.
Qed.

Lemma resolve_call n st t rpc reg :
  st ≠ NReserved → n = nonce t → t_ok (tb_nonces t) = true → unseen e (tb_nonces t) →
  nm_resolve nonce_handle e st (quiet_world (add_nonce n NReserved t) rpc reg) =
  (Ok tt, quiet_world (add_nonce n st t) rpc reg).
Proof.
  intros Hst -> Hok Hu.
  cbn [nm_resolve nonce_handle]. unfold cbind, receive_nonce, receive, at_part.
  cbn [quiet_world w_mail ml_nonce head tail default part_get nonce_part w_nonce set_mail from_option id].
  unfold nonce_handle_resolve, handle_call, cbind, cret. cbn [run_loop].
  unfold cret. cbn [nonce_dispatch]. unfold cbind, cret.
  rewrite handle_resolve_quiet; [|done|by apply nonce_row_ok].
  assert (reserved_of e unlocked (tb_nonces t ++ [nonce_row (nonce t) NReserved]) =
    Some (nonce_row (nonce t) NReserved)) as Hr.
  { unfold reserved_of. apply (latest_app_unseen _ e); [done| |by rewrite !bool_decide_true].
    intros r [[Hp _]%andb_true_iff _]%andb_true_iff. by apply bool_decide_eq_true in Hp. }
  cbn [tb_nonces add_nonce]. rewrite Hr, update_key_app.
  - unfold nonce_set_state. cbn [nonce_row nr_state]. rewrite decide_False by done. done.
  - intros (r & Hk & Hin)%list_elem_of_fmap. injection Hk as He _. by apply (Hu r).
  - done.
Qed.

Lemma sign_call t t' rpc reg key signed :
  chain ≤ i64_max → t_ok (tb_signs t) = true → (∀ r, r ∈ tb_signs t → sr_execution_id r ≠ e) →
  resolve_key custody_keys from = Ok key → sign_eip1559_transaction (S := St) t' key = Ok signed →
  sg_sign sign_handle chain_id from e t' (quiet_world t rpc reg) =
  (Ok signed, quiet_world (add_sign (st_rlp signed) t) rpc reg).
Proof.
  intros Hc Hok Hu Hk Hs.
  assert (Hrev : next_revision e (tb_signs t) = 1) by (by apply fresh_revision).
  cbn [sg_sign Compose.sign_handle]. unfold cbind, receive_sign, receive, at_part.
  cbn [quiet_world w_mail ml_sign head tail default part_get sign_part w_sign set_mail from_option id].
  unfold sign_handle_sign, handle_call, cbind, cret. cbn [run_loop].
  unfold cret. cbn [sign_dispatch]. unfold cbind, cret.
  rewrite (handle_sign_first (St := St) custody_keys from chain_id e t' key); try done.
  - rewrite Hs, Hrev. done.
  - by rewrite Hrev.
  - intros r Hr He. by apply Hu in Hr.
Qed.

Lemma broadcast_call t rpc rpc' reg signed hash i :
  chain ≤ i64_max → t_ok (tb_broadcasts t) = true → (∀ r, r ∈ tb_broadcasts t → br_execution_id r ≠ e) →
  api_send_raw_transaction chain_id (StickySession i) (st_rlp signed) Broadcast.rpc_timeout rpc = (Ok hash, rpc') →
  bc_broadcast broadcaster_handle chain_id from e signed i (quiet_world t rpc reg) =
  (Ok (mkBroadcastOutcome hash), quiet_world (add_broadcast hash t) rpc' reg).
Proof.
  intros Hc Hok Hu Hsend.
  assert (Hrev : next_revision e (tb_broadcasts t) = 1) by (by apply fresh_revision).
  cbn [bc_broadcast broadcaster_handle]. unfold cbind, receive_broadcast, receive, at_part.
  cbn [quiet_world w_mail ml_broadcast head tail default part_get broadcast_part w_broadcast w_rpc set_mail
    from_option id].
  unfold broadcast_handle, handle_call, cbind, cret. cbn [run_loop].
  unfold cret. cbn [broadcast_dispatch].
  pose proof (handle_broadcast_first chain_id from e signed i (tb_broadcasts t) now rpc) as Hb.
  unfold broadcast_result in Hb. rewrite Hsend, Hrev in Hb.
  rewrite Hb; [done|done|done|done|]. intros r Hr He. by apply Hu in Hr.
Qed.

Lemma validate_call t rpc reg hash i :
  0 < poll_interval validator_config → 0 ≤ vc_timeout validator_config →
  chain ≤ i64_max → length hash = 32%nat →
  t_ok (tb_validations t) = true → (∀ r, r ∈ tb_validations t → vr_execution_id r ≠ e) →
  ∃ r st rpc',
    vd_validate validation_handle chain_id e hash i (quiet_world t rpc reg) =
    (r, quiet_world (add_validation hash st t) rpc' reg) ∧
    answer_recorded validator_config hash r st.
Proof.
  intros Hp Hto Hc Hh Hok Hu.
  assert (Hrev : next_revision e (tb_validations t) = 1) by (by apply fresh_revision).
  destruct (handle_validation_first validator_config chain_id e hash i (tb_validations t) now rpc)
    as (r & st & rpc' & Hv & Ha); try done.
  { by rewrite Hrev. }
  exists r, st, rpc'. split; [|done]. unfold vd_with, vd_row in Hv. rewrite Hrev in Hv.
  cbn [vd_validate Compose.validation_handle]. unfold cbind, receive_validator, receive, at_part.
  cbn [quiet_world w_mail ml_validator head tail default part_get validation_part w_validation w_rpc set_mail
    from_option id].
  unfold validator_handle, handle_call, cbind, cret. cbn [run_loop].
  unfold cret. cbn [validator_dispatch]. by rewrite Hv.
Qed.

(** ** The stages *)

Lemma fbind_next {W A B} (c : Comp W (flow A)) (k : A → Comp W (flow B)) w a w' :
  c w = (Next a, w') → fbind c k w = k a w'.
Proof. intros Hc. unfold fbind, cbind. by rewrite Hc. Qed.

Lemma fbind_return {W A B} (c : Comp W (flow A)) (k : A → Comp W (flow B)) w w' :
  c w = (Return, w') → fbind c k w = (Return, w').
Proof. intros Hc. unfold fbind, cbind. by rewrite Hc. Qed.

(** A booted orchestrator gives every key the one handle of the actor. *)
Record booted_orch (config : CortexConfig) (orch : Cortex (W := World)) : Prop := {
  bo_relay {K} `{Hash K} (key : K) : ShardPool_get (cx_relayhost orch) key = Some relay_handle;
  bo_nonce {K} `{Hash K} (key : K) : ShardPool_get (cx_nonce orch) key = Some nonce_handle;
  bo_sign {K} `{Hash K} (key : K) : ShardPool_get (cx_sign orch) key = Some sign_handle;
  bo_broadcast {K} `{Hash K} (key : K) : ShardPool_get (cx_broadcast orch) key = Some broadcaster_handle;
  bo_validator {K} `{Hash K} (key : K) : ShardPool_get (cx_validator orch) key = Some validation_handle;
  bo_rest : cx_config orch = config ∧ cx_status_registry orch = registry_store ∧ cx_rpc_client orch = rpc_endpoints
}.

Lemma spawn_pool_get {T K} `{Hash K} shards buffer (spawn : nat → option T) (h : T) pool (key : K) :
  spawn_pool shards buffer spawn = Some pool → (∀ i h', spawn i = Some h' → h' = h) →
  ShardPool_get pool key = Some h.
Proof.
  intros Hp Hs. pose proof (spawn_pool_all _ _ _ _ (λ h', h' = h) Hp Hs) as Hall.
  apply spawn_pool_Some in Hp as [Hn _]. destruct (ShardPool_get_Some pool key Hn) as [h' Hh'].
  rewrite Hh'. f_equal. by apply (list.Forall_lookup_1 _ _ _ _ Hall Hh').
Qed.

Lemma boot_orch env redis_up maxp config orch permits :
  boot env redis_up maxp config = Some (orch, permits) → booted_orch config orch.
Proof.
  unfold Compose.boot, spawn_cortex. cbn [sp_relayhost sp_nonce sp_sign sp_broadcast sp_validator actor_spawners].
  intros Hb.
  repeat match type of Hb with (mbind _ ?o) = _ =>
    let Hp := fresh "Hp" in destruct o eqn:Hp; cbn [mbind option_bind] in Hb; [|done] end.
  injection Hb as <- <-. destruct redis_up; [|done]. simplify_eq.
  split; intros; cbn [cx_relayhost cx_nonce cx_sign cx_broadcast cx_validator];
    first [by eapply spawn_pool_get; [eassumption|intros ? ? [= <-]]|done].
Qed.

Context (config : CortexConfig) (orch : Cortex (W := World)).
Context (Horch : booted_orch config orch) (Hmax : 0 ≤ max_attempts (retry config) < u32_max).
Let ctx := submit_ctx orch e txn client.

Lemma status_step st t rpc reg :
  fdo (ss_set (px_status ctx) (px_execution_id ctx) st) (quiet_world t rpc reg) =
  (Next tt, quiet_world t rpc (registry_set e st reg)).
Proof. unfold ctx. destruct (bo_rest _ _ Horch) as (_ & Hreg & _). cbn [px_status submit_ctx]. by rewrite Hreg. Qed.

Lemma ctx_retry : px_retry_config ctx = retry config.
Proof. unfold ctx. destruct (bo_rest _ _ Horch) as (Hcfg & _). cbn [px_retry_config submit_ctx]. by rewrite Hcfg. Qed.

Lemma relay_stage_quiet t rpc reg :
  new_execution t →
  relay_stage ctx (quiet_world t rpc reg) = (Next tt, quiet_world (add_intent t) rpc (registry_set e Accepted reg)).
Proof.
  intros Ht. unfold relay_stage; cbv zeta.
  erewrite fbind_next by (unfold funwrap, ctx; cbn [px_relayhost_pool submit_ctx]; by rewrite (bo_relay _ _ Horch)).
  erewrite fbind_next.
  2:{ apply attempt_first; [by rewrite ctx_retry|].
      apply relay_call; [apply Ht|apply Ht|apply (ne_ok _ Ht)|apply (ne_unseen _ Ht)]. }
  apply status_step.
Qed.

Lemma chain_fits t : new_execution t → chain ≤ i64_max.
Proof. intros Ht. by destruct (lint_facts txn (ne_range _ Ht) (ne_lint _ Ht)) as (_ & _ & ?). Qed.

Lemma nonce_stage_quiet t rpc reg :
  new_execution t →
  nonce_stage ctx nonce_handle (quiet_world (add_intent t) rpc reg) =
  (Next (set_tx_nonce (mkTxNonce (nonce t)) txn),
   quiet_world (add_nonce (nonce t) NReserved (add_intent t)) rpc (registry_set e NonceReserved reg)).
Proof.
  intros Ht. unfold nonce_stage; cbv zeta.
  erewrite fbind_next.
  2:{ apply attempt_first; [by rewrite ctx_retry|].
      apply (nonce_call (add_intent t)); [by eapply chain_fits|apply (ne_ok _ Ht)|apply Ht|
        apply (ne_unseen _ Ht)|apply (ne_no_gap _ Ht)|apply (ne_room _ Ht)]. }
  cbv beta iota. erewrite fbind_next by apply status_step. done.
Qed.

Lemma sign_stage_quiet t rpc reg n st key signed :
  new_execution t → resolve_key custody_keys from = Ok key →
  sign_eip1559_transaction (S := St) (set_tx_nonce n txn) key = Ok signed →
  sign_stage ctx nonce_handle sign_handle (set_tx_nonce n txn) (quiet_world (add_nonce (nonce t) st (add_intent t)) rpc reg) =
  (Next signed, quiet_world (add_sign (st_rlp signed) (add_nonce (nonce t) st (add_intent t))) rpc
     (registry_set e Signed reg)).
Proof.
  intros Ht Hk Hs. unfold sign_stage; cbv zeta.
  erewrite fbind_next.
  2:{ apply attempt_first; [by rewrite ctx_retry|].
      apply (sign_call _ _ _ _ key); [by eapply chain_fits|apply (ne_ok _ Ht)|apply (ne_unseen _ Ht)|done|done]. }
  cbv beta iota. erewrite fbind_next by apply status_step. done.
Qed.

Lemma endpoint_stage_quiet t rpc rpc' reg i :
  api_acquire_endpoint chain_id (from_secs 30) rpc = (Ok (Some i), rpc') →
  endpoint_stage ctx nonce_handle (quiet_world t rpc reg) = (Next i, quiet_world t rpc' reg).
Proof.
  intros Hi. unfold endpoint_stage, ctx; cbv zeta. cbn [px_rpc_client submit_ctx px_txn].
  destruct (bo_rest _ _ Horch) as (_ & _ & ->). unfold cbind at 1.
  cbn [rpc_endpoints es_acquire]. unfold at_part. cbn [rpc_part part_get quiet_world w_rpc].
  fold chain_id. by rewrite Hi.
Qed.

Lemma broadcast_stage_quiet t u rpc rpc' reg signed hash i txn' :
  new_execution t → tb_broadcasts u = tb_broadcasts t →
  api_send_raw_transaction chain_id (StickySession i) (st_rlp signed) Broadcast.rpc_timeout rpc = (Ok hash, rpc') →
  broadcast_loop ctx 2 nonce_handle sign_handle broadcaster_handle i false txn' signed (quiet_world u rpc reg) =
  (Next (mkBroadcastOutcome hash), quiet_world (add_broadcast hash u) rpc' reg).
Proof.
  intros Ht Hu Hsend. cbn [broadcast_loop].
  erewrite fbind_next.
  2:{ apply attempt_first_decided; [by rewrite ctx_retry|].
      apply broadcast_call;
        [by eapply chain_fits|rewrite Hu; apply (ne_ok _ Ht)|rewrite Hu; apply (ne_unseen _ Ht)|done]. }
  done.
Qed.

(** What a validation's answer means for the nonce and the last status. *)
Definition settled (hash : TxHash) (r : result ValidatorOutcome ValidatorError) : NonceState * PipelineStatus :=
  match r with
  | Ok (Included _ _) => (NFinalized, ConfirmedOnChain (fmt_hex hash))
  | Ok NotIncluded => (NReleased, Failed "validator" ("tx " +:+ fmt_hex hash +:+ " not included on-chain"))
  | Ok Timeout => (NConsumed, ValidatorTimedOut timeout_text)
  | Err err => (NReleased, failed_status (CValidator err))
  end.

(** The tables once the transaction is out and validated. *)
Definition sent_tables (t : Tables) (st : NonceState) (signed : SignedTransaction) (hash : TxHash) : Tables :=
  add_broadcast hash (add_sign (st_rlp signed) (add_nonce (nonce t) st (add_intent t))).
Definition final_tables (t : Tables) (st : NonceState) (signed : SignedTransaction) (hash : TxHash)
    (vst : string) : Tables := add_validation hash vst (sent_tables t st signed hash).

Lemma resolve_final t rpc reg st signed hash vst :
  st ≠ NReserved → new_execution t →
  attempt (px_retry_config ctx) (retried (nm_resolve nonce_handle (px_execution_id ctx) st))
    (quiet_world (final_tables t NReserved signed hash vst) rpc reg) =
  (Next (Ok tt), quiet_world (final_tables t st signed hash vst) rpc reg).
Proof.
  intros Hst Ht. apply attempt_first; [by rewrite ctx_retry|].
  set (u := add_validation hash vst (add_broadcast hash (add_sign (st_rlp signed) (add_intent t)))).
  change (final_tables t NReserved signed hash vst) with (add_nonce (nonce t) NReserved u).
  change (final_tables t st signed hash vst) with (add_nonce (nonce t) st u).
  apply resolve_call; [done|done|apply (ne_ok _ Ht)|apply (ne_unseen _ Ht)].
Qed.

(** Validation, resolution of the nonce, last status. *)
Lemma finish_quiet t rpc reg signed hash vst i r rpc' :
  new_execution t →
  vd_validate validation_handle chain_id e hash i (quiet_world (sent_tables t NReserved signed hash) rpc reg) =
    (r, quiet_world (final_tables t NReserved signed hash vst) rpc' reg) →
  answer_recorded validator_config hash r vst →
  (validation <-> validator_stage ctx nonce_handle hash i ;; outcome_stage ctx nonce_handle hash validation)
    (quiet_world (sent_tables t NReserved signed hash) rpc reg) =
  (if is_ok r then Next tt else Return,
   quiet_world (final_tables t (settled hash r).1 signed hash vst) rpc' (registry_set e (settled hash r).2 reg)).
Proof.
  intros Ht Hv Ha. unfold fbind at 1, cbind at 1. unfold validator_stage, validate_at; cbv zeta.
  erewrite fbind_next by (unfold funwrap, ctx; cbn [px_validator_pool submit_ctx]; by rewrite (bo_validator _ _ Horch)).
  unfold cbind at 1. unfold ctx at 1 2; cbn [px_txn px_execution_id submit_ctx]. fold chain_id. rewrite Hv.
  destruct r as [[b n| |]|err]; cbn [is_ok settled fst snd fnext cret].
  - unfold fnext, cret. unfold outcome_stage, finalise_nonce; cbv zeta.
    erewrite fbind_next; [apply status_step|]. erewrite fbind_next by (by apply resolve_final). done.
  - done.
  - unfold fnext, cret. unfold outcome_stage, consume_nonce; cbv zeta.
    erewrite fbind_next; [apply status_step|]. erewrite fbind_next by (by apply resolve_final). done.
  - destruct err; cbn [answer_recorded] in Ha; try done;
      (erewrite fbind_next; [|unfold release_nonce; erewrite fbind_next by (by apply resolve_final); reflexivity];
       unfold fail_with; erewrite fbind_next by apply status_step; done).
Qed.

(** The statuses of the run. *)
Definition recorded (l : list PipelineStatus) (reg : StatusRegistry) : StatusRegistry :=
  foldl (λ reg st, registry_set e st reg) reg l.

Lemma run_quiet t rpc reg key signed i rpc1 hash rpc2 :
  0 < poll_interval validator_config → 0 ≤ vc_timeout validator_config →
  new_execution t → resolve_key custody_keys from = Ok key →
  sign_eip1559_transaction (S := St) (set_tx_nonce (mkTxNonce (nonce t)) txn) key = Ok signed →
  api_acquire_endpoint chain_id (from_secs 30) rpc = (Ok (Some i), rpc1) →
  api_send_raw_transaction chain_id (StickySession i) (st_rlp signed) Broadcast.rpc_timeout rpc1 = (Ok hash, rpc2) →
  length hash = 32%nat →
  ∃ r vst rpc3, answer_recorded validator_config hash r vst ∧
    run_pipeline ctx 2 (quiet_world t rpc reg) =
    (if is_ok r then Next tt else Return,
     quiet_world (final_tables t (settled hash r).1 signed hash vst) rpc3
       (recorded [Accepted; NonceReserved; Signed; Broadcasted (fmt_hex hash) waiting_text; (settled hash r).2] reg)).
Proof.
  intros Hp Hto Ht Hk Hs Hi Hsend Hh.
  set (reg4 := recorded [Accepted; NonceReserved; Signed; Broadcasted (fmt_hex hash) waiting_text] reg).
  destruct (validate_call (sent_tables t NReserved signed hash) rpc2 reg4 hash i Hp Hto)
    as (r & vst & rpc3 & Hv & Ha);
    [by eapply chain_fits|done|apply (ne_ok _ Ht)|apply (ne_unseen _ Ht)|].
  exists r, vst, rpc3. split; [done|]. unfold run_pipeline; cbv zeta.
  erewrite fbind_next by (by apply relay_stage_quiet).
  erewrite fbind_next by (unfold funwrap, ctx; cbn [px_nonce_pool submit_ctx]; by rewrite (bo_nonce _ _ Horch)).
  erewrite fbind_next by (by apply nonce_stage_quiet).
  erewrite fbind_next by (unfold funwrap, ctx; cbn [px_sign_pool submit_ctx]; by rewrite (bo_sign _ _ Horch)).
  erewrite fbind_next by (by eapply sign_stage_quiet).
  erewrite fbind_next by (by apply endpoint_stage_quiet).
  erewrite fbind_next by (unfold funwrap, ctx; cbn [px_broadcast_pool submit_ctx]; by rewrite (bo_broadcast _ _ Horch)).
  erewrite fbind_next by (by eapply broadcast_stage_quiet).
  erewrite fbind_next by apply status_step.
  exact (finish_quiet t rpc2 reg4 signed hash vst i r rpc3 Ht Hv Ha).
Qed.

End end_to_end.

(** C1: end to end: an accepted submission on idle databases - the intent is
    logged once; the account's next nonce is allocated and written into the
    transaction before it is signed; exactly those signed bytes are sent, at
    the acquired endpoint, and recorded with the hash the node returned; the
    hash is validated, and its outcome decides in which state the nonce ends
    and which status is final: included - finalized and confirmed, timed out -
    consumed, reverted or unreachable - released and failed.  Every table gains
    exactly that row and the registry exactly those statuses. *)
Theorem submission_end_to_end {R} `{RpcApi R, EndpointApi R, !RpcApiLaws R}
    {St} `{RlpStream St} `{Crypto} `{HexOps} `{AddressOps} `{U256Hash}
    keys validator_config env redis_up maxp config orch permits
    now draws e txn client t (rpc : R) reg key signed i rpc1 hash rpc2 :
  boot (St := St) keys validator_config env redis_up maxp config = Some (orch, permits) →
  0 ≤ max_attempts (retry config) < u32_max →
  0 < poll_interval validator_config → 0 ≤ vc_timeout validator_config →
  new_execution now e txn client t →
  resolve_key keys (cc_from_address client) = Ok key →
  let chain := chain_u256 (tx_chain_id txn) in
  let n := max_nonce chain (cc_from_address client) (tb_nonces t) + 1 in
  sign_eip1559_transaction (S := St) (set_tx_nonce (mkTxNonce n) txn) key = Ok signed →
  api_acquire_endpoint (tx_chain_id txn) (from_secs 30) rpc = (Ok (Some i), rpc1) →
  api_send_raw_transaction (tx_chain_id txn) (StickySession i) (st_rlp signed) (from_secs 30) rpc1 = (Ok hash, rpc2) →
  length hash = 32%nat →
  ∃ r vst rpc3, answer_recorded validator_config hash r vst ∧
    run_pipeline (submit_ctx orch e txn client) 2 (quiet_world now draws t rpc reg) =
    (if is_ok r then Next tt else Return,
     quiet_world now draws
       (mkTables (tb_intents t ++ [intent_row e txn client chain now])
          (tb_nonces t ++ [mkNonceRow e 1 chain (cc_from_address client) n (settled hash r).1 now now])
          (tb_signs t ++ [mkSignRow e 1 chain (cc_from_address client) (Some (st_rlp signed)) SSigned now now])
          (tb_broadcasts t ++ [mkBroadcastRow e 1 chain (cc_from_address client) (Some hash) BSubmitted None now now])
          (tb_validations t ++ [mkValidationRow e 1 chain hash vst now now]))
       rpc3
       (recorded e [Accepted; NonceReserved; Signed; Broadcasted (fmt_hex hash) waiting_text; (settled hash r).2] reg)).
Proof.
  intros Hb Hmax Hp Hto Ht Hk chain n Hs Hi Hsend Hh. apply boot_orch in Hb.
  exact (run_quiet keys validator_config now draws e txn client config orch Hb Hmax t rpc reg key signed i
    rpc1 hash rpc2 Hp Hto Ht Hk Hs Hi Hsend Hh).
Qed.

(** ** An execution to look at *)

Definition demo_tables : Tables := mkTables [] [] [] [] [].

Lemma demo_new : new_execution 0 (mkExecutionId 9) ex_tx demo_client demo_tables.
Proof.
  split; cbn [demo_tables tb_intents tb_nonces tb_signs tb_broadcasts tb_validations].
  - apply ex_tx_in_range.
  - vm_compute. exact eq_refl.
  - split_and!; vm_compute; exact eq_refl.
  - by intros r ?%elem_of_nil.
  - split_and!; intros r ?%elem_of_nil; done.
  - vm_compute. exact eq_refl.
  - vm_compute. exact eq_refl.
Qed.

Definition demo_signed : SignedTransaction :=
  match sign_eip1559_transaction (S := BStream) (set_tx_nonce (mkTxNonce 0) ex_tx) (replicate 32 (byte_of_Z 7)) with
  | Ok s => s
  | Err _ => mkSigned [] (mkTxNonce 0)
  end.

Lemma submission_end_to_end_witness :
  match demo_boot with
  | Some (orch, _) =>
      ∃ r vst rpc3, answer_recorded ValidatorConfig_default (replicate 32 (byte_of_Z 171)) r vst ∧
        run_pipeline (submit_ctx orch (mkExecutionId 9) ex_tx demo_client) 2
          (quiet_world 0 [] demo_tables demo_rpc (mkStatusRegistry ∅ [])) =
        (if is_ok r then Next tt else Return,
         quiet_world 0 []
           (mkTables [intent_row (mkExecutionId 9) ex_tx demo_client 1 0]
              [mkNonceRow (mkExecutionId 9) 1 1 [byte_of_Z 10] 0
                 (settled (replicate 32 (byte_of_Z 171)) r).1 0 0]
              [mkSignRow (mkExecutionId 9) 1 1 [byte_of_Z 10] (Some (st_rlp demo_signed)) SSigned 0 0]
              [mkBroadcastRow (mkExecutionId 9) 1 1 [byte_of_Z 10] (Some (replicate 32 (byte_of_Z 171)))
                 BSubmitted None 0 0]
              [mkValidationRow (mkExecutionId 9) 1 1 (replicate 32 (byte_of_Z 171)) vst 0 0])
           rpc3
           (recorded (mkExecutionId 9)
              [Accepted; NonceReserved; Signed;
               Broadcasted (fmt_hex (replicate 32 (byte_of_Z 171))) waiting_text;
               (settled (replicate 32 (byte_of_Z 171)) r).2] (mkStatusRegistry ∅ [])))
  | None => False
  end.
Proof.
  destruct demo_boot as [[orch permits]|] eqn:Hb.
  - apply (submission_end_to_end (St := BStream) ex_policy ValidatorConfig_default (λ _, None) true 100 demo_config
      orch permits 0 [] (mkExecutionId 9) ex_tx demo_client demo_tables demo_rpc (mkStatusRegistry ∅ [])
      (replicate 32 (byte_of_Z 7)) demo_signed 0 demo_rpc (replicate 32 (byte_of_Z 171))
      (mkFakeRpc [] [] (fk_receipts demo_rpc) (fk_blocks demo_rpc) 0));
      [exact Hb|vm_compute; split; congruence|done|done|apply demo_new|
       vm_compute; exact eq_refl|vm_compute; exact eq_refl|done|done|done].
  - assert (Hup : booted_up = true) by (vm_compute; exact eq_refl). unfold booted_up in Hup.
    rewrite Hb in Hup. discriminate.
Defined.
