(* ===== verification/Auth.v ===== *)
(** * API keys and authentication

    [src/crate/utils/src/api/api.rs] loads the keys at boot;
    [src/lobby/src/server/auth.rs] checks the bearer token of every request. *)

From S2P Require Import Prelude Types Text Rlp Eip1559 Custody Status.

(** ** Splitting *)

Fixpoint has_char (c : Ascii.ascii) (s : string) : bool :=
  match s with
  | EmptyString => false
  | String a s => bool_decide (a = c) || has_char c s
  end.

Lemma split_on_spec c s :
  match split_on c s with
  | [] => False
  | p :: ps => has_char c p = false ∧
      match ps with [] => s = p | _ => ∃ s', s = p +:+ String c s' ∧ split_on c s' = ps end
  end.
Proof.
  induction s as [|a s IH]; [done|]. cbn [split_on]. case_decide as Ha.
  - subst. split; [done|]. destruct (split_on c s) as [|q qs] eqn:Hs; [done|]. by exists s.
  - destruct (split_on c s) as [|p ps]; [done|]. destruct IH as [Hp IH].
    split; [cbn; by rewrite bool_decide_false|].
    destruct ps as [|q qs]; [by subst|]. destruct IH as (s' & -> & Hs'). by exists s'.
Qed.

Lemma strip_prefix_Some p s r : strip_prefix p s = Some r → s = p +:+ r.
Proof.
  revert s; induction p as [|a p IH]; intros s; [by intros [= ->]|].
  destruct s as [|b s]; [done|]. cbn [strip_prefix]. case_decide as Hab; [|done].
  intros Hs%IH. by subst.
Qed.

Lemma split_on_plain c s : has_char c s = false → split_on c s = [s].
Proof.
  induction s as [|a s IH]; [done|]. cbn [has_char split_on].
  intros [Ha Hs]%orb_false_elim. apply bool_decide_eq_false in Ha.
  rewrite decide_False by done. by rewrite IH.
Qed.

Lemma split_on_app c a s : has_char c a = false → split_on c (a +:+ String c s) = a :: split_on c s.
Proof.
  induction a as [|x a IH]; simpl.
  - intros _. by rewrite decide_True.
  - intros [Hx Ha]%orb_false_elim. apply bool_decide_eq_false in Hx.
    rewrite decide_False by done. by rewrite IH.
Qed.

(** Three pieces without the separator, joined by it. *)
Lemma split_on_three c s p q r :
  split_on c s = [p; q; r] ↔
  s = p +:+ String c (q +:+ String c r) ∧ has_char c p = false ∧ has_char c q = false ∧ has_char c r = false.
Proof.
  split.
  - intros Hs. pose proof (split_on_spec c s) as H1. rewrite Hs in H1.
    destruct H1 as [Hp (s1 & -> & Hs1)]. pose proof (split_on_spec c s1) as H2. rewrite Hs1 in H2.
    destruct H2 as [Hq (s2 & -> & Hs2)]. pose proof (split_on_spec c s2) as H3. rewrite Hs2 in H3.
    by destruct H3 as [Hr ->].
  - intros (-> & Hp & Hq & Hr). by rewrite !split_on_app, split_on_plain.
Qed.

(** ** Authentication *)

(** Source: [lobby/src/server/auth.rs] lines 13-18, [AuthError]. *)
Inductive AuthError := MissingAuthHeader | InvalidAuthFormat | InvalidApiKey.
#[export] Instance AuthError_eq_dec : EqDecision AuthError.
Proof. solve_decision. Defined.

(** Source: [lobby/src/server/auth.rs] lines 23-59, [auth_middleware]. The
    header is [None] when it is absent or not visible ASCII; the result is the
    client attached to the request handed on. *)
Definition auth_middleware (api_registry : ApiRegistry) (auth_header : option string) :
    result ClientConfig AuthError :=
  match auth_header with
  | None => Err MissingAuthHeader
  | Some auth_header =>
      match strip_prefix "Bearer " auth_header with
      | None => Err InvalidAuthFormat
      | Some payload =>
          let api_key_elements := split_on ":" payload in
          if (length api_key_elements =? 3)%nat then
            match head api_key_elements ≫= λ api_token, api_registry !! api_token with
            | Some client_config => Ok client_config
            | None => Err InvalidApiKey
            end
          else Err InvalidAuthFormat
      end
  end.

(** Source: [lobby/src/server/auth.rs] lines 64-81, [AuthError::into_response]. *)
Definition AuthError_response (e : AuthError) : Z * string :=
  match e with
  | InvalidApiKey => (401, "unauthorized client api-key")
  | InvalidAuthFormat =>
      (401, "invalid authorization format (expected 'Bearer lobby_live_<random_string>:<api_token>:<from_address>')")
  | MissingAuthHeader => (401, "missing autherization header")
  end.

(** ** Keys from the environment *)

(** Source: [crate/utils/src/api/api.rs] lines 10-20, [EnvApiKeyError]. *)
Inductive EnvApiKeyError :=
| EInvalidClientId (key : string)
| EInvalidFromAddress (key : string)
| EInvalidApiKey (key : string)
| EApiKeyUnavailable.
#[export] Instance EnvApiKeyError_eq_dec : EqDecision EnvApiKeyError.
Proof. solve_decision. Defined.

Section load.
Context `{StatusText, AddressOps}.

(** Source: [crate/utils/src/api/api.rs] lines 31-45, [load_api_key_from_env (one variable)]. *)
Definition parse_api_value (key value : string) : result (ApiToken * ClientConfig) EnvApiKeyError :=
  match split_on ":" value with
  | [api_token; id; address] =>
      match uuid_parse id with
      | None => Err (EInvalidClientId key)
      | Some client_id =>
          match address_parse address with
          | None => Err (EInvalidFromAddress key)
          | Some from_address => Ok (api_token, mkClientConfig client_id from_address)
          end
      end
  | _ => Err (EInvalidApiKey key)
  end.

(** Source: [crate/utils/src/api/api.rs] lines 29-56, [load_api_key_from_env (loop)]. *)
Fixpoint load_vars (vars : list (string * string)) (api_keys : ApiRegistry) :
    result ApiRegistry EnvApiKeyError :=
  match vars with
  | [] => Ok api_keys
  | (key, value) :: vars =>
      match strip_prefix "LOBBY_API_KEY_" key with
      | None => load_vars vars api_keys
      | Some _ =>
          match parse_api_value key value with
          | Err e => Err e
          | Ok (api_token, client_config) => load_vars vars (<[api_token := client_config]> api_keys)
          end
      end
  end.

(** Source: [crate/utils/src/api/api.rs] lines 25-63, [load_api_key_from_env]. *)
Definition load_api_key_from_env (vars : list (string * string)) : result ApiRegistry EnvApiKeyError :=
  match load_vars vars ∅ with
  | Err e => Err e
  | Ok api_keys => if decide (api_keys = ∅) then Err EApiKeyUnavailable else Ok api_keys
  end.

(** The key variables, in order, with what they declare. *)
Fixpoint declared (vars : list (string * string)) : list (ApiToken * ClientConfig) :=
  match vars with
  | [] => []
  | (key, value) :: vars =>
      match strip_prefix "LOBBY_API_KEY_" key, parse_api_value key value with
      | Some _, Ok x => x :: declared vars
      | _, _ => declared vars
      end
  end.

(** The last declaration of a token wins. *)
Fixpoint last_declared (tok : ApiToken) (l : list (ApiToken * ClientConfig)) : option ClientConfig :=
  match l with
  | [] => None
  | (t, c) :: l =>
      match last_declared tok l with Some c' => Some c' | None => if decide (t = tok) then Some c else None end
  end.

Lemma load_vars_lookup vars reg reg' tok :
  load_vars vars reg = Ok reg' →
  reg' !! tok = match last_declared tok (declared vars) with Some c => Some c | None => reg !! tok end.
Proof.
  revert reg; induction vars as [|[key value] vars IH]; intros reg; [by intros [= ->]|].
  cbn [load_vars declared]. destruct (strip_prefix "LOBBY_API_KEY_" key); [|apply IH].
  destruct (parse_api_value key value) as [[t c]|e]; [|done]. intros Hl. rewrite (IH _ Hl). cbn [last_declared].
  destruct (last_declared tok (declared vars)); [done|].
  case_decide as Ht; [subst; by rewrite lookup_insert_eq|by rewrite lookup_insert_ne].
Qed.

(** a request is authenticated exactly when its header is
    [Bearer <token>:<x>:<y>] - three pieces without further colons - and the
    token is registered; the client attached is the registered one, whatever
    the other two pieces say.  An absent header, a malformed one and an unknown
    token are told apart, and all three are 401. *)
Theorem auth_functional (reg : ApiRegistry) (header : option string) :
  match auth_middleware reg header with
  | Ok client => ∃ tok x y, header = Some ("Bearer " +:+ tok +:+ ":" +:+ x +:+ ":" +:+ y) ∧
      has_char ":" tok = false ∧ has_char ":" x = false ∧ has_char ":" y = false ∧
      reg !! tok = Some client
  | Err e => (AuthError_response e).1 = 401 ∧
      match e with
      | MissingAuthHeader => header = None
      | InvalidApiKey => ∃ tok x y, header = Some ("Bearer " +:+ tok +:+ ":" +:+ x +:+ ":" +:+ y) ∧
          has_char ":" tok = false ∧ reg !! tok = None
      | InvalidAuthFormat => ∃ h, header = Some h ∧
          ∀ tok x y, has_char ":" tok = false → has_char ":" x = false → has_char ":" y = false →
            h ≠ "Bearer " +:+ tok +:+ ":" +:+ x +:+ ":" +:+ y
      end
  end.
Proof.
  unfold auth_middleware. destruct header as [h|]; [|done].
  destruct (strip_prefix "Bearer " h) as [payload|] eqn:Hs.
  2:{ split; [done|]. exists h. split; [done|]. intros tok x y _ _ _ ->.
      by rewrite strip_prefix_app in Hs. }
  apply strip_prefix_Some in Hs as ->.
  destruct (split_on ":" payload) as [|tok [|x [|y [|z rest]]]] eqn:Hsp; cbn [length Nat.eqb head mbind option_bind].
  4:{ apply split_on_three in Hsp as (-> & Ht & Hx & Hy). destruct (reg !! tok) as [c|] eqn:Hreg.
      - by exists tok, x, y.
      - split; [done|]. by exists tok, x, y. }
  all: split; [done|]; eexists; (split; [reflexivity|]); intros tok' x' y' Ht Hx Hy Heq.
  all: assert (payload = tok' +:+ String ":" (x' +:+ String ":" y')) as -> by
    (apply (f_equal (strip_prefix "Bearer ")) in Heq; rewrite !strip_prefix_app in Heq; by injection Heq as ->).
  all: rewrite (proj2 (split_on_three ":" _ tok' x' y') (conj eq_refl (conj Ht (conj Hx Hy)))) in Hsp; done.
Qed.

(** the keys that load are the keys that authenticate: with the registry
    built from the environment, the value of a [LOBBY_API_KEY_*] variable is
    itself a valid bearer credential for the client that variable declares,
    unless a later variable redeclares the token; and nothing else is. *)
Theorem api_keys_authenticate vars reg key value tok client :
  load_api_key_from_env vars = Ok reg → (key, value) ∈ vars →
  is_Some (strip_prefix "LOBBY_API_KEY_" key) → parse_api_value key value = Ok (tok, client) →
  auth_middleware reg (Some ("Bearer " +:+ value)) =
    match last_declared tok (declared vars) with Some c => Ok c | None => Err InvalidApiKey end ∧
  (tok, client) ∈ declared vars ∧ is_Some (last_declared tok (declared vars)) ∧
  (∀ c, last_declared tok (declared vars) = Some c → (tok, c) ∈ declared vars).
Proof.
  unfold load_api_key_from_env. destruct (load_vars vars ∅) as [reg'|] eqn:Hl; [|done].
  case_decide; [done|]. intros [= ->] Hin [suffix Hkey] Hp.
  assert (Hdecl : (tok, client) ∈ declared vars).
  { clear -Hin Hkey Hp. induction vars as [|[k v] vars IH]; [by apply elem_of_nil in Hin|].
    cbn [declared]. apply elem_of_cons in Hin as [[= <- <-]|Hin].
    - rewrite Hkey, Hp. left.
    - specialize (IH Hin). destruct (strip_prefix "LOBBY_API_KEY_" k), (parse_api_value k v); auto. by right. }
  assert (Hsome : is_Some (last_declared tok (declared vars))).
  { clear -Hdecl. induction (declared vars) as [|[t c] l IH]; [by apply elem_of_nil in Hdecl|].
    cbn. apply elem_of_cons in Hdecl as [[= <- <-]|Hin].
    - destruct (last_declared tok l); [eauto|]. rewrite decide_True by done. eauto.
    - destruct (IH Hin) as [c' ->]. eauto. }
  split_and!; [|done|done|].
  - unfold auth_middleware. rewrite strip_prefix_app. unfold parse_api_value in Hp.
    destruct (split_on ":" value) as [|t [|id [|a [|? ?]]]]; try done.
    destruct (uuid_parse id); [|done]. destruct (address_parse a); [|done].
    injection Hp as -> _. cbn [length Nat.eqb head mbind option_bind].
    rewrite (load_vars_lookup _ _ _ tok Hl), lookup_empty. by destruct Hsome as [c ->].
  - clear. intros c. induction (declared vars) as [|[t c'] l IH]; [done|]. cbn.
    destruct (last_declared tok l) as [c''|]; [intros [= ->]; right; by apply IH|].
    case_decide; [|done]. intros [= ->]. subst. left.
Qed.
End load.

Definition ex_token_vars : list (string * string) :=
  [("PATH", "/bin"); ("LOBBY_API_KEY_1", "tok:" +:+ uuid_display 7 +:+ ":0x0a")].

Lemma api_keys_authenticate_witness :
  ∃ reg, load_api_key_from_env ex_token_vars = Ok reg ∧
  auth_middleware reg (Some ("Bearer " +:+ "tok:" +:+ uuid_display 7 +:+ ":0x0a"))
    = Ok (mkClientConfig 7 [byte_of_Z 10]).
Proof.
  eexists. split; [reflexivity|].
  refine (proj1 (api_keys_authenticate ex_token_vars _ "LOBBY_API_KEY_1" _ "tok"
    (mkClientConfig 7 [byte_of_Z 10]) eq_refl _ _ _)).
  - right. left.
  - by eexists.
  - reflexivity.
Defined.
