(* ===== verification/Server.v ===== *)
(** * The HTTP handlers

    [src/lobby/src/server/handler.rs], behind the middleware of [Auth.v]: a
    JSON-RPC submission that validates, normalizes and hands over to the
    orchestrator, and the status poll. *)

From S2P Require Import Prelude Types Text Retry Rlp Eip1559 Custody Pool RpcClient CortexError Shard Status Pipeline PipelineSpec Refine PipelineProps Config Cortex Auth.

Section server.
Context {W : Type} `{Runtime W} `{U256Hash} `{HexOps} `{StatusText} `{AddressOps}.
(** [serde_json::Value], and its [Null]; alloy's [{:?}] of an address. *)
Context {Json : Type} (json_null : Json) (address_debug : Address → string).

(** Source: [crate/primitives/src/types.rs] lines 80-86, [JsonRpcRequest]. *)
Record JsonRpcRequest := mkJsonRpcRequest {
  rq_jsonrpc : string;
  rq_method : string;
  rq_params : list Eip1193SendTransactionParams;
  rq_id : Json
}.

(** Source: [crate/primitives/src/types.rs] lines 110-114, [TxnAcceptedResult]. *)
Record TxnAcceptedResult := mkAccepted { ta_execution_id : ExecutionId; ta_status : string }.

(** Source: [crate/primitives/src/types.rs] lines 88-93, [JsonRpcSuccessResponse]. *)
Record JsonRpcSuccessResponse := mkSuccess {
  rs_jsonrpc : string;
  rs_result : TxnAcceptedResult;
  rs_id : Json
}.

(** Source: [crate/primitives/src/types.rs] lines 102-108, [JsonRpcError]. The
    optional data is the expected and the actual address. *)
Record JsonRpcError := mkJsonRpcError {
  je_code : Z;
  je_message : string;
  je_data : option (string * string)
}.

(** Source: [crate/primitives/src/types.rs] lines 95-100, [JsonRpcErrorResponse]. *)
Record JsonRpcErrorResponse := mkErrorResponse {
  er_jsonrpc : string;
  er_error : JsonRpcError;
  er_id : Json
}.

(** Source: [crate/primitives/src/types.rs] lines 116-121, [JsonStatusResponse]. *)
Record JsonStatusResponse := mkStatusResponse { sr_execution_id : string; sr_status : PipelineStatus }.

(** Source: [lobby/src/server/handler.rs] lines 25-38, [HandlerError]. *)
Inductive HandlerError :=
| HInvalidJsonRpcVersion
| HUnsupportedMethod (m : string)
| HCorruptedParams
| HNormalizationFailed (e : NormalizationError)
| HFromAddressMismatch (expected actual : Address)
| HCortexError (e : CortexError)
| HIdParsingError (raw : string)
| HRecordNotFound (raw : string).

(** Source: [lobby/src/server/handler.rs] lines 156-252, [HandlerError::into_response]. *)
Definition into_response (e : HandlerError) : Z * JsonRpcErrorResponse :=
  let '(status, error) :=
    match e with
    | HInvalidJsonRpcVersion => (400, mkJsonRpcError (-32600) "Invalid JSON-RPC version (must be 2.0)" None)
    | HUnsupportedMethod m => (400, mkJsonRpcError (-32601) ("Unsupported method: " +:+ m) None)
    | HCorruptedParams => (400, mkJsonRpcError (-32602) "Missing transaction parameters" None)
    | HNormalizationFailed e =>
        (400, mkJsonRpcError (-32602) ("Invalid params: " +:+ NormalizationError_display e) None)
    | HFromAddressMismatch expected actual =>
        (403, mkJsonRpcError (-32000) "From address does not match authenticated account"
          (Some (address_debug expected, address_debug actual)))
    | HCortexError (CRelayHost err) =>
        (400, mkJsonRpcError (-32602) ("Transaction validation failed: " +:+ RelayHostError_display err) None)
    | HCortexError _ => (500, mkJsonRpcError (-32603) "Internal pipeline error" None)
    | HIdParsingError raw => (400, mkJsonRpcError (-32602) (raw +:+ " is not a valid UUID") None)
    | HRecordNotFound raw =>
        (404, mkJsonRpcError (-32001) ("no pipeline record found for the give execution id: " +:+ raw) None)
    end in
  (status, mkErrorResponse "2.0" error json_null).

Abbreviation Sys := (System (W := W)).

(** Source: [lobby/src/server/handler.rs] lines 53-121, [submit_transaction].
    [fresh] is the uuid drawn for the execution, [elapsed] as for [submit].
    [None] is the panic of the normalization, or a submission that waits. *)
Definition submit_transaction (orch : Cortex (W := W)) (elapsed : bool) (fresh : Z)
    (client_config : ClientConfig) (request : JsonRpcRequest) (s : Sys) :
    option (result JsonRpcSuccessResponse HandlerError * Sys) :=
  if decide (rq_method request = "eth_sendRawTransaction") then
    match head (rq_params request) with
    | None => Some (Err HCorruptedParams, s)
    | Some params =>
        match normalize_eip1193_transaction params with
        | None => None
        | Some (Err e) => Some (Err (HNormalizationFailed e), s)
        | Some (Ok (txn, from_address)) =>
            if decide (from_address = cc_from_address client_config) then
              let execution_id := mkExecutionId fresh in
              match submit orch elapsed execution_id txn client_config s with
              | None => None
              | Some (Err e, s') => Some (Err (HCortexError e), s')
              | Some (Ok _, s') =>
                  Some (Ok (mkSuccess "2.0" (mkAccepted execution_id "accepted") (rq_id request)), s')
              end
            else Some (Err (HFromAddressMismatch (cc_from_address client_config) from_address), s)
        end
    end
  else Some (Err (HUnsupportedMethod (rq_method request)), s).

(** Source: [lobby/src/server/handler.rs] lines 134-151, [get_transaction_status]. *)
Definition get_transaction_status (registry : StateStore W) (raw_id : string) (w : W) :
    result JsonStatusResponse HandlerError :=
  match uuid_parse raw_id with
  | None => Err (HIdParsingError raw_id)
  | Some uuid =>
      match ss_get registry (mkExecutionId uuid) w with
      | Some status => Ok (mkStatusResponse raw_id status)
      | None => Err (HRecordNotFound raw_id)
      end
  end.

(** What the client of a route receives. *)
Inductive Response :=
| RUnauthorized (status : Z) (text : string)
| RRejected (status : Z) (text : string)
| RError (status : Z) (body : JsonRpcErrorResponse)
| RAccepted (body : JsonRpcSuccessResponse)
| RStatus (body : JsonStatusResponse).

(** Source: [lobby/src/main.rs] lines 149-161, [main (POST /v1/transactions)].
    [body] is what axum's [Json] extractor makes of the request's content type
    and bytes: the request, or the status and text of its rejection (documented:
    415 without a JSON content type, 413 above the size limit, 400 for a body
    that cannot be read or is not JSON, 422 for JSON of another shape).  The
    middleware runs before it, the handler after it. *)
Definition post_transactions (api_registry : ApiRegistry) (orch : Cortex (W := W)) (elapsed : bool) (fresh : Z)
    (auth_header : option string) (body : result JsonRpcRequest (Z * string)) (s : Sys) : option (Response * Sys) :=
  match auth_middleware api_registry auth_header with
  | Err e => Some (RUnauthorized (AuthError_response e).1 (AuthError_response e).2, s)
  | Ok client_config =>
      match body with
      | Err (status, text) => Some (RRejected status text, s)
      | Ok request =>
          match submit_transaction orch elapsed fresh client_config request s with
          | None => None
          | Some (Ok answer, s') => Some (RAccepted answer, s')
          | Some (Err e, s') => Some (RError (into_response e).1 (into_response e).2, s')
          end
      end
  end.

(** Source: [lobby/src/main.rs] lines 154-161, [main (GET /status/{execution_id})]. *)
Definition get_status (api_registry : ApiRegistry) (registry : StateStore W) (auth_header : option string)
    (raw_id : string) (w : W) : Response :=
  match auth_middleware api_registry auth_header with
  | Err e => RUnauthorized (AuthError_response e).1 (AuthError_response e).2
  | Ok _ =>
      match get_transaction_status registry raw_id w with
      | Ok body => RStatus body
      | Err e => RError (into_response e).1 (into_response e).2
      end
  end.

(** ** What a submission does *)

(** Everything [submit_transaction] requires of an authenticated request. *)
Definition acceptable (client : ClientConfig) (request : JsonRpcRequest) (txn : Eip1559Transaction) : Prop :=
  rq_method request = "eth_sendRawTransaction" ∧
  ∃ params, head (rq_params request) = Some params ∧
    normalize_eip1193_transaction params = Some (Ok (txn, cc_from_address client)).

Definition status_code (r : Response) : Z :=
  match r with
  | RUnauthorized st _ | RRejected st _ => st
  | RError st _ => st
  | RAccepted _ | RStatus _ => 200
  end.

(** Why a submission is refused, and with which status. *)
Inductive refusal (reg : ApiRegistry) (elapsed : bool) (header : option string)
    (body : result JsonRpcRequest (Z * string)) (s : Sys) : Z → Prop :=
| refusal_auth e :
    auth_middleware reg header = Err e → refusal reg elapsed header body s 401
| refusal_body client status text :
    auth_middleware reg header = Ok client → body = Err (status, text) → refusal reg elapsed header body s status
| refusal_method client request :
    auth_middleware reg header = Ok client → body = Ok request →
    rq_method request ≠ "eth_sendRawTransaction" → refusal reg elapsed header body s 400
| refusal_params client request :
    auth_middleware reg header = Ok client → body = Ok request →
    rq_method request = "eth_sendRawTransaction" → rq_params request = [] → refusal reg elapsed header body s 400
| refusal_normalize client request params e :
    auth_middleware reg header = Ok client → body = Ok request →
    rq_method request = "eth_sendRawTransaction" → head (rq_params request) = Some params →
    normalize_eip1193_transaction params = Some (Err e) → refusal reg elapsed header body s 400
| refusal_sender client request params txn from :
    auth_middleware reg header = Ok client → body = Ok request →
    rq_method request = "eth_sendRawTransaction" → head (rq_params request) = Some params →
    normalize_eip1193_transaction params = Some (Ok (txn, from)) → from ≠ cc_from_address client →
    refusal reg elapsed header body s 403
| refusal_busy client request txn :
    auth_middleware reg header = Ok client → body = Ok request → acceptable client request txn →
    sys_permits s ≤ 0 → elapsed = true → refusal reg elapsed header body s 500.

(** Why a submission is not answered: the normalization panics, or the handler
    still waits for a permit. *)
Inductive unanswered (reg : ApiRegistry) (elapsed : bool) (header : option string)
    (body : result JsonRpcRequest (Z * string)) (s : Sys) : Prop :=
| unanswered_panic client request params :
    auth_middleware reg header = Ok client → body = Ok request →
    rq_method request = "eth_sendRawTransaction" → head (rq_params request) = Some params →
    normalize_eip1193_transaction params = None → unanswered reg elapsed header body s
| unanswered_waits client request txn :
    auth_middleware reg header = Ok client → body = Ok request → acceptable client request txn →
    sys_permits s ≤ 0 → elapsed = false → unanswered reg elapsed header body s.

(** What the cause of a refusal leads to. *)
Definition refused_as (o : option (Response * Sys)) (s : Sys) (status : Z) : Prop :=
  ∃ r, o = Some (r, s) ∧ status_code r = status ∧ ∀ answer, r ≠ RAccepted answer.

Lemma post_acceptable reg orch elapsed fresh header request s client txn :
  auth_middleware reg header = Ok client → acceptable client request txn →
  post_transactions reg orch elapsed fresh header (Ok request) s =
    if 0 <? sys_permits s then
      Some (RAccepted (mkSuccess "2.0" (mkAccepted (mkExecutionId fresh) "accepted") (rq_id request)),
        mkSystem (sys_permits s - 1) (sys_running s ++ [submit_ctx orch (mkExecutionId fresh) txn client])
          (ss_set (cx_status_registry orch) (mkExecutionId fresh) PermitAquired (sys_world s)))
    else if elapsed then
      let e := HCortexError (CBackpressureTimeout (wrap_u64 (as_millis (pipeline_semaphore_timeout (cx_config orch))))) in
      Some (RError (into_response e).1 (into_response e).2, s)
    else None.
Proof.
  intros Hauth (Hm & params & Hp & Hn). unfold post_transactions, submit_transaction. rewrite Hauth.
  rewrite decide_True by done. rewrite Hp, Hn. rewrite decide_True by done.
  unfold submit. destruct (0 <? _); [done|]. by destruct elapsed.
Qed.

Lemma post_refused reg orch elapsed fresh header body s status :
  refusal reg elapsed header body s status →
  refused_as (post_transactions reg orch elapsed fresh header body s) s status.
Proof.
  unfold refused_as. destruct 1 as [e Ha|c st text Ha ->|c req Ha -> Hm|c req Ha -> Hm Hp|c req params e Ha -> Hm Hp Hn
    |c req params txn from Ha -> Hm Hp Hn Hf|c req txn Ha -> Hacc Hs Hel].
  7: { rewrite (post_acceptable _ _ _ _ _ _ _ _ _ Ha Hacc), Hel.
       destruct (Z.ltb_spec 0 (sys_permits s)); [lia|]. by eexists. }
  all: unfold post_transactions, submit_transaction; rewrite Ha.
  - eexists. split_and!; [done|by destruct e|done].
  - by eexists.
  - rewrite decide_False by done. by eexists.
  - rewrite decide_True, Hp by done. by eexists.
  - rewrite decide_True, Hp, Hn by done. by eexists.
  - rewrite decide_True, Hp, Hn, decide_False by done. by eexists.
Qed.

Lemma post_unanswered reg orch elapsed fresh header body s :
  unanswered reg elapsed header body s → post_transactions reg orch elapsed fresh header body s = None.
Proof.
  destruct 1 as [c req params Ha -> Hm Hp Hn|c req txn Ha -> Hacc Hs Hel].
  - unfold post_transactions, submit_transaction. by rewrite Ha, decide_True, Hp, Hn.
  - rewrite (post_acceptable _ _ _ _ _ _ _ _ _ Ha Hacc), Hel. by destruct (Z.ltb_spec 0 (sys_permits s)); [lia|].
Qed.

(** The three cases are all there are. *)
Lemma post_cases reg elapsed header body s :
  (∃ client request txn, auth_middleware reg header = Ok client ∧ body = Ok request ∧
     acceptable client request txn ∧ 0 < sys_permits s) ∨
  (∃ status, refusal reg elapsed header body s status) ∨ unanswered reg elapsed header body s.
Proof.
  destruct (auth_middleware reg header) as [client|e] eqn:Ha; [|right; left; by eexists; eapply refusal_auth].
  destruct body as [request|[status text]]; [|right; left; by eexists; eapply refusal_body].
  destruct (decide (rq_method request = "eth_sendRawTransaction")) as [Hm|Hm];
    [|right; left; by eexists; eapply refusal_method].
  destruct (rq_params request) as [|params ps] eqn:Hps; [right; left; by eexists; eapply refusal_params|].
  assert (Hp : head (rq_params request) = Some params) by (by rewrite Hps).
  destruct (normalize_eip1193_transaction params) as [[[txn from]|e]|] eqn:Hn;
    [|right; left; by eexists; eapply refusal_normalize|right; right; by eapply unanswered_panic].
  destruct (decide (from = cc_from_address client)) as [->|Hf]; [|right; left; by eexists; eapply refusal_sender].
  assert (Hacc : acceptable client request txn) by (split; eauto).
  destruct (Z.lt_ge_cases 0 (sys_permits s)); [left; by exists client, request, txn|right].
  destruct elapsed; [left; by eexists; eapply refusal_busy|right; by eapply unanswered_waits].
Qed.

(** C13: the submission route.  A request is answered 200 exactly when it is
    authenticated, its body decodes to a JSON-RPC request, that is acceptable -
    the method, a first parameter that normalizes, the sender of the account -
    and a pipeline permit is free; then one pipeline is started, for the
    normalized transaction and the authenticated client under the fresh id,
    and the id and "accepted" go back under the request's own JSON-RPC id.
    Every other answer leaves the system as it was and has a cause that
    determines its status, and every such cause is answered so: 401 for a
    request that is not authenticated, the extractor's own status for a body
    it rejects, 400 for the method, missing parameters or a parameter that does
    not normalize, 403 for another sender, 500 when no permit became free in
    time.  Without an answer is exactly a request whose normalization panics, or
    that still waits for a permit. *)
Theorem post_transactions_functional reg orch elapsed fresh header body s :
  (∀ answer s',
     post_transactions reg orch elapsed fresh header body s = Some (RAccepted answer, s') ↔
     ∃ client request txn, auth_middleware reg header = Ok client ∧ body = Ok request ∧
       acceptable client request txn ∧ 0 < sys_permits s ∧
       answer = mkSuccess "2.0" (mkAccepted (mkExecutionId fresh) "accepted") (rq_id request) ∧
       s' = mkSystem (sys_permits s - 1) (sys_running s ++ [submit_ctx orch (mkExecutionId fresh) txn client])
              (ss_set (cx_status_registry orch) (mkExecutionId fresh) PermitAquired (sys_world s))) ∧
  (∀ r s', post_transactions reg orch elapsed fresh header body s = Some (r, s') →
     (∀ answer, r ≠ RAccepted answer) → s' = s ∧ refusal reg elapsed header body s (status_code r)) ∧
  (∀ status, refusal reg elapsed header body s status →
     refused_as (post_transactions reg orch elapsed fresh header body s) s status) ∧
  (post_transactions reg orch elapsed fresh header body s = None ↔ unanswered reg elapsed header body s).
Proof.
  pose proof (λ st, post_refused reg orch elapsed fresh header body s st) as Href.
  pose proof (post_unanswered reg orch elapsed fresh header body s) as Hun.
  assert (Hacc : ∀ client request txn, auth_middleware reg header = Ok client → body = Ok request →
     acceptable client request txn → 0 < sys_permits s →
     post_transactions reg orch elapsed fresh header body s =
       Some (RAccepted (mkSuccess "2.0" (mkAccepted (mkExecutionId fresh) "accepted") (rq_id request)),
         mkSystem (sys_permits s - 1) (sys_running s ++ [submit_ctx orch (mkExecutionId fresh) txn client])
           (ss_set (cx_status_registry orch) (mkExecutionId fresh) PermitAquired (sys_world s)))).
  { intros client request txn Ha -> Hc Hs. rewrite (post_acceptable _ _ _ _ _ _ _ _ _ Ha Hc).
    by rewrite (proj2 (Z.ltb_lt _ _) Hs). }
  destruct (post_cases reg elapsed header body s) as [(c & rq & txn & Ha & Hb & Hc & Hs)|[[st Hr]|Hu]].
  - specialize (Hacc _ _ _ Ha Hb Hc Hs) as Hp. rewrite Hp. split_and!.
    + intros answer s'. split; [intros [= <- <-]; by exists c, rq, txn|].
      intros (c' & rq' & txn' & Ha' & Hb' & Hc' & Hs' & -> & ->).
      rewrite <- Hp. by apply Hacc.
    + intros r s' [= <- <-] Hne. by destruct (Hne _ eq_refl).
    + intros st Hr. rewrite <- Hp. by apply Href.
    + split; [done|]. intros Hu. by rewrite <- Hp, Hun.
  - destruct (Href st Hr) as (r & Hp & Hst & Hne). rewrite Hp. split_and!.
    + intros answer s'. split; [intros [= -> ->]; by destruct (Hne answer)|].
      intros (c' & rq' & txn' & Ha' & Hb' & Hc' & Hs' & -> & ->).
      by rewrite <- Hp; apply Hacc.
    + intros r' s' [= <- <-] _. split; [done|]. by rewrite Hst.
    + intros st' Hr'. rewrite <- Hp. by apply Href.
    + split; [done|]. intros Hu. by rewrite <- Hp, Hun.
  - rewrite Hun by done. split_and!.
    + intros answer s'. split; [done|]. intros (c' & rq' & txn' & Ha' & Hb' & Hc' & Hs' & -> & ->).
      rewrite <- (Hun Hu). by apply Hacc.
    + done.
    + intros st Hr. rewrite <- (Hun Hu). by apply Href.
    + done.
Qed.

(** Polling: an authenticated poll right after an accepted submission, with
    the id it returned printed as a uuid, is answered 200 with
    [permit_aquired]; a malformed id is 400, an unknown one 404, and a poll
    never needs more than a valid token - any client may read any execution. *)
Theorem poll_after_submit `{!StatusTextLaws} reg orch elapsed fresh header header' request s body s' client
    (Hstore : ∀ e st w, ss_get (cx_status_registry orch) e (ss_set (cx_status_registry orch) e st w) = Some st) :
  post_transactions reg orch elapsed fresh header request s = Some (RAccepted body, s') →
  auth_middleware reg header' = Ok client →
  let raw := uuid_display (eid_uuid (ta_execution_id (rs_result body))) in
  get_status reg (cx_status_registry orch) header' raw (sys_world s') = RStatus (mkStatusResponse raw PermitAquired) ∧
  (∀ raw', uuid_parse raw' = None →
     status_code (get_status reg (cx_status_registry orch) header' raw' (sys_world s')) = 400) ∧
  (∀ u raw', uuid_parse raw' = Some u → ss_get (cx_status_registry orch) (mkExecutionId u) (sys_world s') = None →
     status_code (get_status reg (cx_status_registry orch) header' raw' (sys_world s')) = 404).
Proof.
  intros Hpost Hauth'. unfold post_transactions in Hpost.
  destruct (auth_middleware reg header) as [c|]; [|done].
  destruct request as [request|[]]; [|done]. unfold submit_transaction, submit in Hpost.
  repeat (case_match; simplify_eq; try done). cbn.
  unfold get_status, get_transaction_status. rewrite Hauth'.
  rewrite uuid_parse_display. rewrite Hstore. split_and!; [done| |].
  - intros raw' Hr. by rewrite Hr.
  - intros u raw' Hr Hg. by rewrite Hr, Hg.
Qed.
End server.

(** ** A submission and its poll *)

Arguments mkJsonRpcRequest {Json} _ _ _ _.
Definition ex_request : JsonRpcRequest (Json := Z) :=
  mkJsonRpcRequest "2.0" "eth_sendRawTransaction"
    [mkEip1193 [byte_of_Z 10] None (Some "0x5208") (Some "0x2") (Some "0x1") None None "0x1" None] 41.

Definition ex_registry : ApiRegistry := {["tok" := mkClientConfig 7 [byte_of_Z 10]]}.
Definition ex_orch : Cortex :=
  match spawn_cortex no_env toy_spawners toy_endpoints toy_redis 100 toy_config with
  | Some (orch, _) => orch
  | None => mkCortex toy_config toy_store toy_endpoints (mkShardPool []) (mkShardPool []) (mkShardPool [])
              (mkShardPool []) (mkShardPool [])
  end.
Definition ex_system : System := mkSystem 1 [] toy_world.

Definition ex_answer : option (Response (Json := Z) * System) :=
  post_transactions 0 fmt_hex ex_registry ex_orch false 99 (Some "Bearer tok:a:b") (Ok ex_request) ex_system.

Lemma poll_after_submit_witness :
  ∃ body s', ex_answer = Some (RAccepted body, s') ∧
    let raw := uuid_display (eid_uuid (ta_execution_id (rs_result body))) in
    get_status 0 fmt_hex ex_registry (cx_status_registry ex_orch) (Some "Bearer tok:c:d") raw (sys_world s')
      = RStatus (mkStatusResponse raw PermitAquired).
Proof.
  destruct ex_answer as [[[| | |body|] s']|] eqn:Hpost; try (vm_compute in Hpost; discriminate).
  exists body, s'. split; [reflexivity|].
  refine (proj1 (poll_after_submit 0 fmt_hex ex_registry ex_orch false 99 (Some "Bearer tok:a:b")
    (Some "Bearer tok:c:d") (Ok ex_request) ex_system body s' (mkClientConfig 7 [byte_of_Z 10]) _ Hpost _)).
  - intros e st w. change (cx_status_registry ex_orch) with toy_store. simpl. by rewrite decide_True.
  - vm_compute. reflexivity.
Defined.
