(* ===== verification/Boot.v ===== *)
(** * The boot of the server

    [main] of [src/lobby/src/main.rs]: the steps from the environment to the
    listening socket, in their order, each with its own way to fail; and the
    [AppState] the routes of [Server.v] work on. *)

From S2P Require Import Prelude Types Text Retry Float Rlp Eip1559 Custody Lease Sign Metrics Pool RpcClient CortexError Shard Status Pipeline PipelineSpec Protocol Refine PipelineProps Config Cortex Auth Server.

(** [std::env::var] over the variables of the process. *)
Fixpoint env_var (vars : list (string * string)) (key : string) : option string :=
  match vars with
  | [] => None
  | (k, v) :: vars => if decide (k = key) then Some v else env_var vars key
  end.

(** The effects of a boot on the outside, in the order in which they happen. *)
Inductive BootEvent := EvOpenLog | EvConnect | EvMigrate | EvSpawnCortex | EvSpawnSweeper | EvBind.

(** How a boot ends without serving: the panics of [expect] and the errors
    [main] returns. *)
Inductive BootFailure :=
| PanicLogFile
| PanicDatabaseUrl
| PanicServerAddr
| BDatabase (e : string)
| BMigrate (e : string)
| BApiKeys (e : EnvApiKeyError)
| PanicCustody
| BRpcClient (e : LobbyRpcError)
| BEndpoints (e : LobbyRpcError)
| BConfig (e : ConfigError)
| PanicCortex
| BBind (e : string).

Section boot.
Context {W : Type} `{Runtime W} `{U256Hash} `{HexOps} `{StatusText} `{AddressOps}.
Context {P N SocketAddr : Type} `{!UrlOps (P := P)} (lag : Z).

(** What the process finds: its variables, the files, and the answers of the log
    file, the database, Redis and the sockets.  [h_relayhost] to [h_validator]
    are the shards of the actors, a signer given the keys it has loaded;
    [h_endpoints] is the endpoint source over the client; [h_utils_dir] and [h_actors_dir] are the directories the two
    crates that read the keys were built in. *)
Record Host := mkHost {
  h_log_file : bool;
  h_vars : list (string * string);
  h_files : string → KeysFile;
  h_utils_dir : string;
  h_actors_dir : string;
  h_connect : string → result unit string;
  h_migrate : result unit string;
  h_redis : string → option (StateStore W);
  h_parse_addr : string → option SocketAddr;
  h_bind : SocketAddr → result unit string;
  h_relayhost : nat → IntentRelay W;
  h_nonce : nat → NonceManager W;
  h_signer : JsonPolicyEngine → nat → Signer W;
  h_broadcast : RpcWorld P N → nat → Broadcaster W;
  h_validator : RpcWorld P N → nat → Validator W;
  h_endpoints : RpcWorld P N → EndpointSource W;
  h_max_permits : Z;
  h_clock : Z;
  h_waits : list bool;
  h_draws : list f64;
  h_net : N
}.

Definition h_env (h : Host) : Env := env_var (h_vars h).

Definition h_keys (h : Host) : option JsonPolicyEngine := SignEngine_new (h_actors_dir h) (h_files h) (h_env h).

(** The actors of a boot: every signer loads the keys for itself. *)
Definition h_spawners (h : Host) (client : RpcWorld P N) : Spawners (W := W) :=
  mkSpawners (h_relayhost h) (h_nonce h) (λ i, (λ keys, h_signer h keys i) <$> h_keys h)
    (h_broadcast h client) (h_validator h client).

(** Source: [lobby/src/server/mod.rs] lines 8-28, [AppState]. The handle is the
    orchestrator with the permits of its semaphore. *)
Record AppState := mkAppState {
  as_api_registry : ApiRegistry;
  as_cortex_handler : Cortex (W := W) * Z;
  as_status_registry : StateStore W
}.

Abbreviation Boot A := (Comp (list BootEvent) (result A BootFailure)).

(** A step with an effect on the outside, and one without. *)
Definition effect {A} (ev : BootEvent) (r : result A BootFailure) : Boot A := λ t, (r, t ++ [ev]).
Definition expect {A} (o : option A) (f : BootFailure) : Boot A := clift (result_of_option o f).

(** Source: [lobby/src/main.rs] lines 57-61, [main (SERVER_ADDR)]. *)
Definition server_addr (h : Host) : option SocketAddr :=
  h_parse_addr h (match h_env h "SERVER_ADDR" with Some a => a | None => "0.0.0.0:3000" end).

(** Source: [lobby/src/main.rs] lines 78-93, [main (lobby state artifacts)]. *)
Definition load_artifacts (h : Host) : Boot (ApiRegistry * RpcWorld P N) :=
  api_registry <-? clift (map_err BApiKeys (load_api_key_from_env (h_vars h))) ;;
  custody_keys_count <-? expect (export_custody_key_count (h_utils_dir h) (h_files h) (h_env h)) PanicCustody ;;
  rpc_client <-? clift (map_err BRpcClient
    (build_rpc_client lag (h_vars h) (h_clock h) (h_waits h) (h_draws h) (h_net h))) ;;
  endpoint_hashmap <-? clift (map_err BEndpoints (get_endpoint_hashmap rpc_client)) ;;
  cret (Ok (api_registry, rpc_client)).

(** Source: [lobby/src/main.rs] lines 33-167, [main]. The result is the state of
    the routes and the address they are served at. *)
Definition main (h : Host) : Boot (AppState * SocketAddr) :=
  _ <-? effect EvOpenLog (if h_log_file h then Ok tt else Err PanicLogFile) ;;
  database_url <-? expect (h_env h "DATABASE_URL") PanicDatabaseUrl ;;
  address <-? expect (server_addr h) PanicServerAddr ;;
  _ <-? effect EvConnect (map_err BDatabase (h_connect h database_url)) ;;
  _ <-? effect EvMigrate (map_err BMigrate (h_migrate h)) ;;
  artifacts <-? load_artifacts h ;;
  config <-? clift (map_err BConfig (from_env (h_env h))) ;;
  cortex_handler <-? effect EvSpawnCortex (result_of_option
    (spawn_cortex (h_env h) (h_spawners h artifacts.2) (h_endpoints h artifacts.2) (h_redis h) (h_max_permits h)
      config) PanicCortex) ;;
  _ <-? effect EvSpawnSweeper (Ok tt) ;;
  _ <-? effect EvBind (map_err BBind (h_bind h address)) ;;
  cret (Ok (mkAppState artifacts.1 cortex_handler (cx_status_registry cortex_handler.1), address)).

(** ** What the outside sees of a boot *)

(** The effects of a complete boot. *)
Definition boot_sequence : list BootEvent :=
  [EvOpenLog; EvConnect; EvMigrate; EvSpawnCortex; EvSpawnSweeper; EvBind].

(** How many of them a failing boot has had, the failing one included. *)
Definition progress (f : BootFailure) : nat :=
  match f with
  | PanicLogFile | PanicDatabaseUrl | PanicServerAddr => 1
  | BDatabase _ => 2
  | BMigrate _ | BApiKeys _ | PanicCustody | BRpcClient _ | BEndpoints _ | BConfig _ => 3
  | PanicCortex => 4
  | BBind _ => 6
  end.

(** The state a boot serves. *)
Record boot_state (h : Host) (state : AppState) : Prop := {
  bs_keys : ∃ tok client, as_api_registry state !! tok = Some client;
  bs_declared : ∀ tok, as_api_registry state !! tok = last_declared tok (declared (h_vars h));
  bs_permits : (as_cortex_handler state).2 = pipeline_concurrency (cx_config (as_cortex_handler state).1);
  bs_signers : is_Some (h_keys h);
  bs_config : from_env (h_env h) = Ok (cx_config (as_cortex_handler state).1);
  bs_status : as_status_registry state = cx_status_registry (as_cortex_handler state).1;
  bs_client : ∃ client, cx_rpc_client (as_cortex_handler state).1 = h_endpoints h client ∧
    pools_match client ∧ ∃ c, is_Some (rw_validator client !! c);
  bs_settles : ∀ e txn client w, settles (submit_ctx (as_cortex_handler state).1 e txn client) w
}.

(** Why a boot fails. *)
Definition boot_cause (h : Host) (f : BootFailure) : Prop :=
  match f with
  | PanicLogFile => h_log_file h = false
  | PanicDatabaseUrl => h_env h "DATABASE_URL" = None
  | PanicServerAddr => server_addr h = None
  | BDatabase e => ∃ url, h_env h "DATABASE_URL" = Some url ∧ h_connect h url = Err e
  | BMigrate e => h_migrate h = Err e
  | BApiKeys e => load_api_key_from_env (h_vars h) = Err e
  | PanicCustody => export_custody_key_count (h_utils_dir h) (h_files h) (h_env h) = None
  | BRpcClient e => build_rpc_client lag (h_vars h) (h_clock h) (h_waits h) (h_draws h) (h_net h) = Err e
  | BEndpoints _ => False
  | BConfig e => from_env (h_env h) = Err e
  | PanicCortex => ∃ c, from_env (h_env h) = Ok c ∧
      (0 ∈ shard_settings c ∨ actor_buffer c = 0 ∨ h_keys h = None ∨
       h_max_permits h < pipeline_concurrency c ∨ h_redis h (redis_url (h_env h)) = None)
  | BBind e => ∃ a, server_addr h = Some a ∧ h_bind h a = Err e
  end.

(** The position of a failing step in the boot. *)
Definition step_of (f : BootFailure) : nat :=
  match f with
  | PanicLogFile => 0
  | PanicDatabaseUrl => 1
  | PanicServerAddr => 2
  | BDatabase _ => 3
  | BMigrate _ => 4
  | BApiKeys _ => 5
  | PanicCustody => 6
  | BRpcClient _ => 7
  | BEndpoints _ => 8
  | BConfig _ => 9
  | PanicCortex => 10
  | BBind _ => 11
  end.

(** Nothing is the matter with the steps before step [n]. *)
Definition sound_before (h : Host) (n : nat) : Prop := ∀ f, (step_of f < n)%nat → ¬ boot_cause h f.

Lemma sound_step h n : sound_before h n → (∀ f, step_of f = n → ¬ boot_cause h f) → sound_before h (S n).
Proof. intros Hn Hf f Hs. destruct (decide (step_of f = n)) as [He|]; [by apply Hf|]. apply Hn. lia. Qed.

(** ** The steps *)

(** The chains of the endpoint table are those of the registry, so the table
    is never refused. *)
Lemma get_endpoint_hashmap_ok (w : RpcWorld P N) : ∃ m, get_endpoint_hashmap w = Ok m.
Proof.
  unfold get_endpoint_hashmap.
  assert (Hc : Forall (λ c, is_Some (get_pool Broadcast c w)) (get_registred_chains w)).
  { apply list.Forall_forall. intros c Hc. unfold get_registred_chains in Hc.
    apply list_elem_of_fmap in Hc as ([c' p] & -> & Hp%elem_of_map_to_list). by exists p. }
  revert Hc. generalize (∅ : gmap ChainId nat). induction (get_registred_chains w) as [|c l IH]; intros m Hc.
  - by exists m.
  - apply list.Forall_cons in Hc as [[p Hp] Hc]. cbn [fold_left]. rewrite Hp. by apply IH.
Qed.

Lemma load_artifacts_spec h t :
  sound_before h 5 →
  match load_artifacts h t with
  | (Ok (registry, client), t') => t' = t ∧ load_api_key_from_env (h_vars h) = Ok registry ∧
      build_rpc_client lag (h_vars h) (h_clock h) (h_waits h) (h_draws h) (h_net h) = Ok client ∧ sound_before h 9
  | (Err f, t') => t' = t ∧ progress f = 3%nat ∧ boot_cause h f ∧ sound_before h (step_of f)
  end.
Proof.
  intros H5. unfold load_artifacts, cbind_ok, clift, expect, clift, cret.
  destruct (load_api_key_from_env (h_vars h)) as [registry|e] eqn:Hk; cbn; [|by rewrite Hk].
  assert (H6 : sound_before h 6) by (apply sound_step; [done|intros []; cbn; congruence]).
  destruct (export_custody_key_count _ _ _) eqn:Hc; cbn; [|by rewrite Hc].
  assert (H7 : sound_before h 7) by (apply sound_step; [done|intros []; cbn; congruence]).
  destruct (build_rpc_client _ _ _ _ _ _) as [client|e] eqn:Hb; cbn; [|by rewrite Hb].
  assert (H8 : sound_before h 8) by (apply sound_step; [done|intros []; cbn; congruence]).
  destruct (get_endpoint_hashmap_ok client) as [m ->]. split_and!; [done..|].
  apply sound_step; [done|]. intros f Hf. destruct f; try discriminate Hf. by intros [].
Qed.

Lemma load_keys_nonempty vars reg :
  load_api_key_from_env vars = Ok reg →
  (∃ tok client, reg !! tok = Some client) ∧ ∀ tok, reg !! tok = last_declared tok (declared vars).
Proof.
  unfold load_api_key_from_env. destruct (load_vars vars ∅) as [r|] eqn:Hl; [|done].
  case_decide as He; [done|]. intros [= <-]. split.
  - apply map_choose in He as (tok & client & Ht). eauto.
  - intros tok. rewrite (load_vars_lookup _ _ _ tok Hl). rewrite lookup_empty. by destruct (last_declared _ _).
Qed.

#[local] Arguments load_artifacts h _ : simpl never.
#[local] Arguments spawn_cortex : simpl never.

Lemma cortex_step h config client :
  from_env (h_env h) = Ok config →
  match spawn_cortex (h_env h) (h_spawners h client) (h_endpoints h client) (h_redis h) (h_max_permits h) config with
  | Some (orch, permits) =>
      cx_config orch = config ∧ permits = pipeline_concurrency config ∧ cx_rpc_client orch = h_endpoints h client ∧
      is_Some (h_keys h) ∧ (∀ e txn client w, settles (submit_ctx orch e txn client) w) ∧
      ¬ boot_cause h PanicCortex
  | None => boot_cause h PanicCortex
  end.
Proof.
  intros Hc. destruct (from_env_settings _ _ Hc) as [Hpos Hretry].
  pose proof (spawn_cortex_None (h_env h) (h_spawners h client) (h_endpoints h client) (h_redis h)
    (h_max_permits h) config Hpos) as Hnone.
  destruct (spawn_cortex _ _ _ _ _ _) as [[orch permits]|] eqn:Hs.
  - destruct (spawn_cortex_Some _ _ _ _ _ _ _ _ Hs) as (Hcfg & Hp & _).
    assert (Hk : is_Some (h_keys h)).
    { apply spawn_cortex_signer in Hs. cbn in Hs. by apply fmap_is_Some in Hs. }
    split_and!; [done|done|by apply spawn_cortex_client in Hs|done|intros; by eapply submission_settles|].
    intros (c & Hc' & Hcause). rewrite Hc in Hc'. injection Hc' as <-.
    assert (Hn : Some (orch, permits) = None); [|discriminate Hn].
    apply Hnone. destruct Hk as [k Hk]. destruct Hcause as [?|[?|[?|[?|?]]]]; [auto..|congruence|auto|auto 6].
  - exists config. split; [done|]. apply spawn_cortex_None in Hs as [?|[?|[(i & _ & Hi)|[?|?]]]]; auto 6.
    right; right; left. cbn in Hi. by apply fmap_None in Hi.
Qed.

(** C14: the boot of the server, whatever the environment, the files and the
    services answer.  It serves exactly when nothing is the matter with any of
    its twelve steps: then it has opened its log, connected, migrated, built the
    orchestrator, spawned the sweeper and bound its socket, in this order, and
    serves a state in which at least one API key is registered and every token
    means what the last variable declaring it says, the client has matching
    non-empty pools for every chain and at least one chain, the signers' keys
    are loaded, and every submission settles with one final status.  Any other
    boot serves nothing: it stops at its first failing step - that step has the
    cause it reports, no step before it has any - having had only the effects up
    to it.  So nothing migrates before the addresses are valid, no actor runs
    before every key, custody account and endpoint is loaded, and the endpoint
    table never refuses a client that was built. *)
Theorem boot_outcome (h : Host) :
  match main h [] with
  | (Ok (state, address), t) =>
      t = boot_sequence ∧ server_addr h = Some address ∧ h_bind h address = Ok tt ∧ boot_state h state ∧
      ∀ f, ¬ boot_cause h f
  | (Err f, t) =>
      t = take (progress f) boot_sequence ∧ boot_cause h f ∧
      ∀ f', (step_of f' < step_of f)%nat → ¬ boot_cause h f'
  end.
Proof.
  unfold main, effect, expect, clift, cret, cbind_ok.
  assert (Hb0' : sound_before h 0) by (intros f Hf; lia).
  destruct (h_log_file h) eqn:Hlog; cbn; [|done].
  assert (Hb1 : sound_before h 1) by (apply sound_step; [done|intros []; cbn; congruence]).
  destruct (h_env h "DATABASE_URL") as [url|] eqn:Hurl; cbn; [|done].
  assert (Hb2 : sound_before h 2) by (apply sound_step; [done|intros []; cbn; congruence]).
  destruct (server_addr h) as [address|] eqn:Ha; cbn; [|done].
  assert (Hb3 : sound_before h 3) by (apply sound_step; [done|intros []; cbn; congruence]).
  destruct (h_connect h url) as [[]|e] eqn:Hcon; cbn; [|eauto].
  assert (Hb4 : sound_before h 4).
  { apply sound_step; [done|]. intros []; cbn; try congruence. intros _ (u & Hu & Hf). congruence. }
  destruct (h_migrate h) as [[]|e] eqn:Hmig; cbn; [|done].
  assert (Hb5 : sound_before h 5) by (apply sound_step; [done|intros []; cbn; congruence]).
  pose proof (load_artifacts_spec h [EvOpenLog; EvConnect; EvMigrate] Hb5) as Hart.
  destruct (load_artifacts h _) as [[[registry client]|f] t]; destruct Hart as (-> & Hart).
  2:{ destruct Hart as (Hp & Hcause & Hbefore). cbn. rewrite Hp. by split. }
  destruct Hart as (Hk & Hb & Hb9). destruct (from_env (h_env h)) as [config|e] eqn:Hcfg; cbn; [|by split].
  assert (Hb10 : sound_before h 10) by (apply sound_step; [done|intros []; cbn; congruence]).
  pose proof (cortex_step h config client Hcfg) as Hstep. destruct (spawn_cortex _ _ _ _ _ _) as [[orch permits]|].
  2:{ by split. }
  destruct Hstep as (Hc & Hp & Hcl & Hkeys & Hset & Hno). cbn.
  assert (Hb11 : sound_before h 11).
  { apply sound_step; [done|]. intros f Hf. destruct f; try discriminate Hf. exact Hno. }
  destruct (h_bind h address) as [[]|e] eqn:Hbind; cbn; [|eauto].
  apply load_keys_nonempty in Hk as [Hne Hdecl]. split_and!; [done|done|done| |].
  - split; cbn [as_api_registry as_cortex_handler as_status_registry fst snd]; try done; [congruence|congruence|].
    exists client. split; [done|]. apply build_from_match in Hb as [Hm [c Hbc]]; [|intros c; cbn; by rewrite !lookup_empty|done].
    split; [done|]. exists c. specialize (Hm c). destruct Hbc as [bp Hbp]. rewrite Hbp in Hm.
    by destruct (rw_validator client !! c).
  - assert (Hb12 : sound_before h 12).
    { apply sound_step; [done|]. intros []; cbn; try congruence. intros _ (a & Haa & Hf). congruence. }
    intros f. apply Hb12. destruct f; cbn; lia.
Qed.
End boot.

(** ** Two boots *)

Definition toy_files (path : string) : KeysFile :=
  if decide (path = "keys.json") then one_key else mkKeysFile (Ok false) None.

Definition toy_host (vars : list (string * string)) (port_free : bool) : Host (W := ToyWorld) (P := string) (N := unit) (SocketAddr := string) :=
  mkHost true vars toy_files "utils" "actors" (λ _, Ok tt) (Ok tt) toy_redis Some
    (λ _, if port_free then Ok tt else Err "address in use")
    (λ _, toy_relay) (λ _, toy_nonce) (λ _ _, toy_signer) (λ _ _, toy_broadcaster)
    (λ _ _, toy_validator NotIncluded) (λ _, toy_endpoints) 1000 0 [] [] tt.

Definition toy_vars : list (string * string) :=
  [("DATABASE_URL", "postgres://db"); ("RPC_ENDPOINT_1", "http://a");
   ("LOBBY_API_KEY_1", "tok:" +:+ uuid_display 7 +:+ ":0x0a"); ("LOBBY_TEST_KEYS", "keys.json")].

(** The second process on a machine finds the port taken: it has migrated the
    database and its sweeper already runs. *)
Example boot_toy :
  (main 0 (toy_host toy_vars true) []).2 = boot_sequence ∧
  is_ok (main 0 (toy_host toy_vars true) []).1 = true ∧
  (main 0 (toy_host toy_vars false) []) = (Err (BBind "address in use"), boot_sequence) ∧
  main 0 (toy_host (tail toy_vars) true) [] = (Err PanicDatabaseUrl, [EvOpenLog]).
Proof. vm_compute. repeat split. Qed.
