(* ===== verification/Typed.v ===== *)
(** * Every pipeline runs a well-typed transaction

    The numbers of a request are texts until [normalize.rs] parses them; what
    the server hands to the orchestrator fits the widths the encodings assume,
    in every state the routes can reach. *)

From S2P Require Import Prelude Types Text Retry Rlp Eip1559 Custody Status Shard Pipeline PipelineProps Config Cortex Auth Server.

(** [U256::from_str_radix] answers a [U256]. *)
Class HexRange `{HexOps} : Prop :=
  u256_radix_range s z : u256_from_str_radix16 s = Some z → is_u256 z.

(** A transaction that fits its types, not yet given a nonce. *)
Definition well_typed (txn : Eip1559Transaction) : Prop :=
  tx_in_range txn ∧ chain_u256 (tx_chain_id txn) ≤ i64_max ∧ tx_nonce txn = mkTxNonce 0.

Section normalize.
Context `{HexRange}.

Lemma opt_field_range name d o v :
  is_u256 d → opt_field name parse_hex_u256 d o = Ok v → is_u256 v.
Proof.
  intros Hd. destruct o as [s|]; cbn; [|by intros [= <-]]. unfold parse_hex_u256.
  destruct (u256_from_str_radix16 _) as [z|] eqn:Hz; [|done]. intros [= <-]. by apply u256_radix_range in Hz.
Qed.

Lemma storage_keys_range keys zs : mapM parse_hex_u256 keys = Some zs → Forall is_u256 zs.
Proof.
  intros Hm%mapM_Some. induction Hm as [|k z keys zs Hk _ IH]; constructor; [|done].
  by apply u256_radix_range in Hk.
Qed.

Lemma access_list_range items al :
  collect normalize_access_item items = Ok al → Forall (λ p, Forall is_u256 p.2) al.
Proof.
  revert al; induction items as [|i items IH]; intros al; cbn; [by intros [= <-]; constructor|].
  unfold normalize_access_item at 1. destruct (mapM _ _) as [zs|] eqn:Hz; [|done].
  destruct (collect _ items) as [al'|]; [|done]. intros [= <-]. constructor; [by eapply storage_keys_range|by apply IH].
Qed.

Lemma ChainId_try_from_Ok v c : ChainId_try_from v = Ok c → v ≤ i64_max → 0 ≤ chain_u256 c ≤ i64_max.
Proof.
  unfold ChainId_try_from. destruct (Z.ltb_spec v 0); [done|]. intros [= <-] Hv. cbn.
  unfold i64_as_u64, wrap_u64. unfold i64_max in *. rewrite Z.mod_small; lia.
Qed.

Lemma u64_as_i64_max c : c ≤ u64_max → u64_as_i64 c ≤ i64_max.
Proof. unfold u64_as_i64, u64_max, i64_max. intros Hc. destruct (Z.leb_spec c (2 ^ 63 - 1)); lia. Qed.

Lemma parse_hex_u64_max s c : parse_hex_u64 s = Some c → c ≤ u64_max.
Proof.
  unfold parse_hex_u64, u64_from_str_radix16. generalize (default s (strip_0x s)). intros t.
  destruct (match t with String "+"%char s' => s' | _ => t end) as [|a ds]; [discriminate|].
  destruct (parse_hex_digits 0 (String a ds)) as [z|]; [|discriminate].
  destruct (Z.leb_spec z u64_max); [|discriminate]. by intros [= <-].
Qed.

Lemma normalize_well_typed params txn from :
  normalize_eip1193_transaction params = Some (Ok (txn, from)) → well_typed txn ∧ from = p_from params.
Proof.
  unfold normalize_eip1193_transaction. destruct (parse_hex_u64 (p_chain_id params)) as [c|] eqn:Hc; [|discriminate].
  destruct (ChainId_try_from (u64_as_i64 c)) as [chain|] eqn:Hchain; [|discriminate].
  destruct (opt_field "gas" _ _ _) eqn:Hg; cbn [rbind]; [|discriminate].
  destruct (opt_field "max_fee_per_gas" _ _ _) eqn:Hf; cbn [rbind]; [|discriminate].
  destruct (opt_field "max_priority_fee_per_gas" _ _ _) eqn:Hp; cbn [rbind]; [|discriminate].
  destruct (opt_field "value" _ _ _) eqn:Hv; cbn [rbind]; [|discriminate].
  destruct (opt_field "data" _ _ _) eqn:Hd; cbn [rbind]; [|discriminate].
  destruct (collect _ _) as [al|] eqn:Hal; cbn [rbind]; [|discriminate]. intros [= <- <-]. split; [|reflexivity].
  assert (is_u256 0) as Hz by (unfold is_u256, u256_max; lia).
  pose proof (ChainId_try_from_Ok _ _ Hchain (u64_as_i64_max c (parse_hex_u64_max _ _ Hc))) as [Hc0 Hc1].
  apply opt_field_range in Hg, Hf, Hp, Hv; [|exact Hz..]. apply access_list_range in Hal.
  unfold well_typed, tx_in_range. cbn [tx_chain_id tx_nonce tx_max_priority_fee_per_gas tx_max_fee_per_gas
    tx_gas_limit tx_value tx_access_list nonce_u256].
  split_and!; try assumption; [|reflexivity]. unfold is_u256, u256_max, i64_max in *. lia.
Qed.
End normalize.

(** ** The states the routes reach *)

Section system.
Context {W : Type} `{Runtime W} `{U256Hash} `{HexRange} `{StatusText} `{AddressOps}.
Context {Json : Type} (json_null : Json) (address_debug : Address → string).
Context (reg : ApiRegistry) (orch : Cortex (W := W)).
Abbreviation Sys := (System (W := W)).

(** A request to the submission route is answered, a pipeline task ends, or
    the running tasks and the actors change the world. *)
Inductive http_step : Sys → Sys → Prop :=
| http_post elapsed fresh header (request : result (JsonRpcRequest (Json := Json)) (Z * string)) r s s' :
    post_transactions json_null address_debug reg orch elapsed fresh header request s = Some (r, s') → http_step s s'
| http_finish before ctx after p w :
    http_step (mkSystem p (before ++ ctx :: after) w) (mkSystem (p + 1) (before ++ after) w)
| http_world p running w w' : http_step (mkSystem p running w) (mkSystem p running w').

(** A pipeline that was started for an authenticated client's own,
    well-typed transaction. *)
Definition typed_pipeline (ctx : PipelineContext W) : Prop :=
  well_typed (px_txn ctx) ∧ (∃ tok, reg !! tok = Some (px_client_config ctx)) ∧
  px_relayhost_pool ctx = cx_relayhost orch ∧ px_nonce_pool ctx = cx_nonce orch ∧
  px_sign_pool ctx = cx_sign orch ∧ px_broadcast_pool ctx = cx_broadcast orch ∧
  px_validator_pool ctx = cx_validator orch.

Lemma auth_middleware_registered header client :
  auth_middleware reg header = Ok client → ∃ tok, reg !! tok = Some client.
Proof.
  unfold auth_middleware. destruct header as [h|]; [|discriminate]. destruct (strip_prefix _ h); [|discriminate].
  destruct (_ =? 3)%nat; [|discriminate]. destruct (head _) as [tok|]; cbn; [|discriminate].
  destruct (reg !! tok) as [c|] eqn:Hc; [|discriminate]. intros [= <-]. eauto.
Qed.

Lemma post_typed elapsed fresh header request r s s' :
  post_transactions json_null address_debug reg orch elapsed fresh header request s = Some (r, s') →
  Forall typed_pipeline (sys_running s) → Forall typed_pipeline (sys_running s').
Proof.
  unfold post_transactions. destruct (auth_middleware reg header) as [client|] eqn:Hauth; [|by intros [= _ <-]].
  destruct request as [request|[]]; [|by intros [= _ <-]].
  unfold submit_transaction. destruct (decide _); [|by intros [= _ <-]].
  destruct (head (rq_params request)) as [params|]; [|by intros [= _ <-]].
  destruct (normalize_eip1193_transaction params) as [[[txn from]|]|] eqn:Hn; [|by intros [= _ <-]|discriminate].
  destruct (decide _); [|by intros [= _ <-]]. unfold submit. destruct (0 <? _).
  - intros [= _ <-] Hs. cbn. apply Forall_app. split; [done|]. apply list.Forall_singleton.
    apply normalize_well_typed in Hn as [Hw _]. split; [exact Hw|].
    split; [by eapply auth_middleware_registered|done].
  - destruct elapsed; [|discriminate]. by intros [= _ <-].
Qed.

(** C18: in every state the routes reach, every running pipeline was started
    on the orchestrator's own shards for a registered client, with a
    transaction that fits its types: 256-bit fields and storage keys, a chain
    id that fits an i64, no nonce yet. *)
Theorem requests_well_typed s s' :
  rtc http_step s s' → Forall typed_pipeline (sys_running s) → Forall typed_pipeline (sys_running s').
Proof.
  induction 1 as [|s1 s2 s3 Hstep _ IH]; [done|]. intros Hs. apply IH. destruct Hstep as [? ? ? ? ? ? ? Hp|before ctx after ? ?|]; cbn in *.
  - by eapply post_typed.
  - apply Forall_app in Hs as [Hb Ha]. apply list.Forall_cons in Ha as [_ Ha]. by apply Forall_app.
  - done.
Qed.
End system.

(** ** A state to look at *)

Lemma parse_hex_digits_nonneg acc s z : 0 ≤ acc → parse_hex_digits acc s = Some z → 0 ≤ z.
Proof.
  revert acc; induction s as [|c s IH]; intros acc Hacc; cbn; [by intros [= <-]|].
  destruct (hex_val c) as [d|] eqn:Hd; [|discriminate]. apply IH.
  unfold hex_val in Hd. repeat (case_match; simplify_eq); lia.
Qed.

#[export] Instance plain_hex_range : HexRange.
Proof.
  intros s z. cbn. destruct (parse_hex_digits 0 s) as [v|] eqn:Hp; [|discriminate].
  destruct (Z.leb_spec v u256_max); [|discriminate]. intros [= <-]. split; [|done].
  by eapply parse_hex_digits_nonneg.
Qed.

Lemma requests_well_typed_witness :
  ∃ s', rtc (http_step 0 fmt_hex ex_registry ex_orch) ex_system s' ∧ length (sys_running s') = 1%nat ∧
    Forall (typed_pipeline ex_registry ex_orch) (sys_running s').
Proof.
  destruct (post_transactions 0 fmt_hex ex_registry ex_orch false 99 (Some "Bearer tok:a:b") (Ok ex_request) ex_system)
    as [[r s']|] eqn:Hpost; [|vm_compute in Hpost; discriminate].
  assert (rtc (http_step 0 fmt_hex ex_registry ex_orch) ex_system s') as Hr by (eapply rtc_once, http_post, Hpost).
  exists s'. split; [exact Hr|]. split.
  - apply (f_equal (λ o, match o with Some (_, s) => length (sys_running s) | None => 0%nat end)) in Hpost.
    rewrite <- Hpost. vm_compute. reflexivity.
  - apply (requests_well_typed 0 fmt_hex ex_registry ex_orch ex_system s' Hr). apply list.Forall_nil_2.
Defined.
