(* ===== verification/MockNode.v ===== *)
(** * The benchmark's mock RPC nodes

    [src/benchmark/src/mockrpc]: one JSON-RPC server per chain with the nonce
    of every account and the receipt of every accepted transaction. *)

From S2P Require Import Prelude Types Text.

(** ** Values *)

(** What alloy parses and decodes: an item of an array as bytes or as a hash,
    an address, a signed envelope, the account that signed it; the text of a
    receipt, which [serde_json] always writes; the account of
    [RECIPIENT_ADDRESS]. *)
Record TxEnvelope := mkEnvelope {
  env_nonce : Z;
  env_signer : option Address;
  env_hash : TxHash
}.
Record MockReceipt := mkMockReceipt {
  mr_status : bool;
  mr_cumulative_gas_used : Z;
  mr_transaction_hash : TxHash;
  mr_transaction_index : option Z;
  mr_block_hash : option (list Byte.byte);
  mr_block_number : option Z;
  mr_gas_used : Z;
  mr_effective_gas_price : Z;
  mr_from : Address;
  mr_to : option Address
}.
Class NodeCodec := {
  bytes_of_json : Json → option Bytes;
  hash_of_json : Json → option TxHash;
  node_address : string → result Address string;
  decode_2718 : Bytes → option TxEnvelope;
  receipt_json : MockReceipt → string;
  recipient_address : Address
}.

(** ** The state of a chain *)

(** Source: [benchmark/src/mockrpc/state.rs] lines 18-19, [BLOCK_NUMBER]. *)
Definition BLOCK_NUMBER : Z := 18000000.

(** Source: [benchmark/src/mockrpc/state.rs] lines 24-27, [NonceUpdateOutcome]. *)
Inductive NonceUpdateOutcome := NonceAdvanced (n : Z) | NonceTooLow.

(** Source: [benchmark/src/mockrpc/state.rs] lines 38-40, [StaticReceipt]. *)
Record StaticReceipt := mkStaticReceipt { raw_json : string }.

(** Source: [benchmark/src/mockrpc/state.rs] lines 117-122, [ChainState]. *)
Record ChainState := mkChainState {
  nonce_collection : gmap Address Z;
  receipt_collection : gmap TxHash StaticReceipt
}.

Section state.
Context `{NodeCodec}.

(** Source: [benchmark/src/mockrpc/state.rs] lines 44-102, [StaticReceipt::gen_receipt].
    The base receipt with the transaction's hash. *)
Definition gen_receipt (tx_hash : TxHash) : StaticReceipt :=
  mkStaticReceipt (receipt_json (mkMockReceipt true 21000 tx_hash (Some 1) (Some (repeat Byte.x00 32))
    (Some BLOCK_NUMBER) 21000 1000000000 recipient_address (Some (repeat Byte.x00 20)))).

(** Source: [benchmark/src/mockrpc/state.rs] lines 127-138, [ChainState::new]. *)
Definition ChainState_new (addresses : list Address) : ChainState :=
  mkChainState (foldl (λ m a, <[a := 0]> m) ∅ addresses) ∅.

(** Source: [benchmark/src/mockrpc/state.rs] lines 140-146, [ChainState::update_receipt]. *)
Definition update_receipt (tx_hash : TxHash) (s : ChainState) : ChainState :=
  mkChainState (nonce_collection s) (<[tx_hash := gen_receipt tx_hash]> (receipt_collection s)).

(** [entry(address).or_insert_with(|| AtomicU64::new(0))]. *)
Definition nonce_entry (address : Address) (s : ChainState) : Z := default 0 (nonce_collection s !! address).

(** Source: [benchmark/src/mockrpc/state.rs] lines 148-157, [ChainState::get_pending_nonce]. *)
Definition get_pending_nonce (address : Address) (s : ChainState) : Z * ChainState :=
  let nonce := nonce_entry address s in
  (wrap_u64 (nonce + 1), mkChainState (<[address := nonce]> (nonce_collection s)) (receipt_collection s)).

(** [compare_exchange_weak]: what it found, and the cell after.  It may fail
    although the cell holds the expected value. *)
Definition compare_exchange_weak (spurious : bool) (current new cell : Z) : result Z Z * Z :=
  if negb spurious && (cell =? current) then (Ok current, new) else (Err cell, cell).

(** Source: [benchmark/src/mockrpc/state.rs] lines 183-208, [update_nonce (loop)].
    [weak] says which of the next exchanges fail spuriously (a used-up script:
    none does). *)
Fixpoint cas_loop (fuel : nat) (weak : list bool) (nonce_rlp current_nonce cell : Z) :
    option (NonceUpdateOutcome * Z) :=
  match fuel with
  | O => None
  | Datatypes.S fuel =>
      if nonce_rlp <? current_nonce then Some (NonceTooLow, cell)
      else
        let next_expected := wrap_u64 (current_nonce + 1) in
        match compare_exchange_weak (default false (head weak)) current_nonce next_expected cell with
        | (Ok _, cell') => Some (NonceAdvanced current_nonce, cell')
        | (Err actual, cell') => cas_loop fuel (tail weak) nonce_rlp actual cell'
        end
  end.

(** Source: [benchmark/src/mockrpc/state.rs] lines 173-210, [update_nonce].
    The entry holds its shard's lock: no other thread writes the cell during
    the loop, which ends within the fuel given ([cas_loop_ends]). *)
Definition update_nonce (weak : list bool) (address : Address) (nonce_rlp : Z) (s : ChainState) :
    option (NonceUpdateOutcome * ChainState) :=
  let cell := nonce_entry address s in
  '(outcome, cell') ← cas_loop (Datatypes.S (length weak)) weak nonce_rlp cell cell;
  Some (outcome, mkChainState (<[address := cell']> (nonce_collection s)) (receipt_collection s)).

(** Source: [benchmark/src/mockrpc/state.rs] lines 212-221, [fetch_receipt]. *)
Definition fetch_receipt (tx_hash : TxHash) (s : ChainState) : option string :=
  raw_json <$> receipt_collection s !! tx_hash.
End state.

(** ** The server of a chain *)

(** Source: [benchmark/src/mockrpc/router.rs] lines 62-70, [RpcRequest]. *)
Record RpcRequest := mkRpcRequest {
  rq_jsonrpc : string;
  rq_method : string;
  rq_params : option Json;
  rq_id : option Json
}.

(** Source: [benchmark/src/mockrpc/router.rs] lines 78-84, [RpcResult]. *)
Inductive RpcResult :=
| RTxHash (h : TxHash)
| RReceiptFound (raw : string)
| RReceiptNotFound (v : Json)
| RBlockNumber (n : Z)
| RPendingNonce (n : Z).

(** Source: [benchmark/src/mockrpc/router.rs] lines 97-100, [RpcError]. *)
Record RpcError := mkRpcError { re_code : Z; re_message : string }.

(** Source: [benchmark/src/mockrpc/router.rs] lines 87-94, [RpcResponse]. *)
Record RpcResponse := mkRpcResponse {
  rs_jsonrpc : string;
  rs_result : option RpcResult;
  rs_error : option RpcError;
  rs_id : option Json
}.

(** Source: [benchmark/src/mockrpc/router.rs] lines 117-124, [RpcResponse::success]. *)
Definition rpc_success (id : option Json) (r : RpcResult) : RpcResponse := mkRpcResponse "2.0" (Some r) None id.
(** Source: [benchmark/src/mockrpc/router.rs] lines 125-135, [RpcResponse::error]. *)
Definition rpc_error (id : option Json) (code : Z) (message : string) : RpcResponse :=
  mkRpcResponse "2.0" None (Some (mkRpcError code message)) id.
(** Source: [benchmark/src/mockrpc/router.rs] lines 136-138, [RpcResponse::method_not_found]. *)
Definition method_not_found (id : option Json) : RpcResponse := rpc_error id (-32601) "Method not found".
(** Source: [benchmark/src/mockrpc/router.rs] lines 140-142, [RpcResponse::invalid_params]. *)
Definition invalid_params (id : option Json) (message : string) : RpcResponse := rpc_error id (-32602) message.

Section server.
Context `{NodeCodec}.

(** [serde_json::from_value::<Vec<T>>]. *)
Definition vec_of_json {T} (f : Json → option T) (v : Json) : option (list T) :=
  match v with JArr l => mapM f l | _ => None end.

(** Source: [benchmark/src/mockrpc/router.rs] lines 262-314, [handle_send_raw_transaction].
    [None]: the loop of [update_nonce] did not end. *)
Definition handle_send_raw_transaction (weak : list bool) (params id : option Json) (s : ChainState) :
    option (RpcResponse * ChainState) :=
  match vec_of_json bytes_of_json (default JNull params) with
  | Some (raw_bytes :: _) =>
      match decode_2718 raw_bytes with
      | None => Some (invalid_params id "Invalid RLP encoding for eth_sendRawTransaction params", s)
      | Some envelope =>
          match env_signer envelope with
          | None => Some (invalid_params id "Failed to recover signature", s)
          | Some from_address =>
              '(outcome, s') ← update_nonce weak from_address (env_nonce envelope) s;
              Some match outcome with
                   | NonceAdvanced _ =>
                       (rpc_success id (RTxHash (env_hash envelope)), update_receipt (env_hash envelope) s')
                   | NonceTooLow => (rpc_error id (-32000) "nonce too low", s')
                   end
          end
      end
  | _ => Some (invalid_params id "Invalid sendRawTransaction params.", s)
  end.

(** Source: [benchmark/src/mockrpc/router.rs] lines 316-337, [handle_get_transaction_receipt]. *)
Definition handle_get_transaction_receipt (params id : option Json) (s : ChainState) : RpcResponse :=
  match vec_of_json hash_of_json (default JNull params) with
  | Some (tx_hash :: _) =>
      match fetch_receipt tx_hash s with
      | Some receipt => rpc_success id (RReceiptFound receipt)
      | None => rpc_success id (RReceiptNotFound JNull)
      end
  | _ => invalid_params id "Invalid GetTransactionReceipt params."
  end.

(** Source: [benchmark/src/mockrpc/router.rs] lines 339-342, [handle_get_block_number]. *)
Definition handle_get_block_number (id : option Json) : RpcResponse := rpc_success id (RBlockNumber BLOCK_NUMBER).

(** Source: [benchmark/src/mockrpc/router.rs] lines 344-363, [handle_get_transaction_count]. *)
Definition handle_get_transaction_count (params id : option Json) (s : ChainState) : RpcResponse * ChainState :=
  match default JNull params with
  | JArr [JStr address; JStr _] =>
      match node_address address with
      | Ok from_address =>
          let '(pending_nonce, s') := get_pending_nonce from_address s in
          (rpc_success id (RPendingNonce pending_nonce), s')
      | Err e => (invalid_params id ("Invalid from Address: " +:+ e), s)
      end
  | _ => (invalid_params id "Invalid GetTransactionCount params.", s)
  end.

(** Source: [benchmark/src/mockrpc/router.rs] lines 228-260, [handle_jsonrpc].
    The blocking task of a send does not panic: it is joined. *)
Definition handle_jsonrpc (weak : list bool) (req : RpcRequest) (s : ChainState) :
    option (RpcResponse * ChainState) :=
  if bool_decide (rq_method req = "eth_sendRawTransaction") then
    handle_send_raw_transaction weak (rq_params req) (rq_id req) s
  else if bool_decide (rq_method req = "eth_getTransactionReceipt") then
    Some (handle_get_transaction_receipt (rq_params req) (rq_id req) s, s)
  else if bool_decide (rq_method req = "eth_blockNumber") then Some (handle_get_block_number (rq_id req), s)
  else if bool_decide (rq_method req = "eth_getTransactionCount") then
    Some (handle_get_transaction_count (rq_params req) (rq_id req) s)
  else Some (method_not_found (rq_id req), s).

(** The requests a server answers, in order, and its answers. *)
Fixpoint serve (requests : list (list bool * RpcRequest)) (s : ChainState) : option (list RpcResponse * ChainState) :=
  match requests with
  | [] => Some ([], s)
  | (weak, req) :: rest =>
      '(response, s') ← handle_jsonrpc weak req s;
      '(responses, s'') ← serve rest s';
      Some (response :: responses, s'')
  end.

(** ** All chains *)

(** Source: [benchmark/src/mockrpc/router.rs] lines 178-187, [RpcAppState::new]. *)
Definition RpcAppState_new (chain_ids : list Z) (addresses : list Address) : gmap Z ChainState :=
  foldl (λ m c, <[c := ChainState_new addresses]> m) ∅ chain_ids.

(** Source: [benchmark/src/mockrpc/router.rs] lines 35-55, [PortMap]. *)
Definition PortMap := gmap Z Z.

(** Source: [benchmark/src/mockrpc/router.rs] lines 189-222, [spawn_mockrpc_servers].
    The chains in the registry's order with what binding a port answered. *)
Fixpoint spawn_mockrpc_servers (chains : list (Z * result Z string)) (port_map : PortMap) : result PortMap string :=
  match chains with
  | [] => Ok port_map
  | (chain_id, Ok port) :: rest => spawn_mockrpc_servers rest (<[chain_id := port]> port_map)
  | (_, Err e) :: _ => Err e
  end.
End server.

(** ** What the node answers *)

Section props.
Context `{NodeCodec}.

(** Spurious failures of the exchange change nothing. *)
Lemma cas_loop_ends weak rlp cell :
  cas_loop (Datatypes.S (length weak)) weak rlp cell cell =
  Some (if rlp <? cell then (NonceTooLow, cell) else (NonceAdvanced cell, wrap_u64 (cell + 1))).
Proof.
  induction weak as [|b weak IH].
  - cbn. unfold compare_exchange_weak. destruct (rlp <? cell); [done|]. by rewrite Z.eqb_refl.
  - cbn [length]. remember (Datatypes.S (length weak)) as fuel. cbn. unfold compare_exchange_weak. rewrite Z.eqb_refl.
    destruct b; cbn [negb andb tail default from_option id head]; [rewrite IH|]; by destruct (rlp <? cell).
Qed.

Lemma update_nonce_outcome weak a n s :
  update_nonce weak a n s =
  Some (if n <? nonce_entry a s
        then (NonceTooLow, mkChainState (<[a := nonce_entry a s]> (nonce_collection s)) (receipt_collection s))
        else (NonceAdvanced (nonce_entry a s),
              mkChainState (<[a := wrap_u64 (nonce_entry a s + 1)]> (nonce_collection s)) (receipt_collection s))).
Proof. unfold update_nonce. rewrite cas_loop_ends. cbn. by destruct (n <? _). Qed.

Lemma nonce_entry_insert a b z s rc :
  nonce_entry b (mkChainState (<[a := z]> (nonce_collection s)) rc) = if bool_decide (b = a) then z else nonce_entry b s.
Proof.
  unfold nonce_entry; cbn. case_bool_decide as Hab; [subst; by rewrite lookup_insert_eq|].
  by rewrite lookup_insert_ne.
Qed.

(** The transaction a request sends: its signer, its nonce and its hash. *)
Definition sending (req : RpcRequest) : option (Address * Z * TxHash) :=
  if bool_decide (rq_method req = "eth_sendRawTransaction") then
    match vec_of_json bytes_of_json (default JNull (rq_params req)) with
    | Some (raw_bytes :: _) =>
        envelope ← decode_2718 raw_bytes; a ← env_signer envelope; Some (a, env_nonce envelope, env_hash envelope)
    | _ => None
    end
  else None.

(** The accepted transactions of an account. *)
Definition accepted_by (a : Address) (log : list (Address * Z * TxHash)) : Z :=
  Z.of_nat (length (filter (λ x, x.1.1 = a) log)).

(** The reference: a transaction is accepted when its nonce is not below the
    number of its account's accepted transactions. *)
Definition accept (log : list (Address * Z * TxHash)) (x : Address * Z * TxHash) : list (Address * Z * TxHash) :=
  if accepted_by x.1.1 log <=? x.1.2 then log ++ [x] else log.

(** The node after the accepted transactions [log]. *)
Record node_at (log : list (Address * Z * TxHash)) (s : ChainState) : Prop := {
  na_nonce a : nonce_entry a s = accepted_by a log;
  na_receipt h : receipt_collection s !! h = (if bool_decide (h ∈ snd <$> log) then Some (gen_receipt h) else None)
}.

Lemma node_at_new addresses : node_at [] (ChainState_new addresses).
Proof.
  split; [|done]. intros a. unfold nonce_entry, ChainState_new; cbn.
  enough (∀ m : gmap Address Z, default 0 (m !! a) = 0 → default 0 (foldl (λ m a, <[a := 0]> m) m addresses !! a) = 0)
    as Hm by (by apply Hm; rewrite lookup_empty).
  induction addresses as [|b l IH]; intros m Hm; [done|]. cbn. apply IH.
  destruct (decide (b = a)) as [->|Hb]; [by rewrite lookup_insert_eq|by rewrite lookup_insert_ne].
Qed.

Lemma accepted_by_snoc a log x :
  accepted_by a (log ++ [x]) = accepted_by a log + (if bool_decide (a = x.1.1) then 1 else 0).
Proof.
  unfold accepted_by. rewrite list.filter_app, length_app, list.filter_cons, list.filter_nil. cbn [length].
  destruct (decide (x.1.1 = a)); case_bool_decide; cbn; try lia; congruence.
Qed.

(** A request that looks an account up creates its entry. *)
Lemma node_at_touch log a s rc :
  rc = receipt_collection s → node_at log s →
  node_at log (mkChainState (<[a := nonce_entry a s]> (nonce_collection s)) rc).
Proof.
  intros -> [Hn Hr]. split; [|exact Hr]. intros b. rewrite nonce_entry_insert. case_bool_decide; [by subst|done].
Qed.

Lemma node_at_accepted log a n h s :
  accepted_by a log + 1 < 2 ^ 64 → node_at log s →
  node_at (log ++ [(a, n, h)])
    (update_receipt h (mkChainState (<[a := wrap_u64 (nonce_entry a s + 1)]> (nonce_collection s)) (receipt_collection s))).
Proof.
  intros Hb [Hn Hr]. split.
  - intros b. unfold update_receipt; cbn [nonce_collection]. rewrite nonce_entry_insert, accepted_by_snoc; cbn [fst].
    case_bool_decide; [|rewrite Hn; lia]. subst. rewrite Hn. unfold wrap_u64. rewrite Z.mod_small; [done|].
    unfold accepted_by in *; lia.
  - intros k. cbn. rewrite fmap_app; cbn. destruct (decide (h = k)) as [->|Hk].
    + rewrite lookup_insert_eq, bool_decide_true by set_solver. done.
    + rewrite lookup_insert_ne, Hr by done. erewrite bool_decide_ext; [reflexivity|]. set_solver.
Qed.

(** One request: the answer of a send is its hash or an error, and the node
    follows the reference. *)
Definition answers (log : list (Address * Z * TxHash)) (req : RpcRequest) (r : RpcResponse) : Prop :=
  match sending req with
  | Some x => (rs_error r = None ↔ accepted_by x.1.1 log ≤ x.1.2) ∧
              (rs_error r = None → rs_result r = Some (RTxHash x.2))
  | None => True
  end.

Lemma handle_jsonrpc_step log weak req s :
  (∀ a, accepted_by a log + 1 < 2 ^ 64) → node_at log s →
  ∃ r s', handle_jsonrpc weak req s = Some (r, s') ∧ answers log req r ∧
    node_at (match sending req with Some x => accept log x | None => log end) s'.
Proof.
  intros Hb Hs. unfold handle_jsonrpc, answers, sending.
  case_bool_decide as Hm; [|do 2 (case_bool_decide; [by eauto|]); case_bool_decide; [|by eauto]].
  - unfold handle_send_raw_transaction. destruct (vec_of_json _ _) as [[|raw l]|]; [by eauto| |by eauto].
    destruct (decode_2718 raw) as [env|]; cbn [mbind option_bind]; [|by eauto].
    destruct (env_signer env) as [a|]; cbn [mbind option_bind]; [|by eauto].
    rewrite update_nonce_outcome; cbn [mbind option_bind]. unfold accept; cbn [fst snd].
    pose proof (na_nonce _ _ Hs a) as Ha.
    destruct (env_nonce env <? nonce_entry a s) eqn:Hn; rewrite Ha in Hn; cbn.
    + apply Z.ltb_lt in Hn. rewrite (proj2 (Z.leb_gt _ _)) by lia. do 2 eexists. split; [done|]. split; [split; [|done]|].
      * split; [done|lia].
      * by apply node_at_touch.
    + apply Z.ltb_ge in Hn. rewrite (proj2 (Z.leb_le _ _)) by lia. do 2 eexists. split; [done|]. split; [done|].
      by apply node_at_accepted.
  - unfold handle_get_transaction_count. destruct (default JNull _) as [| | | |[|[] [|[] []]]|]; try (by eauto).
    destruct (node_address _); [|by eauto]. cbn. do 2 eexists. split; [done|]. split; [done|]. by apply node_at_touch.
Qed.

Lemma accepted_by_accept a log x : accepted_by a (accept log x) ≤ accepted_by a log + 1.
Proof. unfold accept. destruct (_ <=? _); [|lia]. rewrite accepted_by_snoc. case_bool_decide; lia. Qed.

(** C17: whatever the requests and however the weak exchanges fail, the node
    answers them all; a transaction is accepted exactly when its nonce is not
    below the number its account already had accepted, and the nonces and the
    receipts are those of the accepted transactions. *)
Theorem mock_node_reference requests addresses :
  Z.of_nat (length requests) < 2 ^ 64 →
  ∃ responses s', serve requests (ChainState_new addresses) = Some (responses, s') ∧
    length responses = length requests ∧
    node_at (foldl accept [] (omap (sending ∘ snd) requests)) s' ∧
    ∀ i weak req r, requests !! i = Some (weak, req) → responses !! i = Some r →
      answers (foldl accept [] (omap (sending ∘ snd) (take i requests))) req r.
Proof.
  intros Hlen. pose proof (node_at_new addresses) as Hs. revert Hs. generalize (ChainState_new addresses) as s.
  assert (∀ a, accepted_by a [] + Z.of_nat (length requests) < 2 ^ 64) as Hb by (intros a; change (accepted_by a []) with 0; lia).
  clear Hlen. revert Hb. generalize (@nil (Address * Z * TxHash)) as log.
  induction requests as [|[weak req] rest IH]; intros log Hb s Hs.
  - exists [], s. split_and!; [done..|]. by intros [].
  - cbn [serve length] in *.
    destruct (handle_jsonrpc_step log weak req s) as (r & s1 & Heq & Hans & Hs1);
      [intros a; specialize (Hb a); lia|done|].
    rewrite Heq. cbn [mbind option_bind].
    assert (∀ a, accepted_by a (match sending req with Some x => accept log x | None => log end) +
      Z.of_nat (length rest) < 2 ^ 64) as Hb1.
    { intros a. specialize (Hb a). destruct (sending req) as [x|]; [|lia].
      pose proof (accepted_by_accept a log x). lia. }
    destruct (IH _ Hb1 _ Hs1) as (rs & s2 & Heq2 & Hl & Hs2 & Hi).
    rewrite Heq2. cbn [mbind option_bind]. exists (r :: rs), s2. split_and!; [done|cbn; by rewrite Hl| |].
    + cbn [omap list_omap compose snd]. by destruct (sending req).
    + intros [|i] w q x; cbn [lookup list_lookup take]; [by intros [= -> ->] [= ->]|]. intros Hq Hx.
      specialize (Hi i w q x Hq Hx). cbn [omap list_omap compose snd]. by destruct (sending req).
Qed.

(** A nonce above the expected one advances the state by one, not past
    itself: the gap stays and the same transaction is accepted again. *)
Theorem future_nonce_accepted_again weak weak' a n s :
  0 ≤ nonce_entry a s < n → n < 2 ^ 64 →
  ∃ s1 s2, update_nonce weak a n s = Some (NonceAdvanced (nonce_entry a s), s1) ∧
    nonce_entry a s1 = nonce_entry a s + 1 ∧
    update_nonce weak' a n s1 = Some (NonceAdvanced (nonce_entry a s + 1), s2).
Proof.
  intros Hc Hn. rewrite update_nonce_outcome, (proj2 (Z.ltb_ge _ _)) by lia. do 2 eexists. split; [done|].
  rewrite update_nonce_outcome, nonce_entry_insert, bool_decide_true by done.
  assert (wrap_u64 (nonce_entry a s + 1) = nonce_entry a s + 1) as -> by (unfold wrap_u64; rewrite Z.mod_small; lia).
  rewrite (proj2 (Z.ltb_ge _ _)) by lia. done.
Qed.

(** Every chain of the registry is reached at the port its listener got. *)
Theorem spawn_mockrpc_servers_ports chains pm c p :
  NoDup chains.*1 → spawn_mockrpc_servers chains ∅ = Ok pm → (c, Ok p) ∈ chains → pm !! c = Some p.
Proof.
  intros Hnd Hpm Hc.
  enough (∀ m pm, spawn_mockrpc_servers chains m = Ok pm →
    (c ∉ chains.*1 → pm !! c = m !! c) ∧ ((c, Ok p) ∈ chains → pm !! c = Some p)) as Hm by (by apply (Hm ∅ pm)).
  clear Hpm Hc pm. induction chains as [|[d [q|e]] rest IH]; intros m pm Hpm; cbn in *; [|apply list.NoDup_cons in Hnd as [Hd Hnd]|done].
  - injection Hpm as <-. split; [done|]. by intros ?%list.elem_of_nil.
  - destruct (IH Hnd _ _ Hpm) as [Hout Hin]. split.
    + intros [Hcd Hc]%not_elem_of_cons. rewrite Hout by done. by apply lookup_insert_ne.
    + intros [[= <- <-]|Hc]%list.elem_of_cons; [|by apply Hin]. rewrite Hout by done. apply lookup_insert_eq.
Qed.
End props.

(** ** A node to look at *)

Definition toy_codec : NodeCodec := {|
  bytes_of_json v := match v with JStr s => Some (byte_of_Z <$> [Z.of_nat (String.length s)]) | _ => None end;
  hash_of_json v := match v with JStr s => Some (byte_of_Z <$> [Z.of_nat (String.length s)]) | _ => None end;
  node_address s := if bool_decide (s = "0x") then Ok [] else Err "bad";
  decode_2718 b := match b with
                   | [x] => Some (mkEnvelope (byte_val x - 1) (if byte_val x <? 9 then Some [] else None) [x])
                   | _ => None
                   end;
  receipt_json r := "receipt";
  recipient_address := []
|}.
#[local] Existing Instance toy_codec.

Definition toy_send (s : string) : list bool * RpcRequest :=
  ([true; true], mkRpcRequest "2.0" "eth_sendRawTransaction" (Some (JArr [JStr s])) (Some (JNum 1))).
Definition toy_requests : list (list bool * RpcRequest) :=
  [toy_send "a"; toy_send "a"; toy_send "ab"; toy_send "abcdefghi";
   ([], mkRpcRequest "2.0" "eth_getTransactionCount" (Some (JArr [JStr "0x"; JStr "pending"])) None);
   ([], mkRpcRequest "2.0" "eth_getTransactionReceipt" (Some (JArr [JStr "a"])) None)].

Example toy_serve :
  option_map (λ x, map (λ r, (rs_result r, option_map re_code (rs_error r))) x.1) (serve toy_requests (ChainState_new [])) =
  Some [(Some (RTxHash [Byte.x01]), None); (None, Some (-32000)); (Some (RTxHash [Byte.x02]), None);
        (None, Some (-32602)); (Some (RPendingNonce 3), None); (Some (RReceiptFound "receipt"), None)].
Proof. by vm_compute. Qed.

Lemma mock_node_reference_witness :
  ∃ responses s', serve toy_requests (ChainState_new []) = Some (responses, s') ∧
    length responses = length toy_requests ∧
    node_at (foldl accept [] (omap (sending ∘ snd) toy_requests)) s' ∧
    ∀ i weak req r, toy_requests !! i = Some (weak, req) → responses !! i = Some r →
      answers (foldl accept [] (omap (sending ∘ snd) (take i toy_requests))) req r.
Proof. apply (mock_node_reference toy_requests []); apply Z.ltb_lt; reflexivity. Defined.
