(* ===== verification/Loadgen.v ===== *)
(** * The benchmark's keys and payloads

    [src/benchmark/src/loadgen/{keys,trigger}.rs] and the environment that
    [src/benchmark/src/main.rs] starts lobby with: test keys, an API key for
    each, the pre-serialized requests, and what lobby makes of them. *)

From S2P Require Import Prelude Types Text Retry Rlp Eip1559 Custody Status Config Auth Cortex Server.

(** ** Keys *)

(** The text forms of a uuid and the JSON text of a value. *)
Class HarnessText := {
  uuid_simple : Z → string;
  json_to_vec : Json → Bytes;
  json_from_slice : Bytes → option Json
}.
(** Lower-case hexadecimal digits and hyphens. *)
Definition uuid_char (c : Ascii.ascii) : bool :=
  let n := Z.of_N (Ascii.N_of_ascii c) in
  ((48 <=? n) && (n <=? 57)) || ((97 <=? n) && (n <=? 102)) || (n =? 45).
Fixpoint all_chars (p : Ascii.ascii → bool) (s : string) : bool :=
  match s with EmptyString => true | String c s => p c && all_chars p s end.
Class HarnessLaws `{StatusText, AddressOps, HarnessText} : Prop := {
  uuid_display_chars u : all_chars uuid_char (uuid_display u) = true;
  uuid_simple_chars u : all_chars uuid_char (uuid_simple u) = true;
  json_vec_law v : json_from_slice (json_to_vec v) = Some v;
  address_parse_law b : length b = 20%nat → address_parse ("0x" +:+ hex_encode b) = Some b
}.

(** Source: [benchmark/src/loadgen/keys.rs] lines 17-33, [EvmKeyExport]. *)
Record EvmKeyExport := mkEvmKeyExport { ek_pvt_key : string; ek_pub_key : string; ek_address : string }.

(** Source: [benchmark/src/loadgen/trigger.rs] lines 14-17, [RECIPIENT_ADDRESS]. *)
Definition RECIPIENT_ADDRESS : string := "0x430b3af2c718497fe0add817c8ead48c8bd2ef61".

Section keys.
(** sha3's Keccak-256. *)
Context (keccak256 : Bytes → Bytes).

(** Source: [benchmark/src/loadgen/keys.rs] lines 71-95, [test_key_gen].
    A random signing key with its uncompressed point. *)
Definition test_key_gen (key : Bytes * Bytes) : string * string * string :=
  let keccak_hash := keccak256 (drop 1 key.2) in
  ("0x" +:+ hex_encode key.1, "0x" +:+ hex_encode key.2, "0x" +:+ hex_encode (drop 12 keccak_hash)).

(** Source: [benchmark/src/loadgen/keys.rs] lines 50-58, [write_test_keys_json (for)]. *)
Fixpoint test_keys_map (i : Z) (keys : list (Bytes * Bytes)) (m : gmap string EvmKeyExport) :
    gmap string EvmKeyExport :=
  match keys with
  | [] => m
  | key :: keys =>
      let '(pvt_key, pub_key, address) := test_key_gen key in
      test_keys_map (i + 1) keys (<["account" +:+ pretty i := mkEvmKeyExport pvt_key pub_key address]> m)
  end.

(** Source: [benchmark/src/loadgen/keys.rs] lines 38-66, [write_test_keys_json].
    The file's JSON value; the map is written in its own order. *)
Definition write_test_keys_json (order : list (string * EvmKeyExport)) : Json :=
  JObj ((λ '(name, k), (name, JObj [("pvt_key", JStr (ek_pvt_key k)); ("pub_key", JStr (ek_pub_key k));
                                    ("address", JStr (ek_address k))])) <$> order).
End keys.

(** ** API keys *)

Section apistack.
Context `{StatusText, AddressOps, HarnessText}.

(** [format!("lobby_live_{}", &token_string[..9])]. *)
Definition api_token (u : Z) : string := "lobby_live_" +:+ String.substring 0 9 (uuid_simple u).

(** Source: [benchmark/src/loadgen/keys.rs] lines 130-150, [build_apistack (for)].
    [draw i] are the two uuids of the [i]-th account. *)
Fixpoint stack_accounts (draw : nat → Z * Z) (i : nat) (accounts : list (string * Json)) (api_stack : gmap Z string) :
    result (gmap Z string) string :=
  match accounts with
  | [] => Ok api_stack
  | (account_name, keys) :: accounts =>
      match (strip_prefix "account" account_name ≫= λ num_str,
             match parse_u64 num_str with Ok n => Some n | Err _ => None end) with
      | None => Err "invalid account naming"
      | Some account_num =>
          match json_get "address" keys ≫= json_str with
          | None => Err "invalid account address"
          | Some from_address =>
              let '(client_id, token) := draw i in
              let lobby_api_key :=
                api_token token +:+ ":" +:+ uuid_display client_id +:+ ":" +:+ from_address in
              stack_accounts draw (Datatypes.S i) accounts (<[account_num := lobby_api_key]> api_stack)
          end
      end
  end.

(** Source: [benchmark/src/loadgen/keys.rs] lines 105-153, [build_apistack].
    The file's value, or why it could not be read. *)
Definition build_apistack (draw : nat → Z * Z) (parsed_content : result Json string) : result (gmap Z string) string :=
  match parsed_content with
  | Err e => Err e
  | Ok (JObj object_map) => stack_accounts draw 0 object_map ∅
  | Ok _ => Err "test_keys.json must contain a top-level JSON object"
  end.

(** Source: [benchmark/src/loadgen/keys.rs] lines 155-168, [get_addresses].
    [None]: a panic. *)
Definition get_addresses (api_stack : list (Z * string)) : option (list Address) :=
  mapM (λ '(_, api_key), split_on ":" api_key !! 2%nat ≫= address_parse) api_stack.

(** ** Payloads *)

(** [format!("{:x}")]: hexadecimal without leading zeros. *)
Fixpoint lower_hex (fuel : nat) (v : Z) (acc : string) : string :=
  match fuel with
  | O => acc
  | Datatypes.S fuel =>
      let acc := String (hex_digit (v mod 16)) acc in
      if v <? 16 then acc else lower_hex fuel (v / 16) acc
  end.
Definition fmt_lower_hex_u64 (v : Z) : string := lower_hex 16 v "".

(** Source: [benchmark/src/loadgen/trigger.rs] lines 38-45, [PayloadEntry]. *)
Record PayloadEntry := mkPayloadEntry { pe_api_key : string; pe_payload : Bytes }.

(** Source: [benchmark/src/loadgen/trigger.rs] lines 84-97, [build_payloads (rpc_payload)]. *)
Definition rpc_payload (from_address chain_id_hex : string) : Json :=
  JObj [("jsonrpc", JStr "2.0"); ("method", JStr "eth_sendRawTransaction");
        ("params", JArr [JObj [("from", JStr from_address); ("to", JStr RECIPIENT_ADDRESS);
           ("value", JStr "0x2386f26fc10000"); ("chainId", JStr chain_id_hex); ("gas", JStr "0x5208");
           ("maxFeePerGas", JStr "0xba43b7400"); ("maxPriorityFeePerGas", JStr "0x77359400")]]);
        ("id", JNum 1)].

(** Source: [benchmark/src/loadgen/trigger.rs] lines 47-115, [Payloads::build_payloads].
    The stack in its iteration order; [None]: a panic. *)
Definition build_payloads (api_stack : list (Z * string)) (chain_ids : list Z) : option (list PayloadEntry) :=
  match chain_ids with
  | [] => None
  | _ =>
      mapM (λ '(key, api_key),
        chain_id ← chain_ids !! Z.to_nat (key mod Z.of_nat (length chain_ids));
        from_address ← split_on ":" api_key !! 2%nat;
        Some (mkPayloadEntry api_key
          (json_to_vec (rpc_payload from_address ("0x" +:+ fmt_lower_hex_u64 chain_id))))) api_stack
  end.

(** ** The environment of the lobby process *)

(** Source: [benchmark/src/main.rs] lines 90-113, [main (environment)]. *)
Definition harness_env (bench_env : gmap string string) (pg_url redis_url : string)
    (port_map : list (Z * Z)) (api_stack : list (Z * string)) : gmap string string :=
  let env_vars := <["REDIS_URL" := redis_url]> (<["DATABASE_URL" := pg_url]> bench_env) in
  let env_vars := foldl (λ m '(chain_id, port),
    <["RPC_ENDPOINT_" +:+ pretty chain_id := "http://localhost:" +:+ pretty port]> m) env_vars port_map in
  foldl (λ m '(key, value), <["LOBBY_API_KEY_" +:+ pretty key := value]> m) env_vars api_stack.

(** ** What lobby reads *)

(** serde's [Deserialize] of an optional field: absent or [null] is [None]. *)
Definition opt_json {A} (f : Json → option A) (o : option Json) : option (option A) :=
  match o with
  | None | Some JNull => Some None
  | Some v => Some <$> f v
  end.

Definition json_address (v : Json) : option Address := json_str v ≫= address_parse.

(** Source: [crate/primitives/src/types.rs] lines 32-37, [Deserialize for AccessListItem]. *)
Definition access_list_item_of_json (v : Json) : option AccessListItem :=
  address ← json_get "address" v ≫= json_address;
  keys ← json_get "storageKeys" v;
  match keys with JArr l => mkAccessListItem address <$> mapM json_str l | _ => None end.

(** Source: [crate/primitives/src/types.rs] lines 12-30, [Deserialize for Eip1193SendTransactionParams]. *)
Definition params_of_json (v : Json) : option Eip1193SendTransactionParams :=
  from ← json_get "from" v ≫= json_address;
  to ← opt_json json_address (json_get "to" v);
  gas ← opt_json json_str (json_get "gas" v);
  max_fee ← opt_json json_str (json_get "maxFeePerGas" v);
  max_prio ← opt_json json_str (json_get "maxPriorityFeePerGas" v);
  value ← opt_json json_str (json_get "value" v);
  data ← opt_json json_str (json_get "data" v);
  chain_id ← json_get "chainId" v ≫= json_str;
  access_list ← opt_json (λ v, match v with JArr l => mapM access_list_item_of_json l | _ => None end)
                  (json_get "accessList" v);
  Some (mkEip1193 from to gas max_fee max_prio value data chain_id access_list).

(** Source: [crate/primitives/src/types.rs] lines 80-86, [Deserialize for JsonRpcRequest]. *)
Definition request_of_json (v : Json) : option (JsonRpcRequest (Json := Json)) :=
  jsonrpc ← json_get "jsonrpc" v ≫= json_str;
  method ← json_get "method" v ≫= json_str;
  params ← json_get "params" v;
  id ← json_get "id" v;
  match params with
  | JArr l => (λ ps, mkJsonRpcRequest jsonrpc method ps id) <$> mapM params_of_json l
  | _ => None
  end.
End apistack.

(** ** Text without separators *)

Lemma has_char_app c a b : has_char c (a +:+ b) = has_char c a || has_char c b.
Proof. induction a as [|x a IH]; simpl; [done|]. by rewrite IH, orb_assoc. Qed.

Lemma all_chars_app p a b : all_chars p (a +:+ b) = all_chars p a && all_chars p b.
Proof. induction a as [|x a IH]; simpl; [done|]. by rewrite IH, andb_assoc. Qed.

Lemma all_chars_mono (p q : Ascii.ascii → bool) s : (∀ c, p c = true → q c = true) → all_chars p s = true → all_chars q s = true.
Proof.
  intros Hpq. induction s as [|x s IH]; cbn; [done|]. intros [Hx Hs]%andb_true_iff. by rewrite (Hpq _ Hx), IH.
Qed.

Lemma all_chars_has_char p c s : all_chars p s = true → p c = false → has_char c s = false.
Proof.
  intros Hs Hc. induction s as [|x s IH]; cbn in *; [done|]. apply andb_true_iff in Hs as [Hx Hs].
  rewrite IH by done. rewrite bool_decide_false; [done|]. intros ->. congruence.
Qed.

Lemma all_chars_substring p n m s : all_chars p s = true → all_chars p (String.substring n m s) = true.
Proof.
  revert n m; induction s as [|x s IH]; intros [|n] [|m]; cbn; try done;
    intros [Hx Hs]%andb_true_iff; rewrite ?Hx; by apply IH.
Qed.

Lemma hex_digit_chars d : 0 ≤ d < 16 → uuid_char (hex_digit d) = true.
Proof.
  intros Hd. assert (d ∈ seqZ 0 16) as Hin by (apply elem_of_seqZ; lia).
  change (seqZ 0 16) with [0;1;2;3;4;5;6;7;8;9;10;11;12;13;14;15] in Hin.
  repeat (apply elem_of_cons in Hin as [->|Hin]; [done|]). by apply elem_of_nil in Hin.
Qed.

Lemma hex_encode_chars b : all_chars uuid_char (hex_encode b) = true.
Proof.
  induction b as [|x b IH]; [done|]. cbn [hex_encode all_chars]. pose proof (byte_val_range x).
  rewrite !hex_digit_chars, IH; [done|apply Z.mod_pos_bound; lia|].
  split; [apply Z.div_pos; lia|apply Z.div_lt_upper_bound; lia].
Qed.

(** ** Maps filled by a loop *)

Lemma foldl_insert {K V} `{Countable K} (l : list (K * V)) (m : gmap K V) :
  NoDup l.*1 → foldl (λ m '(k, v), <[k := v]> m) m l = list_to_map l ∪ m.
Proof.
  revert m; induction l as [|[k v] l IH]; intros m Hnd; cbn; [by rewrite (left_id_L ∅ _)|].
  apply list.NoDup_cons in Hnd as [Hk Hnd]. rewrite IH by done.
  rewrite <- insert_union_r by (by apply not_elem_of_list_to_map_1). by rewrite insert_union_l.
Qed.

Lemma foldl_insert_empty {K V} `{Countable K} (l : list (K * V)) :
  NoDup l.*1 → map_to_list (foldl (λ m '(k, v), <[k := v]> m) (∅ : gmap K V) l) ≡ₚ l.
Proof. intros Hnd. rewrite foldl_insert, (right_id_L ∅ _) by done. by apply map_to_list_to_map. Qed.

(** ** The declared keys *)

Section registry.
Context `{StatusText, AddressOps}.

Lemma load_vars_ok vars reg :
  (∀ key value, (key, value) ∈ vars → is_Some (strip_prefix "LOBBY_API_KEY_" key) →
     ∃ x, parse_api_value key value = Ok x) →
  ∃ reg', load_vars vars reg = Ok reg'.
Proof.
  revert reg; induction vars as [|[k v] vars IH]; intros reg Hok; [by eexists|]. cbn [load_vars].
  destruct (strip_prefix "LOBBY_API_KEY_" k) as [suffix|] eqn:Hk.
  - destruct (Hok k v) as [[t c] ->]; [left|by eexists|]. apply IH. intros; eapply Hok; [by right|done].
  - apply IH. intros; eapply Hok; [by right|done].
Qed.

Lemma declared_elem vars x :
  x ∈ declared vars ↔
  ∃ key value, (key, value) ∈ vars ∧ is_Some (strip_prefix "LOBBY_API_KEY_" key) ∧ parse_api_value key value = Ok x.
Proof.
  induction vars as [|[k v] vars IH]; cbn [declared].
  - rewrite elem_of_nil. split; [done|]. by intros (? & ? & ?%elem_of_nil & _).
  - setoid_rewrite elem_of_cons.
    destruct (strip_prefix "LOBBY_API_KEY_" k) as [suffix|] eqn:Hk; [destruct (parse_api_value k v) as [y|] eqn:Hp|];
      rewrite ?elem_of_cons, IH; split.
    + intros [->|(k' & v' & ? & ? & ?)]; [exists k, v; rewrite Hk; eauto|eauto 8].
    + intros (k' & v' & [[= -> ->]|?] & ? & ?); [left; congruence|eauto 8].
    + intros (k' & v' & ? & ? & ?); eauto 8.
    + intros (k' & v' & [[= -> ->]|?] & ? & ?); [congruence|eauto 8].
    + intros (k' & v' & ? & ? & ?); eauto 8.
    + intros (k' & v' & [[= -> ->]|?] & Hs & ?); [rewrite Hk in Hs; by destruct Hs|eauto 8].
Qed.

(** A token declared for one client only. *)
Lemma last_declared_unique tok client l :
  (tok, client) ∈ l → (∀ c, (tok, c) ∈ l → c = client) → last_declared tok l = Some client.
Proof.
  intros Hin Hu. assert (∀ c, last_declared tok l = Some c → c = client) as Hc.
  { intros c Hl. apply Hu. clear Hin Hu. induction l as [|[t d] l IH]; [done|]. cbn in Hl.
    destruct (last_declared tok l); [injection Hl as ->; right; by apply IH|].
    case_decide; [|done]. injection Hl as ->. subst. left. }
  assert (is_Some (last_declared tok l)) as [c Hl]; [|by rewrite Hl, (Hc c Hl)].
  clear Hu Hc. induction l as [|[t d] l IH]; [by apply elem_of_nil in Hin|]. cbn.
  apply elem_of_cons in Hin as [[= <- <-]|Hin].
  - destruct (last_declared tok l); [eauto|]. rewrite decide_True by done. eauto.
  - destruct (IH Hin) as [c ->]. eauto.
Qed.
End registry.

(** ** From the keys to the API keys *)

Section harness.
Context `{HarnessLaws} (keccak256 : Bytes → Bytes) (draw : nat → Z * Z).

Definition account_address (key : Bytes * Bytes) : string := (test_key_gen keccak256 key).2.
Definition account_entry (p : Z * (Bytes * Bytes)) : string * EvmKeyExport :=
  ("account" +:+ pretty p.1,
   mkEvmKeyExport (test_key_gen keccak256 p.2).1.1 (test_key_gen keccak256 p.2).1.2 (account_address p.2)).
(** The API key of an account, with the two uuids drawn for it. *)
Definition api_key_text (ids : Z * Z) (address : string) : string :=
  api_token ids.2 +:+ ":" +:+ uuid_display ids.1 +:+ ":" +:+ address.
Definition stack_entry (j : nat) (p : Z * (Bytes * Bytes)) : Z * string :=
  (p.1, api_key_text (draw j) (account_address p.2)).

Fixpoint numbered {A} (i : Z) (l : list A) : list (Z * A) :=
  match l with [] => [] | x :: l => (i, x) :: numbered (i + 1) l end.

Lemma numbered_range {A} i (l : list A) p : p ∈ numbered i l → i ≤ p.1 < i + Z.of_nat (length l).
Proof.
  revert i; induction l as [|x l IH]; intros i; cbn [numbered length]; [by intros ?%elem_of_nil|].
  intros [->|Hp]%elem_of_cons; [cbn; lia|]. apply IH in Hp. lia.
Qed.

Lemma numbered_length {A} i (l : list A) : length (numbered i l) = length l.
Proof. revert i; induction l as [|x l IH]; intros i; cbn; by rewrite ?IH. Qed.

Lemma numbered_NoDup {A} i (l : list A) : NoDup (numbered i l).*1.
Proof.
  revert i; induction l as [|x l IH]; intros i; cbn; [constructor|]. constructor; [|apply IH].
  intros (p & Hp & Hin)%list_elem_of_fmap. apply numbered_range in Hin. lia.
Qed.

Lemma account_name_inj (a b : Z) : "account" +:+ pretty a = "account" +:+ pretty b → a = b.
Proof. intros [= Heq]. by apply (inj pretty). Qed.

Lemma test_keys_map_foldl i keys m :
  test_keys_map keccak256 i keys m = foldl (λ m '(k, v), <[k := v]> m) m (account_entry <$> numbered i keys).
Proof. revert i m; induction keys as [|key keys IH]; intros i m; [done|]. cbn. by rewrite IH. Qed.

Lemma account_entries_NoDup (l : list (Z * (Bytes * Bytes))) : NoDup l.*1 → NoDup (account_entry <$> l).*1.
Proof.
  intros Hnd. rewrite <- list_fmap_compose.
  assert ((fst ∘ account_entry) <$> l = (λ n : Z, "account" +:+ pretty n) <$> l.*1) as ->
    by (by rewrite <- list_fmap_compose).
  apply list.NoDup_fmap_2; [|done]. intros a b. apply account_name_inj.
Qed.

(** The accounts of the file, in its order. *)
Lemma test_keys_order keys order :
  order ≡ₚ map_to_list (test_keys_map keccak256 1 keys ∅) →
  ∃ l, order = account_entry <$> l ∧ l ≡ₚ numbered 1 keys.
Proof.
  rewrite test_keys_map_foldl, foldl_insert_empty by (apply account_entries_NoDup, numbered_NoDup).
  intros (l & -> & Hl)%Permutation_map_inv. exists l. split; [done|by symmetry].
Qed.

Lemma stack_accounts_entries i l m :
  Forall (λ p, 0 ≤ p.1 ≤ u64_max) l →
  stack_accounts draw i
    ((λ '(name, k), (name, JObj [("pvt_key", JStr (ek_pvt_key k)); ("pub_key", JStr (ek_pub_key k));
                                 ("address", JStr (ek_address k))])) <$> (account_entry <$> l)) m =
  Ok (foldl (λ m '(k, v), <[k := v]> m) m (imap (λ j, stack_entry (i + j)) l)).
Proof.
  revert i m; induction l as [|[n key] l IH]; intros i m Hl; [done|].
  apply list.Forall_cons in Hl as [Hn Hl]. cbn [fmap list_fmap account_entry fst snd stack_accounts imap foldl].
  rewrite strip_prefix_app. cbn [mbind option_bind]. rewrite parse_u64_pretty by done.
  cbn [json_get json_field ek_address]. rewrite decide_False, decide_False, decide_True by done.
  cbn [mbind option_bind json_str]. destruct (draw i) as [c t] eqn:Hd.
  rewrite IH by done. unfold stack_entry at 2; cbn [fst snd]. rewrite Nat.add_0_r, Hd.
  do 2 f_equal. apply imap_ext. intros j p _. cbn. by rewrite Nat.add_succ_r.
Qed.

Lemma stack_entry_keys (l : list (Z * (Bytes * Bytes))) f : (imap (λ j, stack_entry (f j)) l).*1 = l.*1.
Proof. revert f; induction l as [|p l IH]; intros f; [done|]. cbn. f_equal. apply (IH (f ∘ Datatypes.S)). Qed.

(** ** One API key *)

Lemma account_address_plain key : has_char ":" (account_address key) = false.
Proof. unfold account_address, test_key_gen. cbn [snd]. rewrite has_char_app. cbn.
  apply all_chars_has_char with (p := uuid_char); [apply hex_encode_chars|done]. Qed.

(** The account of a key: the last 20 bytes of the hash of its point. *)
Definition key_address (key : Bytes * Bytes) : Address := drop 12 (keccak256 (drop 1 key.2)).

Lemma account_address_parse (key : Bytes * Bytes) :
  length (keccak256 (drop 1 key.2)) = 32%nat → address_parse (account_address key) = Some (key_address key).
Proof. intros Hk. apply address_parse_law. exact (eq_trans (length_drop _ _) (f_equal (λ n, n - 12)%nat Hk)). Qed.

Lemma api_token_plain u : has_char ":" (api_token u) = false.
Proof. unfold api_token. rewrite has_char_app. cbn.
  apply all_chars_has_char with (p := uuid_char); [apply all_chars_substring, uuid_simple_chars|done].
Qed.

Lemma api_key_text_split ids key :
  split_on ":" (api_key_text ids (account_address key)) = [api_token ids.2; uuid_display ids.1; account_address key].
Proof.
  apply split_on_three. split_and!; [done|apply api_token_plain|
    apply all_chars_has_char with (p := uuid_char); [apply uuid_display_chars|done]|apply account_address_plain].
Qed.

Lemma api_key_text_parse `{!StatusTextLaws} var ids (key : Bytes * Bytes) :
  length (keccak256 (drop 1 key.2)) = 32%nat →
  parse_api_value var (api_key_text ids (account_address key)) =
    Ok (api_token ids.2, mkClientConfig ids.1 (key_address key)).
Proof.
  intros Hk. unfold parse_api_value. by rewrite api_key_text_split, uuid_parse_display, account_address_parse.
Qed.

(** ** One payload *)

Definition recipient : Address :=
  match hex_bytes (default "" (strip_0x RECIPIENT_ADDRESS)) with Ok b => b | Err _ => [] end.

Lemma recipient_parse : address_parse RECIPIENT_ADDRESS = Some recipient.
Proof. exact (address_parse_law recipient eq_refl). Qed.

(** The transaction of a payload: 0.01 ether on the chain given. *)
Definition payload_txn (chain_id : Z) : Eip1559Transaction :=
  mkEip1559 (mkChainId chain_id) (mkTxNonce 0) 2000000000 50000000000 21000 (Some recipient) 10000000000000000 [] [].

Definition payload_request (from : Address) (chain_id : Z) : JsonRpcRequest (Json := Json) :=
  mkJsonRpcRequest "2.0" "eth_sendRawTransaction"
    [mkEip1193 from (Some recipient) (Some "0x5208") (Some "0xba43b7400") (Some "0x77359400")
       (Some "0x2386f26fc10000") None ("0x" +:+ fmt_lower_hex_u64 chain_id) None] (JNum 1).

Lemma payload_decodes from a chain_id :
  address_parse from = Some a →
  request_of_json (rpc_payload from ("0x" +:+ fmt_lower_hex_u64 chain_id)) = Some (payload_request a chain_id).
Proof.
  intros Ha. assert (json_address (JStr from) = Some a) as Hf by exact Ha.
  assert (json_address (JStr RECIPIENT_ADDRESS) = Some recipient) as Hr by exact recipient_parse.
  unfold rpc_payload, payload_request. generalize ("0x" +:+ fmt_lower_hex_u64 chain_id) as ch; intros ch. clear Ha.
  revert Hr. generalize RECIPIENT_ADDRESS recipient. intros to b Hr.
  cbv -[json_address]. rewrite Hf. cbv -[json_address]. by rewrite Hr.
Qed.

Lemma payload_normalizes `{HexLaws} a chain_id :
  chain_id ∈ SUPPORTED_CHAINS →
  ∃ params, head (rq_params (payload_request a chain_id)) = Some params ∧
    normalize_eip1193_transaction params = Some (Ok (payload_txn chain_id, a)) ∧
    transaction_lint (payload_txn chain_id) = Ok tt.
Proof.
  intros Hc. eexists. split; [done|].
  assert (parse_hex_u256 "0x5208" = Some 21000) as Hgas by (apply u256_radix_law; done).
  assert (parse_hex_u256 "0xba43b7400" = Some 50000000000) as Hfee by (apply u256_radix_law; done).
  assert (parse_hex_u256 "0x77359400" = Some 2000000000) as Hprio by (apply u256_radix_law; done).
  assert (parse_hex_u256 "0x2386f26fc10000" = Some 10000000000000000) as Hval by (apply u256_radix_law; done).
  unfold normalize_eip1193_transaction. cbn [p_chain_id p_gas p_max_fee_per_gas
    p_max_priority_fee_per_gas p_value p_data p_access_list p_to p_from].
  unfold opt_field. rewrite Hgas, Hfee, Hprio, Hval. clear -Hc.
  unfold SUPPORTED_CHAINS in Hc.
  repeat (apply elem_of_cons in Hc as [->|Hc]; [split; reflexivity|]). by apply elem_of_nil in Hc.
Qed.

Lemma build_payloads_entries order chain_ids (addr : Z * string → string) :
  chain_ids ≠ [] → Forall (λ p, split_on ":" p.2 !! 2%nat = Some (addr p)) order →
  ∃ payloads, build_payloads order chain_ids = Some payloads ∧
    Forall2 (λ p e, ∃ chain_id, chain_id ∈ chain_ids ∧
      e = mkPayloadEntry p.2 (json_to_vec (rpc_payload (addr p) ("0x" +:+ fmt_lower_hex_u64 chain_id)))) order payloads.
Proof.
  intros Hne Ho. unfold build_payloads. destruct chain_ids as [|c cs]; [done|].
  induction Ho as [|[k v] order Hv Ho (ps & Hps & IH)]; [by exists []|].
  assert (is_Some ((c :: cs) !! Z.to_nat (k mod Z.of_nat (length (c :: cs))))) as [chain_id Hc].
  { apply lookup_lt_is_Some. pose proof (Z.mod_pos_bound k (Z.of_nat (length (c :: cs))) ltac:(cbn; lia)). lia. }
  cbn [snd] in Hv. eexists (_ :: ps). cbn [mapM]. rewrite Hc. cbn [mbind option_bind]. rewrite Hv.
  cbn [mbind option_bind]. rewrite Hps. split; [reflexivity|]. constructor; [|done].
  exists chain_id. split; [by eapply list_elem_of_lookup_2|done].
Qed.

(** ** The environment *)

(** No variable is taken for an API key. *)
Definition no_keys (m : gmap string string) : Prop :=
  ∀ k, is_Some (strip_prefix "LOBBY_API_KEY_" k) → m !! k = None.

Lemma no_keys_insert k v m : strip_prefix "LOBBY_API_KEY_" k = None → no_keys m → no_keys (<[k := v]> m).
Proof.
  intros Hk Hm k' Hk'. rewrite lookup_insert_ne; [by apply Hm|]. intros ->. rewrite Hk in Hk'. by destruct Hk'.
Qed.

Definition key_variable (p : Z * string) : string * string := ("LOBBY_API_KEY_" +:+ pretty p.1, p.2).

Lemma key_variables_NoDup order : NoDup order.*1 → NoDup (key_variable <$> order).*1.
Proof.
  intros Hnd. rewrite <- list_fmap_compose.
  assert (fst ∘ key_variable <$> order = (λ n : Z, "LOBBY_API_KEY_" +:+ pretty n) <$> order.*1) as ->
    by (by rewrite <- list_fmap_compose).
  apply list.NoDup_fmap_2; [|done]. intros x y [= Heq]. by apply (inj pretty).
Qed.

(** The variables of the process: the stack's under their names, and others
    that lobby does not take for API keys. *)
Lemma harness_env_split bench_env pg redis ports order :
  no_keys bench_env → NoDup order.*1 →
  ∃ m, no_keys m ∧ harness_env bench_env pg redis ports order = list_to_map (key_variable <$> order) ∪ m.
Proof.
  intros Hbase Hnd. unfold harness_env.
  match goal with |- context [foldl _ (foldl _ ?m0 ports) order] => assert (no_keys m0) as H0' end.
  { do 2 (apply no_keys_insert; [reflexivity|]). exact Hbase. }
  revert H0'. generalize (<["REDIS_URL":=redis]> (<["DATABASE_URL":=pg]> bench_env)). intros m Hm.
  exists (foldl (λ m '(chain_id, port),
    <["RPC_ENDPOINT_" +:+ pretty chain_id := "http://localhost:" +:+ pretty port]> m) m ports). split.
  - revert m Hm; induction ports as [|[c port] ports IH]; intros m Hm; [done|]. apply IH.
    by apply no_keys_insert.
  - generalize (foldl (λ (m : gmap string string) '(chain_id, port),
      <["RPC_ENDPOINT_" +:+ pretty chain_id := "http://localhost:" +:+ pretty port]> m) m ports). clear m Hm. intros m.
    rewrite <- foldl_insert.
    + revert m. clear Hnd. induction order as [|[k v] order IH]; intros m; [done|]. apply IH.
    + by apply key_variables_NoDup.
Qed.

Lemma key_variable_prefix p : is_Some (strip_prefix "LOBBY_API_KEY_" (key_variable p).1).
Proof. eexists. apply strip_prefix_app. Qed.

(** A variable lobby takes for an API key is one of the stack's. *)
Lemma harness_vars_keys bench_env pg redis ports order vars key value :
  no_keys bench_env → NoDup order.*1 → vars ≡ₚ map_to_list (harness_env bench_env pg redis ports order) →
  (key, value) ∈ vars → is_Some (strip_prefix "LOBBY_API_KEY_" key) → ∃ n, (n, value) ∈ order.
Proof.
  intros Hb Hnd ->. destruct (harness_env_split bench_env pg redis ports order Hb Hnd) as (m & Hm & ->).
  intros Hin%elem_of_map_to_list Hk. apply lookup_union_Some_raw in Hin as [Hin|[_ Hin]].
  - apply elem_of_list_to_map_2, list_elem_of_fmap in Hin as ([n v] & [= -> ->] & Hin). eauto.
  - by rewrite (Hm _ Hk) in Hin.
Qed.

Lemma harness_vars_stack bench_env pg redis ports order vars p :
  no_keys bench_env → NoDup order.*1 → vars ≡ₚ map_to_list (harness_env bench_env pg redis ports order) →
  p ∈ order → key_variable p ∈ vars.
Proof.
  intros Hb Hnd -> Hp. destruct (harness_env_split bench_env pg redis ports order Hb Hnd) as (m & Hm & ->).
  destruct (key_variable p) as [k v] eqn:Hkv. apply elem_of_map_to_list, lookup_union_Some_l, elem_of_list_to_map_1.
  - by apply key_variables_NoDup.
  - rewrite <- Hkv. by apply list_elem_of_fmap_2.
Qed.

Context `{!StatusTextLaws} `{HexLaws}.

(** The accounts behind a stack. *)
Definition stack_of (l : list (Z * (Bytes * Bytes))) (order : list (Z * string)) : Prop :=
  ∀ n v, (n, v) ∈ order → ∃ j key, l !! j = Some (n, key) ∧ v = api_key_text (draw j) (account_address key).

(** The keys of a stack whose tokens differ all load and authenticate. *)
Lemma stack_authenticates (l : list (Z * (Bytes * Bytes))) order bench_env pg redis ports vars :
  Forall (λ p, length (keccak256 (drop 1 p.2.2)) = 32%nat) l →
  (∀ i j, (i < length l)%nat → (j < length l)%nat → api_token (draw i).2 = api_token (draw j).2 → i = j) →
  stack_of l order → order ≠ [] → no_keys bench_env → NoDup order.*1 →
  vars ≡ₚ map_to_list (harness_env bench_env pg redis ports order) →
  ∃ reg, load_api_key_from_env vars = Ok reg ∧
    ∀ j n key, l !! j = Some (n, key) → (n, api_key_text (draw j) (account_address key)) ∈ order →
      auth_middleware reg (Some ("Bearer " +:+ api_key_text (draw j) (account_address key))) =
        Ok (mkClientConfig (draw j).1 (key_address key)).
Proof.
  intros Hlen Htok Hst Hne Hb Hnd Hvars.
  assert (∀ j n key, l !! j = Some (n, key) → length (keccak256 (drop 1 key.2)) = 32%nat) as Hkec.
  { intros j n key Hj. exact (list.Forall_lookup_1 _ _ _ _ Hlen Hj). }
  assert (∀ x, x ∈ declared vars → ∃ j n key, l !! j = Some (n, key) ∧
    x = (api_token (draw j).2, mkClientConfig (draw j).1 (key_address key))) as Hdecl.
  { intros x (k & v & Hin & Hk & Hp)%declared_elem.
    destruct (harness_vars_keys _ _ _ _ _ _ _ _ Hb Hnd Hvars Hin Hk) as (n & Hn).
    destruct (Hst _ _ Hn) as (j & key & Hj & ->). rewrite api_key_text_parse in Hp by eauto.
    injection Hp as <-. eauto. }
  assert (∀ j n key, l !! j = Some (n, key) → (n, api_key_text (draw j) (account_address key)) ∈ order →
    (api_token (draw j).2, mkClientConfig (draw j).1 (key_address key)) ∈ declared vars) as Hin.
  { intros j n key Hj Ho. apply declared_elem. pose proof (harness_vars_stack _ _ _ _ _ _ _ Hb Hnd Hvars Ho) as Hv.
    do 2 eexists. split; [exact Hv|]. split; [exact (key_variable_prefix (n, ""))|]. cbn [snd]. eapply api_key_text_parse; eauto. }
  destruct (load_vars_ok vars ∅) as [reg Hreg].
  { intros k v Hkv Hk. destruct (harness_vars_keys _ _ _ _ _ _ _ _ Hb Hnd Hvars Hkv Hk) as (n & Hn).
    destruct (Hst _ _ Hn) as (j & key & Hj & ->). eexists. eapply api_key_text_parse; eauto. }
  assert (∀ j n key, l !! j = Some (n, key) → (n, api_key_text (draw j) (account_address key)) ∈ order →
    reg !! api_token (draw j).2 = Some (mkClientConfig (draw j).1 (key_address key))) as Hlook.
  { intros j n key Hj Ho. rewrite (load_vars_lookup _ _ _ _ Hreg).
    rewrite (last_declared_unique _ (mkClientConfig (draw j).1 (key_address key))); [done|by eapply Hin|].
    intros c (j' & n' & key' & Hj' & Heq)%Hdecl.
    pose proof (f_equal fst Heq) as Ht. pose proof (f_equal snd Heq) as Hc. cbn [fst snd] in Ht, Hc. subst c.
    assert (j = j') as <- by (apply Htok; [exact (lookup_lt_Some _ _ _ Hj)|exact (lookup_lt_Some _ _ _ Hj')|exact Ht]).
    rewrite Hj in Hj'. by injection Hj' as _ ->. }
  exists reg. split.
  - unfold load_api_key_from_env. rewrite Hreg, decide_False; [done|]. intros ->.
    destruct order as [|[n v] order]; [done|]. destruct (Hst n v) as (j & key & Hj & ->); [left|].
    specialize (Hlook j n key Hj ltac:(left)). by rewrite lookup_empty in Hlook.
  - intros j n key Hj Ho. unfold auth_middleware. rewrite strip_prefix_app, api_key_text_split.
    cbn [length Nat.eqb head mbind option_bind]. by rewrite (Hlook _ _ _ Hj Ho).
Qed.

(** What lobby makes of a payload of the key of some account. *)
Definition payload_accepted (keys : list (Bytes * Bytes)) (chain_ids : list Z) (reg : ApiRegistry)
    (e : PayloadEntry) : Prop :=
  ∃ key client chain_id request, key ∈ keys ∧ chain_id ∈ chain_ids ∧
    auth_middleware reg (Some ("Bearer " +:+ pe_api_key e)) = Ok client ∧
    cc_from_address client = key_address key ∧
    json_from_slice (pe_payload e) ≫= request_of_json = Some request ∧
    acceptable client request (payload_txn chain_id) ∧ transaction_lint (payload_txn chain_id) = Ok tt.

Lemma numbered_elem {A} i (l : list A) p : p ∈ numbered i l → p.2 ∈ l.
Proof.
  revert i; induction l as [|x l IH]; intros i; cbn; [by intros ?%elem_of_nil|].
  intros [->|Hp]%elem_of_cons; [left|right; by eapply IH].
Qed.

(** One payload of a stack. *)
Lemma payload_entry_accepted keys chain_ids reg (l : list (Z * (Bytes * Bytes))) j n key e :
  Forall (λ p, p.2 ∈ keys ∧ length (keccak256 (drop 1 p.2.2)) = 32%nat) l → Forall (.∈ SUPPORTED_CHAINS) chain_ids →
  l !! j = Some (n, key) →
  auth_middleware reg (Some ("Bearer " +:+ api_key_text (draw j) (account_address key))) =
    Ok (mkClientConfig (draw j).1 (key_address key)) →
  (∃ chain_id, chain_id ∈ chain_ids ∧ e = mkPayloadEntry (api_key_text (draw j) (account_address key))
     (json_to_vec (rpc_payload (account_address key) ("0x" +:+ fmt_lower_hex_u64 chain_id)))) →
  payload_accepted keys chain_ids reg e.
Proof.
  intros Hl Hch Hj Hauth (chain_id & Hc & ->). destruct (list.Forall_lookup_1 _ _ _ _ Hl Hj) as [Hin Hk].
  exists key, (mkClientConfig (draw j).1 (key_address key)), chain_id, (payload_request (key_address key) chain_id).
  split_and!; [done..| | |].
  - cbn [pe_payload]. rewrite json_vec_law. apply payload_decodes. by apply account_address_parse.
  - destruct (payload_normalizes (key_address key) chain_id) as (ps & Hp & Hn & _).
    { by apply (proj1 (list.Forall_forall _ _) Hch). }
    split; [done|]. by exists ps.
  - destruct (payload_normalizes (key_address key) chain_id) as (ps & _ & _ & Hlint); [|done].
    by apply (proj1 (list.Forall_forall _ _) Hch).
Qed.

(** The stack of API keys that is built from the written file. *)
Lemma stack_of_written (keys : list (Bytes * Bytes)) order :
  Z.of_nat (length keys) ≤ u64_max → order ≡ₚ map_to_list (test_keys_map keccak256 1 keys ∅) →
  ∃ stack l, build_apistack draw (Ok (write_test_keys_json order)) = Ok stack ∧ l ≡ₚ numbered 1 keys ∧
  ∀ stack_order, stack_order ≡ₚ map_to_list stack →
    stack_of l stack_order ∧ NoDup stack_order.*1 ∧ length stack_order = length keys.
Proof.
  intros Hbound Horder. apply test_keys_order in Horder as (l & -> & Hl).
  assert (Forall (λ p, 0 ≤ p.1 ≤ u64_max) l) as Hrange.
  { apply list.Forall_forall. intros p. rewrite Hl. intros Hp%numbered_range. lia. }
  eexists _, l. split; [apply (stack_accounts_entries 0 l ∅ Hrange)|]. split; [exact Hl|]. intros stack_order Hso.
  assert (NoDup (imap (λ j, stack_entry (0 + j)) l).*1) as Hnd.
  { rewrite stack_entry_keys, Hl. apply numbered_NoDup. }
  rewrite foldl_insert_empty in Hso by done. split_and!.
  - intros n v. rewrite Hso. intros (j & Hj)%list_elem_of_lookup. rewrite list_lookup_imap in Hj.
    apply fmap_Some in Hj as ([m key] & Hj & [= -> ->]). eauto.
  - rewrite Hso. exact Hnd.
  - rewrite Hso, length_imap, Hl. apply numbered_length.
Qed.

(** Every key of it names an address. *)
Lemma stack_addresses (keys : list (Bytes * Bytes)) l stack_order :
  Forall (λ key, length (keccak256 (drop 1 key.2)) = 32%nat) keys → l ≡ₚ numbered 1 keys →
  stack_of l stack_order → is_Some (get_addresses stack_order).
Proof.
  intros Hk Hl Hst. apply mapM_is_Some_2, list.Forall_forall. intros [n v] (j & key & Hj & ->)%Hst.
  unfold compose. rewrite api_key_text_split. cbn [lookup list_lookup mbind option_bind].
  rewrite account_address_parse; [by eexists|]. apply (proj1 (list.Forall_forall _ _) Hk).
  apply list_elem_of_lookup_2 in Hj. rewrite Hl in Hj. by apply numbered_elem in Hj.
Qed.

(** lobby accepts what the harness sends.  For generated keys whose tokens
    differ, the API keys are built, every account gets one payload, and lobby,
    started with the environment the harness assembles - whatever the order of
    the file, of the maps and of the variables - loads a registry with which
    every payload is authenticated as its key's account, decodes, names that
    account as its sender, normalizes to the 0.01-ether transaction on a chain
    of the list, and passes the lint. *)
Theorem harness_accepted (keys : list (Bytes * Bytes)) order chain_ids bench_env pg redis ports :
  Forall (λ key, length (keccak256 (drop 1 key.2)) = 32%nat) keys → keys ≠ [] →
  Z.of_nat (length keys) ≤ u64_max →
  (∀ i j, (i < length keys)%nat → (j < length keys)%nat →
     api_token (draw i).2 = api_token (draw j).2 → i = j) →
  chain_ids ≠ [] → Forall (.∈ SUPPORTED_CHAINS) chain_ids → no_keys bench_env →
  order ≡ₚ map_to_list (test_keys_map keccak256 1 keys ∅) →
  ∃ stack, build_apistack draw (Ok (write_test_keys_json order)) = Ok stack ∧
  ∀ stack_order, stack_order ≡ₚ map_to_list stack →
  ∃ payloads, build_payloads stack_order chain_ids = Some payloads ∧ length payloads = length keys ∧
  ∀ vars, vars ≡ₚ map_to_list (harness_env bench_env pg redis ports stack_order) →
  ∃ reg, load_api_key_from_env vars = Ok reg ∧ Forall (payload_accepted keys chain_ids reg) payloads.
Proof.
  intros Hk Hne Hbound Htok Hch Hsup Hbase Horder.
  destruct (stack_of_written keys order Hbound Horder) as (stack & l & Hstack & Hl & Hstk).
  assert (length l = length keys) as Hlen by (rewrite Hl; apply numbered_length).
  assert (Forall (λ p, p.2 ∈ keys ∧ length (keccak256 (drop 1 p.2.2)) = 32%nat) l) as Hkeys.
  { apply list.Forall_forall. intros p. rewrite Hl. intros Hp%numbered_elem. split; [done|].
    by apply (proj1 (list.Forall_forall _ _) Hk). }
  exists stack. split; [exact Hstack|]. intros stack_order Hso.
  destruct (Hstk _ Hso) as (Hst & Hnd & Hsl).
  destruct (build_payloads_entries stack_order chain_ids (λ p, default "" (split_on ":" p.2 !! 2%nat)) Hch)
    as (payloads & Hpay & Hall).
  { apply list.Forall_forall. intros [n v] (j & key & _ & ->)%Hst. cbn [snd]. by rewrite api_key_text_split. }
  exists payloads. split; [done|]. split.
  { rewrite <- (Forall2_length Hall). exact Hsl. }
  intros vars Hvars.
  destruct (stack_authenticates l stack_order bench_env pg redis ports vars) as (reg & Hreg & Hauth); try done.
  - eapply list.Forall_impl; [exact Hkeys|]. by intros p [_ ?].
  - rewrite Hlen. exact Htok.
  - intros ->. by destruct keys.
  - exists reg. split; [done|]. apply list.Forall_forall. intros e (i & He)%list_elem_of_lookup.
    destruct (Forall2_lookup_r _ _ _ _ _ Hall He) as ([n v] & Hp & chain_id & Hc & ->).
    apply list_elem_of_lookup_2 in Hp. destruct (Hst _ _ Hp) as (j & key & Hj & ->).
    eapply (payload_entry_accepted keys chain_ids reg l j n key _ Hkeys Hsup Hj); [by eapply Hauth|].
    exists chain_id. split; [done|]. cbn [snd]. by rewrite api_key_text_split.
Qed.
End harness.

(** ** A harness to look at *)

(** Values as trees, trees as numbers, numbers as bits. *)
Fixpoint json_tree (v : Json) : gen_tree (string + Z) :=
  match v with
  | JNull => GenNode 0 []
  | JBool b => GenNode (if b then 1 else 2) []
  | JNum z => GenLeaf (inr z)
  | JStr s => GenLeaf (inl s)
  | JArr l => GenNode 3 (map json_tree l)
  | JObj fields => GenNode 4 (map (λ p, GenNode 5 [GenLeaf (inl p.1); json_tree p.2]) fields)
  end.
Fixpoint tree_json (t : gen_tree (string + Z)) : Json :=
  match t with
  | GenLeaf (inr z) => JNum z
  | GenLeaf (inl s) => JStr s
  | GenNode 0 _ => JNull
  | GenNode 1 _ => JBool true
  | GenNode 2 _ => JBool false
  | GenNode 3 l => JArr (map tree_json l)
  | GenNode _ l =>
      JObj (map (λ t, match t with GenNode _ [GenLeaf (inl k); v] => (k, tree_json v) | _ => ("", JNull) end) l)
  end.

Lemma tree_json_tree : ∀ v, tree_json (json_tree v) = v.
Proof.
  fix IH 1. intros [|[]|z|s|l|fields]; cbn; try done; f_equal.
  - induction l as [|v l IHl]; [done|]. cbn. by rewrite IH, IHl.
  - induction fields as [|[k v] fields IHl]; [done|]. cbn. by rewrite IH, IHl.
Qed.

Fixpoint pos_bytes (p : positive) : Bytes :=
  match p with xH => [] | xO p => Byte.x00 :: pos_bytes p | xI p => Byte.x01 :: pos_bytes p end.
Fixpoint bytes_pos (b : Bytes) : positive :=
  match b with [] => xH | Byte.x00 :: b => xO (bytes_pos b) | _ :: b => xI (bytes_pos b) end.
Lemma bytes_pos_bytes p : bytes_pos (pos_bytes p) = p.
Proof. induction p as [p IH|p IH|]; cbn; by rewrite ?IH. Qed.

#[export] Instance toy_harness : HarnessText := {|
  uuid_simple u := hex_encode (be_bytes 16 u);
  json_to_vec v := pos_bytes (encode (json_tree v));
  json_from_slice b := tree_json <$> decode (bytes_pos b)
|}.

#[export] Instance toy_harness_laws : HarnessLaws.
Proof.
  split.
  - intros u. cbn. generalize (encode u). intros p. by induction p.
  - intros u. apply hex_encode_chars.
  - intros v. cbn. rewrite bytes_pos_bytes, decode_encode. cbn. by rewrite tree_json_tree.
  - intros b _. unfold address_parse, plain_address.
    change (default _ (strip_0x _)) with (hex_encode b).
    change (hex_bytes (hex_encode b)) with (hex_decode (hex_encode b)). by rewrite hex_decode_law.
Qed.

Definition toy_keccak (b : Bytes) : Bytes := take 32 b.
Definition toy_key (x : Byte.byte) : Bytes * Bytes := (repeat x 32, Byte.x04 :: repeat x 64).
Definition toy_keys : list (Bytes * Bytes) := [toy_key Byte.x0a; toy_key Byte.xb7].
Definition toy_draw (j : nat) : Z * Z := (Z.of_nat j, (Z.of_nat j + 1) * 2 ^ 100).

Lemma harness_accepted_witness :
  ∃ stack, build_apistack toy_draw
      (Ok (write_test_keys_json (map_to_list (test_keys_map toy_keccak 1 toy_keys ∅)))) = Ok stack ∧
  ∃ payloads, build_payloads (map_to_list stack) [1; 137; 560048] = Some payloads ∧ length payloads = 2%nat ∧
  ∃ reg, load_api_key_from_env (map_to_list (harness_env ∅ "pg" "redis" [(1, 4001)] (map_to_list stack))) = Ok reg ∧
    Forall (payload_accepted toy_keccak toy_keys [1; 137; 560048] reg) payloads.
Proof.
  destruct (harness_accepted toy_keccak toy_draw toy_keys (map_to_list (test_keys_map toy_keccak 1 toy_keys ∅))
    [1; 137; 560048] ∅ "pg" "redis" [(1, 4001)]) as (stack & Hst & Hpay).
  - repeat constructor.
  - done.
  - done.
  - intros [|[|i]] [|[|j]] Hi Hj; cbn [length toy_keys] in *; try lia; intros Ht;
      first [reflexivity|vm_compute in Ht; discriminate].
  - done.
  - repeat (apply list.Forall_cons_2; [vm_compute; repeat constructor|]). apply list.Forall_nil_2.
  - intros k _. apply lookup_empty.
  - reflexivity.
  - exists stack. split; [exact Hst|]. destruct (Hpay _ (reflexivity _)) as (payloads & Hp & Hlen & Hreg).
    exists payloads. split; [exact Hp|]. split; [exact Hlen|]. exact (Hreg _ (reflexivity _)).
Defined.
