(* ===== verification/Bench.v ===== *)
(** * The benchmark's measurements

    [src/benchmark/src/metrics]: the reader of the telemetry stream and its
    histograms; the pacer of [loadgen/trigger.rs]; the helpers of
    [benchmark/src/main.rs]; and the [.env] that
    [lobby/src/bin/generate_api_keys.rs] writes. *)

From S2P Require Import Prelude Types Text Float Retry Rlp Eip1559 Custody Status Shard Pipeline PipelineProps Config Telemetry Auth Cortex Server Loadgen.

(** ** Histograms

    hdrhistogram's: [None] is a value that cannot be recorded. *)
Class HistogramOps := {
  Histogram : Type;
  hist_new_with_bounds : Z → Z → Z → Histogram;
  hist_record : Z → Histogram → option Histogram;
  hist_add : Histogram → Histogram → option Histogram;
  hist_len : Histogram → Z;
  hist_value_at_quantile : f64 → Histogram → Z;
  hist_max : Histogram → Z
}.
Class HistogramLaws `{HistogramOps} := {
  hist_len_new low high sigfigs : hist_len (hist_new_with_bounds low high sigfigs) = 0;
  hist_len_record v h h' : hist_record v h = Some h' → hist_len h' = hist_len h + 1
}.

(** Source: [benchmark/src/metrics/deserialize.rs] lines 9-10, [HISTOGRAM_MAX_US]. *)
Definition HISTOGRAM_MAX_US : Z := 60000000.
(** Source: [benchmark/src/metrics/deserialize.rs] lines 11-12, [HISTOGRAM_SIGFIGS]. *)
Definition HISTOGRAM_SIGFIGS : Z := 3.

Section collector.
Context `{HistogramOps}.

(** Source: [benchmark/src/metrics/deserialize.rs] lines 17-27, [LatencyRecord].
    The harness's own struct. *)
Record HarnessLatencyRecord := mkHarnessLatency {
  hl_execution_id : string;
  hl_relayhost_duration_us : Z;
  hl_nonce_duration_us : Z;
  hl_sign_duration_us : Z;
  hl_broadcast_duration_us : Z;
  hl_total_pipeline_us : Z
}.

Definition latency_fields : list string :=
  ["execution_id"; "relayhost_duration_us"; "nonce_duration_us"; "sign_duration_us"; "broadcast_duration_us";
   "total_pipeline_us"].

Definition latency_of_values (e a b c d f : Json) : option HarnessLatencyRecord :=
  e ← json_str e; a ← json_u64 a; b ← json_u64 b; c ← json_u64 c; d ← json_u64 d; f ← json_u64 f;
  Some (mkHarnessLatency e a b c d f).

(** Source: [benchmark/src/metrics/deserialize.rs] lines 17-27, [Deserialize for LatencyRecord].
    serde's derived one: the fields by their names, each once, others ignored;
    or their values in order. *)
Definition latency_of_json (v : Json) : option HarnessLatencyRecord :=
  match v with
  | JObj fields =>
      if decide (NoDup (filter (λ name, name ∈ latency_fields) fields.*1)) then
        e ← json_field "execution_id" fields;
        a ← json_field "relayhost_duration_us" fields;
        b ← json_field "nonce_duration_us" fields;
        c ← json_field "sign_duration_us" fields;
        d ← json_field "broadcast_duration_us" fields;
        f ← json_field "total_pipeline_us" fields;
        latency_of_values e a b c d f
      else None
  | JArr [e; a; b; c; d; f] => latency_of_values e a b c d f
  | _ => None
  end.

(** [serde_json::from_str] of a line. *)
Definition latency_of_string `{JsonText} (line : string) : option HarnessLatencyRecord :=
  json_parse line ≫= latency_of_json.

(** Source: [benchmark/src/metrics/deserialize.rs] lines 29-34, [StageMetrics]. *)
Record StageMetrics := mkStageMetrics { sm_histogram : Histogram; sm_dropped_count : Z }.

(** Source: [benchmark/src/metrics/deserialize.rs] lines 37-43, [StageMetrics::new]. *)
Definition StageMetrics_new : StageMetrics :=
  mkStageMetrics (hist_new_with_bounds 1 HISTOGRAM_MAX_US HISTOGRAM_SIGFIGS) 0.

(** Source: [benchmark/src/metrics/deserialize.rs] lines 45-54, [StageMetrics::record]. *)
Definition stage_record (value_us : Z) (m : StageMetrics) : StageMetrics :=
  match hist_record (Z.max value_us 1) (sm_histogram m) with
  | Some h => mkStageMetrics h (sm_dropped_count m)
  | None => mkStageMetrics (sm_histogram m) (sm_dropped_count m + 1)
  end.

(** Source: [benchmark/src/metrics/deserialize.rs] lines 56-61, [StageMetrics::merge]. *)
Definition stage_merge (other m : StageMetrics) : StageMetrics :=
  mkStageMetrics (default (sm_histogram m) (hist_add (sm_histogram other) (sm_histogram m)))
    (sm_dropped_count m + sm_dropped_count other).

(** Source: [benchmark/src/metrics/deserialize.rs] lines 64-84, [MetricsCollector]. *)
Record MetricsCollector := mkCollector {
  mc_relayhost : StageMetrics;
  mc_nonce : StageMetrics;
  mc_sign : StageMetrics;
  mc_broadcast : StageMetrics;
  mc_total_pipeline : StageMetrics;
  mc_test_start : Z;
  mc_warmup : Z;
  mc_steady_state : Z;
  mc_total_received : Z;
  mc_total_filtered_out : Z
}.

(** Source: [benchmark/src/metrics/deserialize.rs] lines 87-100, [MetricsCollector::new]. *)
Definition MetricsCollector_new (test_start warmup steady_state : Z) : MetricsCollector :=
  mkCollector StageMetrics_new StageMetrics_new StageMetrics_new StageMetrics_new StageMetrics_new
    test_start warmup steady_state 0 0.

(** The strict window of the steady state; [duration_since] of an earlier
    instant is zero. *)
Definition in_window (c : MetricsCollector) (received_at : Z) : bool :=
  let elapsed := Z.max 0 (received_at - mc_test_start c) in
  negb ((elapsed <? mc_warmup c) || (mc_warmup c + mc_steady_state c <? elapsed)).

(** Source: [benchmark/src/metrics/deserialize.rs] lines 102-122, [submit_metrics]. *)
Definition submit_metrics (r : HarnessLatencyRecord) (received_at : Z) (c : MetricsCollector) : MetricsCollector :=
  if in_window c received_at then
    mkCollector (stage_record (hl_relayhost_duration_us r) (mc_relayhost c))
      (stage_record (hl_nonce_duration_us r) (mc_nonce c)) (stage_record (hl_sign_duration_us r) (mc_sign c))
      (stage_record (hl_broadcast_duration_us r) (mc_broadcast c))
      (stage_record (hl_total_pipeline_us r) (mc_total_pipeline c))
      (mc_test_start c) (mc_warmup c) (mc_steady_state c) (mc_total_received c + 1) (mc_total_filtered_out c)
  else
    mkCollector (mc_relayhost c) (mc_nonce c) (mc_sign c) (mc_broadcast c) (mc_total_pipeline c)
      (mc_test_start c) (mc_warmup c) (mc_steady_state c) (mc_total_received c + 1) (mc_total_filtered_out c + 1).

(** ** The report *)

Fixpoint spaces (n : nat) : string :=
  match n with O => "" | Datatypes.S n => " " +:+ spaces n end.

(** [{:<n}] and [{:>n}]. *)
Definition pad_end (n : nat) (s : string) : string := s +:+ spaces (n - String.length s).
Definition pad_start (n : nat) (s : string) : string := spaces (n - String.length s) +:+ s.

Definition micros (label : string) (v : Z) : string := label +:+ ": " +:+ pad_start 6 (pretty v) +:+ "µs | ".

(** Source: [benchmark/src/metrics/deserialize.rs] lines 146-164, [print_stage]. *)
Definition print_stage (name : string) (m : StageMetrics) : string :=
  let h := sm_histogram m in
  if hist_len h =? 0 then pad_end 15 name +:+ " | No samples recorded"
  else
    pad_end 15 name +:+ " | " +:+ micros "p50" (hist_value_at_quantile (f64_lit 1 2) h) +:+
    micros "p95" (hist_value_at_quantile (f64_lit 95 100) h) +:+
    micros "p99" (hist_value_at_quantile (f64_lit 99 100) h) +:+
    micros "p99.9" (hist_value_at_quantile (f64_lit 999 1000) h) +:+
    micros "max" (hist_max h) +:+ "dropped: " +:+ pretty (sm_dropped_count m).

(** Source: [benchmark/src/metrics/deserialize.rs] lines 124-144, [MetricsCollector::report].
    The lines that are logged. *)
Definition report (c : MetricsCollector) : list string :=
  ["======================================================="; "  LOBBY PIPELINE LATENCY REPORT (Steady-State Window)  ";
   "======================================================="; "Total Samples Received: " +:+ pretty (mc_total_received c);
   "Samples Filtered (Warmup/Drain): " +:+ pretty (mc_total_filtered_out c);
   "-------------------------------------------------------"; print_stage "RelayHost" (mc_relayhost c);
   print_stage "Nonce Reserve" (mc_nonce c); print_stage "Sign (ECDSA)" (mc_sign c);
   print_stage "Broadcast (RPC)" (mc_broadcast c); print_stage "Total Pipeline" (mc_total_pipeline c);
   "======================================================="].

(** ** The reader of the stream *)

(** What one round of the [select!] finds: a cancelled token comes first; a
    line with the instant it was read at; an error; the end of the stream. *)
Inductive Frame := FShutdown | FLine (line : string) (received_at : Z) | FError (e : string) | FClosed.

Context `{JsonText}.

(** Source: [benchmark/src/metrics/mod.rs] lines 38-74, [telemetry_stream_reader (loop)].
    [None]: the frames are used up and the reader still waits. *)
Fixpoint read_frames (frames : list Frame) (c : MetricsCollector) : option MetricsCollector :=
  match frames with
  | [] => None
  | FShutdown :: _ | FError _ :: _ | FClosed :: _ => Some c
  | FLine line received_at :: frames =>
      read_frames frames match latency_of_string line with
                         | Some latency_record => submit_metrics latency_record received_at c
                         | None => c
                         end
  end.

(** Source: [benchmark/src/metrics/mod.rs] lines 18-77, [telemetry_stream_reader].
    [connected]: what connecting to the socket within five seconds answered. *)
Definition telemetry_stream_reader (test_start warmup steady_state : Z) (connected : result unit string)
    (frames : list Frame) : option (result MetricsCollector string) :=
  match connected with
  | Err e => Some (Err e)
  | Ok _ => Ok <$> read_frames frames (MetricsCollector_new test_start warmup steady_state)
  end.
End collector.

(** ** The pacer *)

(** [x as u64] of a double: truncated, saturating. *)
Definition f64_as_u64 (x : f64) : Z :=
  match x with
  | S754_finite false m e => Z.min u64_max (if 0 <=? e then Z.pos m * 2 ^ e else Z.pos m / 2 ^ (- e))
  | S754_infinity false => u64_max
  | _ => 0
  end.
Definition f64_sub : f64 → f64 → f64 := SFsub f64_prec f64_emax.

(** Source: [benchmark/src/loadgen/trigger.rs] lines 120-131, [DynamicRateController]. *)
Record DynamicRateController := mkRateController {
  rc_ramp_duration_us : f64;
  rc_min_inter_arrival_us : f64;
  rc_max_inter_arrival_us : f64;
  rc_next_virtual_time_us : f64
}.

(** Source: [benchmark/src/loadgen/trigger.rs] lines 134-145, [DynamicRateController::new]. *)
Definition DynamicRateController_new (ramp_secs target_tps initial_delay_us : f64) : DynamicRateController :=
  mkRateController (f64_mul ramp_secs (f64_of_Z 1000000)) (f64_div (f64_of_Z 1000000) target_tps)
    initial_delay_us (f64_of_Z 0).

(** Source: [benchmark/src/loadgen/trigger.rs] lines 149-164, [wait_for_next_slot (virtual clock)].
    The slot claimed, and the clock moved on. *)
Definition claim_slot (c : DynamicRateController) : f64 * DynamicRateController :=
  let current_virtual := rc_next_virtual_time_us c in
  let current_delay :=
    if f64_lt current_virtual (rc_ramp_duration_us c) then
      let progress := f64_div current_virtual (rc_ramp_duration_us c) in
      f64_sub (rc_max_inter_arrival_us c)
        (f64_mul progress (f64_sub (rc_max_inter_arrival_us c) (rc_min_inter_arrival_us c)))
    else rc_min_inter_arrival_us c in
  (current_virtual,
   mkRateController (rc_ramp_duration_us c) (rc_min_inter_arrival_us c) (rc_max_inter_arrival_us c)
     (f64_add current_virtual current_delay)).

(** Source: [benchmark/src/loadgen/trigger.rs] lines 148-174, [wait_for_next_slot].
    On nanoseconds: how long the task sleeps. *)
Definition wait_for_next_slot (start_instant now : Z) (c : DynamicRateController) : Z * DynamicRateController :=
  let '(target_virtual_time, c') := claim_slot c in
  let target_instant := start_instant + f64_as_u64 target_virtual_time * 1000 in
  ((if now <? target_instant then target_instant - now else 0), c').

(** Source: [benchmark/src/main.rs] lines 32-36, [RAMP_SECS, TARGET_TPS, INITIAL_DELAY_US]. *)
Definition harness_rate_controller : DynamicRateController :=
  DynamicRateController_new (f64_of_Z 5) (f64_of_Z 1000) (f64_of_Z 10000).

(** The first [n] slots, in microseconds. *)
Fixpoint slots (n : nat) (c : DynamicRateController) : list Z :=
  match n with
  | O => []
  | Datatypes.S n => let '(t, c') := claim_slot c in f64_as_u64 t :: slots n c'
  end.

(** ** The environment file *)

(** [s.lines()]: without the line ends, and without a last empty line. *)
Fixpoint drop_last_empty (l : list string) : list string :=
  match l with
  | [] | [""] => []
  | s :: l => s :: drop_last_empty l
  end.
Definition strip_cr (s : string) : string :=
  match rev (String.list_ascii_of_string s) with
  | c :: r => if decide (c = Ascii.ascii_of_N 13) then String.string_of_list_ascii (rev r) else s
  | [] => s
  end.
Definition lines (s : string) : list string := strip_cr <$> drop_last_empty (split_on newline s).

(** [s.trim_matches(c)]. *)
Fixpoint trim_start_char (c : Ascii.ascii) (s : string) : string :=
  match s with
  | String a s' => if decide (a = c) then trim_start_char c s' else s
  | EmptyString => EmptyString
  end.
Fixpoint trim_end_char (c : Ascii.ascii) (s : string) : string :=
  match s with
  | EmptyString => EmptyString
  | String a s' =>
      match trim_end_char c s' with
      | EmptyString => if decide (a = c) then EmptyString else String a EmptyString
      | t => String a t
      end
  end.
Definition trim_matches (c : Ascii.ascii) (s : string) : string := trim_end_char c (trim_start_char c s).

Definition squote : Ascii.ascii := Ascii.ascii_of_N 39.

(** Source: [benchmark/src/main.rs] lines 228-238, [parse_env_file (for)]. *)
Definition parse_env_line (line : string) : option (string * string) :=
  let line := trim line in
  if bool_decide (line = "") || starts_with "#" line then None
  else
    let line := default line (strip_prefix "export " line) in
    '(k, v) ← split_once "=" line;
    Some (trim k, trim_matches squote (trim_matches dquote (trim v))).

(** Source: [benchmark/src/main.rs] lines 221-245, [parse_env_file].
    [None]: the file cannot be read. *)
Definition parse_env_file (file : option string) : gmap string string :=
  match file with
  | Some text =>
      foldl (λ m line, match parse_env_line line with Some (k, v) => <[k := v]> m | None => m end) ∅ (lines text)
  | None => ∅
  end.

(** ** The key generator *)

Section generate.
Context `{StatusText, HarnessText}.

(** Source: [lobby/src/bin/generate_api_keys.rs] lines 36-57, [main (for)].
    The number of an account is 0 when its name does not hold one; [draw i]
    are the two uuids of the [i]-th account. *)
Fixpoint generate_lines (draw : nat → Z * Z) (i : nat) (accounts : list (string * Json)) : result (list string) string :=
  match accounts with
  | [] => Ok []
  | (account_name, account_data) :: accounts =>
      let account_num := default 0 (strip_prefix "account" account_name ≫= λ s,
        match parse_u64 s with Ok n => Some n | Err _ => None end) in
      match json_get "address" account_data ≫= json_str with
      | None => Err "missing 'address' field in account entry"
      | Some from_address =>
          let '(client_id, token) := draw i in
          let env_var := "export LOBBY_API_KEY_" +:+ pretty account_num +:+ "=" +:+ String dquote
            (api_token token +:+ ":" +:+ uuid_display client_id +:+ ":" +:+ from_address +:+ String dquote "") in
          match generate_lines draw (Datatypes.S i) accounts with
          | Ok env_lines => Ok (env_var :: env_lines)
          | Err e => Err e
          end
      end
  end.

(** [writeln!(file, "{}", line)] of each line. *)
Fixpoint write_lines (env_lines : list string) : string :=
  match env_lines with
  | [] => ""
  | line :: env_lines => line +:+ String newline (write_lines env_lines)
  end.

(** Source: [lobby/src/bin/generate_api_keys.rs] lines 21-72, [main].
    The file's text before and after; the keys' JSON or why it was not read. *)
Definition generate_api_keys (draw : nat → Z * Z) (parsed : result Json string) (env_file : string) :
    result string string :=
  match parsed with
  | Err e => Err e
  | Ok (JObj object) =>
      match generate_lines draw 0 object with
      | Err e => Err e
      | Ok env_lines => Ok (env_file +:+ String newline (write_lines env_lines))
      end
  | Ok _ => Err "test_keys.json must contain a top-level JSON object"
  end.
End generate.

(** ** Waiting for the server *)

(** Source: [benchmark/src/main.rs] lines 247-265, [poll_till_timeout].
    [connect i] is what the [i]-th attempt finds and how long it takes; the
    clock is the time since the start.  [None]: out of fuel. *)
Fixpoint poll_till_timeout (fuel : nat) (connect : nat → bool * Z) (i : nat) (elapsed timeout : Z) : option bool :=
  match fuel with
  | O => None
  | Datatypes.S fuel =>
      if elapsed <? timeout then
        let '(connected, took) := connect i in
        if connected then Some true
        else poll_till_timeout fuel connect (Datatypes.S i) (elapsed + Z.max 0 took + from_millis 500) timeout
      else Some false
  end.

(** ** No sample is lost *)

Section conservation.
Context `{HistogramLaws}.

(** The samples a stage has counted. *)
Definition counted (m : StageMetrics) : Z := hist_len (sm_histogram m) + sm_dropped_count m.

Lemma counted_record v m : counted (stage_record v m) = counted m + 1.
Proof.
  unfold counted, stage_record. destruct (hist_record _ _) as [h|] eqn:Hr; cbn; [|lia].
  apply hist_len_record in Hr. lia.
Qed.

Definition stages (c : MetricsCollector) : list StageMetrics :=
  [mc_relayhost c; mc_nonce c; mc_sign c; mc_broadcast c; mc_total_pipeline c].

(** [n] samples received, [k] of them in the window. *)
Record conserves (n k : Z) (c : MetricsCollector) : Prop := {
  cs_received : mc_total_received c = n;
  cs_filtered : mc_total_filtered_out c = n - k;
  cs_stages : Forall (λ m, counted m = k) (stages c)
}.

Lemma conserves_new start warmup steady : conserves 0 0 (MetricsCollector_new start warmup steady).
Proof.
  split; [done..|]. assert (counted StageMetrics_new = 0) as H0'; [|by repeat constructor].
  unfold counted, StageMetrics_new; cbn [sm_histogram sm_dropped_count]. by rewrite hist_len_new.
Qed.

Lemma conserves_submit n k r at_ c :
  conserves n k c → conserves (n + 1) (if in_window c at_ then k + 1 else k) (submit_metrics r at_ c).
Proof.
  intros [Hr Hf Hs]. unfold submit_metrics. destruct (in_window c at_); split; cbn; try lia; [|exact Hs].
  unfold stages in *. repeat (apply list.Forall_cons in Hs as [? Hs]).
  repeat (apply list.Forall_cons_2; [cbn; rewrite counted_record; lia|]). apply list.Forall_nil_2.
Qed.

Lemma in_window_submit r a c b : in_window (submit_metrics r a c) b = in_window c b.
Proof. unfold submit_metrics. by destruct (in_window c a). Qed.

Context `{JsonText}.

(** The samples of the frames up to the one that ends the stream. *)
Fixpoint samples (frames : list Frame) : list (HarnessLatencyRecord * Z) :=
  match frames with
  | FLine line at_ :: frames =>
      match latency_of_string line with Some r => (r, at_) :: samples frames | None => samples frames end
  | _ => []
  end.
Definition ends (f : Frame) : bool := match f with FLine _ _ => false | _ => true end.

Lemma read_frames_samples frames c :
  existsb ends frames = true →
  read_frames frames c = Some (foldl (λ c '(r, at_), submit_metrics r at_ c) c (samples frames)).
Proof.
  revert c; induction frames as [|[|line at_|e|] frames IH]; intros c Hend; cbn in *; try done.
  destruct (latency_of_string line); by rewrite IH.
Qed.

(** How many of the samples are in the window. *)
Fixpoint windowed (c : MetricsCollector) (l : list (HarnessLatencyRecord * Z)) : Z :=
  match l with
  | [] => 0
  | (_, at_) :: l => (if in_window c at_ then 1 else 0) + windowed c l
  end.

Lemma windowed_submit r a c l : windowed (submit_metrics r a c) l = windowed c l.
Proof. induction l as [|[r' at_] l IH]; [done|]. cbn. by rewrite in_window_submit, IH. Qed.

Lemma conserves_samples l n k c :
  conserves n k c →
  conserves (n + Z.of_nat (length l)) (k + windowed c l) (foldl (λ c '(r, at_), submit_metrics r at_ c) c l).
Proof.
  revert n k c; induction l as [|[r at_] l IH]; intros n k c Hc; cbn [foldl windowed]; [by rewrite !Z.add_0_r|].
  pose proof (IH _ _ _ (conserves_submit n k r at_ c Hc)) as Hl. rewrite windowed_submit in Hl.
  cbn [length]. replace (n + Z.of_nat (Datatypes.S (length l))) with (n + 1 + Z.of_nat (length l)) by lia.
  replace (k + ((if in_window c at_ then 1 else 0) + windowed c l))
    with ((if in_window c at_ then k + 1 else k) + windowed c l) by (destruct (in_window c at_); lia). done.
Qed.

(** Whatever the stream brings, the reader ends with it; every sample is
    received once, filtered out or counted once in every stage. *)
Theorem collector_conserves start warmup steady frames :
  existsb ends frames = true →
  ∃ c, telemetry_stream_reader start warmup steady (Ok tt) frames = Some (Ok c) ∧
    conserves (Z.of_nat (length (samples frames)))
      (windowed (MetricsCollector_new start warmup steady) (samples frames)) c.
Proof.
  intros Hend. unfold telemetry_stream_reader. rewrite read_frames_samples by done. eexists. split; [reflexivity|].
  apply (conserves_samples (samples frames) 0 0), conserves_new.
Qed.

(** ** From the exporter to the histograms *)

Context `{!JsonTextLaws} `{QuantaClock, StatusText}.

(** The harness's copy of a record of the exporter. *)
Definition received_as (r : LatencyRecord) : HarnessLatencyRecord :=
  mkHarnessLatency (lr_execution_id r) (lr_relayhost_duration_us r) (lr_nonce_duration_us r) (lr_sign_duration_us r)
    (lr_broadcast_duration_us r) (lr_total_pipeline_us r).

Lemma get_duration_us_u64 a b : (0 <=? get_duration_us a b) && (get_duration_us a b <=? u64_max) = true.
Proof.
  unfold get_duration_us. destruct a, b; try done. unfold wrap_u64, u64_max.
  match goal with |- context [?n mod ?m] => pose proof (Z.mod_pos_bound n m ltac:(done)) as Hm end.
  apply andb_true_iff. rewrite !Z.leb_le. lia.
Qed.

Lemma json_u64_duration a b : json_u64 (JNum (get_duration_us a b)) = Some (get_duration_us a b).
Proof. unfold json_u64. by rewrite get_duration_us_u64. Qed.

(** The names of the two structs' fields agree. *)
Lemma latency_of_fields r :
  latency_of_json (latency_to_json r) =
    latency_of_values (JStr (lr_execution_id r)) (JNum (lr_relayhost_duration_us r)) (JNum (lr_nonce_duration_us r))
      (JNum (lr_sign_duration_us r)) (JNum (lr_broadcast_duration_us r)) (JNum (lr_total_pipeline_us r)).
Proof. reflexivity. Qed.

Lemma latency_json_roundtrip e p :
  latency_of_string (json_text (latency_to_json (latency_record e p))) = Some (received_as (latency_record e p)).
Proof.
  unfold latency_of_string. rewrite json_parse_text.
  - cbn [mbind option_bind]. rewrite latency_of_fields. unfold latency_of_values, latency_record.
    cbn [json_str lr_execution_id lr_relayhost_duration_us lr_nonce_duration_us lr_sign_duration_us
      lr_broadcast_duration_us lr_total_pipeline_us mbind option_bind].
    by rewrite !json_u64_duration.
  - unfold latency_to_json, latency_record. cbn [json_plain forallb snd lr_execution_id lr_relayhost_duration_us
      lr_nonce_duration_us lr_sign_duration_us lr_broadcast_duration_us lr_total_pipeline_us].
    rewrite !get_duration_us_u64. by vm_compute.
Qed.

(** [line] is the record of [ev]'s entry in [t]. *)
Definition exported_line (t : TelemetryWorld) (ev : TelemetryExport) (line : string) : Prop :=
  ∃ p, tl_registry t !! ex_execution_id ev = Some p ∧
    latency_of_string line = Some (received_as (latency_record (ex_execution_id ev) p)).

Lemma export_loop_registry events t :
  tl_registry (export_loop latency_to_string events [] t).2 =
  foldl (λ m ev, delete (ex_execution_id ev) m) (tl_registry t) events.
Proof.
  revert t; induction events as [|ev events IH]; intros t; [done|]. cbn [export_loop foldl].
  destruct (tl_registry t !! ex_execution_id ev) as [p|] eqn:Hp; [|rewrite IH; by rewrite delete_id].
  set (t1 := mkTelemetryWorld _ _ _ _ _). specialize (IH t1). cbn [latency_to_string].
  cbn [head default from_option id tail]. by destruct (export_loop latency_to_string events [] t1).
Qed.

Lemma foldl_delete_None (events : list TelemetryExport) (m : gmap ExecutionId PipelineTelemetry) e :
  mkExport e ∈ events ∨ m !! e = None → foldl (λ m ev, delete (ex_execution_id ev) m) m events !! e = None.
Proof.
  revert m; induction events as [|[e'] events IH]; intros m He; cbn.
  - destruct He as [?%elem_of_nil|]; done.
  - apply IH. rewrite elem_of_cons in He. rewrite lookup_delete_None. destruct He as [[[= ->]|]|]; auto.
Qed.

Lemma export_loop_lines events t :
  NoDup events → Forall (λ ev, is_Some (tl_registry t !! ex_execution_id ev)) events →
  Forall2 (exported_line t) events (export_loop latency_to_string events [] t).1.
Proof.
  intros Hnd. revert t. induction Hnd as [|ev events Hev Hnd IH]; intros t Hreg; [constructor|].
  apply list.Forall_cons in Hreg as [[p Hp] Hreg]. cbn [export_loop]. rewrite Hp.
  pose proof (latency_json_roundtrip (ex_execution_id ev) p) as Hj. cbn [latency_to_string head default from_option id tail].
  set (t1 := mkTelemetryWorld _ _ _ _ _).
  assert (Forall2 (exported_line t1) events (export_loop latency_to_string events [] t1).1) as Hall.
  { apply IH. apply list.Forall_forall. intros [e'] Hin. cbn. rewrite lookup_delete_ne.
    - exact (proj1 (list.Forall_forall _ _) Hreg _ Hin).
    - intros He. apply Hev. destruct ev as [e0]. cbn in He. by subst. }
  destruct (export_loop latency_to_string events [] t1) as [ls t']. cbn [fst] in *. constructor; [by exists p|].
  eapply Forall2_impl; [|exact Hall]. intros ev' line (p' & Hp' & Hl). exists p'. split; [|done].
  cbn in Hp'. by apply lookup_delete_Some in Hp' as [_ ?].
Qed.

Lemma samples_lines events lines ats t :
  Forall2 (exported_line t) events lines → length ats = length events →
  samples (zip_with FLine lines ats ++ [FClosed]) =
    zip_with (λ ev at_, (received_as (latency_record (ex_execution_id ev) (default PipelineTelemetry_default
      (tl_registry t !! ex_execution_id ev))), at_)) events ats.
Proof.
  intros Hall. revert ats. induction Hall as [|ev line events lines (p & Hp & Hl) _ IH]; intros [|at_ ats] Hlen; try done.
  cbn in *. rewrite Hl, Hp. cbn. f_equal. apply IH. lia.
Qed.

(** C19: what the exporter writes the harness reads back, each with its own
    struct and serde's names of its fields: for runs whose entries are in the
    registry the reader ends with a collector that was given each record once,
    with the execution id and the five durations exported and in order -
    filtered out or counted once in every stage - and the registry has none of
    them left.  Of serde_json it is assumed that it reads the values it writes. *)
Theorem telemetry_stream_roundtrip start warmup steady events ats t :
  NoDup events → Forall (λ ev, is_Some (tl_registry t !! ex_execution_id ev)) events → length ats = length events →
  let '(lines, t') := export_loop latency_to_string events [] t in
  let records := zip_with (λ ev at_, (received_as (latency_record (ex_execution_id ev) (default PipelineTelemetry_default
    (tl_registry t !! ex_execution_id ev))), at_)) events ats in
  ∃ c, telemetry_stream_reader start warmup steady (Ok tt) (zip_with FLine lines ats ++ [FClosed]) = Some (Ok c) ∧
    c = foldl (λ c '(r, at_), submit_metrics r at_ c) (MetricsCollector_new start warmup steady) records ∧
    conserves (Z.of_nat (length events)) (windowed (MetricsCollector_new start warmup steady) records) c ∧
    Forall (λ ev, tl_registry t' !! ex_execution_id ev = None) events.
Proof.
  intros Hnd Hreg Hlen. pose proof (export_loop_lines events t Hnd Hreg) as Hall.
  pose proof (export_loop_registry events t) as Ht'. destruct (export_loop latency_to_string events [] t) as [lines t'].
  cbn [fst snd] in *. cbv zeta.
  match goal with |- ∃ c, _ ∧ c = foldl _ _ ?l ∧ _ => set (records := l) end.
  pose proof (samples_lines _ _ _ _ Hall Hlen) as Hs. fold records in Hs.
  eexists. split; [|split; [reflexivity|]].
  - unfold telemetry_stream_reader. rewrite read_frames_samples; [by rewrite Hs|].
    rewrite existsb_app. cbn. apply orb_true_r.
  - split.
    + replace (length events) with (length records); [apply (conserves_samples records 0 0), conserves_new|].
      subst records. rewrite length_zip_with. lia.
    + rewrite Ht'. apply list.Forall_forall. intros [e] He. apply foldl_delete_None. by left.
Qed.
End conservation.

(** ** What the key generator writes, the harness reads back *)

Lemma trim_end_app a b : trim_end b = b → b ≠ "" → trim_end (a +:+ b) = a +:+ b.
Proof.
  intros Hb Hne. induction a as [|c a IH]; [done|].
  change (String c a +:+ b) with (String c (a +:+ b)). cbn [trim_end]. rewrite IH.
  destruct (a +:+ b) as [|x s] eqn:Hab; [|reflexivity]. exfalso. destruct a; [by apply Hne|discriminate].
Qed.

Definition visible (c : Ascii.ascii) : bool := negb (is_space c).

Lemma trim_end_visible s : all_chars visible s = true → trim_end s = s.
Proof.
  induction s as [|c s IH]; cbn; [done|]. intros [Hc Hs]%andb_true_iff. rewrite IH by done.
  destruct s; [|done]. unfold visible in Hc. by destruct (is_space c).
Qed.

Lemma trim_start_visible c s : visible c = true → trim_start (String c s) = String c s.
Proof. unfold visible. cbn. by destruct (is_space c). Qed.

Lemma trim_visible s : all_chars visible s = true → trim s = s.
Proof.
  intros Hs. unfold trim. destruct s as [|c s]; [done|]. rewrite trim_start_visible; [by apply trim_end_visible|].
  cbn in Hs. by apply andb_true_iff in Hs as [? _].
Qed.

Lemma trim_start_char_plain c s : has_char c s = false → trim_start_char c s = s.
Proof.
  destruct s as [|a s]; cbn; [done|]. intros [Ha _]%orb_false_elim.
  apply bool_decide_eq_false in Ha. by rewrite decide_False.
Qed.

Lemma trim_end_char_plain c s : has_char c s = false → trim_end_char c s = s.
Proof.
  induction s as [|a s IH]; cbn; [done|]. intros [Ha Hs]%orb_false_elim. rewrite IH by done.
  apply bool_decide_eq_false in Ha. destruct s; [by rewrite decide_False|done].
Qed.

Lemma trim_end_char_snoc c s : trim_end_char c (s +:+ String c "") = trim_end_char c s.
Proof. induction s as [|a s IH]; simpl; [by rewrite decide_True|]. by rewrite IH. Qed.

Lemma trim_matches_plain c s : has_char c s = false → trim_matches c s = s.
Proof. intros Hs. unfold trim_matches. by rewrite trim_start_char_plain, trim_end_char_plain. Qed.

(** A quoted text without quotes. *)
Lemma trim_matches_quoted c s : s ≠ "" → has_char c s = false → trim_matches c (String c (s +:+ String c "")) = s.
Proof.
  intros Hne Hs. unfold trim_matches. cbn [trim_start_char]. rewrite decide_True by done.
  destruct s as [|a s]; [done|]. change (String a s +:+ String c "") with (String a (s +:+ String c "")).
  cbn [trim_start_char]. rewrite decide_False by (cbn in Hs; apply orb_false_elim in Hs as [Ha _];
    by apply bool_decide_eq_false in Ha).
  change (String a (s +:+ String c "")) with (String a s +:+ String c "").
  by rewrite trim_end_char_snoc, trim_end_char_plain.
Qed.

(** Decimal digits and the sign of a number. *)
Lemma pretty_go_chars n s : all_chars uuid_char s = true → all_chars uuid_char (pretty_N_go n s) = true.
Proof.
  revert s. induction (N.lt_wf_0 n) as [n _ IH]; intros s Hs.
  destruct (decide (n = 0)%N) as [->|Hn]; [by rewrite pretty_N_go_0|].
  rewrite pretty_N_go_step by lia. apply IH; [by apply N.div_lt; lia|]. cbn. rewrite Hs, andb_true_r.
  pose proof (N.mod_lt n 10 ltac:(lia)) as Hd. generalize dependent (n mod 10)%N. intros d Hd.
  assert (d ∈ [0;1;2;3;4;5;6;7;8;9]%N) as Hin by (rewrite !elem_of_cons; lia).
  repeat (apply elem_of_cons in Hin as [->|Hin]; [done|]). by apply elem_of_nil in Hin.
Qed.

Lemma pretty_Z_chars (z : Z) : all_chars uuid_char (pretty z) = true.
Proof.
  assert (∀ p, all_chars uuid_char (pretty (N.pos p)) = true) as Hp by (intros p; by apply pretty_go_chars).
  destruct z as [|p|p]; [done|exact (Hp p)|exact (Hp p)].
Qed.

Lemma split_once_app c a s : has_char c a = false → split_once c (a +:+ String c s) = Some (a, s).
Proof.
  induction a as [|x a IH]; simpl; [by rewrite decide_True|]. intros [Hx Ha]%orb_false_elim.
  apply bool_decide_eq_false in Hx. rewrite decide_False by done. by rewrite IH.
Qed.

Section env_file.
Context `{HarnessLaws} (draw : nat → Z * Z).

(** A line of the generated file. *)
Definition env_line (n : Z) (body : string) : string :=
  "export LOBBY_API_KEY_" +:+ pretty n +:+ "=" +:+ String dquote (body +:+ String dquote "").

(** The characters of an API key: those of a uuid, letters, colons. *)
Definition key_char (c : Ascii.ascii) : bool :=
  visible c && negb (bool_decide (c = dquote)) && negb (bool_decide (c = squote)) &&
  negb (bool_decide (c = newline)) && negb (bool_decide (c = "="%char)).

Lemma uuid_key_char c : uuid_char c = true → key_char c = true.
Proof. destruct c as [[] [] [] [] [] [] [] []]; by vm_compute. Qed.

Lemma has_char_key c s : all_chars key_char s = true → key_char c = false → has_char c s = false.
Proof. apply all_chars_has_char. Qed.

Lemma key_visible s : all_chars key_char s = true → all_chars visible s = true.
Proof.
  apply all_chars_mono. intros c. unfold key_char. rewrite !andb_true_iff. tauto.
Qed.

Lemma parse_generated_line n body :
  all_chars key_char body = true → body ≠ "" →
  parse_env_line (env_line n body) = Some ("LOBBY_API_KEY_" +:+ pretty n, body).
Proof.
  intros Hb Hne. pose proof (all_chars_mono _ _ _ uuid_key_char (pretty_Z_chars n)) as Hn.
  assert (all_chars visible (String dquote (body +:+ String dquote "")) = true) as Hv.
  { cbn. rewrite all_chars_app, key_visible by done. done. }
  assert (trim (env_line n body) = env_line n body) as Htrim.
  { unfold trim. change (trim_start (env_line n body)) with (env_line n body).
    assert (env_line n body = ("export LOBBY_API_KEY_" +:+ (pretty n +:+ "=")) +:+
      String dquote (body +:+ String dquote "")) as -> by (unfold env_line; by rewrite <- !str_app_assoc).
    apply trim_end_app; [|done]. by apply trim_end_visible. }
  unfold parse_env_line. rewrite Htrim. unfold env_line.
  set (q := String dquote (body +:+ String dquote "")) in *.
  change (bool_decide _ || starts_with _ _) with false. cbv match.
  change ("export LOBBY_API_KEY_" +:+ (pretty n +:+ ("=" +:+ q)))
    with ("export " +:+ ("LOBBY_API_KEY_" +:+ (pretty n +:+ String "=" q))).
  rewrite strip_prefix_app. cbn [default from_option id]. rewrite (str_app_assoc "LOBBY_API_KEY_").
  assert (has_char "=" ("LOBBY_API_KEY_" +:+ pretty n) = false) as Heq.
  { rewrite has_char_app. cbn. by apply has_char_key. }
  rewrite split_once_app by done. cbn [mbind option_bind].
  rewrite (trim_visible ("LOBBY_API_KEY_" +:+ pretty n)) by (rewrite all_chars_app, (key_visible (pretty n)); done).
  rewrite (trim_visible q) by done. subst q. rewrite trim_matches_quoted by (try done; by apply has_char_key).
  rewrite trim_matches_plain by (by apply has_char_key). done.
Qed.

(** ** Files *)

Lemma split_on_sep c a b : split_on c (a +:+ String c b) = split_on c a ++ split_on c b.
Proof.
  induction a as [|x a IH]; simpl; [by rewrite decide_True|]. rewrite IH.
  case_decide; [done|]. pose proof (split_on_spec c a) as Hs. by destruct (split_on c a).
Qed.

Definition env_step (m : gmap string string) (line : string) : gmap string string :=
  match parse_env_line line with Some (k, v) => <[k := v]> m | None => m end.

Lemma parse_env_file_fold text :
  parse_env_file (Some text) = foldl env_step ∅ (strip_cr <$> split_on newline text).
Proof.
  unfold parse_env_file, lines. fold env_step. generalize (∅ : gmap string string), (split_on newline text).
  intros m l; revert m. induction l as [|x l IH]; intros m; [done|].
  destruct l as [|y l]; [by destruct x|]. specialize (IH (env_step m (strip_cr x))). by destruct x.
Qed.

Lemma split_write_lines ls :
  Forall (λ line, has_char newline line = false) ls → split_on newline (write_lines ls) = ls ++ [""].
Proof.
  induction 1 as [|line ls Hl _ IH]; [done|]. cbn [write_lines].
  rewrite split_on_sep, split_on_plain, IH by done. done.
Qed.

Lemma list_ascii_app a b :
  String.list_ascii_of_string (a +:+ b) = String.list_ascii_of_string a ++ String.list_ascii_of_string b.
Proof. induction a as [|x a IH]; [done|]. simpl. by rewrite IH. Qed.

Lemma strip_cr_env_line n body : strip_cr (env_line n body) = env_line n body.
Proof.
  assert (env_line n body = ("export LOBBY_API_KEY_" +:+ (pretty n +:+ ("=" +:+ String dquote body))) +:+ String dquote "") as ->
    by (unfold env_line; by rewrite <- !str_app_assoc).
  unfold strip_cr. rewrite list_ascii_app, rev_app_distr. done.
Qed.

Lemma env_line_no_newline n body : all_chars key_char body = true → has_char newline (env_line n body) = false.
Proof.
  intros Hb. unfold env_line. rewrite !has_char_app. cbn [has_char].
  rewrite has_char_app, (has_char_key newline body) by done.
  by rewrite (has_char_key newline (pretty n)) by (try done; apply (all_chars_mono _ _ _ uuid_key_char), pretty_Z_chars).
Qed.

Lemma api_key_text_chars ids address :
  all_chars key_char address = true → all_chars key_char (api_key_text ids address) = true.
Proof.
  intros Ha. unfold api_key_text, api_token. rewrite !all_chars_app, Ha.
  rewrite (all_chars_mono _ _ _ uuid_key_char (uuid_display_chars _)).
  by rewrite (all_chars_mono _ _ _ uuid_key_char (all_chars_substring _ 0 9 _ (uuid_simple_chars _))).
Qed.

(** An account of the file: its number and its address. *)
Definition account_of (acc : string * Json) (na : Z * string) : Prop :=
  (strip_prefix "account" acc.1 ≫= λ s, match parse_u64 s with Ok n => Some n | Err _ => None end) = Some na.1 ∧
  json_get "address" acc.2 ≫= json_str = Some na.2 ∧ all_chars key_char na.2 = true.

Lemma generate_lines_spec i accounts nums :
  Forall2 account_of accounts nums →
  generate_lines draw i accounts =
    Ok (imap (λ j na, env_line na.1 (api_key_text (draw (i + j)) na.2)) nums).
Proof.
  intros Hall. revert i. induction Hall as [|[name data] [n addr] accounts nums (Hn & Ha & _) _ IH]; intros i; [done|].
  cbn [generate_lines imap fst snd] in *. rewrite Hn, Ha. cbn [default from_option id].
  destruct (draw i) as [c t] eqn:Hd. rewrite IH, Nat.add_0_r, Hd. f_equal. f_equal.
  - unfold env_line, api_key_text. cbn [fst snd]. by rewrite <- !str_app_assoc.
  - apply imap_ext. intros j x _. cbn. by rewrite Nat.add_succ_r.
Qed.

Definition env_pair (f : nat → Z * Z) (j : nat) (na : Z * string) : string * string :=
  ("LOBBY_API_KEY_" +:+ pretty na.1, api_key_text (f j) na.2).

Lemma env_steps_lines f nums m :
  Forall (λ na, all_chars key_char na.2 = true) nums →
  foldl env_step m (strip_cr <$> imap (λ j na, env_line na.1 (api_key_text (f j) na.2)) nums) =
  foldl (λ m '(k, v), <[k := v]> m) m (imap (env_pair f) nums).
Proof.
  intros Hn. revert f m. induction Hn as [|[n addr] nums Ha _ IH]; intros f m; [done|].
  cbn [imap fmap list_fmap foldl fst snd env_pair]. unfold env_step at 2.
  rewrite strip_cr_env_line, parse_generated_line by (try done; by apply api_key_text_chars).
  exact (IH (f ∘ Datatypes.S) _).
Qed.

Lemma env_lines_no_newline f nums :
  Forall (λ na, all_chars key_char na.2 = true) nums →
  Forall (λ line, has_char newline line = false) (imap (λ j na, env_line na.1 (api_key_text (f j) na.2)) nums).
Proof.
  intros Hn. revert f. induction Hn as [|[n addr] nums Ha _ IH]; intros f; constructor.
  - by apply env_line_no_newline, api_key_text_chars.
  - exact (IH (f ∘ Datatypes.S)).
Qed.

(** the harness reads back what the key generator writes: appended to any
    file, the lines of the accounts parse to exactly their variables - the
    export prefix and the quotes gone, the API key whole - on top of what the
    file held. *)
Theorem env_file_roundtrip accounts nums old :
  Forall2 account_of accounts nums →
  ∃ text, generate_api_keys draw (Ok (JObj accounts)) old = Ok text ∧
    parse_env_file (Some text) =
      foldl (λ m '(k, v), <[k := v]> m) (parse_env_file (Some old)) (imap (env_pair draw) nums).
Proof.
  intros Hall. unfold generate_api_keys. rewrite (generate_lines_spec 0 _ _ Hall). eexists. split; [reflexivity|].
  assert (Forall (λ na, all_chars key_char na.2 = true) nums) as Hn.
  { clear -Hall. induction Hall as [|acc na accounts nums (_ & _ & Ha) _ IH]; by constructor. }
  rewrite !parse_env_file_fold, split_on_sep, split_write_lines.
  - rewrite !fmap_app, !foldl_app. rewrite (env_steps_lines draw) by done. done.
  - by apply env_lines_no_newline.
Qed.
End env_file.

(** ** Waiting ends *)

(** When the [i]-th attempt starts, if all before failed. *)
Fixpoint attempt_at (connect : nat → bool * Z) (i : nat) : Z :=
  match i with
  | O => 0
  | Datatypes.S i => attempt_at connect i + Z.max 0 (connect i).2 + from_millis 500
  end.

Lemma attempt_at_mono connect i j : (i ≤ j)%nat → attempt_at connect i ≤ attempt_at connect j.
Proof.
  induction 1 as [|j _ IH]; [lia|]. cbn [attempt_at]. change (from_millis 500) with 500000000. lia.
Qed.

Lemma poll_from connect timeout fuel i :
  timeout ≤ attempt_at connect i + Z.of_nat fuel * from_millis 500 → (∀ j, (j < i)%nat → (connect j).1 = false) →
  ∃ b, poll_till_timeout (Datatypes.S fuel) connect i (attempt_at connect i) timeout = Some b ∧
    (b = true ↔ ∃ j, attempt_at connect j < timeout ∧ (connect j).1 = true).
Proof.
  revert i; induction fuel as [|fuel IH]; intros i Ht Hi; cbn [poll_till_timeout];
    destruct (Z.ltb_spec (attempt_at connect i) timeout) as [Hlt|Hge]; try lia.
  2:{ destruct (connect i) as [[] took] eqn:Hc.
      - exists true. split; [done|]. split; [|done]. intros _. exists i. by rewrite Hc.
      - specialize (IH (Datatypes.S i)). cbn [attempt_at] in IH. rewrite Hc in IH. apply IH; cbn [snd].
        + change (from_millis 500) with 500000000 in *. lia.
        + intros j Hj. destruct (decide (j = i)) as [->|]; [by rewrite Hc|apply Hi; lia]. }
  all: exists false; split; [done|]; split; [done|]; intros (j & Hj & Hc);
    destruct (decide (j < i)%nat) as [Hji|Hji]; [by rewrite Hi in Hc|];
    pose proof (attempt_at_mono connect i j ltac:(lia)); lia.
Qed.

(** Polling for the server ends within timeout / 500 ms + 2 rounds, and
    answers yes exactly when an attempt that starts in time connects. *)
Theorem poll_till_timeout_terminates connect timeout :
  0 ≤ timeout →
  ∃ b, poll_till_timeout (Z.to_nat (timeout / from_millis 500) + 2) connect 0 0 timeout = Some b ∧
    (b = true ↔ ∃ i, attempt_at connect i < timeout ∧ (connect i).1 = true).
Proof.
  intros Ht. replace (Z.to_nat (timeout / from_millis 500) + 2)%nat
    with (Datatypes.S (Z.to_nat (timeout / from_millis 500) + 1)) by lia.
  apply (poll_from connect timeout _ 0); [|lia]. cbn [attempt_at]. change (from_millis 500) with 500000000.
  pose proof (Z.div_mod timeout 500000000). pose proof (Z.mod_pos_bound timeout 500000000). lia.
Qed.

(** ** The pacer's ramp *)

Fixpoint spaced (lo hi : Z) (l : list Z) : bool :=
  match l with
  | a :: ((b :: _) as l) => (lo <=? b - a) && (b - a <=? hi) && spaced lo hi l
  | _ => true
  end.

(** The slots of the five seconds of the ramp: 1279 of them, from the start
    on, the spaces between them falling from 10 ms to 1 ms; in double
    precision, as the harness computes them. *)
Lemma pacer_ramp :
  let l := slots 1281 harness_rate_controller in
  head l = Some 0 ∧ spaced 1000 10000 l = true ∧
  Z.of_nat (length (List.filter (λ t, t <? 5000000) l)) = 1279 ∧
  drop 1278 l = [4999937; 5000937; 5001937].
Proof. vm_compute. repeat split. Qed.

(** ** A stream, a file and a server to look at *)

#[local] Instance toy_histogram : HistogramOps := {|
  Histogram := list Z;
  hist_new_with_bounds _ _ _ := [];
  hist_record v h := if v <=? HISTOGRAM_MAX_US then Some (v :: h) else None;
  hist_add a b := Some (a ++ b);
  hist_len h := Z.of_nat (length h);
  hist_value_at_quantile _ h := default 0 (head h);
  hist_max h := default 0 (sql_max h)
|}.
#[local] Instance toy_histogram_laws : HistogramLaws.
Proof.
  split; [done|]. intros v h h'. cbn. destruct (v <=? HISTOGRAM_MAX_US); [|done]. intros [= <-]. cbn. lia.
Qed.

#[export] Instance toy_json_text : JsonText := {|
  json_text v := pos_text (encode (json_tree v));
  json_parse s := tree_json <$> decode (text_pos s)
|}.
#[export] Instance toy_json_laws : JsonTextLaws.
Proof. split. intros v _. cbn. by rewrite text_pos_text, decode_encode; cbn; rewrite tree_json_tree. Qed.

#[local] Instance toy_quanta : QuantaClock := {| duration_since b a := b - a |}.
Definition toy_entries : TelemetryWorld :=
  marks (mkExecutionId 9) 5 (marks (mkExecutionId 4) 5 (TelemetryContext_new 100 [1; 2000; 3500; 4999; 70000])).

Lemma telemetry_stream_roundtrip_witness :
  let '(lines, t') := export_loop latency_to_string [mkExport (mkExecutionId 4); mkExport (mkExecutionId 9)] [] toy_entries in
  ∃ c, telemetry_stream_reader 0 5 30 (Ok tt) (zip_with FLine lines [7; 36] ++ [FClosed]) = Some (Ok c) ∧
    conserves 2 1 c ∧ tl_registry t' !! mkExecutionId 9 = None.
Proof.
  pose proof (telemetry_stream_roundtrip 0 5 30
    [mkExport (mkExecutionId 4); mkExport (mkExecutionId 9)] [7; 36] toy_entries) as Ht.
  destruct (export_loop latency_to_string [mkExport (mkExecutionId 4); mkExport (mkExecutionId 9)] [] toy_entries) as [lines t'].
  destruct Ht as (c & Hc & _ & Hcons & Hgone).
  - apply list.NoDup_cons. split; [by intros [[=]|?%elem_of_nil]%elem_of_cons|apply NoDup_singleton].
  - repeat (apply list.Forall_cons_2; [apply not_eq_None_Some; by vm_compute|]). apply list.Forall_nil_2.
  - reflexivity.
  - exists c. split; [exact Hc|]. split.
    + match type of Hcons with conserves ?n ?k _ => assert (n = 2) as Hn by reflexivity;
        assert (k = 1) as Hk by (vm_compute; reflexivity); rewrite Hn, Hk in Hcons end. exact Hcons.
    + by apply list.Forall_cons in Hgone as [_ [? _]%list.Forall_cons].
Defined.

Lemma env_file_roundtrip_witness :
  ∃ text, generate_api_keys toy_draw
      (Ok (JObj [("account7", JObj [("address", JStr "0x0a")]); ("account12", JObj [("address", JStr "0xb7")])]))
      "RUST_LOG=info" = Ok text ∧
    parse_env_file (Some text) =
      foldl (λ m '(k, v), <[k := v]> m) (parse_env_file (Some "RUST_LOG=info"))
        (imap (env_pair toy_draw) [(7, "0x0a"); (12, "0xb7")]).
Proof.
  apply (env_file_roundtrip toy_draw
    [("account7", JObj [("address", JStr "0x0a")]); ("account12", JObj [("address", JStr "0xb7")])]
    [(7, "0x0a"); (12, "0xb7")] "RUST_LOG=info").
  repeat constructor.
Defined.

Lemma poll_till_timeout_terminates_witness :
  ∃ b, poll_till_timeout (Z.to_nat (from_secs 90 / from_millis 500) + 2) (λ i, ((3 <=? i)%nat, 1000)) 0 0 (from_secs 90) = Some b ∧
    (b = true ↔ ∃ i, attempt_at (λ i, ((3 <=? i)%nat, 1000)) i < from_secs 90 ∧ (3 <=? i)%nat = true).
Proof. apply (poll_till_timeout_terminates (λ i, ((3 <=? i)%nat, 1000)) (from_secs 90)). by apply Z.leb_le. Defined.
