(* ===== verification/Dispatch.v ===== *)
(** * The load generator's workers

    [run_load_generator] of [src/benchmark/src/loadgen/mod.rs] and the
    dispatches of [trigger.rs]: workers that share one pacer, each firing a
    request per slot until the duration is over.  The scheduler and the clock
    are a list of iterations; the HTTP client is an argument. *)

From S2P Require Import Prelude Types Text Retry Float Rlp Eip1559 Custody Auth Loadgen Bench.

(** ** One request *)

(** Source: [benchmark/src/loadgen/trigger.rs] lines 25-35, [TriggerError]. The
    texts are those of reqwest and serde_json. *)
Inductive TriggerError :=
| THttp (e : string)
| TUnexpectedStatus (code : Z)
| TSerDe (e : string).

(** Source: [benchmark/src/loadgen/trigger.rs] lines 185-192, [TxTrigger]. The
    pacer is shared and part of [LoadState]; times are in nanoseconds. *)
Record TxTrigger := mkTxTrigger {
  tt_trigger_duration : Z;
  tt_payloads : list PayloadEntry;
  tt_base_url : string
}.

(** A POST request of the HTTP client. *)
Record HttpRequest := mkHttpRequest {
  hr_url : string;
  hr_headers : list (string * string);
  hr_body : Bytes
}.

(** Source: [benchmark/src/loadgen/trigger.rs] lines 233-239, [execute_dispatch (request)]. *)
Definition request_of (trigger : TxTrigger) (entry : PayloadEntry) : HttpRequest :=
  mkHttpRequest (tt_base_url trigger)
    [("Authorization", "Bearer " +:+ pe_api_key entry); ("Content-Type", "application/json")]
    (pe_payload entry).

(** Source: [benchmark/src/loadgen/trigger.rs] lines 226-229, [execute_dispatch (selection)].
    The generator's draw is reduced to an index; an empty list panics. *)
Definition choose_entry (trigger : TxTrigger) (draw : nat) : option PayloadEntry :=
  tt_payloads trigger !! (draw mod length (tt_payloads trigger))%nat.

(** Source: [benchmark/src/loadgen/trigger.rs] lines 223-246, [execute_dispatch]. *)
Definition execute_dispatch (send : HttpRequest → result Z string) (trigger : TxTrigger) (draw : nat) :
    option (result unit TriggerError) :=
  entry ← choose_entry trigger draw;
  Some (match send (request_of trigger entry) with
        | Err e => Err (THttp e)
        | Ok status => if decide (status = 200) then Ok tt else Err (TUnexpectedStatus status)
        end).

(** ** The workers *)

(** A worker: the instant before which it does not run again (the end of its
    sleep), its counter, and whether it still loops. *)
Record WorkerState := mkWorker {
  wk_wake : Z;
  wk_local_dispatches : Z;
  wk_running : bool
}.

(** The shared pacer, the workers, and for every dispatch task spawned so far
    the entry it picks ([None] for a task that panics). *)
Record LoadState := mkLoadState {
  ls_rate : DynamicRateController;
  ls_workers : list WorkerState;
  ls_dispatched : list (option PayloadEntry)
}.

(** One turn of the loop: which worker, the instant of the check, the instant
    read after the slot was claimed, the draw of the task. *)
Record Turn := mkTurn { tn_worker : nat; tn_checked : Z; tn_slot_read : Z; tn_draw : nat }.

(** Source: [benchmark/src/loadgen/mod.rs] lines 30-50, [run_load_generator (worker loop)].
    [None]: not a turn this worker can take. *)
Definition worker_turn (start : Z) (trigger : TxTrigger) (t : Turn) (s : LoadState) : option LoadState :=
  w ← ls_workers s !! tn_worker t;
  if wk_running w && (wk_wake w <=? tn_checked t) && (tn_checked t <=? tn_slot_read t) then
    if tt_trigger_duration trigger <=? saturating_sub (tn_checked t) start then
      Some (mkLoadState (ls_rate s)
              (<[tn_worker t := mkWorker (wk_wake w) (wk_local_dispatches w) false]> (ls_workers s))
              (ls_dispatched s))
    else
      let '(sleep, rate) := wait_for_next_slot start (tn_slot_read t) (ls_rate s) in
      Some (mkLoadState rate
              (<[tn_worker t := mkWorker (tn_slot_read t + sleep) (wk_local_dispatches w + 1) true]> (ls_workers s))
              (ls_dispatched s ++ [choose_entry trigger (tn_draw t)]))
  else None.

(** Source: [benchmark/src/loadgen/mod.rs] lines 20-30, [run_load_generator (spawn)]. *)
Definition load_start (start : Z) (rate : DynamicRateController) (worker_threads : nat) : LoadState :=
  mkLoadState rate (replicate worker_threads (mkWorker start 0 true)) [].

Fixpoint turns (start : Z) (trigger : TxTrigger) (ts : list Turn) (s : LoadState) : option LoadState :=
  match ts with
  | [] => Some s
  | t :: ts => s' ← worker_turn start trigger t s; turns start trigger ts s'
  end.

(** Source: [benchmark/src/loadgen/mod.rs] lines 15-61, [run_load_generator].
    The turns in the order in which they were taken. *)
Definition run_load_generator (start : Z) (trigger : TxTrigger) (rate : DynamicRateController)
    (worker_threads : nat) (ts : list Turn) : option LoadState :=
  turns start trigger ts (load_start start rate worker_threads).

(** ** The slots of the shared pacer *)

Fixpoint after_slots (n : nat) (c : DynamicRateController) : DynamicRateController :=
  match n with
  | O => c
  | Datatypes.S n => after_slots n (claim_slot c).2
  end.

(** The [n]-th slot, in nanoseconds after the start. *)
Definition slot_time (n : nat) (c : DynamicRateController) : Z :=
  f64_as_u64 (claim_slot (after_slots n c)).1 * 1000.

Lemma after_slots_succ n c : after_slots (Datatypes.S n) c = (claim_slot (after_slots n c)).2.
Proof. revert c; induction n as [|n IH]; intros c; [done|]. apply (IH (claim_slot c).2). Qed.

Lemma wait_for_next_slot_after start now n c :
  ∃ sleep, wait_for_next_slot start now (after_slots n c) = (sleep, after_slots (Datatypes.S n) c) ∧
    now + sleep = Z.max now (start + slot_time n c).
Proof.
  unfold wait_for_next_slot, slot_time. rewrite after_slots_succ.
  destruct (claim_slot (after_slots n c)) as [v c'] eqn:Hc. cbn [fst snd].
  destruct (Z.ltb_spec now (start + f64_as_u64 v * 1000)); eexists; (split; [reflexivity|lia]).
Qed.

(** ** Counting workers *)

Section count.
Context {A : Type} (p : A → bool).

Definition count (l : list A) : nat := length (List.filter p l).

Lemma count_insert l i x y :
  l !! i = Some x → (count (<[i := y]> l) + Nat.b2n (p x) = count l + Nat.b2n (p y))%nat.
Proof.
  intros Hi. rewrite (insert_take_drop l i y) by (by eapply lookup_lt_Some).
  rewrite <- (take_drop_middle l i x Hi) at 3. unfold count.
  rewrite !List.filter_app, !length_app. cbn. destruct (p x), (p y); cbn; lia.
Qed.

Lemma count_le l : (count l ≤ length l)%nat.
Proof. apply List.filter_length_le. Qed.

Lemma count_lt l i x : l !! i = Some x → p x = false → (count l < length l)%nat.
Proof.
  intros Hi Hp. rewrite <- (take_drop_middle l i x Hi). unfold count.
  rewrite List.filter_app, !length_app. cbn. rewrite Hp.
  pose proof (count_le (take i l)). pose proof (count_le (drop (Datatypes.S i) l)). unfold count in *. lia.
Qed.
End count.

(** ** What a run of the load generator does *)

Section workers.
Context (start : Z) (trigger : TxTrigger) (rate : DynamicRateController) (n K : nat).

(** A worker that finds the duration over at its next check. *)
Definition late (w : WorkerState) : bool := start + tt_trigger_duration trigger <=? wk_wake w.
Definition stopped (w : WorkerState) : bool := negb (wk_running w).
Definition local_sum (l : list WorkerState) : Z := foldr (λ w z, wk_local_dispatches w + z) 0 l.

Lemma local_sum_insert l i w w' :
  l !! i = Some w →
  local_sum (<[i := w']> l) = local_sum l + wk_local_dispatches w' - wk_local_dispatches w.
Proof.
  assert (Happ : ∀ a b, local_sum (a ++ b) = local_sum a + local_sum b).
  { intros a b. unfold local_sum. induction a as [|x a IH]; [done|]. cbn. rewrite IH. lia. }
  intros Hi. rewrite (insert_take_drop l i w') by (by eapply lookup_lt_Some).
  rewrite <- (take_drop_middle l i w Hi) at 3. rewrite !Happ. cbn. lia.
Qed.

Definition picked (o : option PayloadEntry) : Prop :=
  match o with Some e => e ∈ tt_payloads trigger | None => tt_payloads trigger = [] end.

Lemma choose_entry_picked draw : picked (choose_entry trigger draw).
Proof.
  unfold choose_entry, picked. destruct (tt_payloads trigger !! _) as [e|] eqn:He.
  - by eapply list_elem_of_lookup_2.
  - apply lookup_ge_None_1 in He. destruct (tt_payloads trigger) as [|e l]; [done|].
    by apply Nat.le_ngt in He as []; apply Nat.mod_upper_bound.
Qed.

(** After [k] turns. *)
Record load_inv (k : nat) (s : LoadState) : Prop := {
  li_rate : ls_rate s = after_slots (length (ls_dispatched s)) rate;
  li_workers : length (ls_workers s) = n;
  li_late : (length (ls_dispatched s) ≤ K + count late (ls_workers s))%nat;
  li_turns : k = (length (ls_dispatched s) + count stopped (ls_workers s))%nat;
  li_local : local_sum (ls_workers s) = Z.of_nat (length (ls_dispatched s));
  li_picked : Forall picked (ls_dispatched s)
}.

Lemma load_inv_start : load_inv 0 (load_start start rate n).
Proof.
  assert (count stopped (replicate n (mkWorker start 0 true)) = 0%nat ∧
          local_sum (replicate n (mkWorker start 0 true)) = 0) as [Hs Hl].
  { induction n as [|m [IHs IHl]]; [done|]. split; [exact IHs|exact IHl]. }
  split; cbn; rewrite ?length_replicate, ?Hs, ?Hl; try done. apply Nat.le_0_l.
Qed.

(** From slot [K] on, a slot is at the end of the duration or later. *)
Hypothesis HK : ∀ k, (K ≤ k < K + n)%nat → tt_trigger_duration trigger ≤ slot_time k rate.

Lemma worker_turn_inv k t s s' :
  worker_turn start trigger t s = Some s' → load_inv k s → load_inv (Datatypes.S k) s'.
Proof.
  unfold worker_turn. intros Ht [Hr Hw Hl Hk Hloc Hp].
  destruct (ls_workers s !! tn_worker t) as [w|] eqn:Hlk; [|done]. cbn [mbind option_bind] in Ht.
  destruct (wk_running w && _ && _) eqn:Hen; [|done].
  apply andb_prop in Hen as [[Hrun Hwake]%andb_prop Hread]. apply Z.leb_le in Hwake, Hread.
  destruct (Z.leb_spec (tt_trigger_duration trigger) (saturating_sub (tn_checked t) start)) as [Hd|Hd].
  - injection Ht as <-. set (w' := mkWorker (wk_wake w) (wk_local_dispatches w) false).
    pose proof (count_insert late _ _ _ w' Hlk) as Hcl.
    pose proof (count_insert stopped _ _ _ w' Hlk) as Hcs.
    change (late w') with (late w) in Hcl. unfold stopped in Hcs, Hk. rewrite Hrun in Hcs. cbn in Hcs.
    split; cbn [ls_rate ls_workers ls_dispatched]; [done|by rewrite length_insert| | | |done].
    + lia.
    + unfold stopped. lia.
    + rewrite (local_sum_insert _ _ _ w' Hlk). cbn. lia.
  - rewrite Hr in Ht.
    destruct (wait_for_next_slot_after start (tn_slot_read t) (length (ls_dispatched s)) rate)
      as (sleep & Hwait & Hsleep). rewrite Hwait in Ht. injection Ht as <-.
    set (w' := mkWorker (tn_slot_read t + sleep) (wk_local_dispatches w + 1) true).
    pose proof (count_insert late _ _ _ w' Hlk) as Hcl.
    pose proof (count_insert stopped _ _ _ w' Hlk) as Hcs. unfold stopped in Hcs, Hk. rewrite Hrun in Hcs. cbn in Hcs.
    assert (Hlate : late w = false).
    { unfold late. apply Z.leb_gt. unfold saturating_sub in Hd. lia. }
    assert (Hnew : (length (ls_dispatched s) < K ∨ late w' = true)%nat).
    { destruct (decide (length (ls_dispatched s) < K)%nat) as [|Hge]; [by left|right].
      pose proof (count_lt late _ _ _ Hlk Hlate). unfold late. apply Z.leb_le. cbn [wk_wake w'].
      pose proof (HK (length (ls_dispatched s)) ltac:(lia)). lia. }
    rewrite Hlate in Hcl. cbn [Nat.b2n] in Hcl.
    split; cbn [ls_rate ls_workers ls_dispatched]; rewrite ?length_app; cbn [length].
    + by rewrite Nat.add_1_r.
    + by rewrite length_insert.
    + destruct Hnew as [|Hnew]; [|rewrite Hnew in Hcl; cbn in Hcl; lia]. lia.
    + unfold stopped. lia.
    + rewrite (local_sum_insert _ _ _ w' Hlk). cbn. lia.
    + apply Forall_app. split; [done|]. constructor; [apply choose_entry_picked|constructor].
Qed.

Lemma turns_inv k ts s s' :
  turns start trigger ts s = Some s' → load_inv k s → load_inv (k + length ts) s'.
Proof.
  revert k s; induction ts as [|t ts IH]; intros k s; cbn [turns length].
  - intros [= ->]. by rewrite Nat.add_0_r.
  - destruct (worker_turn start trigger t s) as [s1|] eqn:Ht; [|done]. cbn [mbind option_bind].
    intros Hts Hi. rewrite <- Nat.add_succ_comm. eapply IH; [done|]. by eapply worker_turn_inv.
Qed.
End workers.

(** C21: the load generator always ends, however its workers are scheduled
    and however far they fall behind their slots.  When the pacer's slots are
    at the end of the duration from the [K]-th on, [n] workers fire at most
    [K + n] requests in at most [K + 2 n] turns, a worker that still loops can
    always take its next turn, the counters add up to the requests fired, and
    every request is one of the prepared payloads under its own API key - a
    task panics only when there is no payload at all. *)
Theorem load_generator_terminates start trigger rate n K ts s :
  (∀ k, (K ≤ k < K + n)%nat → tt_trigger_duration trigger ≤ slot_time k rate) →
  run_load_generator start trigger rate n ts = Some s →
  (length (ls_dispatched s) ≤ K + n)%nat ∧ (length ts ≤ K + 2 * n)%nat ∧
  local_sum (ls_workers s) = Z.of_nat (length (ls_dispatched s)) ∧
  Forall (picked trigger) (ls_dispatched s) ∧
  ∀ i w now draw, ls_workers s !! i = Some w → wk_running w = true → wk_wake w ≤ now →
    is_Some (worker_turn start trigger (mkTurn i now now draw) s).
Proof.
  intros HK Hrun.
  destruct (turns_inv start trigger rate n K HK 0 ts _ _ Hrun (load_inv_start start trigger rate n K))
    as [_ Hw Hl Hk Hloc Hp].
  pose proof (count_le (late start trigger) (ls_workers s)). pose proof (count_le stopped (ls_workers s)).
  split_and!; [lia|lia|done|done|]. intros i w now draw Hi Hr Hnow.
  unfold worker_turn. cbn [tn_worker tn_checked tn_slot_read]. rewrite Hi. cbn [mbind option_bind].
  rewrite Hr, Z.leb_refl. apply Z.leb_le in Hnow as ->. cbn [andb].
  destruct (_ <=? _); [done|]. by destruct (wait_for_next_slot _ _ _).
Qed.

(** ** The harness's own run *)

(** Source: [benchmark/src/main.rs] lines 32-45, [TRIGGER_DURATION_SEC, BASE_URL, WORKER_THREADS]. *)
Definition harness_trigger (payloads : list PayloadEntry) : TxTrigger :=
  mkTxTrigger (from_secs 35) payloads "http://localhost:3000/v1/transactions".

Definition ex_payloads : list PayloadEntry := [mkPayloadEntry "tok:a:b" [Byte.x01]].

(** Two slots from one computation of the clock. *)
Definition slots_late (c : DynamicRateController) : bool :=
  let '(t, c') := claim_slot c in
  (from_secs 35 <=? f64_as_u64 t * 1000) && (from_secs 35 <=? f64_as_u64 (claim_slot c').1 * 1000).

Lemma harness_slots k :
  slots_late (after_slots k harness_rate_controller) = true →
  from_secs 35 ≤ slot_time k harness_rate_controller ∧
  from_secs 35 ≤ slot_time (Datatypes.S k) harness_rate_controller.
Proof.
  unfold slots_late, slot_time. rewrite after_slots_succ.
  destruct (claim_slot (after_slots k harness_rate_controller)) as [t c']. cbn [fst snd].
  by intros [H1%Z.leb_le H2%Z.leb_le]%andb_prop.
Qed.

(** 31,281 requests at most with the harness's constants: the ramp has 1279
    slots, the steady phase 30,000. *)
Lemma load_generator_terminates_witness :
  ∃ s, run_load_generator 0 (harness_trigger ex_payloads) harness_rate_controller 2
         [mkTurn 0 0 5 7; mkTurn 1 9 9 0; mkTurn 0 5 (from_secs 36) 3; mkTurn 0 (from_secs 36) (from_secs 36) 0] =
       Some s ∧
    (length (ls_dispatched s) ≤ Z.to_nat 31279 + 2)%nat ∧ local_sum (ls_workers s) = 3.
Proof.
  eexists. split; [vm_compute; reflexivity|].
  match goal with |- (length (ls_dispatched ?s) ≤ _)%nat ∧ _ =>
    destruct (load_generator_terminates 0 (harness_trigger ex_payloads) harness_rate_controller 2 (Z.to_nat 31279)
      [mkTurn 0 0 5 7; mkTurn 1 9 9 0; mkTurn 0 5 (from_secs 36) 3; mkTurn 0 (from_secs 36) (from_secs 36) 0] s)
      as (Hn & _ & Hs & _) end.
  - intros k Hk. destruct (harness_slots (Z.to_nat 31279)) as [H1 H2]; [vm_compute; reflexivity|].
    assert (k = Z.to_nat 31279 ∨ k = Datatypes.S (Z.to_nat 31279)) as [-> | ->] by lia;
      [exact H1|exact H2].
  - vm_compute. reflexivity.
  - split; [exact Hn|]. rewrite Hs. reflexivity.
Defined.
