(* ===== verification/Launch.v ===== *)
(** * Lobby, launched by the harness

    What the server of [Boot.v] makes of the environment that the harness of
    [Harness.v] assembles: it boots, with the configuration of
    [src/benchmark/bench.env], the nodes of every chain, the keys of the custody
    file, and a registry that accepts every payload of the load. *)

From S2P Require Import Prelude Types Retry Float Rlp Eip1559 Custody Lease Sign Metrics Pool RpcClient CortexError Shard Status Pipeline PipelineSpec Protocol Refine PipelineProps Config Telemetry Cortex Auth Server Boot MockNode Loadgen Bench Dispatch Harness Text.

(** ** The static environment *)

Definition quoted (s : string) : string := String dquote (s +:+ String dquote "").

(** Source: [benchmark/bench.env] lines 1-25, [bench.env]. *)
Definition bench_env_text : string := write_lines [
  "# Custody keys";
  "export LOBBY_TEST_KEYS=" +:+ quoted "benchmark/test_keys.json";
  "";
  "# Database -> set dynamically by the test-containers, injected via tokio::process.";
  "";
  "# Server";
  "export SERVER_ADDR=" +:+ quoted "0.0.0.0:3000";
  "";
  "# Logging";
  "export RUST_LOG=" +:+ quoted "INFO";
  "";
  "# shards and semaphore settings";
  "";
  "## sharded by execution_id";
  "export RELAYHOST_SHARDS=50";
  "export SIGN_SHARDS=50";
  "export BROADCAST_SHARDS=50";
  "export VALIDATOR_SHARDS=50";
  "";
  "## sharded by from_address";
  "export NONCE_SHARDS=50";
  "";
  "## channel_buffer and semaphore limits";
  "export PIPELINE_CONCURRENCY=1000";
  "export ACTOR_BUFFER_SIZE=500"].

(** What the harness reads of it. *)
Definition bench_env_list : list (string * string) :=
  [("LOBBY_TEST_KEYS", "benchmark/test_keys.json"); ("SERVER_ADDR", "0.0.0.0:3000"); ("RUST_LOG", "INFO");
   ("RELAYHOST_SHARDS", "50"); ("SIGN_SHARDS", "50"); ("BROADCAST_SHARDS", "50"); ("VALIDATOR_SHARDS", "50");
   ("NONCE_SHARDS", "50"); ("PIPELINE_CONCURRENCY", "1000"); ("ACTOR_BUFFER_SIZE", "500")].

Lemma bench_env_read : parse_env_file (Some bench_env_text) = list_to_map bench_env_list.
Proof. apply (bool_decide_unpack _). vm_compute. exact I. Qed.

Lemma bench_env_keys k v : parse_env_file (Some bench_env_text) !! k = Some v → (k, v) ∈ bench_env_list.
Proof. rewrite bench_env_read. apply elem_of_list_to_map_2. Qed.

(** ** Variables *)

Lemma env_var_in vars k v : NoDup vars.*1 → (k, v) ∈ vars → env_var vars k = Some v.
Proof.
  induction vars as [|[k' v'] vars IH]; [by intros _ ?%elem_of_nil|]. cbn [fmap list_fmap fst env_var].
  intros [Hn Hnd]%list.NoDup_cons [[= <- <-]|Hin]%elem_of_cons; [by rewrite decide_True|].
  rewrite decide_False; [by apply IH|]. intros ->. apply Hn, list_elem_of_fmap. by exists (k, v).
Qed.

Lemma env_var_out vars k : (∀ v, (k, v) ∉ vars) → env_var vars k = None.
Proof.
  induction vars as [|[k' v'] vars IH]; [done|]. intros Hn. cbn [env_var]. rewrite decide_False.
  - apply IH. intros v Hv. apply (Hn v). by right.
  - intros ->. apply (Hn v'). left.
Qed.

(** A process's variables read as the map they come from. *)
Lemma env_var_map vars (m : gmap string string) k : vars ≡ₚ map_to_list m → env_var vars k = m !! k.
Proof.
  intros Hv. destruct (m !! k) as [v|] eqn:Hk.
  - apply env_var_in; [rewrite Hv; apply NoDup_fst_map_to_list|]. rewrite Hv. by apply elem_of_map_to_list.
  - apply env_var_out. intros v. rewrite Hv, elem_of_map_to_list. congruence.
Qed.

(** Only the variables of its settings matter to a configuration. *)
Definition setting_names : list string :=
  ["RELAYHOST_SHARDS"; "NONCE_SHARDS"; "SIGN_SHARDS"; "BROADCAST_SHARDS"; "VALIDATOR_SHARDS"; "ACTOR_BUFFER_SIZE";
   "PIPELINE_CONCURRENCY"; "PIPELINE_SEMAPHORE_TIMEOUT_MS"].

Lemma from_env_same (env env' : Env) :
  (∀ k, k ∈ setting_names → env k = env' k) → from_env env = from_env env'.
Proof.
  intros Hk%list.Forall_forall. unfold setting_names in Hk. rewrite !list.Forall_cons in Hk.
  destruct Hk as (H1 & H2 & H3 & H4 & H5 & H6 & H7 & H8 & _). unfold from_env, parse_env.
  by rewrite H1, H2, H3, H4, H5, H6, H7, H8.
Qed.

(** ** The assembled environment *)

Definition rpc_variable (c port : Z) : string * string :=
  ("RPC_ENDPOINT_" +:+ pretty c, "http://localhost:" +:+ pretty port).

Definition with_ports (m : gmap string string) (ports : list (Z * Z)) : gmap string string :=
  foldl (λ m '(chain_id, port),
    <["RPC_ENDPOINT_" +:+ pretty chain_id := "http://localhost:" +:+ pretty port]> m) m ports.
Definition with_keys (m : gmap string string) (order : list (Z * string)) : gmap string string :=
  foldl (λ m '(key, value), <["LOBBY_API_KEY_" +:+ pretty key := value]> m) m order.

Lemma harness_env_parts b pg redis ports order :
  harness_env b pg redis ports order =
    with_keys (with_ports (<["REDIS_URL" := redis]> (<["DATABASE_URL" := pg]> b)) ports) order.
Proof. done. Qed.

Lemma with_keys_union m m' order : with_keys m order ∪ m' = with_keys (m ∪ m') order.
Proof.
  revert m; induction order as [|[k v] order IH]; intros m; [done|].
  cbn [with_keys foldl]. fold (with_keys (<["LOBBY_API_KEY_" +:+ pretty k := v]> m) order).
  rewrite IH. by rewrite <- insert_union_l.
Qed.

Lemma with_ports_union m m' ports : with_ports m ports ∪ m' = with_ports (m ∪ m') ports.
Proof.
  revert m; induction ports as [|[c p] ports IH]; intros m; [done|].
  cbn [with_ports foldl].
  fold (with_ports (<["RPC_ENDPOINT_" +:+ pretty c := "http://localhost:" +:+ pretty p]> m) ports).
  rewrite IH. by rewrite <- insert_union_l.
Qed.

(** Inherited variables count where the harness sets none. *)
Lemma harness_env_union b inh pg redis ports order :
  harness_env b pg redis ports order ∪ inh = harness_env (b ∪ inh) pg redis ports order.
Proof. rewrite !harness_env_parts, with_keys_union, with_ports_union. by rewrite <- !insert_union_l. Qed.

Lemma with_keys_lookup m order k : strip_prefix "LOBBY_API_KEY_" k = None → with_keys m order !! k = m !! k.
Proof.
  intros Hk. revert m; induction order as [|[n v] order IH]; intros m; [done|].
  cbn [with_keys foldl]. etrans; [apply IH|]. apply lookup_insert_ne. intros <-.
  by rewrite strip_prefix_app in Hk.
Qed.

Lemma with_ports_lookup m ports k : strip_prefix "RPC_ENDPOINT_" k = None → with_ports m ports !! k = m !! k.
Proof.
  intros Hk. revert m; induction ports as [|[n v] ports IH]; intros m; [done|].
  cbn [with_ports foldl]. etrans; [apply IH|]. apply lookup_insert_ne. intros <-.
  by rewrite strip_prefix_app in Hk.
Qed.

(** A variable of neither kind. *)
Lemma harness_env_plain b pg redis ports order k :
  strip_prefix "LOBBY_API_KEY_" k = None → strip_prefix "RPC_ENDPOINT_" k = None →
  harness_env b pg redis ports order !! k = <["REDIS_URL" := redis]> (<["DATABASE_URL" := pg]> b) !! k.
Proof. intros Hk Hr. by rewrite harness_env_parts, with_keys_lookup, with_ports_lookup. Qed.

Lemma with_ports_elem m ports k v :
  with_ports m ports !! k = Some v → m !! k = Some v ∨ ∃ c p, (c, p) ∈ ports ∧ (k, v) = rpc_variable c p.
Proof.
  revert m; induction ports as [|[c p] ports IH]; intros m; [by left|]. cbn [with_ports foldl].
  intros [Hm|(c' & p' & Hin & Hkv)]%IH; [|right; exists c', p'; by split; [right|]].
  destruct (decide ("RPC_ENDPOINT_" +:+ pretty c = k)) as [<-|Hne].
  - rewrite lookup_insert_eq in Hm. injection Hm as <-. right. exists c, p. by split; [left|].
  - rewrite lookup_insert_ne in Hm by done. by left.
Qed.

Lemma with_ports_some m ports c :
  is_Some (m !! ("RPC_ENDPOINT_" +:+ pretty c)) ∨ c ∈ ports.*1 →
  is_Some (with_ports m ports !! ("RPC_ENDPOINT_" +:+ pretty c)).
Proof.
  revert m; induction ports as [|[c' p] ports IH]; intros m Hc.
  - destruct Hc as [?|Hc]; [done|by apply elem_of_nil in Hc].
  - cbn [with_ports foldl]. apply IH.
    destruct (decide ("RPC_ENDPOINT_" +:+ pretty c' = "RPC_ENDPOINT_" +:+ pretty c)) as [->|Hne].
    { left. rewrite lookup_insert_eq. eauto. }
    rewrite lookup_insert_ne by done. destruct Hc as [Hc|[->|Hc]%elem_of_cons]; [by left|done|by right].
Qed.

(** ** The nodes of the chains *)

Section nodes.
Context {P N : Type} `{!UrlOps (P := P)} (lag : Z).

Definition url_char (c : Ascii.ascii) : bool := visible c && negb (bool_decide (c = ","%char)).

Lemma uuid_url_char c : uuid_char c = true → url_char c = true.
Proof. destruct c as [[] [] [] [] [] [] [] []]; by vm_compute. Qed.

Lemma node_url_chars p : all_chars url_char ("http://localhost:" +:+ pretty (p : Z)) = true.
Proof.
  rewrite all_chars_app. apply andb_true_iff. split; [reflexivity|].
  apply (all_chars_mono _ _ _ uuid_url_char), pretty_Z_chars.
Qed.

(** The address of a node is one endpoint. *)
Lemma node_endpoint_urls p : endpoint_urls ("http://localhost:" +:+ pretty (p : Z)) = ["http://localhost:" +:+ pretty p].
Proof.
  pose proof (node_url_chars p) as Hc. unfold endpoint_urls.
  rewrite split_on_plain by (apply (all_chars_has_char url_char); done).
  cbn [fmap list_fmap]. rewrite trim_visible.
  - by rewrite filter_cons_True.
  - apply (all_chars_mono url_char); [|done]. intros c. unfold url_char. rewrite andb_true_iff. tauto.
Qed.

(** The URL library parses it. *)
Definition node_url_ok (p : Z) : Prop :=
  ∃ u, url_parse ("http://localhost:" +:+ pretty p) = Ok u ∧ url_scheme u = "http".

Lemma build_chain_node c p :
  0 ≤ c ≤ i64_max → node_url_ok p →
  ∃ bp vp, build_chain lag (rpc_variable c p).1 (rpc_variable c p).2 = Ok (Some (mkChainId c, bp, vp)) ∧
    ep_endpoints bp ≠ [].
Proof.
  intros Hc (u & Hu & Hs). unfold build_chain, rpc_variable. cbn [fst snd]. rewrite strip_prefix_app.
  change (pretty c) with (ChainId_display (mkChainId c)). rewrite chain_id_display_parse by done.
  rewrite node_endpoint_urls. cbn [add_endpoints]. unfold create_unary_provider. rewrite Hu, Hs.
  eexists _, _. split; [reflexivity|]. cbn. done.
Qed.

(** The pools of a chain are there and have endpoints. *)
Definition chain_served (w : RpcWorld P N) (c : ChainId) : Prop :=
  ∃ bp, rw_broadcast w !! c = Some bp ∧ ep_endpoints bp ≠ [].

Lemma build_from_nodes vars found (w : RpcWorld P N) :
  (∀ k v, (k, v) ∈ vars → strip_prefix "RPC_ENDPOINT_" k = None ∨
     ∃ c p, (k, v) = rpc_variable c p ∧ 0 ≤ c ≤ i64_max ∧ node_url_ok p) →
  found = true ∨ (∃ c p, rpc_variable c p ∈ vars) →
  ∃ w', build_from lag vars found w = Ok w' ∧ ∀ c, chain_served w c ∨ (∃ p, rpc_variable (chain_u256 c) p ∈ vars) →
    chain_served w' c.
Proof.
  revert found w; induction vars as [|[k v] vars IH]; intros found w Hv Hf; cbn [build_from].
  { destruct Hf as [->|(c & p & Hin)]; [|by apply elem_of_nil in Hin].
    exists w. split; [done|]. intros c [Hc|[p Hin]]; [done|by apply elem_of_nil in Hin]. }
  assert (Hv' : ∀ k v, (k, v) ∈ vars → strip_prefix "RPC_ENDPOINT_" k = None ∨
    ∃ c p, (k, v) = rpc_variable c p ∧ 0 ≤ c ≤ i64_max ∧ node_url_ok p) by (intros; apply Hv; by right).
  destruct (Hv k v ltac:(left)) as [Hk|(c & p & Hkv & Hc & Hu)].
  - unfold build_chain. rewrite Hk.
    assert (Hnot : ∀ c p, (k, v) = rpc_variable c p → False).
    { intros c p [= -> _]. by rewrite strip_prefix_app in Hk. }
    destruct (IH found w Hv') as (w' & Hb & Hw').
    { destruct Hf as [?|(c & p & [Hin|Hin]%elem_of_cons)]; [by left|by apply symmetry, Hnot in Hin|right; eauto]. }
    exists w'. split; [done|]. intros c [Hc|(p & [Hin|Hin]%elem_of_cons)];
      [apply Hw'; by left|by apply symmetry, Hnot in Hin|apply Hw'; right; eauto].
  - destruct (build_chain_node c p Hc Hu) as (bp & vp & Hb & Hne). rewrite <- Hkv in Hb. cbn [fst snd] in Hb.
    rewrite Hb. destruct (IH true (register_chain (mkChainId c) bp vp w).2 Hv') as (w' & Hbw & Hw'); [by left|].
    exists w'. split; [done|]. intros c' Hc'. apply Hw'. destruct (decide (c' = mkChainId c)) as [->|Hne'].
    { left. exists bp. cbn. by rewrite lookup_insert_eq. }
    destruct Hc' as [(bp' & Hb' & He')|(p' & [Hin|Hin]%elem_of_cons)].
    + left. exists bp'. cbn. by rewrite lookup_insert_ne.
    + exfalso. rewrite Hkv in Hin. unfold rpc_variable in Hin.
      assert (Hcc : pretty (chain_u256 c') = pretty c).
      { apply (f_equal fst) in Hin. cbn [fst] in Hin.
        apply (f_equal (strip_prefix "RPC_ENDPOINT_")) in Hin. rewrite !strip_prefix_app in Hin. by injection Hin. }
      apply (inj pretty) in Hcc. apply Hne'. destruct c'. cbn in Hcc. congruence.
    + right. eauto.
Qed.
End nodes.

(** ** The custody file *)

(** Source: [crate/utils/src/custody/json_test_policy.rs] lines 10-19, [Deserialize for PolicyAccount]. *)
Definition account_of_json (v : Json) : option PolicyAccount :=
  pvt_key ← json_get "pvt_key" v ≫= json_str;
  pub_key ← json_get "pub_key" v ≫= json_str;
  address ← json_get "address" v ≫= json_str;
  Some (mkPolicyAccount pvt_key pub_key address).

Definition accounts_of_json (v : Json) : option (list (string * PolicyAccount)) :=
  match v with
  | JObj fields => mapM (λ '(name, v), (λ a, (name, a)) <$> account_of_json v) fields
  | _ => None
  end.

Definition policy_account (k : EvmKeyExport) : PolicyAccount := mkPolicyAccount (ek_pvt_key k) (ek_pub_key k) (ek_address k).

(** The generated file reads back. *)
Lemma accounts_of_written order :
  accounts_of_json (write_test_keys_json order) = Some ((λ '(name, k), (name, policy_account k)) <$> order).
Proof.
  unfold accounts_of_json, write_test_keys_json. apply mapM_Some, Forall2_fmap, Forall_Forall2_diag, list.Forall_true.
  by intros [name k].
Qed.

Section custody.
Context `{AddressOps}.

Lemma load_accounts_distinct (accounts : list PolicyAccount) (addresses : list Address) (keys : gmap Address string) :
  Forall2 (λ a ad, address_parse (pa_address a) = Some ad) accounts addresses → NoDup addresses →
  (∀ ad, ad ∈ addresses → keys !! ad = None) → is_Some (load_accounts accounts keys).
Proof.
  intros Hf. revert keys; induction Hf as [|a ad accounts addresses Ha Hf IH]; intros keys Hnd Hk; [by eexists|].
  apply list.NoDup_cons in Hnd as [Hn Hnd]. cbn [load_accounts]. rewrite Ha. cbn [mbind option_bind].
  rewrite (Hk ad) by left. apply IH; [done|]. intros ad' Hin. rewrite lookup_insert_ne.
  - apply Hk. by right.
  - intros ->. done.
Qed.
End custody.

(** ** The launch *)

(** The variables lobby inherits besides those of the harness: none that would
    declare a key or a node, or the one setting the harness leaves out. *)
Definition inherits_quietly (inh : gmap string string) : Prop :=
  ∀ k v, inh !! k = Some v → strip_prefix "LOBBY_API_KEY_" k = None ∧ strip_prefix "RPC_ENDPOINT_" k = None ∧
    k ≠ "PIPELINE_SEMAPHORE_TIMEOUT_MS".

(** The configuration of the benchmark. *)
Definition bench_config : CortexConfig :=
  mkCortexConfig 50 50 50 50 50 500 1000 (from_millis 5000) RetryConfig_default.

Section variables.
Context (inh : gmap string string) (Hinh : inherits_quietly inh).

Definition base : gmap string string := parse_env_file (Some bench_env_text) ∪ inh.

Lemma base_plain k v : base !! k = Some v →
  strip_prefix "LOBBY_API_KEY_" k = None ∧ strip_prefix "RPC_ENDPOINT_" k = None.
Proof.
  intros [Hb|[_ Hi]]%lookup_union_Some_raw.
  - apply bench_env_keys in Hb. unfold bench_env_list in Hb.
    repeat (apply elem_of_cons in Hb as [[= -> _]|Hb]; [done|]). by apply elem_of_nil in Hb.
  - destruct (Hinh k v Hi) as (? & ? & _). done.
Qed.

Lemma base_no_keys : no_keys base.
Proof.
  intros k Hk. destruct (base !! k) as [v|] eqn:Hb; [|done].
  destruct (base_plain k v Hb) as [Hn _]. rewrite Hn in Hk. by destruct Hk.
Qed.

Lemma base_setting k v : (k, v) ∈ bench_env_list → base !! k = Some v.
Proof.
  intros Hk. apply lookup_union_Some_l. rewrite bench_env_read. apply elem_of_list_to_map_1; [|done].
  apply (bool_decide_unpack _). vm_compute. exact I.
Qed.

Lemma base_timeout : base !! "PIPELINE_SEMAPHORE_TIMEOUT_MS" = None.
Proof.
  apply lookup_union_None. split; [rewrite bench_env_read; by vm_compute|].
  destruct (inh !! "PIPELINE_SEMAPHORE_TIMEOUT_MS") as [v|] eqn:Hi; [|done].
  by destruct (Hinh _ v Hi) as (_ & _ & []).
Qed.

Context (pg redis : string) (ports : list (Z * Z)) (order : list (Z * string)).
Context (vars : list (string * string)).
Hypothesis vars_env : vars ≡ₚ map_to_list (harness_env base pg redis ports order).

Lemma launched_plain k :
  strip_prefix "LOBBY_API_KEY_" k = None → strip_prefix "RPC_ENDPOINT_" k = None →
  env_var vars k = <["REDIS_URL" := redis]> (<["DATABASE_URL" := pg]> base) !! k.
Proof. intros Hk Hr. rewrite (env_var_map _ _ k vars_env). by apply harness_env_plain. Qed.

Lemma launched_database : env_var vars "DATABASE_URL" = Some pg.
Proof. rewrite launched_plain by done. rewrite lookup_insert_ne by done. apply lookup_insert_eq. Qed.

Lemma launched_redis : env_var vars "REDIS_URL" = Some redis.
Proof. rewrite launched_plain by done. apply lookup_insert_eq. Qed.

Lemma launched_setting k v : (k, v) ∈ bench_env_list → env_var vars k = Some v.
Proof.
  intros Hk. destruct (base_plain k v (base_setting k v Hk)) as [H1 H2]. rewrite launched_plain by done.
  assert (k ≠ "REDIS_URL" ∧ k ≠ "DATABASE_URL") as [Hr Hd].
  { unfold bench_env_list in Hk. repeat (apply elem_of_cons in Hk as [[= -> _]|Hk]; [done|]).
    by apply elem_of_nil in Hk. }
  rewrite !lookup_insert_ne by done. by apply base_setting.
Qed.

Lemma launched_config : from_env (env_var vars) = Ok bench_config.
Proof.
  rewrite (from_env_same _ (λ k, list_to_map (M := gmap string string) bench_env_list !! k)).
  { vm_compute. reflexivity. }
  assert (Hs : ∀ k, k ∈ setting_names → k = "PIPELINE_SEMAPHORE_TIMEOUT_MS" ∨
    ∃ v, (k, v) ∈ bench_env_list ∧ list_to_map (M := gmap string string) bench_env_list !! k = Some v).
  { apply list.Forall_forall. unfold setting_names.
    repeat (apply list.Forall_cons; split; [|]); try apply list.Forall_nil_2;
      first [by left|right; eexists; split; [|vm_compute; reflexivity]; apply (bool_decide_unpack _); vm_compute; exact I]. }
  intros k [->|(v & Hin & ->)]%Hs; [|by apply launched_setting].
  rewrite launched_plain by done. rewrite !lookup_insert_ne by done. rewrite base_timeout. by vm_compute.
Qed.

(** A variable that names a chain is one of the harness's. *)
Lemma launched_rpc k v :
  (k, v) ∈ vars → strip_prefix "RPC_ENDPOINT_" k = None ∨ ∃ c p, (c, p) ∈ ports ∧ (k, v) = rpc_variable c p.
Proof.
  rewrite vars_env, elem_of_map_to_list. intros Hk.
  destruct (strip_prefix "RPC_ENDPOINT_" k) as [id|] eqn:Hid; [right|by left].
  assert (Hlk : strip_prefix "LOBBY_API_KEY_" k = None).
  { apply strip_prefix_Some in Hid as ->. reflexivity. }
  rewrite harness_env_parts, with_keys_lookup in Hk by done.
  apply with_ports_elem in Hk as [Hk|Hk]; [exfalso|done].
  rewrite !lookup_insert_ne in Hk by (intros <-; done).
  destruct (base_plain k v Hk) as [_ Hn]. congruence.
Qed.

Lemma launched_node c : c ∈ ports.*1 → ∃ p, rpc_variable c p ∈ vars.
Proof.
  intros Hc. pose proof (with_ports_some (<["REDIS_URL" := redis]> (<["DATABASE_URL" := pg]> base)) ports c
    (or_intror Hc)) as [v Hv]. pose proof Hv as Hv'.
  apply with_ports_elem in Hv' as [Hb|(c' & p & _ & Hkv)].
  - rewrite !lookup_insert_ne in Hb by done. destruct (base_plain _ _ Hb) as [_ Hn]. by rewrite strip_prefix_app in Hn.
  - exists p. rewrite vars_env. unfold rpc_variable in *. apply elem_of_map_to_list.
    rewrite harness_env_parts, with_keys_lookup by done. rewrite Hv. by injection Hkv as _ ->.
Qed.
End variables.

Section launch.
Context `{HarnessLaws} `{!StatusTextLaws} `{HexLaws} `{NodeCodec} `{HistogramOps}.
Context {W : Type} `{Runtime W} `{U256Hash}.
Context {P N SocketAddr : Type} `{!UrlOps (P := P)} (lag : Z).
Context (keccak256 : Bytes → Bytes) (draw : nat → Z * Z).

(** A TCP port. *)
Definition is_port (p : Z) : Prop := 0 ≤ p ≤ 65535.

(** What the machine answers lobby: it finds the services of its environment
    and the file of keys, the URL library parses [http://localhost:<port>] for
    every port there is, and a semaphore can hold the permits. *)
Record serves (h : Host (W := W) (P := P) (N := N) (SocketAddr := SocketAddr)) (env : gmap string string)
    (keys_file : Json) (addr : SocketAddr) : Prop := {
  sv_log : h_log_file h = true;
  sv_connect url : env !! "DATABASE_URL" = Some url → h_connect h url = Ok tt;
  sv_migrate : h_migrate h = Ok tt;
  sv_redis url : env !! "REDIS_URL" = Some url → is_Some (h_redis h url);
  sv_address : h_parse_addr h "0.0.0.0:3000" = Some addr;
  sv_bind : h_bind h addr = Ok tt;
  sv_permits : 1000 ≤ h_max_permits h;
  sv_url port : is_port port → node_url_ok (P := P) port;
  sv_keys : ∃ accounts named, h_files h "benchmark/test_keys.json" = mkKeysFile (Ok true) (Some accounts) ∧
    accounts_of_json keys_file = Some named ∧ accounts ≡ₚ named.*2
}.

(** The keys of the file load. *)
Lemma written_keys_load keys order accounts named :
  Forall (λ key, length (keccak256 (drop 1 key.2)) = 32%nat) keys → NoDup (key_address keccak256 <$> keys) →
  order ≡ₚ map_to_list (test_keys_map keccak256 1 keys ∅) →
  accounts_of_json (write_test_keys_json order) = Some named → accounts ≡ₚ named.*2 →
  is_Some (load_file (mkKeysFile (Ok true) (Some accounts))).
Proof.
  intros Hk Hnd (l & -> & Hl)%test_keys_order. rewrite accounts_of_written. intros [= <-] Hacc.
  rewrite <- list_fmap_compose in Hacc. rewrite <- list_fmap_compose in Hacc.
  assert (Hsnd : (numbered 1 keys).*2 = keys).
  { clear. generalize 1. induction keys as [|k keys IH]; intros i; [done|]. cbn. f_equal. apply IH. }
  assert (Ha : accounts ≡ₚ (λ key, policy_account (account_entry keccak256 (0, key)).2) <$> keys).
  { rewrite Hacc, Hl. rewrite <- Hsnd at 2. rewrite <- list_fmap_compose. done. }
  apply Permutation_map_inv in Ha as (keys' & -> & Hp).
  assert (Hnd' : NoDup (key_address keccak256 <$> keys')) by (by rewrite <- Hp).
  assert (Hk' : Forall (λ key, length (keccak256 (drop 1 key.2)) = 32%nat) keys') by (by rewrite <- Hp).
  destruct (load_accounts_distinct ((λ key, policy_account (account_entry keccak256 (0, key)).2) <$> keys')
    (key_address keccak256 <$> keys') ∅) as [m Hm]; [|done|by intros; rewrite lookup_empty|].
  - apply Forall2_fmap, Forall_Forall2_diag. eapply list.Forall_impl; [exact Hk'|].
    intros key Hlen. exact (account_address_parse keccak256 key Hlen).
  - exists (mkJsonPolicyEngine m). exact (f_equal (fmap (M := option) mkJsonPolicyEngine) Hm).
Qed.

Lemma spawn_mockrpc_servers_chains chains pm0 pm c :
  spawn_mockrpc_servers chains pm0 = Ok pm → is_Some (pm !! c) ↔ is_Some (pm0 !! c) ∨ c ∈ chains.*1.
Proof.
  revert pm0; induction chains as [|[d [p|e]] chains IH]; intros pm0; cbn [spawn_mockrpc_servers]; [| |done].
  - intros [= ->]. rewrite elem_of_nil. tauto.
  - intros Hs. rewrite (IH _ Hs). cbn [fmap list_fmap fst]. rewrite elem_of_cons.
    unfold PortMap. rewrite lookup_insert_is_Some. destruct (decide (c = d)) as [->|Hne]; naive_solver.
Qed.

(** Where the ports of the map come from. *)
Lemma launched_node_ports chains pm0 pm c p :
  spawn_mockrpc_servers chains pm0 = Ok pm → pm !! c = Some p → pm0 !! c = Some p ∨ (c, Ok p) ∈ chains.
Proof.
  revert pm0; induction chains as [|[d [q|e]] chains IH]; intros pm0; cbn [spawn_mockrpc_servers]; [|  |done].
  - intros [= ->]. by left.
  - intros Hs Hc. destruct (IH _ Hs Hc) as [Hi|Hi]; [|right; by right].
    unfold PortMap in Hi. apply lookup_insert_Some in Hi as [[<- <-]|[_ Hi]]; [right; left|by left].
Qed.

(** The chains whose nodes are served. *)
Lemma ports_chains (bind : Z → result Z string) order pm addresses c :
  order ≡ₚ (map_to_list (RpcAppState_new harness_chains addresses)).*1 →
  spawn_mockrpc_servers ((λ c, (c, bind c)) <$> order) ∅ = Ok pm →
  c ∈ (map_to_list pm).*1 ↔ c ∈ harness_chains.
Proof.
  intros Hord Hs. pose proof (spawn_mockrpc_servers_chains _ _ _ c Hs) as Hc.
  rewrite <- list_fmap_compose in Hc.
  assert (Hm : ∀ {A} (m : gmap Z A), c ∈ (map_to_list m).*1 ↔ is_Some (m !! c)).
  { intros A m. rewrite list_elem_of_fmap. split.
    - intros ([c' s] & -> & Hin%elem_of_map_to_list). by eexists.
    - intros [s Hin]. exists (c, s). by split; [|apply elem_of_map_to_list]. }
  assert (Ho : c ∈ fst ∘ (λ c, (c, bind c)) <$> order ↔ c ∈ harness_chains).
  { rewrite list_elem_of_fmap. transitivity (c ∈ order).
    - split; [by intros (c' & -> & ?)|by exists c].
    - rewrite Hord, Hm. unfold RpcAppState_new, harness_chains. cbn [foldl].
      rewrite !lookup_insert_is_Some, lookup_empty, !elem_of_cons, elem_of_nil. unfold is_Some. naive_solver. }
  rewrite Hm. etrans; [exact Hc|]. rewrite Ho. split; [intros [[? ?]|?]; [done|done]|by right].
Qed.

(** The process lobby runs as: what it finds, with the variables of the harness
    over the inherited ones. *)
Record launched (m : Machine) (inh env : gmap string string) (h : Host (W := W) (P := P) (N := N) (SocketAddr := SocketAddr)) :
    Prop := {
  ln_bench : m_bench_env m = Some bench_env_text;
  ln_stack_order stack : m_stack_order m stack ≡ₚ map_to_list stack;
  ln_chain_order reg : m_chain_order m reg ≡ₚ (map_to_list reg).*1;
  ln_ports c p : m_bind m c = Ok p → is_port p;
  ln_inherits : inherits_quietly inh;
  ln_vars : h_vars h ≡ₚ map_to_list (env ∪ inh)
}.

(** What it reads of its environment. *)
Lemma launched_reads m inh env h api_stack :
  launched m inh env h → prepared_from draw m env api_stack →
  ∃ pg redis ports,
    env = harness_env (parse_env_file (Some bench_env_text)) pg redis ports api_stack ∧
    h_vars h ≡ₚ map_to_list (harness_env (base inh) pg redis ports api_stack) ∧
    (∀ c, c ∈ ports.*1 ↔ c ∈ harness_chains) ∧ ∀ c p, (c, p) ∈ ports → is_port p.
Proof.
  intros [Hbench Hso Hco Hport Hq Hvars] [_ (pg & redis & pm & addresses & _ & _ & _ & Hpm & Henv)].
  rewrite Hbench in Henv. exists (postgres_url pg), (redis_url_of redis), (map_to_list pm). split; [done|]. split.
  - rewrite Hvars, Henv, harness_env_union. done.
  - split; [intros c; by apply (ports_chains (m_bind m) _ pm addresses c (Hco _))|].
    intros c p Hcp%elem_of_map_to_list.
    destruct (launched_node_ports _ _ _ _ _ Hpm Hcp) as [Hi|Hi]; [by apply lookup_empty_Some in Hi|].
    apply list_elem_of_fmap in Hi as (c' & [= -> Hb] & _). by eapply Hport.
Qed.

(** The nodes of every chain of the load. *)
Lemma launched_client h env addr json inh pg redis ports order clock waits draws (net : N) :
  serves h env json addr → inherits_quietly inh →
  h_vars h ≡ₚ map_to_list (harness_env (base inh) pg redis ports order) →
  (∀ c, c ∈ ports.*1 ↔ c ∈ harness_chains) → (∀ c p, (c, p) ∈ ports → is_port p) →
  ∃ client, build_rpc_client lag (h_vars h) clock waits draws net = Ok client ∧
    ∀ c, c ∈ harness_chains → chain_served client (mkChainId c).
Proof.
  intros Hs Hq Hv Hp Hports.
  destruct (build_from_nodes lag (h_vars h) false (stack_new clock waits draws net)) as (client & Hb & Hc).
  - intros k v Hin. destruct (launched_rpc inh Hq pg redis ports order (h_vars h) Hv k v Hin)
      as [?|(c & p & Hcp & Hkv)]; [by left|right].
    exists c, p. split_and!; [done| | |by eapply (sv_url _ _ _ _ Hs), Hports];
      assert (Hc : c ∈ harness_chains) by (apply Hp, list_elem_of_fmap; by exists (c, p));
      unfold harness_chains in Hc; repeat (apply elem_of_cons in Hc as [->|Hc]; [vm_compute; congruence|]);
      by apply elem_of_nil in Hc.
  - right. destruct (launched_node inh Hq pg redis ports order (h_vars h) Hv 1) as [p Hin]; [|eauto].
    apply Hp. left.
  - exists client. split; [exact Hb|]. intros c Hin. apply Hc. right.
    by apply (launched_node inh Hq pg redis ports order (h_vars h) Hv c), Hp.
Qed.

(** The custody file loads, for the boot and for every signer. *)
Lemma launched_keys h env addr keys order inh pg redis ports api_stack :
  serves h env (write_test_keys_json order) addr → inherits_quietly inh →
  h_vars h ≡ₚ map_to_list (harness_env (base inh) pg redis ports api_stack) →
  Forall (λ key, length (keccak256 (drop 1 key.2)) = 32%nat) keys → NoDup (key_address keccak256 <$> keys) →
  order ≡ₚ map_to_list (test_keys_map keccak256 1 keys ∅) →
  is_Some (h_keys h) ∧ is_Some (export_custody_key_count (h_utils_dir h) (h_files h) (h_env h)).
Proof.
  intros Hs Hq Hv Hk Hnd Ho. destruct (sv_keys _ _ _ _ Hs) as (accounts & named & Hf & Hn & Ha).
  destruct (written_keys_load keys order accounts named Hk Hnd Ho Hn Ha) as [policy Hpol].
  assert (Hpath : ∀ dir, test_keys_path dir (h_env h) = "benchmark/test_keys.json").
  { intros dir. unfold test_keys_path, h_env.
    rewrite (launched_setting inh Hq pg redis ports api_stack (h_vars h) Hv "LOBBY_TEST_KEYS" "benchmark/test_keys.json");
      [done|left]. }
  unfold h_keys, SignEngine_new, export_custody_key_count. rewrite !Hpath, Hf. cbn [kf_try_exists].
  rewrite Hpol. split; by eexists.
Qed.

Lemma launched_cortex h env addr json client url :
  serves h env json addr → is_Some (h_keys h) → env !! "REDIS_URL" = Some url → h_env h "REDIS_URL" = Some url →
  ∃ orch, spawn_cortex (h_env h) (h_spawners h client) (h_endpoints h client) (h_redis h) (h_max_permits h)
            bench_config = Some (orch, 1000) ∧ cx_config orch = bench_config ∧ cx_rpc_client orch = h_endpoints h client.
Proof.
  intros Hs [keys Hk] Hu He.
  destruct (spawn_cortex _ _ _ _ _ _) as [[orch permits]|] eqn:Hsp.
  - destruct (spawn_cortex_Some _ _ _ _ _ _ _ _ Hsp) as (Hc & -> & _). apply spawn_cortex_client in Hsp. by exists orch.
  - exfalso. apply spawn_cortex_None in Hsp; [|by repeat constructor].
    pose proof (sv_permits _ _ _ _ Hs) as Hp.
    destruct Hsp as [Hz|[Hz|[(i & _ & Hz)|[Hz|Hz]]]].
    + repeat (apply elem_of_cons in Hz as [Hz|Hz]; [done|]). by apply elem_of_nil in Hz.
    + done.
    + cbn in Hz. by rewrite Hk in Hz.
    + cbn in Hz. lia.
    + unfold redis_url in Hz. rewrite He in Hz.
      destruct (sv_redis _ _ _ _ Hs url Hu) as [? Hr]. congruence.
Qed.

(** Everything the harness asks for while it prepares is answered. *)
Record machine_answers (m : Machine) : Prop := {
  ma_log : m_log_file m = true;
  ma_postgres : dk_start_postgres (m_docker m) = Ok tt;
  ma_redis : dk_start_redis (m_docker m) = Ok tt;
  ma_postgres_port : ∃ port, dk_postgres_port (m_docker m) = Ok port;
  ma_redis_port : ∃ port, dk_redis_port (m_docker m) = Ok port;
  ma_connect url : dk_connect (m_docker m) url = Ok tt;
  ma_migrator : dk_migrator (m_docker m) = Ok tt;
  ma_migrations : dk_migrations (m_docker m) = Ok tt;
  ma_write_keys : m_write_keys m = Ok tt;
  ma_bind c : ∃ port, m_bind m c = Ok port ∧ is_port port
}.

Lemma spawn_mockrpc_servers_Ok (bind : Z → result Z string) chains pm :
  (∀ c, ∃ port, bind c = Ok port) →
  ∃ pm', spawn_mockrpc_servers ((λ c, (c, bind c)) <$> chains) pm = Ok pm'.
Proof.
  intros Hb. revert pm; induction chains as [|c chains IH]; intros pm; [by eexists|].
  cbn [fmap list_fmap spawn_mockrpc_servers]. destruct (Hb c) as [port ->]. apply IH.
Qed.

Lemma prepare_answers m stack addresses :
  machine_answers m → build_apistack draw (m_read_keys m) = Ok stack →
  get_addresses (m_stack_order m stack) = Some addresses →
  ∃ env, prepare draw m [] = (Ok (env, m_stack_order m stack), take 6 (harness_sequence m env [])).
Proof.
  intros [Hlog Hpg Hre [pg Hpp] [re Hrp] Hcon Hmig Hmigs Hw Hbind] Hst Ha.
  destruct (spawn_mockrpc_servers_Ok (m_bind m) (m_chain_order m (RpcAppState_new harness_chains addresses)) ∅)
    as [pm Hpm]; [intros c; destruct (Hbind c) as (port & Hb & _); eauto|].
  eexists. unfold prepare, InfraStack_build, serve_nodes, start_containers, attempt, clift, cret, cbind_ok. cbv beta.
  rewrite Hlog, Hpg, Hre. cbn [map_err]. rewrite Hpp. cbn [map_err]. rewrite Hrp. cbn [map_err].
  rewrite Hcon. cbn [map_err]. rewrite Hmig. cbn [map_err]. rewrite Hmigs. cbn [map_err get_urls is_pg_url is_redis_url].
  rewrite Hw. cbn [map_err]. rewrite Hst. cbn [map_err]. rewrite Ha. cbn [result_of_option]. rewrite Hpm.
  reflexivity.
Qed.

(** What the server started with the environment does. *)
Lemma launched_boot m inh h env addr keys order api_stack :
  prepared_from draw m env api_stack → launched m inh env h →
  m_read_keys m = Ok (write_test_keys_json order) → serves h env (write_test_keys_json order) addr →
  Forall (λ key, length (keccak256 (drop 1 key.2)) = 32%nat) keys → NoDup (key_address keccak256 <$> keys) →
  order ≡ₚ map_to_list (test_keys_map keccak256 1 keys ∅) →
  ∃ ports pg redis client, h_vars h ≡ₚ map_to_list (harness_env (base inh) pg redis ports api_stack) ∧
    (∀ c, c ∈ harness_chains → chain_served client (mkChainId c)) ∧
    ∀ reg, load_api_key_from_env (h_vars h) = Ok reg →
    ∃ state, main lag h [] = (Ok (state, addr), boot_sequence) ∧ as_api_registry state = reg ∧
      cx_config (as_cortex_handler state).1 = bench_config ∧
      cx_rpc_client (as_cortex_handler state).1 = h_endpoints h client.
Proof.
  intros Hp Hl Hread Hs Hk Hnd Ho.
  destruct (launched_reads m inh env h api_stack Hl Hp) as (pg & redis & ports & Henv & Hv & Hports & Hrange).
  pose proof (ln_inherits _ _ _ _ Hl) as Hq.
  destruct (launched_client h env addr _ inh pg redis ports _ (h_clock h) (h_waits h) (h_draws h) (h_net h) Hs Hq Hv Hports Hrange)
    as (client & Hclient & Hserved).
  destruct (launched_keys h env addr keys order inh pg redis ports _ Hs Hq Hv Hk Hnd Ho) as [Hkeys [n Hcount]].
  assert (Hsvc : env !! "DATABASE_URL" = Some pg ∧ env !! "REDIS_URL" = Some redis).
  { rewrite Henv, !harness_env_plain by done. split; [rewrite lookup_insert_ne by done|]; apply lookup_insert_eq. }
  destruct Hsvc as [Hpg Hredis].
  destruct (launched_cortex h env addr _ client redis Hs Hkeys Hredis) as (orch & Hcortex & Hcfg & Hcl).
  { exact (launched_redis inh pg redis ports _ (h_vars h) Hv). }
  exists ports, pg, redis, client. split; [done|]. split; [done|]. intros reg Hload.
  exists (mkAppState reg (orch, 1000) (cx_status_registry orch)). split_and!; [|done..].
  unfold main, effect, expect, load_artifacts, server_addr, expect, clift, cret, cbind_ok. cbv beta.
  rewrite (sv_log _ _ _ _ Hs).
  rewrite (launched_database inh pg redis ports _ (h_vars h) Hv : h_env h "DATABASE_URL" = Some pg).
  rewrite (launched_setting inh Hq pg redis ports _ (h_vars h) Hv "SERVER_ADDR" "0.0.0.0:3000" ltac:(right; left)
    : h_env h "SERVER_ADDR" = Some "0.0.0.0:3000").
  rewrite (sv_address _ _ _ _ Hs). cbn [result_of_option].
  rewrite (sv_connect _ _ _ _ Hs pg Hpg). cbn [map_err]. rewrite (sv_migrate _ _ _ _ Hs). cbn [map_err].
  rewrite Hload. cbn [map_err]. rewrite Hcount. cbn [result_of_option]. rewrite Hclient. cbn [map_err].
  destruct (get_endpoint_hashmap_ok client) as [endpoints ->]. cbn [map_err].
  rewrite (launched_config inh Hq pg redis ports _ (h_vars h) Hv : from_env (h_env h) = Ok bench_config).
  cbn [map_err fst snd]. rewrite Hcortex. cbn [result_of_option map_err]. rewrite (sv_bind _ _ _ _ Hs). reflexivity.
Qed.

(** C15: the harness launches a lobby that serves its load.  On a machine that
    answers, the harness prepares - containers, keys, mock nodes, environment -
    and the server started with that environment, if its own machine answers it,
    boots: it completes the boot sequence with the configuration of bench.env, an
    endpoint on every chain of the load and the keys of the generated file, and
    serves at the address of bench.env; and every payload the harness will send
    is one it authenticates as the account of its key, normalizes to the
    intended transaction and passes through the lint. *)
Theorem harness_launches_lobby m keys order :
  machine_answers m → m_bench_env m = Some bench_env_text →
  (∀ stack, m_stack_order m stack ≡ₚ map_to_list stack) → (∀ reg, m_chain_order m reg ≡ₚ (map_to_list reg).*1) →
  m_read_keys m = Ok (write_test_keys_json order) → order ≡ₚ map_to_list (test_keys_map keccak256 1 keys ∅) →
  Forall (λ key, length (keccak256 (drop 1 key.2)) = 32%nat) keys → NoDup (key_address keccak256 <$> keys) →
  keys ≠ [] → Z.of_nat (length keys) ≤ u64_max →
  (∀ i j, (i < length keys)%nat → (j < length keys)%nat →
     api_token (draw i).2 = api_token (draw j).2 → i = j) →
  ∃ env api_stack payloads,
    prepare draw m [] = (Ok (env, api_stack), take 6 (harness_sequence m env [])) ∧
    build_payloads api_stack harness_chains = Some payloads ∧ length payloads = length keys ∧
    ∀ inh h addr, inherits_quietly inh → h_vars h ≡ₚ map_to_list (env ∪ inh) →
      serves h env (write_test_keys_json order) addr →
      ∃ state client, main lag h [] = (Ok (state, addr), boot_sequence) ∧
        cx_config (as_cortex_handler state).1 = bench_config ∧
        cx_rpc_client (as_cortex_handler state).1 = h_endpoints h client ∧
        (∀ c, c ∈ harness_chains → chain_served client (mkChainId c)) ∧
        Forall (payload_accepted keccak256 keys harness_chains (as_api_registry state)) payloads.
Proof.
  intros Hm Hbench Hso Hco Hread Ho Hk Hnd Hne Hlen Htok.
  destruct (stack_of_written keccak256 draw keys order Hlen Ho) as (stack & l & Hst & Hl & Hof).
  destruct (Hof _ (Hso stack)) as (Hstk & _ & _).
  destruct (stack_addresses keccak256 draw keys l _ Hk Hl Hstk) as [addresses Ha].
  destruct (prepare_answers m stack addresses Hm ltac:(by rewrite Hread) Ha) as [env Hprep].
  pose proof (prepare_spec draw m) as Hp. rewrite Hprep in Hp. destruct Hp as (_ & Hp & _).
  assert (Hacc : ∀ b pg redis ports, no_keys b → ∃ payloads,
    build_payloads (m_stack_order m stack) harness_chains = Some payloads ∧ length payloads = length keys ∧
    ∀ vars, vars ≡ₚ map_to_list (harness_env b pg redis ports (m_stack_order m stack)) →
    ∃ reg, load_api_key_from_env vars = Ok reg ∧ Forall (payload_accepted keccak256 keys harness_chains reg) payloads).
  { intros b pg redis ports Hb.
    destruct (harness_accepted keccak256 draw keys order harness_chains b pg redis ports) as (stack' & Hst' & Hacc); try done.
    - by repeat (constructor; [apply (bool_decide_unpack _); vm_compute; exact I|]).
    - rewrite Hst in Hst'. injection Hst' as <-. by apply Hacc. }
  destruct (Hacc ∅ "" "" []) as (payloads & Hpay & Hplen & _); [intros k _; apply lookup_empty|].
  exists env, (m_stack_order m stack), payloads. split_and!; [done..|].
  intros inh h addr Hq Hv Hs.
  destruct (launched_boot m inh h env addr keys order _ Hp) as (ports & pg & redis & client & Hvars & Hserved & Hboot);
    try done.
  { split; try done. intros c p Hb. destruct (ma_bind _ Hm c) as (p' & Hb' & Hr). congruence. }
  destruct (Hacc (base inh) pg redis ports (base_no_keys inh Hq)) as (payloads' & Hpay' & _ & Hreg).
  rewrite Hpay in Hpay'. injection Hpay' as <-. destruct (Hreg _ Hvars) as (reg & Hload & Hok).
  destruct (Hboot reg Hload) as (state & Hmain & <- & Hcfg & Hcl).
  by exists state, client.
Qed.
End launch.

(** ** A launch to look at *)

Definition toy_order : list (string * EvmKeyExport) := map_to_list (test_keys_map toy_keccak 1 toy_keys ∅).

(** Everything answers; the node of a chain gets a port of its own. *)
Definition toy_machine : Machine :=
  mkMachine true (mkDocker (Ok tt) (Ok tt) false (Ok 49153) (Ok 49154) (λ _, Ok tt) (Ok tt) (Ok tt))
    (Ok tt) (Ok (write_test_keys_json toy_order)) map_to_list (λ reg, (map_to_list reg).*1)
    (λ c, Ok (40000 + c mod 1000)) (Some bench_env_text) true (λ i, ((3 <=? i)%nat, 1000)) (Ok tt) (Ok tt) (Ok tt) (Ok tt) [].

Definition toy_inherited : gmap string string := {["PATH" := "/usr/bin"]}.

Definition toy_keys_file : KeysFile :=
  mkKeysFile (Ok true) (Some (policy_account <$> toy_order.*2)).

(** A machine for lobby, with the variables of an environment. *)
Definition launched_host (env : gmap string string) : Host (W := ToyWorld) (P := string) (N := unit) (SocketAddr := string) :=
  mkHost true (map_to_list (env ∪ toy_inherited)) (λ _, toy_keys_file) "utils" "actors" (λ _, Ok tt) (Ok tt)
    (λ _, Some toy_store) Some (λ _, Ok tt)
    (λ _, toy_relay) (λ _, toy_nonce) (λ _ _, toy_signer) (λ _ _, toy_broadcaster)
    (λ _ _, toy_validator NotIncluded) (λ _, toy_endpoints) 1000 0 [] [] tt.

Lemma launched_host_serves env : serves (launched_host env) env (write_test_keys_json toy_order) "0.0.0.0:3000".
Proof.
  split; try done.
  - by eexists.
  - exists (policy_account <$> toy_order.*2), ((λ '(name, k), (name, policy_account k)) <$> toy_order).
    split; [reflexivity|]. split; [apply accounts_of_written|].
    rewrite <- !list_fmap_compose. apply reflexive_eq, list_fmap_ext. by intros _ [name k] _.
Qed.

Lemma toy_answers `{NodeCodec} : machine_answers toy_machine.
Proof.
  split; try done; try by eexists. intros c. eexists. split; [reflexivity|].
  unfold is_port. pose proof (Z.mod_pos_bound c 1000 ltac:(lia)). lia.
Qed.

Lemma toy_inherits : inherits_quietly toy_inherited.
Proof.
  intros k v Hk. unfold toy_inherited in Hk. apply lookup_singleton_Some in Hk as [<- _]. done.
Qed.

#[local] Existing Instance toy_codec.

Lemma harness_launches_lobby_witness :
  ∃ env api_stack payloads,
    prepare toy_draw toy_machine [] = (Ok (env, api_stack), take 6 (harness_sequence toy_machine env [])) ∧
    length payloads = 2%nat ∧
    ∃ state client, main 0 (launched_host env) [] = (Ok (state, "0.0.0.0:3000"), boot_sequence) ∧
      cx_rpc_client (as_cortex_handler state).1 = h_endpoints (launched_host env) client ∧
      Forall (payload_accepted toy_keccak toy_keys harness_chains (as_api_registry state)) payloads.
Proof.
  destruct (harness_launches_lobby (W := ToyWorld) (P := string) (N := unit) (SocketAddr := string) 0 toy_keccak toy_draw
    toy_machine toy_keys toy_order) as (env & api_stack & payloads & Hprep & _ & Hlen & Hboot).
  - exact toy_answers.
  - reflexivity.
  - intros stack. reflexivity.
  - intros reg. reflexivity.
  - reflexivity.
  - reflexivity.
  - repeat constructor.
  - apply (bool_decide_unpack _). vm_compute. exact I.
  - discriminate.
  - vm_compute. congruence.
  - intros [|[|i]] [|[|j]] Hi Hj; cbn [length toy_keys] in *; try lia; intros Ht;
      first [reflexivity|vm_compute in Ht; discriminate].
  - exists env, api_stack, payloads. split; [exact Hprep|]. split; [exact Hlen|].
    destruct (Hboot toy_inherited (launched_host env) "0.0.0.0:3000" toy_inherits (reflexivity _) (launched_host_serves env))
      as (state & client & Hmain & _ & Hcl & _ & Hall).
    exists state, client. split; [exact Hmain|]. split; [exact Hcl|exact Hall].
Defined.
