(* ===== verification/Conformance.v ===== *)
(** * The repository's own tests

    The unit tests of src/crate/cortex/src/artifacts/retry.rs,
    src/benchmark/src/mockrpc/router.rs and src/benchmark/src/loadgen/keys.rs
    as functions of what the machine answers them: random numbers, ports, the
    files of the working directory.  A test is [true] when it ends with every
    assertion satisfied. *)

From S2P Require Import Prelude Types Retry Rlp Eip1559 Status Server MockNode Loadgen Text.

(** ** retry.rs *)

(** Source: [crate/cortex/src/artifacts/retry.rs] lines 184-194, [TestError]. *)
Inductive TestError := Failuire | First.

Section retry_tests.
Context {S : Type} `{Runtime S}.

(** The test's counter beside the runtime. *)
#[local] Instance counted_runtime : Runtime (Z * S) := {|
  rt_gen_range b := on_snd (rt_gen_range b);
  rt_sleep d w := (w.1, rt_sleep d w.2)
|}.

(** [let n = c.fetch_add(1); answer(n)]. *)
Definition counted {T} (answer : Z → result T (RetryDecision TestError)) :
    Comp (Z * S) (result T (RetryDecision TestError)) :=
  λ w, (answer w.1, (wrap_u32 (w.1 + 1), w.2)).

(** The result of the retried closure and the number of its calls; [None] is a
    panic. *)
Definition run_counted {T} (cfg : RetryConfig) (answer : Z → result T (RetryDecision TestError)) (s : S) :
    option (result T TestError) * Z :=
  let '(r, w) := retry_with_backoff cfg (counted answer) (0, s) in (r, w.1).

Definition test_cfg : RetryConfig := mkRetryConfig 2 (from_millis 1) (from_millis 5).

(** Source: [crate/cortex/src/artifacts/retry.rs] lines 196-219, [retries_correct_number_of_times]. *)
Definition retries_correct_number_of_times (s : S) : bool :=
  let '(result, calls) := run_counted (T := unit) test_cfg (λ _, Err (Retry Failuire)) s in
  match result with Some (Err _) => calls =? 3 | _ => false end.

(** Source: [crate/cortex/src/artifacts/retry.rs] lines 221-248, [succeeds_on_second_attempt]. *)
Definition succeeds_on_second_attempt (s : S) : bool :=
  let '(result, calls) := run_counted test_cfg (λ n, if n =? 0 then Err (Retry First) else Ok 42) s in
  match result with Some (Ok v) => (v =? 42) && (calls =? 2) | _ => false end.

(** Source: [crate/cortex/src/artifacts/retry.rs] lines 250-268, [fail_immediately]. *)
Definition fail_immediately (s : S) : bool :=
  let '(result, calls) := run_counted (T := unit) RetryConfig_default (λ _, Err (FailImmediately Failuire)) s in
  match result with Some (Err _) => calls =? 1 | _ => false end.

(** The tests pass whatever the random generator draws. *)
Lemma retry_tests_pass (s : S) :
  retries_correct_number_of_times s = true ∧ succeeds_on_second_attempt s = true ∧ fail_immediately s = true.
Proof.
  assert (Hd : ∀ attempt w, (jittered_delay (base_delay test_cfg) (max_delay test_cfg) attempt w).2.1 = w.1).
  { intros attempt [n s0]. unfold jittered_delay, cbind, cret, rt_gen_range, counted_runtime, on_snd.
    destruct (0 <? _); cbn; [|done]. by destruct (rt_gen_range _ s0). }
  unfold retries_correct_number_of_times, succeeds_on_second_attempt, fail_immediately, run_counted,
    retry_with_backoff.
  change (Z.to_nat (wrap_u32 (max_attempts test_cfg + 1))) with 3%nat.
  change (wrap_u32 (max_attempts test_cfg + 1)) with 3.
  change (Z.to_nat (wrap_u32 (max_attempts RetryConfig_default + 1))) with 3%nat.
  split_and!; cbn [retry_from]; unfold cbind, counted, cret; cbn -[jittered_delay wrap_u32 test_cfg].
  - pose proof (Hd 1 (wrap_u32 1, s)) as H1. destruct (jittered_delay _ _ 1 _) as [d1 [n1 s1]]. cbn in H1. subst n1.
    cbn -[jittered_delay wrap_u32 test_cfg].
    change (1 + 1) with 2. change (2 =? 3) with false. cbn -[jittered_delay wrap_u32 test_cfg Z.add].
    match goal with |- context [jittered_delay _ _ 2 ?w] => pose proof (Hd 2 w) as H2 end.
    destruct (jittered_delay _ _ 2 _) as [d2 [n2 s2]]. cbn -[wrap_u32] in H2. subst n2. done.
  - pose proof (Hd 1 (wrap_u32 1, s)) as H1. destruct (jittered_delay _ _ 1 _) as [d1 [n1 s1]]. cbn in H1. subst n1.
    done.
  - done.
Qed.
End retry_tests.

(** ** mockrpc/router.rs *)

(** What the test's client and signer make of texts: the JSON of an answer's
    result and what [serde_json] reads back for a result that is not null, and
    the text of the transaction with nonce 0 that its wallet signed. *)
Class TestClient := {
  json_of_result : RpcResult → Json;
  result_of_json : Json → option RpcResult;
  signed_transaction : Json
}.
(** Hashes are read back, null is written for an absent receipt, an unknown
    result is an error; the texts of the test decode as what they denote. *)
Class TestClientLaws `{NodeCodec, TestClient} (sender : Address) : Prop := {
  result_null : json_of_result (RReceiptNotFound JNull) = JNull;
  result_hash h : json_of_result (RTxHash h) ≠ JNull ∧ result_of_json (json_of_result (RTxHash h)) = Some (RTxHash h);
  hash_text_law : is_Some (hash_of_json (JStr "0x0000000000000000000000000000000000000000000000000000000000000000"));
  signed_law : ∃ bytes hash, bytes_of_json signed_transaction = Some bytes ∧
    decode_2718 bytes = Some (mkEnvelope 0 (Some sender) hash)
}.

Section router_test.
Context `{NodeCodec, TestClient}.

(** The servers that listen, by port. *)
Abbreviation Servers := (gmap Z ChainState).

(** Source: [benchmark/src/mockrpc/router.rs] lines 390-402, [setup_servers].
    [binds] are the ports the machine gave the chains, in the registry's order;
    [None] is a failed [unwrap]. *)
Definition setup_servers (binds : list (Z * result Z string)) : option (PortMap * Servers) :=
  let state := RpcAppState_new [1; 137; 560048] [repeat Byte.x00 20] in
  match spawn_mockrpc_servers binds ∅ with
  | Ok port_map =>
      Some (port_map, foldl (λ m '(chain, bind),
        match bind, state !! chain with Ok port, Some s => <[port := s]> m | _, _ => m end) ∅ binds)
  | Err _ => None
  end.

(** [client.post(url).json(&req).send().await.unwrap().json().await.unwrap()]:
    the answer as the client reads it. *)
Definition post_json (port : Z) (weak : list bool) (req : RpcRequest) (servers : Servers) :
    option (RpcResponse * Servers) :=
  s ← servers !! port;
  '(res, s') ← handle_jsonrpc weak req s;
  read ← match json_of_result <$> rs_result res with
         | None | Some JNull => Some None
         | Some v => Some <$> result_of_json v
         end;
  Some (mkRpcResponse (rs_jsonrpc res) read (rs_error res) (rs_id res), <[port := s']> servers).

(** The requests of the test. *)
Definition invalid_method_req : RpcRequest :=
  mkRpcRequest "2.0" "eth_invalidMethod" (Some (JArr [])) (Some (JNum 1)).
Definition unknown_receipt_req : RpcRequest :=
  mkRpcRequest "2.0" "eth_getTransactionReceipt"
    (Some (JArr [JStr "0x0000000000000000000000000000000000000000000000000000000000000000"])) (Some (JNum 2)).
Definition send_req : RpcRequest :=
  mkRpcRequest "2.0" "eth_sendRawTransaction" (Some (JArr [signed_transaction])) (Some (JNum 3)).

(** The invalid method at every chain: whether its assertion holds. *)
Fixpoint invalid_methods (chains : list Z) (port_map : PortMap) (servers : Servers) : option (bool * Servers) :=
  match chains with
  | [] => Some (true, servers)
  | chain_id :: chains =>
      port ← port_map !! chain_id;
      '(res, servers) ← post_json port [] invalid_method_req servers;
      error ← rs_error res;
      '(rest, servers) ← invalid_methods chains port_map servers;
      Some ((re_code error =? -32601) && rest, servers)
  end.

(** Source: [benchmark/src/mockrpc/router.rs] lines 404-520, [test_mockrpc_servers_lifecycle_and_routing].
    [weak] says which exchanges of the nonce's cell fail spuriously. *)
Definition test_mockrpc_servers_lifecycle_and_routing (binds : list (Z * result Z string)) (weak : list bool) :
    option bool :=
  '(port_map, servers) ← setup_servers binds;
  '(routed, servers) ← invalid_methods [1; 137; 560048] port_map servers;
  port ← port_map !! 1;
  '(res, servers) ← post_json port [] unknown_receipt_req servers;
  let unknown := bool_decide (rs_error res = None) && match rs_result res with None => true | Some _ => false end in
  '(res, _) ← post_json port weak send_req servers;
  let sent := bool_decide (rs_error res = None) && match rs_result res with Some (RTxHash _) => true | _ => false end in
  Some (routed && unknown && sent).

Definition fresh_chain : ChainState := ChainState_new [repeat Byte.x00 20].

(** Every chain of the test is served at its port, freshly. *)
Definition all_serving (port_map : PortMap) (servers : Servers) : Prop :=
  ∀ c, c ∈ [1; 137; 560048] → ∃ port, port_map !! c = Some port ∧ servers !! port = Some fresh_chain.

Definition bound (ports : list (Z * Z)) : list (Z * result Z string) := (λ x, (x.1, Ok x.2)) <$> ports.

Lemma spawned_bound ports m : spawn_mockrpc_servers (bound ports) m = Ok (foldl (λ m x, <[x.1 := x.2]> m) m ports).
Proof. revert m; induction ports as [|[c p] ports IH]; intros m; [done|apply IH]. Qed.

Lemma setup_servers_ok ports :
  NoDup ports.*2 → ports.*1 ≡ₚ [1; 137; 560048] →
  ∃ port_map servers, setup_servers (bound ports) = Some (port_map, servers) ∧ all_serving port_map servers.
Proof.
  intros Hp Hc. unfold setup_servers. destruct (spawn_mockrpc_servers (bound ports) ∅) as [pm|e] eqn:Hpm;
    [|by rewrite spawned_bound in Hpm].
  eexists _, _. split; [done|]. intros c Hin.
  assert (Hs : RpcAppState_new [1; 137; 560048] [repeat Byte.x00 20] !! c = Some fresh_chain).
  { repeat (apply elem_of_cons in Hin as [->|Hin]; [reflexivity|]). by apply elem_of_nil in Hin. }
  rewrite <- Hc in Hin. apply list_elem_of_fmap in Hin as ([c' p] & -> & Hin). cbn [fst] in *. exists p. split.
  - apply (spawn_mockrpc_servers_ports (bound ports) pm); [|done|].
    + unfold bound. rewrite <- list_fmap_compose. change (NoDup ports.*1). rewrite Hc.
      apply (bool_decide_unpack _). reflexivity.
    + apply list_elem_of_fmap. by exists (c', p).
  - idtac. revert Hs. generalize (RpcAppState_new [1; 137; 560048] [repeat Byte.x00 20]). intros state Hs. clear Hc Hpm pm.
    assert (Hkeep : ∀ l (m : Servers), p ∉ l.*2 → foldl (λ m '(chain, bind),
      match bind, state !! chain with Ok port, Some s => <[port := s]> m | _, _ => m end) m (bound l) !! p = m !! p).
    { induction l as [|[d q] l IH]; intros m Hn; [done|]. cbn in *. apply not_elem_of_cons in Hn as [Hq Hn].
      etrans; [by apply IH|]. destruct (state !! d); [|done]. by apply lookup_insert_ne. }
    generalize (∅ : Servers). induction ports as [|[d q] ports IH]; intros m; [by apply elem_of_nil in Hin|].
    cbn in Hp. apply list.NoDup_cons in Hp as [Hq Hp]. cbn [bound fmap list_fmap foldl fst snd].
    apply elem_of_cons in Hin as [[= <- <-]|Hin]; [|by apply IH].
    rewrite Hs. etrans; [by apply Hkeep|]. apply lookup_insert_eq.
Qed.

Lemma invalid_methods_ok port_map servers chains :
  all_serving port_map servers → chains ⊆ [1; 137; 560048] →
  invalid_methods chains port_map servers = Some (true, servers).
Proof.
  intros Ha. induction chains as [|c chains IH]; intros Hc; [done|]. cbn [invalid_methods].
  destruct (Ha c (Hc c ltac:(left))) as (port & -> & Hs). cbn [mbind option_bind]. unfold post_json. rewrite Hs.
  cbn [mbind option_bind]. change (handle_jsonrpc [] invalid_method_req fresh_chain)
    with (Some (method_not_found (Some (JNum 1)), fresh_chain)). cbn -[insert].
  rewrite insert_id by done. rewrite IH; [done|]. intros c' Hc'. apply Hc. by right.
Qed.

(** The test passes at whatever distinct ports the machine gives, and however
    the exchanges fail. *)
Lemma router_test_passes sender ports weak :
  TestClientLaws sender → NoDup ports.*2 → ports.*1 ≡ₚ [1; 137; 560048] →
  test_mockrpc_servers_lifecycle_and_routing (bound ports) weak = Some true.
Proof.
  intros Hlaws Hp Hc. unfold test_mockrpc_servers_lifecycle_and_routing.
  destruct (setup_servers_ok ports Hp Hc) as (pm & servers & -> & Ha). cbn [mbind option_bind].
  rewrite (invalid_methods_ok pm servers) by done. cbn [mbind option_bind].
  destruct (Ha 1 ltac:(left)) as (port & -> & Hs). cbn [mbind option_bind]. unfold post_json. rewrite Hs.
  cbn [mbind option_bind]. destruct (hash_text_law (sender := sender)) as [h Hh].
  change (handle_jsonrpc [] unknown_receipt_req fresh_chain)
    with (Some (handle_get_transaction_receipt (rq_params unknown_receipt_req) (Some (JNum 2)) fresh_chain, fresh_chain)).
  unfold handle_get_transaction_receipt. cbn [rq_params unknown_receipt_req default from_option id vec_of_json mapM].
  rewrite Hh. cbn [mbind option_bind mret option_ret].
  change (fetch_receipt h fresh_chain) with (raw_json <$> (∅ : gmap TxHash StaticReceipt) !! h). rewrite lookup_empty.
  cbn -[insert fresh_chain json_of_result]. rewrite result_null. cbn -[insert fresh_chain].
  rewrite insert_id by done. rewrite Hs. cbn -[insert fresh_chain].
  change (handle_jsonrpc weak send_req fresh_chain)
    with (handle_send_raw_transaction weak (rq_params send_req) (Some (JNum 3)) fresh_chain).
  destruct (signed_law (sender := sender)) as (bytes & hash & Hb & Hd).
  unfold handle_send_raw_transaction. cbn [rq_params send_req default from_option id vec_of_json mapM].
  rewrite Hb. cbn [mbind option_bind mret option_ret]. rewrite Hd. cbn [env_signer env_nonce env_hash].
  rewrite update_nonce_outcome. cbn [mbind option_bind].
  destruct (result_hash (sender := sender) hash) as [Hn Hr].
  assert (He : nonce_entry sender fresh_chain = 0).
  { unfold nonce_entry. change (nonce_collection fresh_chain) with (<[repeat Byte.x00 20 := 0]> (∅ : gmap Address Z)).
    destruct (decide (sender = repeat Byte.x00 20)) as [->|Hne]; [by rewrite lookup_insert_eq|].
    by rewrite lookup_insert_ne, lookup_empty. }
  rewrite He. change (0 <? 0) with false. cbn -[insert fresh_chain json_of_result].
  destruct (json_of_result (RTxHash hash)) eqn:Hj; [done|..]; cbn -[insert fresh_chain]; by rewrite Hr.
Qed.
End router_test.

(** A client of the node of [MockNode.v]. *)
#[local] Existing Instance toy_codec.
#[local] Instance toy_client : TestClient := {|
  json_of_result r := match r with
                      | RTxHash h => JArr ((λ b, JNum (byte_val b)) <$> h)
                      | RReceiptFound raw => JStr raw
                      | RReceiptNotFound v => v
                      | RBlockNumber n | RPendingNonce n => JNum n
                      end;
  result_of_json v := match v with
                      | JArr l => RTxHash <$> mapM (λ x, match x with JNum n => Some (byte_of_Z n) | _ => None end) l
                      | _ => Some (RReceiptNotFound v)
                      end;
  signed_transaction := JStr "a"
|}.

Lemma toy_client_laws : TestClientLaws [].
Proof.
  split; [done| |by eexists|by eexists _, _].
  intros h. split; [done|]. cbn. enough (mapM (λ x, match x with JNum n => Some (byte_of_Z n) | _ => None end)
    ((λ b, JNum (byte_val b)) <$> h) = Some h) as -> by done.
  apply mapM_Some, Forall2_fmap_l, Forall_Forall2_diag, list.Forall_forall. intros b _. cbn. by rewrite byte_of_val.
Qed.

Example router_test_run :
  test_mockrpc_servers_lifecycle_and_routing (bound [(137, 4001); (1, 4000); (560048, 4002)]) [true] = Some true.
Proof. apply (router_test_passes []); [apply toy_client_laws|by apply (bool_decide_unpack _)|apply (bool_decide_unpack _); vm_compute; exact I]. Qed.

(** ** loadgen/keys.rs *)

Section keys_test.
Context `{StatusText, AddressOps, HarnessText} (keccak256 : Bytes → Bytes).

(** The JSON files below the working directory, and which paths can be
    written. *)
Record Files := mkFiles { fl_json : gmap string Json; fl_writable : string → bool }.

Definition fs_write (path : string) (v : Json) (fs : Files) : result unit string * Files :=
  if fl_writable fs path then (Ok tt, mkFiles (<[path := v]> (fl_json fs)) (fl_writable fs))
  else (Err "No such file or directory (os error 2)", fs).
Definition fs_read (path : string) (fs : Files) : result Json string :=
  result_of_option (fl_json fs !! path) "No such file or directory (os error 2)".

(** Source: [benchmark/src/loadgen/keys.rs] lines 173-189, [unit_test_keys_gen].
    [keys] are the two random keys, [order] the map's order, [draw] the uuids,
    [stack_json] the second file's text. *)
Definition unit_test_keys_gen (order : list (string * EvmKeyExport)) (draw : nat → Z * Z)
    (stack_json : gmap Z string → Json) (fs : Files) : bool :=
  let '(generate_keys, fs) := fs_write "benchmark/test_keys.json" (write_test_keys_json order) fs in
  is_ok generate_keys &&
  match build_apistack draw (fs_read "test_keys.json" fs) with
  | Ok api_stack => is_ok (fs_write "test_api_keys.json" (stack_json api_stack) fs).1
  | Err _ => false
  end.

(** The test never reads the keys it generated: it passes exactly when both
    files can be written and an earlier [test_keys.json] describes accounts. *)
Lemma unit_test_keys_gen_spec order draw stack_json fs :
  unit_test_keys_gen order draw stack_json fs =
    fl_writable fs "benchmark/test_keys.json" && fl_writable fs "test_api_keys.json" &&
    is_ok (build_apistack draw (fs_read "test_keys.json" fs)).
Proof.
  unfold unit_test_keys_gen, fs_write. destruct (fl_writable fs "benchmark/test_keys.json"); [|done].
  cbn [is_ok andb fl_writable].
  replace (fs_read "test_keys.json" _) with (fs_read "test_keys.json" fs)
    by (unfold fs_read; cbn [fl_json]; by rewrite lookup_insert_ne).
  destruct (build_apistack _ _); cbn [is_ok]; [|by rewrite andb_false_r].
  rewrite andb_true_r. by destruct (fl_writable fs "test_api_keys.json").
Qed.
End keys_test.
